(* ===== verification/_CoqProject ===== *)
-Q . S2P
Prelude.v
Database.v
HandleMap.v
Sync15Types.v
KeyBundle.v
Bso.v
PostQueue.v
State.v
CollState.v
Changeset.v
Viaduct.v
Token.v
Client.v
Sync.v
MigrateState.v
Login.v
LoginsDb.v
LoginsSpec.v
LoginsSync.v
PlacesTypes.v
PlacesDb.v
Bookmarks.v
BookmarksSpec.v
BookmarksOps.v
BookmarkTree.v
BookmarkTreeSpec.v
PublicNode.v
Frecency.v
History.v
HistorySpec.v
HistoryOps.v
HistoryQueries.v
HistorySync.v
HistorySyncSpec.v
Tags.v
PushCrypto.v
PushDb.v
Push.v
PushSpec.v
Ffi.v
ConcurrentMap.v
FxaConfig.v
FxaClient.v
FxaAccount.v
LoginSm.v
FxaSpec.v
Matcher.v
