(* ===== verification/Prelude.v ===== *)
(** * Firefox application-services: a verification library

    Mozilla's application-services repository holds the Rust components that Firefox
    applications share.  This library models its Sync client ([components/sync15]) with the
    HTTP types it is built on ([components/viaduct]), the handle maps through which all
    components hand objects to other languages ([components/support/ffi]), the storage and
    sync of logins ([components/logins]), the bookmarks, tags and history of
    [components/places] with the sync of the history, the push subscriptions of
    [components/push], and the accounts of [components/fxa-client].

    ** How the parts fit together

    An application calls [sync_multiple] with its stores.  The storage client
    ([Sync15StorageClient]) gets a token from the token server through the token provider,
    signs each request with it, and sends it through viaduct.  The setup state machine brings
    the global state (server configuration, collection timestamps, [meta/global],
    [crypto/keys]) up to date, wiping the server and uploading fresh records if it must.  Then
    each store is synchronised: its collection state machine compares the sync ids and resets
    the store if they differ; the incoming records are fetched and decrypted; the store
    applies them and returns its own changes; these are encrypted and uploaded in batches by
    the post queue; and the store is told which of its records the server accepted.

    Logins and places keep their data in SQLite.  A login is a row of an overlay of local
    changes or of the mirror of the server; a sync reconciles the incoming records with both.
    Bookmarks are rows of one table that form a tree by parent and position, beside the pages
    they refer to; triggers count the references, keep tombstones and stage changes of the
    origins.  Visits are rows that refer to pages; triggers keep the number and the last dates of
    the visits in the row of the page, and what is deleted leaves tombstones.  A sync of the
    history plans what to do with each incoming record, applies the plans, commits in between,
    and uploads tombstones and changed pages.

    The keys and tokens of a sync come from a Firefox account.  An account begins an OAuth flow
    with a random verifier, and completes it by exchanging the code that the browser brings back;
    it then has a refresh token and scoped keys, and asks for access tokens.  With its refresh
    token it registers its device, and sends tabs to others, encrypted to the keys that they
    publish under the sync key.  Built with sessions, it moves between login states until
    it has a certificate.  Push subscriptions are registered with a server that gives out
    endpoints; their keys and endpoints are in a table, and messages are decrypted with them.

    All of these are handed to other languages as handles in maps that threads share; each call
    over the FFI locks the map and the object, catches panics, and reports an error code.

    ** Files

    - [Prelude.v] (this file): outcomes [res] (a value, an error or a panic), the state monad
      [ST], fixed-width arithmetic, tactics, the hint database [appsvc], list lemmas.
    - [HandleMap.v]: [support/ffi/src/handle_map.rs], the generational map [HandleMap] with
      its free list, and [Handle] with its 64-bit encoding.  The abstract specification is a
      finite map from live handles to values.
    - [Sync15Types.v]: the data of [sync15/src/util.rs], [error.rs], [record_types.rs],
      [request.rs] and the response type of [client.rs].  A [ServerTimestamp] is an IEEE
      double of [SpecFloat].
    - [KeyBundle.v]: [sync15/src/key_bundle.rs] with [support/rc_crypto/src/hmac.rs].
    - [Bso.v]: [sync15/src/bso_record.rs] and [collection_keys.rs].
    - [PostQueue.v]: the upload queue of [sync15/src/request.rs].
    - [State.v]: the setup state machine of [sync15/src/state.rs], with [err_if_interrupted]
      of [support/interrupt].
    - [CollState.v]: [sync15/src/coll_state.rs] and the trait [Store] of [sync.rs].
    - [Changeset.v]: [sync15/src/changeset.rs].
    - [Viaduct.v]: [viaduct/src/headers.rs], [headers/name.rs], and the requests and responses
      of [viaduct/src/lib.rs].
    - [Token.v]: [sync15/src/token.rs].
    - [Client.v]: [sync15/src/client.rs] and the URLs of [request.rs].
    - [Sync.v]: [sync15/src/sync.rs] and [sync_multiple.rs].
    - [MigrateState.v]: [sync15/src/migrate_state.rs].
    - [Database.v]: databases in the monad [ST], transactions ([support/sql/src/conn_ext.rs])
      and the rules for postconditions that the proofs about databases share.
    - [Login.v]: [logins/src/login.rs] and the merge of [update_plan.rs].
    - [LoginsDb.v]: [logins/src/db.rs], [update_plan.rs], [util.rs] and the tables of
      [schema.rs].  [LoginsSpec.v] is the refinement of the map of visible logins,
      [LoginsSync.v] what a sync does to it.
    - [PlacesTypes.v]: [places/src/types.rs], [types/visit_transition_set.rs], [error.rs],
      [util.rs], [valid_guid.rs], [hash.rs], [storage/bookmarks/root_guid.rs], and the
      functions on URLs of [api/matcher.rs] and [db/db.rs].
    - [PlacesDb.v]: the tables and triggers of [places/sql], and [storage/mod.rs].
    - [Bookmarks.v]: the operations of [storage/bookmarks.rs] on single items.
      [BookmarksSpec.v] has the invariant of the tree and what each operation does to the
      ordered children of the folders, [BookmarksOps.v] the theorems about their sequences.
    - [BookmarkTree.v]: the trees of [storage/bookmarks.rs]; [BookmarkTreeSpec.v]: [fetch_tree]
      and the JSON of trees.
    - [PublicNode.v]: [storage/bookmarks/public_node.rs] and [conversions.rs].
    - [Frecency.v]: [places/src/frecency.rs], in the single-precision arithmetic of [SpecFloat].
    - [History.v]: [storage/history.rs] and [observation.rs], with the triggers on visits and
      pages.  [HistorySpec.v] has the abstract history of pages, visits and tombstones, the
      invariant of the tables, and what each statement does to them; [HistoryOps.v] the
      operations, [HistoryQueries.v] the queries.
    - [HistorySync.v]: the module [history_sync] of [storage/history.rs], [history_sync/mod.rs],
      [record.rs], [plan.rs] and [store.rs]; [HistorySyncSpec.v] what a sync does.
    - [Tags.v]: [storage/tags.rs].
    - [Matcher.v]: [places/src/match_impl.rs], its SQL function, and the results and the limit of
      [api/matcher.rs].
    - [PushCrypto.v]: [push/src/crypto.rs] and [error.rs]; [PushDb.v]: [push/src/storage];
      [Push.v]: [config.rs], [communications.rs] and [subscriber.rs]; [PushSpec.v]: what the
      manager of subscriptions does over a world that keeps the requests.
    - [Ffi.v]: the error codes, conversions and calls of [support/ffi/src/lib.rs], [error.rs],
      [string.rs] and [into_ffi.rs].
    - [ConcurrentMap.v]: [ConcurrentHandleMap] of [support/ffi/src/handle_map.rs], its calls over
      the FFI, and the steps of threads that use it.
    - [FxaConfig.v]: [fxa-client/src/errors.rs], [util.rs], [scopes.rs] and [config.rs];
      [FxaClient.v]: [http_client.rs]; [FxaAccount.v]: [lib.rs], [oauth.rs], [scoped_keys.rs],
      [profile.rs], [device.rs], [send_tab.rs], [commands/send_tab.rs] and [state_persistence.rs].
    - [LoginSm.v]: [fxa-client/src/login_sm.rs], [browser_id.rs] and [http_client/browser_id], with
      the end of the login machine.
    - [FxaSpec.v]: the abstract machine of OAuth flows and the other theorems about accounts.

    ** Conventions

    A function of the source is a definition of the same name; the methods of a struct are in
    a module named after it, with [self] as a state or an argument.  A call that has effects is
    in [ST S E A], a function from a state to an outcome and a state, so that what a failing
    call did before it failed is kept.  Integers are in [Z], with the width written out where
    it can matter; [debug] stands for the debug assertions and overflow checks of a build.
    Traits are classes over the type [W] of the state of the outside world ([SetupStorageClient],
    [StorageClient], [BatchPoster], [PostResponseHandler], [Store], [TokenFetcher],
    [Interruptee]): the state machines are verified against the class, and [Client.v] gives the
    instances of the real client.

    What the sources only call is a parameter: serde and the JSON values ([SerdeJson],
    [Serde]), OpenSSL and ring ([Crypto], [Rand]), URLs ([UrlLib]), Hawk, the clock, and the
    HTTP backend ([Http]).  SQLite is not: a table is a finite map from row ids to records of
    its columns, and a statement is the function on tables that its SQL text denotes, with the
    triggers that it fires and the constraints that it checks.  Laws of such code are stated as classes ([CryptoLaws],
    [PayloadSerdeLaws], [KeysSerdeLaws]); the [Toy...] modules instantiate every parameter with
    a concrete function, and the witnesses run the model on them.

    To speak about what goes over the wire, the theorems run the unchanged definitions over a
    world that keeps a log: [logged] (posts), [logged_client] (setup requests), [logged_http]
    (HTTP requests), [counted_fetcher] (token requests), [logged_store] (store calls); [Exchanges]
    says the same of a view of the world (exchanges of codes).

    ** What the theorems show

    - Handle maps: refinement of the abstract map, detection of use after free, exact
      condition for an insertion to succeed, agreement of debug and release builds, the
      64-bit round trip, distinct map ids.  Concurrent maps: calls of threads take effect one
      after the other, none waits for ever, and a callback that panics only spoils its object.
    - FFI: success and failure are told apart by the code that a call reports.
    - Encryption: round trips of key bundles, payloads, changesets and collection keys under
      the laws of the primitives, and that nothing unauthenticated is decrypted.
    - Post queue: limits of requests and batches, each record sent once and in order, the
      batch protocol, completion with a well-behaved server, and that no reply of the server
      makes it panic if its limits allow one record; the same for [CollectionUpdate], which reports the acknowledged ids.
    - Setup machine: termination for every server, at most one wipe and only when a reply
      calls for it, uploads only after a wipe, and a ready state that is what the last
      replies of the run said.
    - Collection machine: equivalence with a specification without a loop.
    - Token provider: one endpoint for life, requests only when needed, no panics.
    - Client: every request is signed with the token that the provider then holds, and
      conditional when it writes.
    - Viaduct: header names are the tokens of RFC 7230, header lists refine a map.
    - Synchronisation: the order of the calls a store receives, the requests of the upload
      between them, and that [sync_multiple]
      synchronises all stores and reports exactly the failures.
    - Migration: exact conditions for keeping the sync ids of an old state.
    - Logins: the three-way merge is the field-wise one, the operations on the two tables are
      those on the map of visible logins (where an added id is one of the mirror, a second
      visible row), and what incoming records do to it.
    - Bookmarks: insertions, deletions and updates, also by message, are operations on the
      ordered lists of children and on the pages they refer to, and keep the positions
      contiguous, but for two kinds of updates that are named below; [fetch_tree] agrees with a
      plain recursion, and what the FFI is shown agrees with the table.
    - History: the operations are those on the abstract history, whatever the chunks of SQL
      variables, and keep the counts and dates in the rows of pages, also when operations
      fail, but for the tombstones of pages whose deletion failed; a sync adds exactly the new
      visits, never brings deleted history back, uploads what changed and settles; lists of
      visits are slices of one list.
    - Tags: the operations add and remove exactly the pairs of a tag and a URL.
    - Autocomplete: the search that skips bytes finds what a search by folded characters finds
      where the source has at least the bytes of the token left, in any UTF-8 text, and the limit on the results is kept.
    - Push: the table is a map from channels to subscriptions, a subscription is remembered with
      its key, keys are read back, and requests are authorised once there is a secret.
    - Accounts: OAuth flows are those of an abstract machine in which each verifier is exchanged
      at most once, for its own state; access tokens are kept while they are fresh; a tab that
      is sent is the one received; the newest refresh token survives the old format; and
      the login machine ends in a state without an expired certificate, and without an
      expired key pair unless it started with one and could not sign it.
    - Places helpers: transition sets are finite sets, URL hashes are in the range of their
      scheme, strings are cut at characters.

    Some theorems show behaviour that contradicts a comment or an evident intention; each says
    so: [readonly_sync_is_full_sync], [sync_multiple_caches_failed_syncs],
    [dropped_records_are_not_reported], [insert_checks_differ], [huge_token_duration_panics],
    [version_overflow_debug_panics], [merge_can_break_validity], [failed_update_is_committed],
    [reparent_to_same_folder_leaves_gap], [folder_moved_into_itself],
    [failed_page_deletion_is_committed], [bookmark_counts_as_visited],
    [guid_takeover_uploads_tombstone], [remove_tag_does_not_normalize],
    [unsubscribe_without_channel_panics], [failed_unsubscribe_is_success],
    [verification_depends_on_order], [update_is_forgotten], [update_of_several_reports_none],
    [nul_in_panic_message_unwinds], [device_restored_with_destroyed_token],
    [failed_advance_forgets_session], [fewer_results_than_asked_for],
    [shorter_source_is_no_match], [shorter_source_is_not_found], [zero_record_limit_panics],
    [expired_key_pair_is_kept], [synced_guid_is_added_again], and parts of
    [insert_room_or_panic], [extract_v1_state_correct] and [host_and_port_of_url].

    ** Bounds and fuel

    [run_to_ready] loops until the state is [Ready]; the model allows nine iterations and
    [setup_terminates] proves that they are enough.  The collection machine counts its
    iterations in the source.  The walk of the free list in [assert_valid] and the doubling in
    [ensure_capacity] have the capacity as fuel, and [debug_build_agrees] and
    [insert_room_or_panic] show that it does not run out on a valid map.  The recursive
    queries on bookmarks ([cascade], [ancestors], [descendants]) have one step more than the
    table has rows, or as many for [cascade], which is enough unless a folder is below itself
    ([subtree_spec], [ancestors_query_ends], [descendants_lvl] with [up_size]); where the query
    does not end, the model panics with [NO_END].  [inflate] takes an entry out of its map at
    each level and has the size of the map as fuel ([inflate_ok]).  The iterator of a
    transition set has the sixteen bits as fuel, cutting a list into chunks its length
    ([chunks_concat]), and trimming a string its bytes.  [advance] of the login machine has seven
    iterations, and [login_advance_settles] proves that they are enough when the clock moves by
    at most a day.  [find_in_string] has as many iterations as the text has bytes, and one, and
    [find_in_string_correct] proves that they are enough.  All other recursion is structural.

    ** Not modelled

    Telemetry and logging, which change nothing; the HTTP backends and settings of viaduct, the
    FFI wrappers of the components, and the destructors, byte buffers and macros of
    [support/ffi], which are glue; the query helpers of [support/sql], the creation and migration
    of databases, the read-only and the sync connection (the models run on one connection, so a
    transaction never waits for a lock, and the temporary table of outgoing pages is always
    there); [VACUUM]; callbacks that call back into the handle map whose lock they hold, which
    would deadlock; [search_bookmarks], the queries of the matchers of
    [api/matcher.rs] and the table of accepted inputs; [HistoryStore::sync]; RSA
    keys of [fxa-client] ([rsa.rs] over OpenSSL); the sync of bookmarks, whose merge is in an
    external crate and whose store is the SQL around it; rc_log; and the bindings for Kotlin
    and Swift. *)

From Stdlib Require Export ZArith Lia Bool.
From stdpp Require Export base list gmap strings fin_maps.

(** ** Outcomes

    A call of a Rust function returns [Ok a], returns [Err e], or panics (an
    [assert!], an [unwrap] on an absent value, an index out of bounds, an
    arithmetic overflow in a build with overflow checks).  A function that is
    not fallible in the source is polymorphic in [E]. *)
Inductive res (E A : Type) : Type :=
| Ok (a : A)
| Err (e : E)
| Panic (msg : string).
Arguments Ok {E A} a.
Arguments Err {E A} e.
Arguments Panic {E A} msg.

Global Instance res_eq_dec {E A} `{!EqDecision E, !EqDecision A} : EqDecision (res E A).
Proof. solve_decision. Defined.

Definition is_ok {E A} (r : res E A) : bool :=
  match r with Ok _ => true | _ => false end.
Definition is_panic {E A} (r : res E A) : bool :=
  match r with Panic _ => true | _ => false end.

Global Instance res_ret {E} : MRet (res E) := fun A a => Ok a.
Global Instance res_bind {E} : MBind (res E) := fun A B f r =>
  match r with Ok a => f a | Err e => Err e | Panic m => Panic m end.
Global Instance res_fmap {E} : FMap (res E) := fun A B f r =>
  match r with Ok a => Ok (f a) | Err e => Err e | Panic m => Panic m end.

(** [map_err] of the standard library; the [?] operator applies it with the
    [From] conversion of the two error types. *)
Definition map_err {E F A} (f : E → F) (r : res E A) : res F A :=
  match r with Ok a => Ok a | Err e => Err (f e) | Panic m => Panic m end.

(** [Option::ok_or] and [Result::ok]. *)
Definition ok_or {E A} (e : E) (o : option A) : res E A :=
  match o with Some a => Ok a | None => Err e end.

(** [assert!(b, msg)]. *)
Definition rassert {E} (b : bool) (msg : string) : res E unit :=
  if b then Ok tt else Panic msg.

Lemma res_bind_ok {E A B} (a : A) (f : A → res E B) : Ok a ≫= f = f a.
Proof. done. Qed.

Lemma rassert_bind {E B} b msg (f : unit → res E B) :
  b = true → rassert b msg ≫= f = f tt.
Proof. by intros ->. Qed.

Lemma res_bind_Ok_inv {E A B} (r : res E A) (f : A → res E B) b :
  r ≫= f = Ok b → ∃ a, r = Ok a ∧ f a = Ok b.
Proof. destruct r; naive_solver. Qed.

(** ** Stateful computations

    A method on [&mut self] or one that talks to the outside world: the state
    after the call is kept also when the call returns an error, as it is in the
    source. *)
Definition ST (S E A : Type) : Type := S → res E A * S.

Global Instance ST_ret {S E} : MRet (ST S E) := fun A a s => (Ok a, s).
Global Instance ST_bind {S E} : MBind (ST S E) := fun A B f c s =>
  match c s with
  | (Ok a, s') => f a s'
  | (Err e, s') => (Err e, s')
  | (Panic m, s') => (Panic m, s')
  end.

Definition st_get {S E} : ST S E S := fun s => (Ok s, s).
Definition st_put {S E} (s' : S) : ST S E unit := fun _ => (Ok tt, s').
Definition st_modify {S E} (f : S → S) : ST S E unit := fun s => (Ok tt, f s).
Definition st_lift {S E A} (r : res E A) : ST S E A := fun s => (r, s).
Definition st_err {S E A} (e : E) : ST S E A := fun s => (Err e, s).

(** An infallible observation of the state, and [map_err] on a call. *)
Definition st_ask {S E A} (c : S → A * S) : ST S E A := fun s => let '(a, s) := c s in (Ok a, s).
Definition st_map_err {S E F A} (f : E → F) (c : ST S E A) : ST S F A :=
  fun s => let '(r, s) := c s in (map_err f r, s).

(** A [match] on the result of a call. *)
Definition st_match {S E F A B} (c : ST S E A) (f : res E A → res F B) : ST S F B :=
  fun s => let '(r, s) := c s in (f r, s).

(** ** Fixed-width unsigned arithmetic

    [checks] is the build's overflow-check setting: on in a debug build (an
    overflow panics), off in a release build (an overflow wraps). *)
Local Open Scope Z_scope.

Definition fits (w x : Z) : Prop := 0 ≤ x < 2 ^ w.
Global Instance fits_dec w x : Decision (fits w x).
Proof. unfold fits. apply _. Defined.

Definition wrap (w x : Z) : Z := x mod 2 ^ w.

Definition uadd {E} (checks : bool) (w a b : Z) : res E Z :=
  if checks && (2 ^ w <=? a + b) then Panic "attempt to add with overflow"
  else Ok (wrap w (a + b)).

(** Signed 64-bit arithmetic. *)
Definition fits_i64 (x : Z) : Prop := - 2 ^ 63 ≤ x < 2 ^ 63.
Definition wrap_i64 (x : Z) : Z := (x + 2 ^ 63) mod 2 ^ 64 - 2 ^ 63.
Definition i64_result {E} (checks : bool) (msg : string) (x : Z) : res E Z :=
  if (- 2 ^ 63 <=? x) && (x <? 2 ^ 63) then Ok x
  else if checks then Panic msg else Ok (wrap_i64 x).
Definition iadd {E} (checks : bool) (a b : Z) : res E Z :=
  i64_result checks "attempt to add with overflow" (a + b).
Definition isub {E} (checks : bool) (a b : Z) : res E Z :=
  i64_result checks "attempt to subtract with overflow" (a - b).

Lemma i64_result_small {E} checks msg x : fits_i64 x → i64_result (E:=E) checks msg x = Ok x.
Proof.
  unfold fits_i64, i64_result. intros Hx.
  destruct (Z.leb_spec (- 2 ^ 63) x), (Z.ltb_spec x (2 ^ 63)); [done|lia..].
Qed.

Lemma wrap_fits w x : 0 ≤ w → fits w (wrap w x).
Proof. intros. apply Z.mod_pos_bound. by apply Z.pow_pos_nonneg. Qed.

Lemma wrap_small w x : fits w x → wrap w x = x.
Proof. apply Z.mod_small. Qed.

Lemma uadd_small {E} checks w a b : 0 ≤ a + b < 2 ^ w → uadd (E:=E) checks w a b = Ok (a + b).
Proof.
  intros H. unfold uadd. rewrite wrap_small by done.
  destruct (Z.leb_spec (2 ^ w) (a + b)); [lia|]. by rewrite andb_false_r.
Qed.

(** ** Tactics and hints *)
Create HintDb appsvc.

(** Splits the outcome a hypothesis or the goal matches on. *)
Ltac case_res :=
  repeat match goal with
  | H : context [match ?x with _ => _ end] |- _ =>
      lazymatch x with context [match _ with _ => _ end] => fail | _ => destruct x eqn:?; simplify_eq/= end
  end.

(** The successful calls in a chain that succeeds. *)
Ltac bind_inv H := repeat (apply res_bind_Ok_inv in H as (? & ? & H)).

(** Linear arithmetic with division and remainder by constants. *)
Ltac div_lia := Z.to_euclidean_division_equations; lia.

(** Reads boolean comparisons of a hypothesis or the goal as propositions. *)
Ltac bool_to_prop :=
  repeat match goal with
  | H : andb _ _ = true |- _ => apply andb_true_iff in H as [? ?]
  | H : orb _ _ = false |- _ => apply orb_false_iff in H as [? ?]
  | H : negb _ = true |- _ => apply negb_true_iff in H
  | H : negb _ = false |- _ => apply negb_false_iff in H
  | H : (_ <=? _) = true |- _ => apply Z.leb_le in H
  | H : (_ <=? _) = false |- _ => apply Z.leb_gt in H
  | H : (_ <? _) = true |- _ => apply Z.ltb_lt in H
  | H : (_ <? _) = false |- _ => apply Z.ltb_ge in H
  | H : (_ =? _) = true |- _ => apply Z.eqb_eq in H
  | H : (_ =? _) = false |- _ => apply Z.eqb_neq in H
  | H : bool_decide _ = true |- _ => apply bool_decide_eq_true in H
  | H : bool_decide _ = false |- _ => apply bool_decide_eq_false in H
  end.

(** ** Lists indexed by position *)

Lemma filter_seq_length {A} (P : A → Prop) `{!∀ x, Decision (P x)}
    (Q : nat → Prop) `{!∀ i, Decision (Q i)} (l : list A) (k : nat) :
  (∀ i x, l !! i = Some x → (Q (k + i)%nat ↔ P x)) →
  length (filter P l) = length (filter Q (seq k (length l))).
Proof.
  revert k. induction l as [|x l IH]; intros k HPQ; [done|]. cbn [length seq].
  pose proof (HPQ 0%nat x eq_refl) as Hx. rewrite Nat.add_0_r in Hx.
  rewrite !filter_cons. specialize (IH (S k)).
  destruct (decide (P x)), (decide (Q k)); try tauto; cbn [length];
    rewrite IH; try done; intros i y Hi; rewrite Nat.add_succ_comm; by apply HPQ.
Qed.

(** The elements of [l] that satisfy [P] sit at exactly the positions [fl]. *)
Lemma filter_length_positions {A} (P : A → Prop) `{!∀ x, Decision (P x)}
    (l : list A) (fl : list nat) :
  NoDup fl → (∀ i, i ∈ fl → (i < length l)%nat) →
  (∀ i x, l !! i = Some x → (i ∈ fl ↔ P x)) →
  length (filter P l) = length fl.
Proof.
  intros Hnd Hlt HP. rewrite (filter_seq_length P (.∈ fl) l 0) by done.
  apply Permutation_length, NoDup_Permutation; [apply NoDup_filter, NoDup_seq|done|].
  intros i. rewrite list_elem_of_filter, elem_of_seq. split; [tauto|].
  intros Hi. split; [done|]. specialize (Hlt i Hi). lia.
Qed.

Lemma forallb_lookup {A} (p : A → bool) (l : list A) :
  (∀ i x, l !! i = Some x → p x = true) → forallb p l = true.
Proof.
  induction l as [|x l IH]; intros H; [done|]. cbn.
  rewrite (H 0%nat x eq_refl), IH; [done|]. intros i y Hi. by apply (H (S i)).
Qed.

Lemma filter_bool_length {A} (f : A → bool) (l : list A) :
  (length (filter (λ x, f x = false) l) + length (filter (λ x, f x = true) l))%nat = length l.
Proof.
  induction l as [|x l IH]; [done|]. rewrite !filter_cons.
  destruct (f x); repeat case_decide; cbn; try done; lia.
Qed.

(** ** Bit fields *)

Lemma lor_mul_add x b k : 0 ≤ k → 0 ≤ b < 2 ^ k → Z.lor (x * 2 ^ k) b = x * 2 ^ k + b.
Proof.
  intros Hk Hb. rewrite <-Z.lxor_lor, <-Z.add_nocarry_lxor; try done.
  all: apply Z.bits_inj'; intros n Hn; rewrite Z.land_spec, Z.bits_0.
  all: destruct (Z.lt_ge_cases n k).
  all: try (rewrite Z.mul_pow2_bits_low by lia; done).
  all: rewrite andb_false_intro2; [done|].
  all: rewrite <-(Z.mod_small b (2 ^ k)) by done; apply Z.mod_pow2_bits_high; lia.
Qed.
