(* ===== verification/Database.v ===== *)
(** * Databases

    What the models of the SQLite databases share.  The state of a call is a pair of a database
    [D] and the outside world [W]; a transaction that is not committed restores [D] only.  The
    second part is a small program logic: [ok_post c d Q] is the postcondition of [c], run on
    the database [d], in all worlds in which it succeeds; [post] also speaks of failures. *)

From S2P Require Import Prelude.
Local Open Scope Z_scope.
Local Open Scope list_scope.

(** A call in a sequence that is known to succeed. *)
Lemma st_bind_run {S E A B} (c : ST S E A) (k : A → ST S E B) s a s' : c s = (Ok a, s') → (c ≫= k) s = k a s'.
Proof. unfold mbind, ST_bind. by intros ->. Qed.

Section db.
Context {D W E : Type}.

Definition db_get : ST (D * W) E D := λ '(d, w), (Ok d, (d, w)).
Definition db_modify (f : D → D) : ST (D * W) E unit := λ '(d, w), (Ok tt, (f d, w)).
(** A call on the outside world. *)
Definition on_world {A} (c : ST W E A) : ST (D * W) E A := λ '(d, w), let '(r, w) := c w in (r, (d, w)).

(** [let tx = unchecked_transaction()?; ...; tx.commit()?]: a transaction that is dropped
    before it is committed is rolled back. *)
Definition transaction {A} (c : ST (D * W) E A) : ST (D * W) E A := λ '(d, w),
  match c (d, w) with
  | (Ok a, s) => (Ok a, s)
  | (Err e, (_, w)) => (Err e, (d, w))
  | (Panic m, (_, w)) => (Panic m, (d, w))
  end.

(** ** Postconditions of calls that succeed *)
Definition ok_post {A} (c : ST (D * W) E A) (d : D) (Q : A → D → Prop) : Prop :=
  ∀ w a d' w', c (d, w) = (Ok a, (d', w')) → Q a d'.

Lemma ok_post_bind {A B} (c : ST (D * W) E A) (k : A → ST (D * W) E B) d Q :
  ok_post c d (λ a d1, ok_post (k a) d1 Q) → ok_post (c ≫= k) d Q.
Proof.
  intros Hc w b d' w'. unfold mbind, ST_bind.
  destruct (c (d, w)) as [[a|e|m] [d1 w1]] eqn:Hrun; [|done..]. by apply (Hc w a d1 w1).
Qed.
Lemma ok_post_bind_assoc {A B C} (c : ST (D * W) E A) (k : A → ST (D * W) E B) (h : B → ST (D * W) E C) d Q :
  ok_post (c ≫= k) d (λ b d1, ok_post (h b) d1 Q) → ok_post (c ≫= λ a, k a ≫= h) d Q.
Proof.
  intros Hc w x d' w' Hrun. unfold mbind, ST_bind in *. destruct (c (d, w)) as [[a|e|m] s1] eqn:Hca; [|done..].
  destruct (k a s1) as [[b|e|m] [d2 w2]] eqn:Hk; [|done..]. apply (Hc w b d2 w2) with (w := w2) (w' := w'); [|done].
  unfold mbind, ST_bind. by rewrite Hca.
Qed.
Lemma ok_post_ret {A} (a : A) d Q : Q a d → ok_post (mret (M:=ST (D * W) E) a) d Q.
Proof. by intros HQ w a' d' w' [= <- <- <-]. Qed.
Lemma ok_post_err {A} e d (Q : A → D → Prop) : ok_post (st_err e) d Q.
Proof. by intros w a d' w'. Qed.
Lemma ok_post_lift {A} (r : res E A) d Q : (∀ a, r = Ok a → Q a d) → ok_post (st_lift r) d Q.
Proof. intros HQ w a d' w' [= -> <- <-]. by apply HQ. Qed.
Lemma ok_post_get d Q : Q d d → ok_post db_get d Q.
Proof. by intros HQ w a d' w' [= <- <- <-]. Qed.
Lemma ok_post_modify f d Q : Q tt (f d) → ok_post (db_modify f) d Q.
Proof. by intros HQ w a d' w' [= <- <- <-]. Qed.
Lemma ok_post_world {A} (c : ST W E A) d Q : (∀ a, Q a d) → ok_post (on_world c) d Q.
Proof. intros HQ w a d' w'. unfold on_world. destruct (c w) as [r w1]. intros [= -> <- <-]. apply HQ. Qed.
Lemma ok_post_transaction {A} (c : ST (D * W) E A) d Q : ok_post c d Q → ok_post (transaction c) d Q.
Proof.
  intros Hc w a d' w'. unfold transaction. destruct (c (d, w)) as [[b|e|m] [d1 w1]] eqn:Hrun; [|done..].
  intros [= <- <- <-]. by apply (Hc w b d1 w1).
Qed.
Lemma ok_post_weaken {A} (c : ST (D * W) E A) d (Q Q' : A → D → Prop) :
  ok_post c d Q → (∀ a d', Q a d' → Q' a d') → ok_post c d Q'.
Proof. intros Hc HQ w a d' w' Hrun. by eapply HQ, Hc. Qed.
Lemma ok_post_and {A} (c : ST (D * W) E A) d (Q Q' : A → D → Prop) :
  ok_post c d Q → ok_post c d Q' → ok_post c d (λ a d', Q a d' ∧ Q' a d').
Proof. intros H1 H2 w a d' w' Hrun. eauto. Qed.

(** ** Postconditions of all calls *)
Definition post {A} (c : ST (D * W) E A) (d : D) (Q : res E A → D → Prop) : Prop :=
  ∀ w r d' w', c (d, w) = (r, (d', w')) → Q r d'.

(** A call that fails leaves the database as it was. *)
Definition rolls_back {A} (c : ST (D * W) E A) : Prop :=
  ∀ d w r d' w', c (d, w) = (r, (d', w')) → is_ok r = false → d' = d.
Lemma rolls_back_transaction {A} (c : ST (D * W) E A) : rolls_back (transaction c).
Proof.
  intros d w r d' w'. unfold transaction.
  destruct (c (d, w)) as [[b|e|m] [d1 w1]]; by intros [= <- <- <-].
Qed.
Lemma rolls_back_lift {A B} (r : res E A) (k : A → ST (D * W) E B) :
  (∀ a, rolls_back (k a)) → rolls_back (st_lift r ≫= k).
Proof.
  intros Hk d w r' d' w'. unfold mbind, ST_bind, st_lift.
  destruct r as [a|e|m]; [apply Hk|by intros [= <- <- <-]..].
Qed.
Lemma rolls_back_ret {A B} (c : ST (D * W) E A) (f : A → B) : rolls_back c → rolls_back (a ← c; mret (f a)).
Proof.
  intros Hc d w r d' w'. unfold mbind, ST_bind.
  destruct (c (d, w)) as [[a|e|m] [d1 w1]] eqn:Hrun; intros [= <- <- <-]; [done|..]; intros _; by apply (Hc _ _ _ _ _ Hrun).
Qed.

(** ** Calls that only read *)
Definition reads {A} (c : ST (D * W) E A) : Prop := ∀ d w, (c (d, w)).2.1 = d.

Lemma reads_bind {A B} (c : ST (D * W) E A) (k : A → ST (D * W) E B) : reads c → (∀ a, reads (k a)) → reads (c ≫= k).
Proof.
  intros Hc Hk d w. specialize (Hc d w). unfold mbind, ST_bind.
  destruct (c (d, w)) as [[a|e|m] [d1 w1]]; cbn in *; subst; [apply Hk|done..].
Qed.
Lemma reads_ret {A} (a : A) : reads (mret (M:=ST (D * W) E) a).
Proof. done. Qed.
Lemma reads_lift {A} (r : res E A) : reads (st_lift r).
Proof. done. Qed.
Lemma reads_err {A} e : reads (A:=A) (st_err e).
Proof. done. Qed.
Lemma reads_get : reads db_get.
Proof. done. Qed.
Lemma reads_world {A} (c : ST W E A) : reads (on_world c).
Proof. intros d w. unfold on_world. by destruct (c w). Qed.
Lemma reads_then {A B} (c : ST (D * W) E A) (k : A → ST (D * W) E B) d w r d' w' :
  reads c → (c ≫= k) (d, w) = (r, (d', w')) →
  (is_ok r = false ∧ d' = d) ∨ ∃ a w1, c (d, w) = (Ok a, (d, w1)) ∧ k a (d, w1) = (r, (d', w')).
Proof.
  intros Hc. specialize (Hc d w). unfold mbind, ST_bind.
  destruct (c (d, w)) as [[a|e|m] [d1 w1]]; cbn in Hc; subst d1; [|by intros [= <- <- <-]; left..].
  intros Hk. right. by exists a, w1.
Qed.
Lemma rolls_back_reads {A B} (c : ST (D * W) E A) (k : A → ST (D * W) E B) :
  reads c → (∀ a, rolls_back (k a)) → rolls_back (c ≫= k).
Proof.
  intros Hc Hk d w r d' w' Hrun Hr. destruct (reads_then c k d w r d' w' Hc Hrun) as [[_ ->]|(a & w1 & _ & Hrun')]; [done|].
  by eapply Hk.
Qed.
Lemma rolls_back_of_reads {A} (c : ST (D * W) E A) : reads c → rolls_back c.
Proof. intros Hc d w r d' w' Hrun _. specialize (Hc d w). by rewrite Hrun in Hc. Qed.
Lemma ok_post_reads {A} (c : ST (D * W) E A) d : reads c → ok_post c d (λ _ d', d' = d).
Proof. intros Hc w a d' w' Hrun. specialize (Hc d w). by rewrite Hrun in Hc. Qed.
End db.

(** ** each_chunk.rs

    [slice::chunks]; the fuel is the number of items. *)
Fixpoint chunks {A} (fuel : nat) (chunk_size : nat) (items : list A) : list (list A) :=
  match fuel, items with
  | O, _ | _, [] => []
  | S fuel, _ => take chunk_size items :: chunks fuel chunk_size (drop chunk_size items)
  end.

Fixpoint do_chunks {S E A} (do_chunk : list A → nat → ST S E unit) (offset : nat) (cs : list (list A))
    : ST S E unit :=
  match cs with
  | [] => mret tt
  | chunk :: cs => _ ← do_chunk chunk offset; do_chunks do_chunk (offset + length chunk)%nat cs
  end.

Definition each_sized_chunk {S E A} (items : list A) (chunk_size : nat)
    (do_chunk : list A → nat → ST S E unit) : ST S E unit :=
  do_chunks do_chunk 0 (chunks (length items) chunk_size items).

Lemma ok_post_do_chunks {D W E A} (f : list A → nat → ST (D * W) E unit) (I : list (list A) → D → Prop) :
  (∀ off c cs d, I (c :: cs) d → ok_post (f c off) d (λ _, I cs)) →
  ∀ cs off d, I cs d → ok_post (do_chunks f off cs) d (λ _, I []).
Proof.
  intros Hf cs. induction cs as [|c cs IH]; intros off d HI; cbn [do_chunks]; [by apply ok_post_ret|].
  apply ok_post_bind. eapply ok_post_weaken; [by apply Hf|]. intros u d' HI'. by apply IH.
Qed.

Lemma chunks_sublist {A} n k (l : list A) : concat (chunks n k l) `sublist_of` l.
Proof.
  revert l. induction n as [|n IH]; intros l; [destruct l; apply sublist_nil_l|].
  destruct l as [|a l]; [done|]. cbn [chunks concat]. rewrite <-(take_drop k (a :: l)) at 3.
  by apply sublist_app.
Qed.
Lemma chunks_concat {A} n k (l : list A) : (0 < k)%nat → (length l ≤ n)%nat → concat (chunks n k l) = l.
Proof.
  intros Hk. revert l. induction n as [|n IH]; intros l Hn; [by destruct l; [|cbn in Hn; lia]|].
  destruct l as [|a l]; [done|]. cbn [chunks concat].
  rewrite IH; [apply take_drop|]. rewrite length_drop. cbn in *. lia.
Qed.

(** One step of a proof of [ok_post] by the shape of the call. *)
Ltac ok_step :=
  cbn beta;
  lazymatch goal with
  | |- ok_post (_ ≫= _) _ _ => apply ok_post_bind
  | |- ok_post (mret _) _ _ => apply ok_post_ret
  | |- ok_post (st_err _) _ _ => apply ok_post_err
  | |- ok_post (st_lift _) _ _ => apply ok_post_lift; intros ? ?
  | |- ok_post db_get _ _ => apply ok_post_get
  | |- ok_post (db_modify _) _ _ => apply ok_post_modify
  | |- ok_post (on_world _) _ _ => apply ok_post_world; intros ?
  | |- ok_post (transaction _) _ _ => apply ok_post_transaction
  end; cbn beta.
