(* ===== verification/HandleMap.v ===== *)
(** * The FFI handle map

    Model of [components/support/ffi/src/handle_map.rs]: the versioned slot map
    ([HandleMap]) whose handles cross the FFI as 64-bit integers.  The free list
    threaded through the entries, the version counters and the debug-build
    consistency check are modelled as the code has them.  The second half of the
    file states the representation invariant, shows that every operation keeps
    it, and refines the map to an abstract finite map from handles to values. *)

From S2P Require Import Prelude.
Local Open Scope Z_scope.

(** ** Handles *)
Record Handle := mkHandle { map_id : Z; hversion : Z; index : Z }.

Global Instance Handle_eq_dec : EqDecision Handle.
Proof. solve_decision. Defined.
Global Instance Handle_countable : Countable Handle.
Proof.
  apply (inj_countable' (λ h, (map_id h, hversion h, index h))
                        (λ '(a, b, c), mkHandle a b c)). by intros [].
Defined.

Inductive HandleError :=
| NullHandle | InvalidHandle | StaleVersion | IndexPastEnd | WrongMap.

Definition HANDLE_MAGIC : Z := 0x4153.

(** [Handle::into_u64]: the four fields packed into 16-bit lanes. *)
Definition into_u64 (h : Handle) : Z :=
  Z.lor (Z.lor (Z.lor (Z.shiftl HANDLE_MAGIC 48) (Z.shiftl (map_id h) 32))
               (Z.shiftl (index h) 16))
        (hversion h).

(** [Handle::is_valid]. *)
Definition is_valid (v : Z) : bool :=
  (Z.shiftr v 48 =? HANDLE_MAGIC) && (Z.land v 1 =? 0).

(** [Handle::from_u64]; [as u16] truncates. *)
Definition from_u64 (v : Z) : res HandleError Handle :=
  if negb (is_valid v) then
    if v =? 0 then Err NullHandle else Err InvalidHandle
  else
    let map_id := wrap 16 (Z.shiftr v 32) in
    let index := wrap 16 (Z.shiftr v 16) in
    let version := wrap 16 v in
    Ok (mkHandle map_id version index).

(** ** The map *)
Definition U16_MAX : Z := 65535.
Definition MAX_CAPACITY : Z := Z.shiftl 1 15 - 1.
Definition MIN_CAPACITY : Z := 4.

Inductive EntryState (T : Type) : Type :=
| Active (v : T)
| InFreeList (next : Z)
| EndOfFreeList.
Arguments Active {T} v.
Arguments InFreeList {T} next.
Arguments EndOfFreeList {T}.

Record Entry (T : Type) := mkEntry { version : Z; state : EntryState T }.
Arguments mkEntry {T}.
Arguments version {T}.
Arguments state {T}.

Record HandleMap (T : Type) := mkHandleMap {
  id : Z;
  first_free : Z;
  num_entries : Z;
  entries : list (Entry T);
}.
Arguments mkHandleMap {T}.
Arguments id {T}.
Arguments first_free {T}.
Arguments num_entries {T}.
Arguments entries {T}.

Definition get_item {T} (s : EntryState T) : option T :=
  match s with Active v => Some v | _ => None end.
Definition is_occupied {T} (s : EntryState T) : bool :=
  match get_item s with Some _ => true | None => false end.
Definition is_end_of_list {T} (s : EntryState T) : bool :=
  match s with EndOfFreeList => true | _ => false end.

(** [to_u16]: a checked narrowing cast. *)
Definition to_u16 {E} (v : Z) : res E Z :=
  if v <=? U16_MAX then Ok v else Panic "Bug: Doesn't fit in u16".

(** [entries[i]] for a [u16] or [usize] index. *)
Definition entry_at {E T} (es : list (Entry T)) (i : Z) : res E (Entry T) :=
  match es !! Z.to_nat i with
  | Some e => Ok e
  | None => Panic "index out of bounds"
  end.

Definition len {T} (m : HandleMap T) : Z := num_entries m.
Definition is_empty {T} (m : HandleMap T) : bool := len m =? 0.
Definition capacity {T} (m : HandleMap T) : Z := Z.of_nat (length (entries m)).

(** [next_handle_map_id]: [HANDLE_MAP_ID_COUNTER] is a process-wide [AtomicUsize];
    [fetch_add] wraps and returns the previous value. *)
Definition next_handle_map_id (counter : Z) : Z * Z :=
  let id := wrap 64 (counter + 1) in
  (wrap 16 id, wrap 64 (counter + 1)).

(** The entries of a fresh map: [for i in 0..(capacity - 1)] links entry [i] to
    entry [i + 1], then the sentinel. *)
Fixpoint init_entries {E T} (i : Z) (n : nat) : res E (list (Entry T)) :=
  match n with
  | O => Ok [mkEntry 1 EndOfFreeList]
  | S n' =>
      next ← to_u16 (i + 1);
      rest ← init_entries (i + 1) n';
      Ok (mkEntry 1 (InFreeList next) :: rest)
  end.

Definition new_with_capacity {E T} (request : Z) (counter : Z) : res E (HandleMap T * Z) :=
  _ ← rassert (request <=? MAX_CAPACITY) "HandleMap capacity is limited";
  let capacity := Z.max request MIN_CAPACITY in
  let '(id, counter) := next_handle_map_id counter in
  entries ← init_entries 0 (Z.to_nat (capacity - 1));
  Ok (mkHandleMap id 0 0 entries, counter).

Definition new {E T} (counter : Z) : res E (HandleMap T * Z) :=
  new_with_capacity MIN_CAPACITY counter.

(** [while next_cap <= cap_at_least { next_cap *= 2 }].  The fuel is a bound on
    the number of doublings; 16 are enough for any [cap_at_least] below
    [MAX_CAPACITY + 1] (lemma [double_until_gt]). *)
Fixpoint double_until (fuel : nat) (next_cap cap_at_least : Z) : Z :=
  match fuel with
  | O => next_cap
  | S fuel' =>
      if next_cap <=? cap_at_least then double_until fuel' (next_cap * 2) cap_at_least
      else next_cap
  end.

(** The loop that pushes new entries onto the front of the free list, one per
    missing slot. *)
Fixpoint push_free {E T} (n : nat) (es : list (Entry T)) (first_free : Z)
    : res E (list (Entry T) * Z) :=
  match n with
  | O => Ok (es, first_free)
  | S n' =>
      let es := es ++ [mkEntry 1 (InFreeList first_free)] in
      first_free ← to_u16 (Z.of_nat (length es) - 1);
      push_free n' es first_free
  end.

(** The walk of the free list in [assert_valid].  [free_indices] holds, per slot,
    [(should_be_in_free_list, is_in_free_list)]. *)
Fixpoint walk_free {E T} (fuel : nat) (es : list (Entry T)) (free_indices : list (bool * bool))
    (next : Z) : res E (list (bool * bool)) :=
  match fuel with
  | O => Panic "out of fuel"
  | S fuel' =>
      let ni := Z.to_nat next in
      _ ← rassert (Z.of_nat ni <=? Z.of_nat (length free_indices))
            "Free list contains out of bounds index!";
      match free_indices !! ni with
      | None => Panic "index out of bounds"
      | Some (should, is_in) =>
          _ ← rassert should "Free list has an index that shouldn't be free!";
          _ ← rassert (negb is_in) "Free list hit an index more than once! Cycle detected!";
          let free_indices := <[ni := (should, true)]> free_indices in
          e ← entry_at es next;
          match state e with
          | InFreeList next_index => walk_free fuel' es free_indices next_index
          | EndOfFreeList => Ok free_indices
          | Active _ => Panic "Bug: Active item in free list"
          end
      end
  end.

Definition bool_pair_eq (p : bool * bool) : bool := Bool.eqb (fst p) (snd p).

(** [assert_valid], the consistency check of debug builds and tests.  The walk
    marks a fresh index at every step, so [capacity + 1] steps are enough. *)
Definition assert_valid {E T} (m : HandleMap T) : res E unit :=
  _ ← rassert (negb (len m =? capacity m)) "assertion failed: `(left != right)`";
  _ ← rassert (capacity m <=? MAX_CAPACITY) "Entries too large";
  let number_of_ends := length (filter (λ e, is_end_of_list (state e) = true) (entries m)) in
  _ ← rassert (Nat.eqb number_of_ends 1)
        "More than one entry think's it's the end of the list, or no entries do";
  let free_indices := (λ e, (negb (is_occupied (state e)), false)) <$> entries m in
  free_indices ← walk_free (S (length (entries m))) (entries m) free_indices (first_free m);
  _ ← rassert (forallb bool_pair_eq free_indices)
        "Free list missed item, or contains an item it shouldn't";
  let occupied_count := length (filter (λ p : bool * bool, fst p = false) free_indices) in
  rassert (num_entries m =? Z.of_nat occupied_count)
    "num_entries doesn't reflect the actual number of entries".

(** [debug_check_valid]; [debug] is the build's [debug_assertions]. *)
Definition debug_check_valid {E T} (debug : bool) (m : HandleMap T) : res E unit :=
  if debug then assert_valid m else Ok tt.

Definition ensure_capacity {E T} (debug : bool) (cap_at_least : Z) (m : HandleMap T)
    : res E (HandleMap T) :=
  _ ← rassert (negb (len m =? capacity m)) "Bug: should have grown by now";
  _ ← rassert (cap_at_least <=? MAX_CAPACITY) "HandleMap overfilled";
  if cap_at_least <? capacity m then Ok m
  else
    let next_cap := double_until 16 (capacity m) cap_at_least in
    let next_cap := Z.min next_cap MAX_CAPACITY in
    e ← entry_at (entries m) (first_free m);
    _ ← rassert (negb (is_occupied (state e)))
          "Bug: HandleMap.first_free points at occupied index";
    '(es, ff) ← push_free (Z.to_nat (next_cap - 1 - capacity m)) (entries m) (first_free m);
    let m := mkHandleMap (id m) ff (num_entries m) es in
    _ ← debug_check_valid debug m;
    Ok m.

Definition insert {E T} (debug : bool) (v : T) (m : HandleMap T)
    : res E (Handle * HandleMap T) :=
  let need_cap := len m + 1 in
  m ← ensure_capacity debug need_cap m;
  let index := first_free m in
  entry ← entry_at (entries m) index;
  new_first_free ←
    match state entry with
    | InFreeList i => Ok i
    | _ => Panic "Bug: next_index pointed at non-free list entry (or end of list)"
    end;
  version ← uadd debug 16 (version entry) 1;
  version ← (if version =? 0 then uadd debug 16 version 2 else Ok version);
  let m' := mkHandleMap (id m) new_first_free (num_entries m + 1)
              (<[Z.to_nat index := mkEntry version (Active v)]> (entries m)) in
  let result := mkHandle (id m) version index in
  _ ← debug_check_valid debug m';
  Ok (result, m').

Definition check_handle {T} (m : HandleMap T) (h : Handle) : res HandleError Z :=
  if negb (map_id h =? id m) then Err WrongMap
  else
    let index := index h in
    if Z.of_nat (length (entries m)) <=? index then Err IndexPastEnd
    else
      e ← entry_at (entries m) index;
      if negb (version e =? hversion h) then Err StaleVersion
      else if negb (hversion h mod 2 =? 0) then Err StaleVersion
      else Ok index.

Definition remove {T} (debug : bool) (h : Handle) (m : HandleMap T)
    : res HandleError (T * HandleMap T) :=
  idx ← check_handle m h;
  entry ← entry_at (entries m) idx;
  ver ← uadd debug 16 (version entry) 1;
  let last_state := state entry in
  let m' := mkHandleMap (id m) (index h) (num_entries m - 1)
              (<[Z.to_nat idx := mkEntry ver (InFreeList (first_free m))]> (entries m)) in
  match last_state with
  | Active value =>
      _ ← debug_check_valid debug m';
      Ok (value, m')
  | _ => Panic "Handle passed validation but references unoccupied entry"
  end.

Definition delete {T} (debug : bool) (h : Handle) (m : HandleMap T)
    : res HandleError (unit * HandleMap T) :=
  '(_, m') ← remove debug h m;
  Ok (tt, m').

Definition get {T} (m : HandleMap T) (h : Handle) : res HandleError T :=
  idx ← check_handle m h;
  entry ← entry_at (entries m) idx;
  ok_or InvalidHandle (get_item (state entry)).

(** [get_mut] hands out [&mut T]; the caller's write through it is [f]. *)
Definition get_mut {T} (h : Handle) (f : T → T) (m : HandleMap T)
    : res HandleError (T * HandleMap T) :=
  idx ← check_handle m h;
  entry ← entry_at (entries m) idx;
  item ← ok_or InvalidHandle (get_item (state entry));
  Ok (item, mkHandleMap (id m) (first_free m) (num_entries m)
              (<[Z.to_nat idx := mkEntry (version entry) (Active (f item))]> (entries m))).

(** ** The representation invariant *)

(** [chain es fl]: following the links from the head of [fl] visits exactly [fl]
    and stops at the sentinel. *)
Fixpoint chain {T} (es : list (Entry T)) (fl : list nat) : Prop :=
  match fl with
  | [] => False
  | i :: tl =>
      match tl with
      | [] => ∃ v, es !! i = Some (mkEntry v EndOfFreeList)
      | j :: _ => (∃ v, es !! i = Some (mkEntry v (InFreeList (Z.of_nat j)))) ∧ chain es tl
      end
  end.

Record wf {T} (m : HandleMap T) (fl : list nat) : Prop := {
  wf_head : ∃ i tl, fl = i :: tl ∧ first_free m = Z.of_nat i;
  wf_chain : chain (entries m) fl;
  wf_nodup : NoDup fl;
  wf_free : ∀ i e, entries m !! i = Some e → (i ∈ fl ↔ is_occupied (state e) = false);
  wf_len : num_entries m + Z.of_nat (length fl) = capacity m;
  wf_cap : MIN_CAPACITY ≤ capacity m ≤ MAX_CAPACITY;
  wf_ver : ∀ i e, entries m !! i = Some e →
             1 ≤ version e ≤ U16_MAX ∧ Z.even (version e) = is_occupied (state e);
  wf_id : fits 16 (id m);
}.

Definition valid {T} (m : HandleMap T) : Prop := ∃ fl, wf m fl.

Section chain_lemmas.
Context {T : Type}.
Implicit Types (es : list (Entry T)) (fl : list nat) (m : HandleMap T).

Lemma chain_cons es i j fl :
  chain es (i :: j :: fl) ↔
  (∃ v, es !! i = Some (mkEntry v (InFreeList (Z.of_nat j)))) ∧ chain es (j :: fl).
Proof. done. Qed.

Lemma chain_mono es es' fl :
  (∀ i, i ∈ fl → es' !! i = es !! i) → chain es fl → chain es' fl.
Proof.
  induction fl as [|i [|j fl] IH]; [done| |]; intros Heq.
  - intros [v Hv]. exists v. rewrite Heq; [done|set_solver].
  - rewrite !chain_cons. intros [[v Hv] Hc]. split.
    + exists v. rewrite Heq; [done|set_solver].
    + apply IH; [|done]. intros k Hk. apply Heq. set_solver.
Qed.

Lemma chain_lookup es fl i :
  chain es fl → i ∈ fl → ∃ e, es !! i = Some e ∧ is_occupied (state e) = false.
Proof.
  induction fl as [|k [|j fl] IH]; [done| |].
  - intros [v Hv] ->%list_elem_of_singleton. eauto.
  - rewrite chain_cons. intros [[v Hv] Hc] [->|Hi]%elem_of_cons; eauto.
Qed.

(** Exactly one entry of a chain is the sentinel. *)
Lemma chain_end es fl :
  NoDup fl → chain es fl →
  ∃ k, k ∈ fl ∧ ∀ i e, i ∈ fl → es !! i = Some e →
    (i ∈ [k] ↔ is_end_of_list (state e) = true).
Proof.
  induction fl as [|k [|j fl] IH]; [done| |]; intros Hnd.
  - intros [v Hv]. exists k. split; [set_solver|].
    intros i e ->%list_elem_of_singleton He. simplify_eq. set_solver.
  - rewrite chain_cons. intros [[v Hv] Hc]. apply NoDup_cons in Hnd as [Hk Hnd].
    destruct (IH Hnd Hc) as (l & Hl & Hall). exists l. split; [set_solver|].
    intros i e [->|Hi]%elem_of_cons He; [|by apply Hall].
    simplify_eq. split; [|done]. intros ->%list_elem_of_singleton. done.
Qed.

Lemma wf_lookup_free m fl i :
  wf m fl → i ∈ fl → ∃ e, entries m !! i = Some e ∧ is_occupied (state e) = false.
Proof. intros H. apply chain_lookup, H. Qed.

Lemma wf_free_lt m fl i : wf m fl → i ∈ fl → (i < length (entries m))%nat.
Proof. intros H Hi. destruct (wf_lookup_free m fl i H Hi) as (e & He & _). by eapply lookup_lt_Some. Qed.

(** *** The debug-build check accepts every well-formed map *)

Lemma walk_free_chain {E} es fl (fi : list (bool * bool)) i tl fuel :
  fl = i :: tl → chain es fl → NoDup fl →
  length fi = length es → (length fl < fuel)%nat →
  (∀ k, k ∈ fl → fi !! k = Some (true, false)) →
  ∃ fi', walk_free (E:=E) fuel es fi (Z.of_nat i) = Ok fi' ∧ length fi' = length fi ∧
    ∀ k, fi' !! k = if decide (k ∈ fl) then Some (true, true) else fi !! k.
Proof.
  revert fi i tl fuel. induction fl as [|k fl IH]; [done|].
  intros fi i tl fuel [= <- <-] Hc Hnd Hlen Hfuel Hfi.
  destruct fuel as [|fuel]; [cbn in Hfuel; lia|]. cbn [walk_free].
  destruct (chain_lookup es (k :: fl) k Hc ltac:(set_solver)) as (e & He & Ho).
  pose proof (lookup_lt_Some _ _ _ He) as Hlt.
  rewrite Nat2Z.id, (Hfi k) by set_solver. unfold entry_at. rewrite Nat2Z.id, He.
  unfold rassert. rewrite (proj2 (Z.leb_le _ _)) by lia. cbn.
  apply NoDup_cons in Hnd as [Hk Hnd].
  assert (Hins : ∀ j, <[k:=(true, true)]> fi !! j =
      if decide (j = k) then Some (true, true) else fi !! j).
  { intros j. case_decide as Hj.
    - subst j. apply list_lookup_insert_eq. lia.
    - by apply list_lookup_insert_ne. }
  destruct fl as [|j fl].
  - destruct Hc as [v Hv]. simplify_eq/=. eexists; split; [done|].
    rewrite length_insert; split; [done|]. intros j. rewrite Hins.
    repeat case_decide; set_solver.
  - apply chain_cons in Hc as [[v Hv] Hc]. simplify_eq/=.
    destruct (IH (<[k:=(true, true)]> fi) j fl fuel) as (fi' & -> & Hl & Hfi'); try done.
    { by rewrite length_insert. }
    { cbn in *; lia. }
    { intros l Hl. rewrite Hins, decide_False by (intros ->; done). apply Hfi. set_solver. }
    exists fi'; split; [done|]. rewrite length_insert in Hl. split; [done|].
    intros l. rewrite Hfi', Hins. repeat case_decide; set_solver.
Qed.

Lemma wf_ends m fl :
  wf m fl → length (filter (λ e, is_end_of_list (state e) = true) (entries m)) = 1%nat.
Proof.
  intros H. destruct (chain_end _ fl (wf_nodup _ _ H) (wf_chain _ _ H)) as (k & Hk & Hall).
  apply (filter_length_positions _ _ [k]); [apply NoDup_singleton| |].
  - intros i ->%list_elem_of_singleton. by eapply wf_free_lt.
  - intros i e He. destruct (decide (i ∈ fl)) as [Hi|Hi]; [by apply Hall|].
    split; [intros ->%list_elem_of_singleton; done|]. intros Hend. exfalso. apply Hi.
    rewrite (wf_free _ _ H i e He). by destruct (state e).
Qed.

Lemma wf_walk {E} m fl :
  wf m fl →
  ∃ fi', walk_free (E:=E) (S (length (entries m))) (entries m)
           ((λ e, (negb (is_occupied (state e)), false)) <$> entries m) (first_free m) = Ok fi' ∧
    length fi' = length (entries m) ∧
    ∀ k p, fi' !! k = Some p → p = (bool_decide (k ∈ fl), bool_decide (k ∈ fl)).
Proof.
  intros H. destruct (wf_head _ _ H) as (i & tl & Hfl & Hff).
  destruct (walk_free_chain (E:=E) (entries m) fl
    ((λ e, (negb (is_occupied (state e)), false)) <$> entries m) i tl
    (S (length (entries m)))) as (fi' & Hw & Hl & Hfi'); try done; try apply H.
  { by rewrite length_fmap. }
  { pose proof (filter_length_positions _ _ fl (wf_nodup _ _ H)
      (λ i, wf_free_lt m fl i H) (wf_free m fl H)) as <-.
    apply Nat.lt_succ_r, length_filter. }
  { intros k Hk. destruct (wf_lookup_free m fl k H Hk) as (e & He & Ho).
    by rewrite list_lookup_fmap, He; cbn; rewrite Ho. }
  exists fi'. rewrite Hff, Hw, Hl, length_fmap. do 2 (split; [done|]).
  intros k p Hp. rewrite Hfi', list_lookup_fmap in Hp.
  destruct (entries m !! k) as [e|] eqn:He.
  - pose proof (wf_free _ _ H k e He) as Hf. case_decide as Hk.
    + rewrite bool_decide_true by done. by simplify_eq.
    + rewrite bool_decide_false by done. simplify_eq/=.
      destruct (is_occupied (state e)); [done|tauto].
  - case_decide as Hk; [|done].
    destruct (wf_lookup_free m fl k H Hk) as (e & He' & _). congruence.
Qed.

Lemma wf_len_ne m fl : wf m fl → negb (len m =? capacity m) = true.
Proof.
  intros H. apply negb_true_iff, Z.eqb_neq. unfold len. pose proof (wf_len _ _ H).
  destruct (wf_head _ _ H) as (i & tl & -> & _). cbn in *. lia.
Qed.

Lemma assert_valid_wf {E} m fl : wf m fl → assert_valid (E:=E) m = Ok tt.
Proof.
  intros H. destruct (wf_walk (E:=E) m fl H) as (fi & Hw & Hl & Hfi).
  unfold assert_valid. rewrite !rassert_bind; cycle 1.
  { by rewrite (wf_ends m fl H). }
  { apply Z.leb_le, H. }
  { by eapply wf_len_ne. }
  cbv zeta. rewrite Hw, res_bind_ok, rassert_bind; cycle 1.
  { apply forallb_lookup. intros k p ->%Hfi. by destruct (bool_decide _). }
  unfold rassert. rewrite (proj2 (Z.eqb_eq _ _)); [done|].
  pose proof (filter_bool_length fst fi) as Hc. pose proof (wf_len _ _ H) as Hn.
  rewrite (filter_length_positions (λ p : bool * bool, p.1 = true) fi fl (wf_nodup _ _ H)) in Hc.
  - unfold capacity in Hn. rewrite Hl in Hc. rewrite <-Hc in Hn. lia.
  - rewrite Hl. intros k Hk. by eapply wf_free_lt.
  - intros k p ->%Hfi. cbn. by rewrite bool_decide_eq_true.
Qed.
End chain_lemmas.

(** ** Growth *)

(** Linear arithmetic over the capacity constants. *)
Ltac hm_lia :=
  change MAX_CAPACITY with 32767 in *; change MIN_CAPACITY with 4 in *;
  change U16_MAX with 65535 in *; lia.

(** The doubling loop exits with [next_cap > cap_at_least] once the fuel covers
    the number of doublings. *)
Lemma double_until_gt n cap target :
  target < cap * 2 ^ Z.of_nat n → target < double_until n cap target.
Proof.
  revert cap. induction n as [|n IH]; intros cap H; cbn [double_until]; [lia|].
  destruct (Z.leb_spec cap target); [|done]. apply IH.
  rewrite Nat2Z.inj_succ, Z.pow_succ_r in H; lia.
Qed.

(** Whether [insert] has a slot to use besides the sentinel: either two slots are
    free already, or growing adds one. *)
Definition can_insert {T} (m : HandleMap T) : bool :=
  (len m + 1 <? capacity m) || (len m + 3 <=? MAX_CAPACITY).

(** [es'] extends [es] with unused slots. *)
Definition grown {T} (es es' : list (Entry T)) : Prop :=
  ∃ ex, es' = es ++ ex ∧ Forall (λ e, version e = 1 ∧ is_occupied (state e) = false) ex.

Lemma grown_lookup {T} (es es' : list (Entry T)) i e :
  grown es es' → es' !! i = Some e →
  es !! i = Some e ∨ (es !! i = None ∧ version e = 1 ∧ is_occupied (state e) = false).
Proof.
  intros (ex & -> & Hex) [Hi|[Hi He]]%lookup_app_Some; [by left|]. right.
  rewrite lookup_ge_None_2 by done. rewrite Forall_lookup in Hex. split; [done|]. by eapply Hex.
Qed.

Lemma grown_lookup_old {T} (es es' : list (Entry T)) i e :
  grown es es' → es !! i = Some e → es' !! i = Some e.
Proof. intros (ex & -> & _). apply lookup_app_l_Some. Qed.

Section operations.
Context {T : Type}.
Implicit Types (m : HandleMap T) (fl : list nat).

Lemma wf_push m fl :
  wf m fl → capacity m < MAX_CAPACITY →
  wf (mkHandleMap (id m) (capacity m) (num_entries m)
        (entries m ++ [mkEntry 1 (InFreeList (first_free m))]))
     (length (entries m) :: fl).
Proof.
  intros H Hcap. destruct (wf_head _ _ H) as (i & tl & Hfl & Hff).
  assert (Hnew : length (entries m) ∉ fl).
  { intros Hin. pose proof (wf_free_lt m fl _ H Hin). lia. }
  assert (Hlk : ∀ j e, (entries m ++ [mkEntry 1 (InFreeList (first_free m))]) !! j = Some e →
    entries m !! j = Some e ∨ (j = length (entries m) ∧ e = mkEntry 1 (InFreeList (first_free m)))).
  { intros j e [Hj|[Hj He]]%lookup_app_Some; [by left|].
    right. apply list_lookup_singleton_Some in He as [Hz <-]. split; [lia|done]. }
  split; cbn [id first_free num_entries entries].
  - unfold capacity. eauto.
  - rewrite Hfl. apply chain_cons. rewrite Hff. split.
    + exists 1. rewrite lookup_app_r, Nat.sub_diag by lia. done.
    + rewrite <-Hfl. apply (chain_mono (entries m)); [|apply H].
      intros j Hj. apply lookup_app_l. by eapply wf_free_lt.
  - constructor; [done|apply H].
  - intros j e [Hj|[-> ->]]%Hlk.
    + rewrite elem_of_cons, (wf_free _ _ H j e Hj). split; [|by right].
      intros [->|?]; [|done]. apply lookup_lt_Some in Hj. lia.
    + split; [done|]. intros _. apply elem_of_cons. by left.
  - pose proof (wf_len _ _ H). unfold capacity in *. cbn [entries length].
    rewrite length_app. cbn [length]. lia.
  - pose proof (wf_cap _ _ H). unfold capacity in *. cbn [entries].
    rewrite length_app. cbn [length]. lia.
  - intros j e [Hj|[-> ->]]%Hlk; [by eapply wf_ver|]. split; [|done].
    cbn [version]. hm_lia.
  - apply H.
Qed.

Lemma push_free_wf {E} n m fl :
  wf m fl → capacity m + Z.of_nat n ≤ MAX_CAPACITY →
  ∃ es ff fl',
    push_free (E:=E) n (entries m) (first_free m) = Ok (es, ff) ∧
    wf (mkHandleMap (id m) ff (num_entries m) es) fl' ∧
    grown (entries m) es ∧ length fl' = (length fl + n)%nat.
Proof.
  revert m fl. induction n as [|n IH]; intros m fl H Hcap; cbn [push_free].
  - exists (entries m), (first_free m), fl. rewrite Nat.add_0_r. destruct m.
    do 2 (split; [done|]). split; [|done]. exists []. by rewrite app_nil_r.
  - cbv zeta. rewrite length_app. cbn [length].
    replace (Z.of_nat (length (entries m) + 1) - 1) with (capacity m) by (unfold capacity; lia).
    unfold to_u16. rewrite (proj2 (Z.leb_le _ _)) by hm_lia.
    rewrite res_bind_ok.
    destruct (IH _ _ (wf_push m fl H ltac:(lia))) as (es & ff & fl' & Hp & Hwf & (ex & Hes & Hex) & Hl).
    { unfold capacity in *. cbn [entries]. rewrite length_app. cbn [length]. lia. }
    exists es, ff, fl'. cbn [entries first_free id num_entries] in *. split; [done|].
    split; [done|]. split; [|cbn in Hl; lia].
    eexists (_ :: ex). rewrite Hes, <-app_assoc. split; [done|]. by constructor.
Qed.

Lemma ensure_capacity_wf {E} m fl :
  wf m fl →
  ∃ m' fl',
    (∀ debug, ensure_capacity (E:=E) debug (len m + 1) m = Ok m') ∧ wf m' fl' ∧
    id m' = id m ∧ num_entries m' = num_entries m ∧ grown (entries m) (entries m') ∧
    (can_insert m = true ↔ (2 ≤ length fl')%nat).
Proof.
  intros H. pose proof (wf_len _ _ H) as Hlen. pose proof (wf_cap _ _ H) as Hcap.
  pose proof (wf_len_ne _ _ H) as Hne.
  destruct (wf_head _ _ H) as (i & tl & Hfl & Hff).
  assert (Hn : (1 ≤ length fl)%nat) by (rewrite Hfl; cbn; lia).
  assert (Hmax : (len m + 1 <=? MAX_CAPACITY) = true) by (apply Z.leb_le; unfold len; lia).
  unfold can_insert, ensure_capacity. rewrite Hne, Hmax. cbn [rassert mbind res_bind].
  destruct (Z.ltb_spec (len m + 1) (capacity m)) as [Hlt|Hge]; unfold len in *.
  { exists m, fl. do 4 (split; [done|]). split; [exists []; by rewrite app_nil_r|].
    cbn. split; [lia|done]. }
  assert (capacity m = num_entries m + 1) as Hcm by lia. cbv zeta.
  assert (Hd : double_until 16 (capacity m) (num_entries m + 1) = 2 * capacity m).
  { cbn [double_until]. rewrite Hcm, Z.leb_refl.
    destruct (Z.leb_spec ((num_entries m + 1) * 2) (num_entries m + 1)); hm_lia. }
  destruct (wf_lookup_free m fl i H) as (e & He & Ho); [rewrite Hfl; set_solver|].
  destruct (push_free_wf (E:=E) (Z.to_nat (Z.min (2 * capacity m) MAX_CAPACITY - 1 - capacity m))
              m fl H ltac:(lia)) as (es & ff & fl' & Hp & Hwf & Hgr & Hl).
  exists (mkHandleMap (id m) ff (num_entries m) es), fl'. split.
  { intros debug. unfold entry_at. rewrite Hd, Hp, Hff, Nat2Z.id, He. cbn [mbind res_bind].
    rewrite Ho. cbn [rassert negb mbind res_bind]. unfold debug_check_valid.
    rewrite (assert_valid_wf _ _ Hwf). by destruct debug. }
  do 4 (split; [done|]). cbn. rewrite Z.leb_le. hm_lia.
Qed.

(** Overwriting the first free slot with an active entry pops the free list. *)
Lemma wf_pop m i j fl v ver :
  wf m (i :: j :: fl) → 1 ≤ ver ≤ U16_MAX → Z.even ver = true →
  wf (mkHandleMap (id m) (Z.of_nat j) (num_entries m + 1)
        (<[i := mkEntry ver (Active v)]> (entries m))) (j :: fl).
Proof.
  intros H Hv He. pose proof (wf_nodup _ _ H) as Hnd. apply NoDup_cons in Hnd as [Hi Hnd].
  pose proof (wf_free_lt m _ i H ltac:(set_solver)) as Hlt.
  split; cbn [id first_free num_entries entries].
  - eauto.
  - apply (chain_mono (entries m)); [|apply H].
    intros k Hk. apply list_lookup_insert_ne. by intros ->.
  - done.
  - intros k e [(-> & <- & _)|[Hne Hk]]%list_lookup_insert_Some.
    + split; [done|]. cbn. done.
    + rewrite <-(wf_free _ _ H k e Hk), (elem_of_cons (j :: fl)). naive_solver.
  - pose proof (wf_len _ _ H). unfold capacity in *. cbn [entries length] in *.
    rewrite length_insert. lia.
  - pose proof (wf_cap _ _ H). unfold capacity in *. cbn [entries]. by rewrite length_insert.
  - intros k e [(-> & <- & _)|[Hne Hk]]%list_lookup_insert_Some; [|by eapply wf_ver].
    cbn. rewrite He. done.
  - apply H.
Qed.

(** Freeing an occupied slot pushes it onto the free list. *)
Lemma wf_free_slot m fl i e ver :
  wf m fl → entries m !! i = Some e → is_occupied (state e) = true →
  1 ≤ ver ≤ U16_MAX → Z.even ver = false →
  wf (mkHandleMap (id m) (Z.of_nat i) (num_entries m - 1)
        (<[i := mkEntry ver (InFreeList (first_free m))]> (entries m))) (i :: fl).
Proof.
  intros H Hi Ho Hv He. destruct (wf_head _ _ H) as (j & tl & Hfl & Hff).
  pose proof (lookup_lt_Some _ _ _ Hi) as Hlt.
  assert (i ∉ fl) as Hni by (rewrite (wf_free _ _ H i e Hi), Ho; done).
  split; cbn [id first_free num_entries entries].
  - eauto.
  - rewrite Hfl. apply chain_cons. rewrite <-Hff. split.
    + exists ver. by apply list_lookup_insert_eq.
    + rewrite <-Hfl. apply (chain_mono (entries m)); [|apply H].
      intros k Hk. apply list_lookup_insert_ne. by intros ->.
  - constructor; [done|apply H].
  - intros k e' [(-> & <- & _)|[Hne Hk]]%list_lookup_insert_Some.
    + split; [done|]. intros _. apply elem_of_cons. by left.
    + rewrite <-(wf_free _ _ H k e' Hk), elem_of_cons. naive_solver.
  - pose proof (wf_len _ _ H). unfold capacity in *. cbn [entries length] in *.
    rewrite length_insert. lia.
  - pose proof (wf_cap _ _ H). unfold capacity in *. cbn [entries]. by rewrite length_insert.
  - intros k e' [(-> & <- & _)|[Hne Hk]]%list_lookup_insert_Some; [|by eapply wf_ver].
    cbn. rewrite He. done.
  - apply H.
Qed.
End operations.

(** ** Reading a handle *)

(** A [Handle] value of the source: its three fields are [u16]s. *)
Definition handle_wf (h : Handle) : Prop :=
  fits 16 (map_id h) ∧ fits 16 (hversion h) ∧ fits 16 (index h).
Global Instance handle_wf_dec h : Decision (handle_wf h).
Proof. unfold handle_wf. apply _. Defined.

Section reading.
Context {T : Type}.
Implicit Types (m : HandleMap T) (h : Handle) (v : T).

(** The outcome of [check_handle] on a [u16] index, as a decision list. *)
Lemma check_handle_cases m h :
  handle_wf h →
  (check_handle m h = Ok (index h) ∧ map_id h = id m ∧
     ∃ e, entries m !! Z.to_nat (index h) = Some e ∧ version e = hversion h ∧
          Z.even (hversion h) = true) ∨
  (∃ e, check_handle m h = Err e ∧
     (map_id h ≠ id m ∨ ∀ e, entries m !! Z.to_nat (index h) = Some e →
        version e ≠ hversion h ∨ Z.even (hversion h) = false)).
Proof.
  intros (_ & _ & Hi). unfold check_handle. destruct (Z.eqb_spec (map_id h) (id m)) as [Hid|Hid];
    cbn [negb]; [|by eauto].
  destruct (Z.leb_spec (Z.of_nat (length (entries m))) (index h)) as [Hge|Hlt].
  { right. eexists; split; [done|]. right. intros e He%lookup_lt_Some. unfold fits in Hi. lia. }
  unfold entry_at. destruct (lookup_lt_is_Some_2 (entries m) (Z.to_nat (index h))) as [e He].
  { unfold fits in Hi. lia. }
  rewrite He, res_bind_ok. destruct (Z.eqb_spec (version e) (hversion h)); cbn [negb].
  2:{ right. eexists; split; [done|]. right. intros e' ?. simplify_eq. by left. }
  rewrite <-Zeven_mod. destruct (Z.even (hversion h)) eqn:Hev; cbn [negb].
  - left. eauto 8.
  - right. eexists; split; [done|]. right. by right.
Qed.

Lemma check_handle_version m h i e :
  check_handle m h = Ok i → entries m !! Z.to_nat (index h) = Some e →
  i = index h ∧ map_id h = id m ∧ version e = hversion h ∧ Z.even (hversion h) = true.
Proof.
  unfold check_handle, entry_at. intros Hc He. rewrite He in Hc.
  destruct (Z.eqb_spec (map_id h) (id m)); cbn [negb] in Hc; [|done].
  destruct (Z.leb_spec (Z.of_nat (length (entries m))) (index h)); [done|].
  rewrite res_bind_ok in Hc. destruct (Z.eqb_spec (version e) (hversion h)); cbn [negb] in Hc; [|done].
  rewrite <-Zeven_mod in Hc. destruct (Z.even (hversion h)) eqn:?; cbn in Hc; by simplify_eq.
Qed.

(** [get] succeeds exactly on the current version of an occupied slot. *)
Lemma get_ok_iff m fl h v :
  wf m fl → handle_wf h →
  get m h = Ok v ↔
  map_id h = id m ∧ entries m !! Z.to_nat (index h) = Some (mkEntry (hversion h) (Active v)).
Proof.
  intros Hwf Hh. unfold get. split.
  - intros (i & Hc & Hg)%res_bind_Ok_inv. apply res_bind_Ok_inv in Hg as (e & He & Hg).
    assert (i = index h) as ->.
    { destruct (check_handle_cases m h Hh) as [(Hc' & _)|(? & Hc' & _)]; congruence. }
    unfold entry_at in He. destruct (entries m !! Z.to_nat (index h)) as [e'|] eqn:He'; simplify_eq.
    destruct (check_handle_version m h _ e Hc He') as (_ & ? & Hv & _). split; [done|].
    destruct e as [ver [w| |]]; by simplify_eq/=.
  - intros [Hid He]. destruct (check_handle_cases m h Hh) as [(Hc & _)|(e & Hc & [|Hno])].
    + rewrite Hc, res_bind_ok. unfold entry_at. by rewrite He.
    + done.
    + destruct (wf_ver _ _ Hwf _ _ He) as [_ Hev]. cbn in Hev.
      destruct (Hno _ He) as [|]; cbn in *; congruence.
Qed.

Lemma get_no_panic m h s : handle_wf h → get m h ≠ Panic s.
Proof.
  intros Hh. unfold get.
  destruct (check_handle_cases m h Hh) as [(-> & _ & e & He & _)|(e & -> & _)]; [|done].
  rewrite res_bind_ok. unfold entry_at. rewrite He, res_bind_ok. by destruct (get_item _).
Qed.
End reading.

(** ** What each operation does *)

Definition no_version_max {T} (m : HandleMap T) : Prop :=
  ∀ i e, entries m !! i = Some e → version e ≠ U16_MAX.

(** The version an insertion or a removal gives to a slot in a release build. *)
Definition bump (ver : Z) : Z := if ver =? U16_MAX then 2 else ver + 1.

Section effects.
Context {T : Type}.
Implicit Types (m : HandleMap T) (h : Handle) (v : T).

Lemma bump_range ver : 1 ≤ ver ≤ U16_MAX → 2 ≤ bump ver ≤ U16_MAX.
Proof. unfold bump. destruct (Z.eqb_spec ver U16_MAX); hm_lia. Qed.

Lemma even_succ_neg ver : Z.even (ver + 1) = negb (Z.even ver).
Proof. rewrite Z.even_add. by destruct (Z.even ver). Qed.

Lemma bump_odd ver : Z.even ver = false → Z.even (bump ver) = true.
Proof.
  intros H. unfold bump. destruct (Z.eqb_spec ver U16_MAX); [done|].
  by rewrite even_succ_neg, H.
Qed.

(** The two-step version update of [insert]. *)
Lemma insert_version {E} debug ver :
  1 ≤ ver ≤ U16_MAX → (debug = true → ver ≠ U16_MAX) →
  ∃ u, uadd (E:=E) debug 16 ver 1 = Ok u ∧
    (if u =? 0 then uadd (E:=E) debug 16 u 2 else Ok u) = Ok (bump ver).
Proof.
  intros Hv Hd. unfold bump. destruct (Z.eqb_spec ver U16_MAX) as [->|Hne].
  - destruct debug; [by destruct Hd|]. by exists 0.
  - exists (ver + 1). rewrite uadd_small by hm_lia. split; [done|].
    destruct (Z.eqb_spec (ver + 1) 0); [lia|done].
Qed.

(** [insert] on a well-formed map with room: it uses the head of the free list of
    the (possibly grown) map. *)
Lemma insert_effect {E} m v :
  valid m → can_insert m = true →
  ∃ i e es m',
    grown (entries m) es ∧ es !! i = Some e ∧ is_occupied (state e) = false ∧
    (∀ debug, (debug = true → no_version_max m) →
       insert (E:=E) debug v m = Ok (mkHandle (id m) (bump (version e)) (Z.of_nat i), m')) ∧
    id m' = id m ∧ num_entries m' = num_entries m + 1 ∧
    entries m' = <[i := mkEntry (bump (version e)) (Active v)]> es ∧ valid m'.
Proof.
  intros [fl H] Hroom.
  destruct (ensure_capacity_wf (E:=E) m fl H) as
    (m1 & fl1 & Hens & Hwf & Hid & Hnum & Hgr & Hcan).
  apply Hcan in Hroom. destruct (wf_head _ _ Hwf) as (i & [|j tl] & Hfl & Hff);
    [rewrite Hfl in Hroom; cbn in Hroom; lia|]. subst fl1.
  pose proof (wf_chain _ _ Hwf) as [[ver He] _]%chain_cons.
  destruct (wf_ver _ _ Hwf _ _ He) as [Hv Hev]. cbn in Hv, Hev.
  pose proof (wf_pop m1 i j tl v (bump ver) Hwf) as Hpop.
  specialize (Hpop ltac:(pose proof (bump_range ver Hv); lia) (bump_odd ver Hev)).
  exists i, (mkEntry ver (InFreeList (Z.of_nat j))), (entries m1). eexists.
  do 3 (split; [done|]). split; [|split; [|split; [|split; [|by eexists]]]].
  { intros debug Hdbg. destruct (insert_version (E:=E) debug ver Hv) as (u & Hu & Hb).
    { intros Hd ->. destruct (grown_lookup _ _ _ _ Hgr He) as [Hi|(_ & ? & _)]; [|done].
      by eapply Hdbg. }
    unfold insert. rewrite Hens, res_bind_ok. cbv zeta. unfold entry_at at 1.
    rewrite Hff, Nat2Z.id, He, res_bind_ok. cbn [state version].
    rewrite res_bind_ok, Hu, res_bind_ok, Hb, res_bind_ok, Hid.
    unfold debug_check_valid. rewrite Hid in Hpop. rewrite (assert_valid_wf _ _ Hpop).
    by destruct debug. }
  all: cbn; congruence.
Qed.

(** [remove] of a live handle. *)
Lemma remove_effect m h v :
  valid m → handle_wf h → get m h = Ok v →
  ∃ m',
    (∀ debug, remove debug h m = Ok (v, m')) ∧
    id m' = id m ∧ num_entries m' = num_entries m - 1 ∧
    entries m' = <[Z.to_nat (index h) :=
      mkEntry (bump (hversion h)) (InFreeList (first_free m))]> (entries m) ∧ valid m'.
Proof.
  intros [fl H] Hh Hg. pose proof Hg as [Hid He]%(get_ok_iff m fl h v H Hh).
  destruct (wf_ver _ _ H _ _ He) as [Hv Hev]. cbn in Hv, Hev.
  assert (hversion h ≠ U16_MAX) as Hne by (intros Hx; by rewrite Hx in Hev).
  assert (Hb : bump (hversion h) = hversion h + 1).
  { unfold bump. by destruct (Z.eqb_spec (hversion h) U16_MAX). }
  assert (Hi : 0 ≤ index h) by apply Hh.
  pose proof (wf_free_slot m fl _ _ (hversion h + 1) H He eq_refl ltac:(hm_lia)
    ltac:(by rewrite even_succ_neg, Hev)) as Hwf.
  rewrite Z2Nat.id in Hwf by done.
  unfold remove. unfold get in Hg. apply res_bind_Ok_inv in Hg as (i & Hc & Hg).
  destruct (check_handle_version m h i _ Hc He) as (-> & _ & _ & _).
  eexists. split.
  { intros debug. rewrite Hc, res_bind_ok. unfold entry_at. rewrite He, res_bind_ok.
    cbn [version state]. rewrite uadd_small by hm_lia. rewrite res_bind_ok.
    unfold debug_check_valid. rewrite (assert_valid_wf _ _ Hwf). by destruct debug. }
  rewrite Hb. cbn. do 3 (split; [done|]). by eexists.
Qed.

(** A handle that does not resolve is refused and the map keeps its contents. *)
Lemma remove_refused debug m h :
  valid m → handle_wf h → (∀ v, get m h ≠ Ok v) → ∃ e, remove debug h m = Err e ∧ get m h = Err e.
Proof.
  intros [fl H] Hh Hno. unfold remove, get in *.
  destruct (check_handle_cases m h Hh) as [(Hc & Hid & e & He & Hv & Hev)|(e & -> & _)]; [|by eexists].
  exfalso. destruct (wf_ver _ _ H _ _ He) as [_ Hocc]. rewrite Hv, Hev in Hocc.
  destruct e as [ver [w| |]]; try done. cbn in Hv. apply (Hno w).
  rewrite Hc, res_bind_ok. unfold entry_at. by rewrite He.
Qed.

(** Without room, the sentinel is the only free slot and [insert] panics. *)
Lemma insert_full {E} debug m v :
  valid m → can_insert m = false →
  insert (E:=E) debug v m =
    Panic "Bug: next_index pointed at non-free list entry (or end of list)".
Proof.
  intros [fl H] Hfull.
  destruct (ensure_capacity_wf (E:=E) m fl H) as
    (m1 & fl1 & Hens & Hwf & Hid & Hnum & Hgr & Hcan).
  destruct (wf_head _ _ Hwf) as (i & tl & -> & Hff).
  destruct tl as [|j tl].
  2:{ exfalso. rewrite Hfull in Hcan. cbn in Hcan. destruct Hcan as [_ Hcan].
      discriminate Hcan. lia. }
  destruct (wf_chain _ _ Hwf) as [ver He].
  unfold insert. rewrite Hens, res_bind_ok. unfold entry_at.
  by rewrite Hff, Nat2Z.id, He, res_bind_ok.
Qed.
End effects.

(** ** Construction *)

Section construction.
Context {T : Type}.

Lemma init_entries_lookup {E} n i :
  0 ≤ i → i + Z.of_nat n ≤ U16_MAX →
  ∃ es : list (Entry T), init_entries (E:=E) i n = Ok es ∧ length es = S n ∧
    es !! n = Some (mkEntry 1 EndOfFreeList) ∧
    ∀ k, (k < n)%nat → es !! k = Some (mkEntry 1 (InFreeList (i + Z.of_nat k + 1))).
Proof.
  revert i. induction n as [|n IH]; intros i Hi Hmax; cbn [init_entries].
  - eexists; split; [done|]. split; [done|]. split; [done|]. intros k Hk. lia.
  - unfold to_u16. rewrite (proj2 (Z.leb_le _ _)) by hm_lia. rewrite res_bind_ok.
    destruct (IH (i + 1)) as (es & -> & Hl & Hend & Hk); [lia|hm_lia|].
    rewrite res_bind_ok. eexists; split; [done|]. cbn [length]. split; [by f_equal|].
    split; [done|]. intros [|k] Hlt; cbn.
    + do 3 f_equal. lia.
    + rewrite Hk by lia. do 3 f_equal. lia.
Qed.

Lemma chain_seq (es : list (Entry T)) n i :
  es !! (i + n)%nat = Some (mkEntry 1 EndOfFreeList) →
  (∀ k, (i ≤ k < i + n)%nat → es !! k = Some (mkEntry 1 (InFreeList (Z.of_nat (S k))))) →
  chain es (seq i (S n)).
Proof.
  revert i. induction n as [|n IH]; intros i Hend Hk.
  - exists 1. by rewrite Nat.add_0_r in Hend.
  - change (seq i (S (S n))) with (i :: S i :: seq (S (S i)) n). apply chain_cons. split.
    + exists 1. apply Hk. lia.
    + apply (IH (S i)); [by rewrite Nat.add_succ_comm|]. intros k Hk'. apply Hk. lia.
Qed.

Lemma new_with_capacity_wf {E} request counter :
  0 ≤ request ≤ MAX_CAPACITY →
  ∃ (m : HandleMap T) counter',
    new_with_capacity (E:=E) request counter = Ok (m, counter') ∧
    (id m, counter') = next_handle_map_id counter ∧ capacity m = Z.max request MIN_CAPACITY ∧
    len m = 0 ∧ wf m (seq 0 (length (entries m))) ∧
    ∀ i e, entries m !! i = Some e → is_occupied (state e) = false.
Proof.
  intros Hreq. unfold new_with_capacity. rewrite rassert_bind by (apply Z.leb_le; lia). cbv zeta.
  set (n := Z.to_nat (Z.max request MIN_CAPACITY - 1)).
  assert (Hn : Z.of_nat (S n) = Z.max request MIN_CAPACITY) by (unfold n; hm_lia).
  destruct (next_handle_map_id counter) as [mid counter'] eqn:Hid.
  destruct (init_entries_lookup (E:=E) n 0) as (es & -> & Hl & Hend & Hlk); [lia|hm_lia|].
  rewrite res_bind_ok.
  assert (Hall : ∀ i e, es !! i = Some e → (i < S n)%nat ∧ version e = 1 ∧ is_occupied (state e) = false).
  { intros i e Hi. pose proof (lookup_lt_Some _ _ _ Hi) as Hlt. split; [lia|].
    destruct (decide (i = n)) as [->|]; [by simplify_eq|]. rewrite Hlk in Hi by lia. by simplify_eq. }
  eexists _, _. split; [done|]. split; [done|]. unfold capacity, len. cbn [entries num_entries].
  split; [by rewrite Hl|]. split; [done|]. split; [|intros i e Hi; by apply (Hall i e Hi)].
  rewrite Hl. split; cbn [id first_free num_entries entries].
  - by exists 0%nat, (seq 1 n).
  - apply chain_seq; [done|]. intros k Hk. rewrite Hlk by lia. do 3 f_equal. lia.
  - apply NoDup_seq.
  - intros i e Hi. destruct (Hall i e Hi) as (? & _ & ->). rewrite elem_of_seq. split; [done|lia].
  - unfold capacity. cbn [entries]. by rewrite length_seq, Hl.
  - unfold capacity. cbn [entries]. rewrite Hl. hm_lia.
  - intros i e Hi. destruct (Hall i e Hi) as (_ & -> & ->). split; [hm_lia|done].
  - unfold next_handle_map_id in Hid. simplify_eq. by apply wrap_fits.
Qed.
End construction.

(** ** The abstract map and the refinement

    A client sees a finite map from handles to values.  [op] is the public
    interface, [step] runs the concrete map (release build), [spec_step] is what
    the interface promises. *)
Inductive op (T : Type) := OpInsert (v : T) | OpRemove (h : Handle) | OpGet (h : Handle).
Arguments OpInsert {T} v.
Arguments OpRemove {T} h.
Arguments OpGet {T} h.

Inductive out (T : Type) := OutHandle (h : Handle) | OutValue (v : T) | OutError (e : HandleError).
Arguments OutHandle {T} h.
Arguments OutValue {T} v.
Arguments OutError {T} e.

Definition op_wf {T} (o : op T) : Prop :=
  match o with OpInsert _ => True | OpRemove h | OpGet h => handle_wf h end.

Global Instance op_wf_dec {T} (o : op T) : Decision (op_wf o).
Proof. destruct o; apply _. Defined.

(** One call on the concrete map.  A refused call leaves the map as it is. *)
Definition step {T} (o : op T) (m : HandleMap T) : res unit (out T * HandleMap T) :=
  match o with
  | OpInsert v => '(h, m') ← insert false v m; Ok (OutHandle h, m')
  | OpRemove h =>
      match remove false h m with
      | Ok (v, m') => Ok (OutValue v, m')
      | Err e => Ok (OutError e, m)
      | Panic s => Panic s
      end
  | OpGet h =>
      match get m h with
      | Ok v => Ok (OutValue v, m)
      | Err e => Ok (OutError e, m)
      | Panic s => Panic s
      end
  end.

Fixpoint run {T} (ops : list (op T)) (m : HandleMap T) : res unit (list (out T) * HandleMap T) :=
  match ops with
  | [] => Ok ([], m)
  | o :: ops' =>
      '(r, m1) ← step o m;
      '(rs, m2) ← run ops' m1;
      Ok (r :: rs, m2)
  end.

Inductive spec_step {T} : gmap Handle T → op T → out T → gmap Handle T → Prop :=
| spec_insert s v h :
    s !! h = None → handle_wf h → spec_step s (OpInsert v) (OutHandle h) (<[h := v]> s)
| spec_remove s h v :
    s !! h = Some v → spec_step s (OpRemove h) (OutValue v) (base.delete h s)
| spec_remove_stale s h e :
    s !! h = None → spec_step s (OpRemove h) (OutError e) s
| spec_get s h v :
    s !! h = Some v → spec_step s (OpGet h) (OutValue v) s
| spec_get_stale s h e :
    s !! h = None → spec_step s (OpGet h) (OutError e) s.

Inductive spec_run {T} : gmap Handle T → list (op T) → list (out T) → gmap Handle T → Prop :=
| spec_run_nil s : spec_run s [] [] s
| spec_run_cons s1 s2 s3 o r ops rs :
    spec_step s1 o r s2 → spec_run s2 ops rs s3 → spec_run s1 (o :: ops) (r :: rs) s3.

(** The concrete map [m] implements the abstract map [s]. *)
Definition implements {T} (m : HandleMap T) (s : gmap Handle T) : Prop :=
  valid m ∧ ∀ h v, s !! h = Some v ↔ handle_wf h ∧ get m h = Ok v.

#[export] Hint Constructors spec_step spec_run : appsvc.

Section refinement.
Context {T : Type}.
Implicit Types (m : HandleMap T) (s : gmap Handle T).

Lemma implements_get m s h : implements m s → handle_wf h →
  s !! h = match get m h with Ok v => Some v | _ => None end.
Proof.
  intros [_ H] Hh. destruct (s !! h) as [v|] eqn:Hs.
  - apply H in Hs as [_ ->]. done.
  - destruct (get m h) as [v| |] eqn:Hg; try done.
    assert (s !! h = Some v) by (by apply H). congruence.
Qed.

(** Reading after a free slot [i] was filled with [v] under version [ver]. *)
Lemma fill_get m m' fl fl' es i e ver v h w :
  wf m fl → wf m' fl' → grown (entries m) es → es !! i = Some e →
  is_occupied (state e) = false → id m' = id m →
  entries m' = <[i := mkEntry ver (Active v)]> es → handle_wf h →
  get m' h = Ok w ↔
    (h = mkHandle (id m) ver (Z.of_nat i) ∧ w = v) ∨
    (h ≠ mkHandle (id m) ver (Z.of_nat i) ∧ get m h = Ok w).
Proof.
  intros Hwf Hwf' Hgr Hi Hocc Hid Hes Hh.
  assert (Hlt := lookup_lt_Some _ _ _ Hi).
  rewrite (get_ok_iff m fl), (get_ok_iff m' fl') by done. rewrite Hid, Hes. split.
  - intros [Hmid [(Hix & Heq & _)|[Hni Hlk]]%list_lookup_insert_Some].
    + left. simplify_eq. destruct h as [a b c]; cbn in *. split; [|done]. subst a.
      f_equal. unfold handle_wf, fits in Hh. cbn in Hh. lia.
    + right. split; [intros ->; cbn in Hni; by rewrite Nat2Z.id in Hni|]. split; [done|].
      by destruct (grown_lookup _ _ _ _ Hgr Hlk) as [?|(_ & _ & ?)].
  - intros [[-> ->]|(Hne & Hmid & Hlk)]; cbn.
    + rewrite Nat2Z.id. split; [done|]. by apply list_lookup_insert_eq.
    + split; [done|]. destruct (decide (Z.to_nat (index h) = i)) as [Hix|Hni].
      * exfalso. pose proof (grown_lookup_old _ _ _ _ Hgr Hlk) as Hlk'.
        rewrite Hix in Hlk'. by simplify_eq.
      * rewrite list_lookup_insert_ne by done. by eapply grown_lookup_old.
Qed.

Lemma insert_implements m s v :
  implements m s → can_insert m = true →
  ∃ h m', insert (E:=unit) false v m = Ok (h, m') ∧
    s !! h = None ∧ handle_wf h ∧ implements m' (<[h := v]> s) ∧ get m' h = Ok v ∧
    len m' = len m + 1.
Proof.
  intros [Hv Hs] Hroom.
  destruct (insert_effect (E:=unit) m v Hv Hroom) as
    (i & e & es & m' & Hgr & Hi & Hocc & Hins & Hid & Hnum & Hes & Hv').
  destruct Hv as [fl Hwf]. destruct Hv' as [fl' Hwf'].
  assert (Hm' : entries m' !! i = Some (mkEntry (bump (version e)) (Active v))).
  { rewrite Hes. apply list_lookup_insert_eq. by eapply lookup_lt_Some. }
  destruct (wf_ver _ _ Hwf' i _ Hm') as [Hr Hev]. cbn in Hr, Hev.
  assert (Hh : handle_wf (mkHandle (id m) (bump (version e)) (Z.of_nat i))).
  { pose proof (lookup_lt_Some _ _ _ Hm') as Hlt. pose proof (wf_cap _ _ Hwf') as Hc.
    pose proof (wf_id _ _ Hwf) as Hidr. unfold capacity in Hc.
    unfold handle_wf, fits in *; cbn. change (2 ^ 16) with 65536 in *. hm_lia. }
  assert (Hget := λ h w, fill_get m m' fl fl' es i e _ v h w Hwf Hwf' Hgr Hi Hocc Hid Hes).
  specialize (Hins false ltac:(done)).
  eexists _, m'. split; [done|]. split; [|split; [done|split; [split; [by exists fl'|]|split]]].
  - destruct (s !! _) as [w|] eqn:Hw; [|done]. apply Hs in Hw as [_ Hg].
    apply (get_ok_iff m fl) in Hg as [_ Hg]; [|done..]. cbn in Hg. rewrite Nat2Z.id in Hg.
    destruct (grown_lookup _ _ _ _ Hgr Hi) as [Hi'|[? _]]; [|congruence].
    rewrite Hi' in Hg. injection Hg as Hg. by rewrite Hg in Hocc.
  - intros h w. rewrite lookup_insert_Some, (Hs h w). split.
    + intros [[<- <-]|(Hne & Hhw & Hg)]; split; try done; apply Hget; [done|by left|done|].
      right. split; [by apply not_eq_sym|done].
    + intros [Hhw [[-> ->]|[Hne Hg]]%Hget]; [by left| |done].
      right. split; [by apply not_eq_sym|done].
  - apply Hget; [done|]. by left.
  - unfold len. by rewrite Hnum.
Qed.

Lemma remove_implements m s h v :
  implements m s → s !! h = Some v →
  ∃ m', remove false h m = Ok (v, m') ∧ implements m' (base.delete h s) ∧ len m' = len m - 1.
Proof.
  intros [Hv Hs] Hsh. apply Hs in Hsh as [Hh Hg].
  destruct (remove_effect m h v Hv Hh Hg) as (m' & Hrem & Hid & Hnum & Hes & Hv').
  destruct Hv as [fl Hwf]. destruct Hv' as [fl' Hwf'].
  pose proof Hg as [Hmid He]%(get_ok_iff m fl h v Hwf Hh).
  exists m'. split; [apply Hrem|]. split; [|by unfold len; rewrite Hnum].
  split; [by exists fl'|]. intros k w. rewrite lookup_delete_Some.
  rewrite (Hs k w). destruct (decide (handle_wf k)) as [Hk|Hk]; [|tauto].
  rewrite (get_ok_iff m fl), (get_ok_iff m' fl') by done. rewrite Hid, Hes. split.
  - intros (Hne & _ & Hkid & Hlk). split; [done|]. split; [done|].
    rewrite list_lookup_insert_ne; [done|]. intros Hix. apply Hne.
    rewrite <-Hix, He in Hlk. simplify_eq. destruct h, k; unfold handle_wf, fits in *; cbn in *.
    f_equal; try congruence. lia.
  - intros (_ & Hkid & Hlk). apply list_lookup_insert_Some in Hlk as [(_ & ? & _)|[Hni Hlk]]; [done|].
    split; [by intros ->|]. done.
Qed.

Lemma step_implements m s o r m' :
  implements m s → op_wf o → step o m = Ok (r, m') →
  ∃ s', spec_step s o r s' ∧ implements m' s'.
Proof.
  intros Himp Ho Hst. destruct o as [v|h|h]; cbn in Ho, Hst.
  - destruct (can_insert m) eqn:Hroom.
    + destruct (insert_implements m s v Himp Hroom) as (h & m1 & Hins & ? & ? & ? & _).
      rewrite Hins in Hst. simplify_eq/=. eauto with appsvc.
    + rewrite insert_full in Hst by (done || apply Himp). done.
  - destruct (s !! h) as [v|] eqn:Hs.
    + destruct (remove_implements m s h v Himp Hs) as (m1 & Hrem & ? & _).
      rewrite Hrem in Hst. simplify_eq/=. eauto with appsvc.
    + destruct (remove_refused false m h (proj1 Himp) Ho) as (e & Hrem & _).
      { intros v Hg. rewrite (implements_get m s h Himp Ho), Hg in Hs. done. }
      rewrite Hrem in Hst. simplify_eq/=. eauto with appsvc.
  - pose proof (implements_get m s h Himp Ho) as Hs.
    destruct (get m h) as [v|e|]; simplify_eq/=; eauto with appsvc.
Qed.

Lemma run_implements m s ops rs m' :
  implements m s → Forall op_wf ops → run ops m = Ok (rs, m') →
  ∃ s', spec_run s ops rs s' ∧ implements m' s'.
Proof.
  revert m s rs. induction ops as [|o ops IH]; intros m s rs Himp Hops Hrun; cbn in Hrun.
  - simplify_eq. eauto with appsvc.
  - apply Forall_cons in Hops as [Ho Hops].
    apply res_bind_Ok_inv in Hrun as ([r m1] & Hst & Hrun).
    apply res_bind_Ok_inv in Hrun as ([rs' m2] & Hrun & ?). simplify_eq.
    destruct (step_implements m s o r m1 Himp Ho Hst) as (s1 & ? & Himp1).
    destruct (IH m1 s1 rs' Himp1 Hops Hrun) as (s2 & ? & ?). eauto with appsvc.
Qed.

Lemma new_implements {E} request counter :
  0 ≤ request ≤ MAX_CAPACITY →
  ∃ m counter', new_with_capacity (E:=E) request counter = Ok (m, counter') ∧ implements m ∅.
Proof.
  intros Hr. destruct (new_with_capacity_wf (T:=T) (E:=E) request counter Hr) as
    (m & c & Hnew & _ & _ & _ & Hwf & Hocc).
  exists m, c. split; [done|]. split; [by eexists|]. intros h v. rewrite lookup_empty.
  split; [done|]. intros [Hh Hg]. apply (get_ok_iff m _ h v Hwf Hh) in Hg as [_ Hg].
  apply Hocc in Hg. done.
Qed.
End refinement.

(** ** Versions over time *)

(** The position of a version on the cycle 2, 3, ..., 65535, 2, ... that a slot
    runs through in a release build. *)
Definition vpos (ver : Z) : Z := (ver - 2) mod 65534.

Section versions.
Context {T : Type}.
Implicit Types (m : HandleMap T).

Lemma vpos_bump ver : 1 ≤ ver ≤ U16_MAX → vpos (bump ver) = (vpos ver + 1) mod 65534.
Proof.
  intros Hv. unfold vpos, bump. rewrite Zplus_mod_idemp_l.
  destruct (Z.eqb_spec ver U16_MAX) as [->|Hne]; [done|]. f_equal. lia.
Qed.

Lemma step_versions m o r m' i e :
  valid m → op_wf o → step o m = Ok (r, m') → entries m !! i = Some e →
  valid m' ∧ id m' = id m ∧
  ∃ e', entries m' !! i = Some e' ∧ (version e' = version e ∨ version e' = bump (version e)).
Proof.
  intros Hv Ho Hst He. destruct o as [v|h|h]; cbn in Ho, Hst.
  - destruct (can_insert m) eqn:Hroom; [|by rewrite insert_full in Hst].
    destruct (insert_effect (E:=unit) m v Hv Hroom) as
      (j & e1 & es & m1 & Hgr & Hj & _ & Hins & Hid & _ & Hes & Hv1).
    rewrite Hins in Hst by done. simplify_eq/=. split; [done|]. split; [done|]. rewrite Hes.
    pose proof (grown_lookup_old _ _ _ _ Hgr He) as He1.
    destruct (decide (i = j)) as [->|Hne].
    + rewrite list_lookup_insert_eq by (by eapply lookup_lt_Some). simplify_eq. eauto.
    + rewrite list_lookup_insert_ne by done. eauto.
  - destruct (remove false h m) as [[v m1]|e1|] eqn:Hrem; simplify_eq/=; [|by split_and!; eauto].
    destruct (get m h) as [v'|e1|] eqn:Hg.
    + destruct (remove_effect m h v' Hv Ho Hg) as (m1 & Hrem' & Hid & _ & Hes & Hv1).
      specialize (Hrem' false). rewrite Hrem in Hrem'. simplify_eq. split; [done|]. split; [done|]. rewrite Hes.
      destruct Hv as [fl Hwf]. apply (get_ok_iff m fl h v' Hwf Ho) in Hg as [_ Hlk].
      destruct (decide (i = Z.to_nat (index h))) as [->|Hne].
      * rewrite list_lookup_insert_eq by (by eapply lookup_lt_Some). simplify_eq. eauto.
      * rewrite list_lookup_insert_ne by done. eauto.
    + destruct (remove_refused false m h Hv Ho) as (e2 & ? & _); [by rewrite Hg|congruence].
    + by apply get_no_panic in Hg.
  - destruct (get m h); simplify_eq/=; split_and!; eauto.
Qed.

Lemma run_versions ops m rs m' i e :
  valid m → Forall op_wf ops → run ops m = Ok (rs, m') → entries m !! i = Some e →
  valid m' ∧ id m' = id m ∧
  ∃ e' k, entries m' !! i = Some e' ∧ 0 ≤ k ≤ Z.of_nat (length ops) ∧
    vpos (version e') = (vpos (version e) + k) mod 65534.
Proof.
  revert m rs e. induction ops as [|o ops IH]; intros m rs e Hv Hops Hrun He; cbn in Hrun.
  - simplify_eq. do 2 (split; [done|]). exists e, 0. split; [done|]. split; [done|].
    unfold vpos. by rewrite Z.add_0_r, Zmod_mod.
  - apply Forall_cons in Hops as [Ho Hops].
    apply res_bind_Ok_inv in Hrun as ([r m1] & Hst & Hrun).
    apply res_bind_Ok_inv in Hrun as ([rs' m2] & Hrun & ?). simplify_eq.
    destruct (step_versions m o r m1 i e Hv Ho Hst He) as (Hv1 & Hid & e1 & He1 & Hver).
    destruct (IH m1 rs' e1 Hv1 Hops Hrun He1) as (Hv2 & Hid2 & e2 & k & He2 & Hk & Hpos).
    split; [done|]. split; [congruence|]. exists e2. cbn [length].
    destruct Hver as [Hver|Hver].
    + exists k. rewrite <-Hver. split; [done|]. split; [lia|done].
    + exists (k + 1). split; [done|]. split; [lia|]. destruct Hv as [fl Hwf].
      rewrite Hpos, Hver, vpos_bump by (by eapply wf_ver).
      rewrite Zplus_mod_idemp_l. f_equal. lia.
Qed.
End versions.

(** ** Properties of the handle map *)

(** C1: The concrete map implements its abstract specification.  Starting from a
    fresh map (any requested capacity up to the maximum), every sequence of
    insertions, removals and lookups with arbitrary 16-bit handles that runs to the
    end returns results the specification allows: an insertion returns a handle not
    in use, a removal or lookup succeeds exactly on the handles in use with the value
    stored under them, and anything else is an error that changes nothing. *)
Theorem handle_map_refines_spec {T} request counter (ops : list (op T)) m counter' rs m' :
  0 ≤ request ≤ MAX_CAPACITY →
  new_with_capacity (E:=unit) request counter = Ok (m, counter') →
  Forall op_wf ops → run ops m = Ok (rs, m') →
  ∃ s, spec_run ∅ ops rs s ∧ implements m' s.
Proof.
  intros Hr Hnew Hops Hrun.
  destruct (new_implements (T:=T) (E:=unit) request counter Hr) as (m0 & c0 & Hnew' & Himp).
  rewrite Hnew in Hnew'. simplify_eq. by eapply run_implements.
Qed.

Definition wit_map : HandleMap string :=
  mkHandleMap 8 0 0 [mkEntry 1 (InFreeList 1); mkEntry 1 (InFreeList 2);
                     mkEntry 1 (InFreeList 3); mkEntry 1 EndOfFreeList].
Definition wit_ops : list (op string) :=
  [OpInsert "a"; OpInsert "b"; OpRemove (mkHandle 8 2 0); OpInsert "c";
   OpGet (mkHandle 8 2 0); OpGet (mkHandle 8 4 0)].
Definition wit_out : list (out string) :=
  [OutHandle (mkHandle 8 2 0); OutHandle (mkHandle 8 2 1); OutValue "a";
   OutHandle (mkHandle 8 4 0); OutError StaleVersion; OutValue "c"].
Definition wit_map' : HandleMap string :=
  mkHandleMap 8 2 2 [mkEntry 4 (Active "c"); mkEntry 2 (Active "b");
                     mkEntry 1 (InFreeList 3); mkEntry 1 EndOfFreeList].

Lemma handle_map_refines_spec_witness :
  ∃ s, spec_run ∅ wit_ops wit_out s ∧ implements wit_map' s.
Proof.
  apply (handle_map_refines_spec 4 7 wit_ops wit_map 8 wit_out wit_map').
  - split; vm_compute; congruence.
  - vm_compute. reflexivity.
  - apply (bool_decide_unpack (Forall op_wf wit_ops)). vm_compute. exact I.
  - vm_compute. reflexivity.
Defined.

(** C5: Use after free is detected.  After a handle was removed, it is refused with
    [StaleVersion] after any further sequence of fewer than 65533 operations on the
    map, whatever was inserted into its slot in between (release build, where the
    16-bit version wraps). *)
Theorem removed_handle_stays_stale {T} (m : HandleMap T) h v m1 ops rs m2 :
  valid m → handle_wf h → remove false h m = Ok (v, m1) →
  Forall op_wf ops → run ops m1 = Ok (rs, m2) → Z.of_nat (length ops) < 65533 →
  get m2 h = Err StaleVersion.
Proof.
  intros Hv Hh Hrem Hops Hrun Hlen.
  destruct (get m h) as [v'|e|s] eqn:Hg.
  2:{ destruct (remove_refused false m h Hv Hh) as (e' & ? & _); [by rewrite Hg|congruence]. }
  2:{ by apply get_no_panic in Hg. }
  destruct (remove_effect m h v' Hv Hh Hg) as (m1' & Hrem' & Hid & _ & Hes & Hv1).
  assert (m1' = m1) as -> by (specialize (Hrem' false); congruence).
  destruct Hv as [fl Hwf]. apply (get_ok_iff m fl h v' Hwf Hh) in Hg as [Hmid Hlk].
  pose proof (lookup_lt_Some _ _ _ Hlk) as Hlt.
  destruct (run_versions ops m1 rs m2 (Z.to_nat (index h))
    (mkEntry (bump (hversion h)) (InFreeList (first_free m))) Hv1 Hops Hrun) as
    (_ & Hid2 & e2 & k & He2 & Hk & Hpos).
  { rewrite Hes. by apply list_lookup_insert_eq. }
  destruct (wf_ver _ _ Hwf _ _ Hlk) as [Hr _]. cbn in Hr, Hpos.
  assert (version e2 ≠ hversion h) as Hne.
  { intros Heq. rewrite Heq, vpos_bump, Zplus_mod_idemp_l in Hpos by done. unfold vpos in Hpos.
    rewrite <-Z.add_assoc, Zplus_mod_idemp_l in Hpos.
    apply Z.cong_iff_0 in Hpos.
    replace (hversion h - 2 - (hversion h - 2 + (1 + k))) with (- (1 + k)) in Hpos by lia.
    apply Z.mod_divide, Z.divide_opp_r in Hpos; [|done].
    apply Z.divide_pos_le in Hpos; lia. }
  unfold get, check_handle. rewrite Hid2, Hid, Hmid, Z.eqb_refl. cbn [negb].
  pose proof (lookup_lt_Some _ _ _ He2) as Hlt2. destruct Hh as (_ & _ & Hi). unfold fits in Hi.
  destruct (Z.leb_spec (Z.of_nat (length (entries m2))) (index h)); [lia|].
  unfold entry_at. rewrite He2, res_bind_ok. by destruct (Z.eqb_spec (version e2) (hversion h)).
Qed.

(** Membership of [valid] by computation on a concrete map: the debug-build check
    together with the version and identifier ranges. *)
Lemma wit_map'_valid : valid wit_map'.
Proof.
  exists [2%nat; 3%nat]. split.
  - eexists _, _. done.
  - repeat split; eexists; reflexivity.
  - apply (bool_decide_unpack _). vm_compute. exact I.
  - intros [|[|[|[|i]]]] e He; simplify_eq/=; set_solver.
  - done.
  - split; vm_compute; congruence.
  - intros [|[|[|[|i]]]] e He; simplify_eq/=; split; try done; vm_compute; split; congruence.
  - split; vm_compute; congruence.
Qed.

Lemma removed_handle_stays_stale_witness :
  ∃ m1 rs m2,
    remove false (mkHandle 8 4 0) wit_map' = Ok ("c", m1) ∧
    run [OpInsert "d"; OpGet (mkHandle 8 4 0)] m1 = Ok (rs, m2) ∧
    get m2 (mkHandle 8 4 0) = Err StaleVersion.
Proof.
  eexists _, _, _. split; [vm_compute; reflexivity|]. split; [vm_compute; reflexivity|].
  eapply (removed_handle_stays_stale wit_map' (mkHandle 8 4 0) "c" _
            [OpInsert "d"; OpGet (mkHandle 8 4 0)]).
  - apply wit_map'_valid.
  - apply (bool_decide_unpack _). vm_compute. exact I.
  - vm_compute. reflexivity.
  - apply (bool_decide_unpack _). vm_compute. exact I.
  - vm_compute. reflexivity.
  - cbn. lia.
Defined.

(** Capacity.  On a well-formed map, an insertion succeeds exactly when two slots
    are free or the map may still grow ([len + 3 <= MAX_CAPACITY]): it then returns a
    handle under which the value is found, and the length grows by one.  Otherwise it
    panics, whatever the build. *)
Theorem insert_room_or_panic {T} (m : HandleMap T) (v : T) :
  valid m →
  (can_insert m = true →
     ∃ h m', insert (E:=unit) false v m = Ok (h, m') ∧ valid m' ∧
       get m' h = Ok v ∧ len m' = len m + 1) ∧
  (can_insert m = false → ∀ debug,
     insert (E:=unit) debug v m =
       Panic "Bug: next_index pointed at non-free list entry (or end of list)").
Proof.
  intros Hv. split; [|intros; by apply insert_full].
  intros Hroom. destruct (insert_effect (E:=unit) m v Hv Hroom) as
    (i & e & es & m' & Hgr & Hi & Hocc & Hins & Hid & Hnum & Hes & Hv').
  eexists _, m'. split; [by apply Hins|]. split; [done|]. destruct Hv' as [fl' Hwf'], Hv as [fl Hwf].
  assert (Hm' : entries m' !! i = Some (mkEntry (bump (version e)) (Active v))).
  { rewrite Hes. apply list_lookup_insert_eq. by eapply lookup_lt_Some. }
  split; [|by unfold len; rewrite Hnum].
  destruct (wf_ver _ _ Hwf' _ _ Hm') as [Hr Hev].
  unfold get, check_handle, entry_at. cbn [map_id index hversion]. rewrite Hid, Z.eqb_refl.
  pose proof (lookup_lt_Some _ _ _ Hm').
  destruct (Z.leb_spec (Z.of_nat (length (entries m'))) (Z.of_nat i)); [lia|].
  rewrite Nat2Z.id, Hm'. cbn [negb]. rewrite res_bind_ok. cbn [version state].
  rewrite Z.eqb_refl. cbn in Hev. rewrite <-Zeven_mod, Hev. cbn [negb].
  by rewrite res_bind_ok, Nat2Z.id, Hm'.
Qed.

Lemma insert_room_or_panic_witness :
  ∃ h m', insert (E:=unit) false "z" wit_map' = Ok (h, m') ∧ valid m' ∧
    get m' h = Ok "z" ∧ len m' = len wit_map' + 1.
Proof. apply (insert_room_or_panic wit_map' "z" wit_map'_valid). reflexivity. Defined.

(** The consistency check of debug builds never fires, and as long as no version
    counter stands at its maximum a debug build computes what a release build does:
    insertions and removals return the same results and the same map. *)
Theorem debug_build_agrees {T} (m : HandleMap T) v h :
  valid m → no_version_max m → handle_wf h →
  assert_valid (E:=unit) m = Ok tt ∧
  insert (E:=unit) true v m = insert false v m ∧ remove true h m = remove false h m.
Proof.
  intros Hv Hmax Hh. split; [destruct Hv as [fl H]; by eapply assert_valid_wf|]. split.
  - destruct (can_insert m) eqn:Hroom; [|by rewrite !insert_full].
    destruct (insert_effect (E:=unit) m v Hv Hroom) as (? & ? & ? & ? & _ & _ & _ & Hins & _).
    by rewrite !Hins.
  - destruct (get m h) as [w|e|s] eqn:Hg; [|..|by apply get_no_panic in Hg].
    + destruct (remove_effect m h w Hv Hh Hg) as (m' & Hrem & _). by rewrite !Hrem.
    + destruct (remove_refused true m h Hv Hh) as (e1 & -> & He1); [by rewrite Hg|].
      destruct (remove_refused false m h Hv Hh) as (e2 & -> & He2); [by rewrite Hg|]. congruence.
Qed.

Lemma debug_build_agrees_witness :
  insert (E:=unit) true "z" wit_map' = insert false "z" wit_map'.
Proof.
  apply (debug_build_agrees wit_map' "z" (mkHandle 8 4 0) wit_map'_valid).
  - intros [|[|[|[|i]]]] e He; by simplify_eq/=.
  - apply (bool_decide_unpack _). vm_compute. exact I.
Defined.

(** The packed form, in arithmetic. *)
Lemma into_u64_sum h :
  handle_wf h →
  into_u64 h = HANDLE_MAGIC * 2 ^ 48 + map_id h * 2 ^ 32 + index h * 2 ^ 16 + hversion h.
Proof.
  intros (Hm & Hv & Hi). unfold fits in *. unfold into_u64. rewrite !Z.shiftl_mul_pow2 by lia.
  rewrite (lor_mul_add HANDLE_MAGIC (map_id h * 2 ^ 32) 48) by lia.
  replace (HANDLE_MAGIC * 2 ^ 48 + map_id h * 2 ^ 32)
    with ((HANDLE_MAGIC * 2 ^ 16 + map_id h) * 2 ^ 32) by lia.
  rewrite (lor_mul_add _ (index h * 2 ^ 16) 32) by lia.
  replace ((HANDLE_MAGIC * 2 ^ 16 + map_id h) * 2 ^ 32 + index h * 2 ^ 16)
    with (((HANDLE_MAGIC * 2 ^ 16 + map_id h) * 2 ^ 16 + index h) * 2 ^ 16) by lia.
  rewrite (lor_mul_add _ (hversion h) 16) by lia. lia.
Qed.

(** Handles cross the FFI losslessly.  Every 16-bit handle with an even version
    is recovered from its 64-bit encoding, the encoding fits 64 bits (with the top
    bit clear) and is never the null handle; conversely a 64-bit integer that decodes
    to a handle is that handle's encoding, and every other integer is refused, zero
    as [NullHandle]. *)
Theorem handle_u64_round_trip :
  (∀ h, handle_wf h → Z.even (hversion h) = true →
     from_u64 (into_u64 h) = Ok h ∧ 0 < into_u64 h < 2 ^ 63) ∧
  (∀ v h, fits 64 v → from_u64 v = Ok h → handle_wf h ∧ into_u64 h = v) ∧
  from_u64 0 = Err NullHandle.
Proof.
  split; [|split; [|done]].
  - intros h Hh Hev. rewrite into_u64_sum by done. destruct Hh as (Hm & Hv & Hi).
    unfold fits in *. unfold from_u64, is_valid, wrap. change HANDLE_MAGIC with 16723.
    rewrite !Z.shiftr_div_pow2 by lia. rewrite (Z.land_ones _ 1) by lia.
    rewrite (proj2 (Z.eqb_eq _ _)) by div_lia. rewrite (proj2 (Z.eqb_eq _ 0)).
    2:{ apply Z.even_spec in Hev as [k ->]. div_lia. }
    cbn [andb negb]. split; [|lia]. f_equal. destruct h as [a b c]; cbn [map_id hversion index] in *.
    f_equal; div_lia.
  - intros v h Hv. unfold from_u64, is_valid.
    destruct (Z.eqb_spec (Z.shiftr v 48) HANDLE_MAGIC) as [Hmagic|]; cbn [andb negb].
    2:{ by destruct (v =? 0). }
    destruct (Z.land v 1 =? 0); cbn [negb]; [|by destruct (v =? 0)].
    intros [= <-]. assert (Hw : handle_wf (mkHandle (wrap 16 (Z.shiftr v 32)) (wrap 16 v) (wrap 16 (Z.shiftr v 16)))).
    { split_and!; by apply wrap_fits. }
    split; [done|]. rewrite into_u64_sum by done. rewrite <-Hmagic. unfold fits in Hv.
    cbn [map_id index hversion]. unfold wrap. rewrite !Z.shiftr_div_pow2 by lia. div_lia.
Qed.

(** Map identifiers.  The process-wide counter gives maps created fewer than
    65536 creations apart different identifiers, so a handle of one map is refused by
    the other as [WrongMap]. *)
Theorem map_ids_distinct {T} counter n (m : HandleMap T) h :
  fits 64 counter → 0 < n < 65536 →
  id m = fst (next_handle_map_id (wrap 64 (counter + n))) →
  map_id h = fst (next_handle_map_id counter) →
  get m h = Err WrongMap.
Proof.
  intros Hc Hn Hm Hh. unfold get, check_handle. rewrite Hm, Hh.
  destruct (Z.eqb_spec (next_handle_map_id counter).1
              (next_handle_map_id (wrap 64 (counter + n))).1) as [Heq|]; [exfalso|done].
  unfold next_handle_map_id, wrap in Heq. cbn [fst] in Heq. div_lia.
Qed.

Lemma map_ids_distinct_witness :
  get (mkHandleMap 9 0 0 [mkEntry 1 EndOfFreeList] : HandleMap nat) (mkHandle 8 2 0) = Err WrongMap.
Proof.
  apply (map_ids_distinct 7 1); [split; vm_compute; congruence|lia|reflexivity|reflexivity].
Defined.

(** A debug build panics on the version overflow that a release build handles: an
    insertion into a slot whose version is [65535] wraps to version 2 in a release
    build, and stops with an arithmetic overflow where overflow checks are on. *)
Theorem version_overflow_debug_panics :
  let m : HandleMap nat := mkHandleMap 1 0 0
    [mkEntry U16_MAX (InFreeList 1); mkEntry 1 (InFreeList 2);
     mkEntry 1 (InFreeList 3); mkEntry 1 EndOfFreeList] in
  valid m ∧
  (∃ m', insert (E:=unit) false 5%nat m = Ok (mkHandle 1 2 0, m')) ∧
  insert (E:=unit) true 5%nat m = Panic "attempt to add with overflow".
Proof.
  split; [|split; [eexists; vm_compute; reflexivity|vm_compute; reflexivity]].
  exists [0%nat; 1%nat; 2%nat; 3%nat]. split.
  - eexists _, _. done.
  - repeat split; eexists; reflexivity.
  - apply (bool_decide_unpack _). vm_compute. exact I.
  - intros [|[|[|[|i]]]] e He; simplify_eq/=; set_solver.
  - done.
  - split; vm_compute; congruence.
  - intros [|[|[|[|i]]]] e He; simplify_eq/=; split; try done; vm_compute; split; congruence.
  - split; vm_compute; congruence.
Qed.
