(* ===== verification/Sync15Types.v ===== *)
(** * Shared data of the sync15 crate

    Model of the data types that the Sync 1.5 client code passes around:
    [ServerTimestamp] ([components/sync15/src/util.rs]), the error type
    ([error.rs]), the known record formats ([record_types.rs]), the HTTP status
    predicates of [components/viaduct/src/lib.rs], and the request, limit and
    response types of [request.rs] and [client.rs].

    A [ServerTimestamp] is an [f64].  It is modelled by the specification of
    IEEE 754 binary64 of the Standard Library ([SpecFloat], precision 53, exponent
    bound 1024), so that comparisons have the code's behaviour on NaN and on the
    two zeros. *)

From S2P Require Import Prelude.
From Stdlib Require Import Floats.SpecFloat.
Local Open Scope Z_scope.

(** ** util.rs *)
Module Util.

Abbreviation f64 := spec_float.

Definition f64_sub : f64 → f64 → f64 := SFsub 53 1024.
Definition f64_mul : f64 → f64 → f64 := SFmul 53 1024.
Definition f64_of_Z (z : Z) : f64 := binary_normalize 53 1024 z 0 false.

(** The integer below a finite float, [None] for NaN and the infinities. *)
Definition floor_Z (x : f64) : option Z :=
  match x with
  | S754_zero _ => Some 0
  | S754_infinity _ | S754_nan => None
  | S754_finite s m e =>
      let n := if s then - Z.pos m else Z.pos m in
      Some (if 0 <=? e then n * 2 ^ e else n / 2 ^ (- e))
  end.

(** [f64::floor]. *)
Definition f64_floor (x : f64) : f64 :=
  match x, floor_Z x with
  | S754_finite _ _ _, Some z => f64_of_Z z
  | _, _ => x
  end.

(** [x as uN]: truncation, saturating at the bounds, NaN to zero. *)
Definition f64_as_uint (w : Z) (x : f64) : Z :=
  match x with
  | S754_nan => 0
  | S754_zero _ => 0
  | S754_infinity s => if s then 0 else 2 ^ w - 1
  | S754_finite s m e =>
      if s then 0
      else Z.min (2 ^ w - 1) (if 0 <=? e then Z.pos m * 2 ^ e else Z.pos m / 2 ^ (- e))
  end.

Record ServerTimestamp := mkServerTimestamp { ts : f64 }.

Definition SERVER_EPOCH : ServerTimestamp := mkServerTimestamp (S754_zero false).
Definition ts_default : ServerTimestamp := mkServerTimestamp (S754_zero false).

(** The derived [PartialEq] and [PartialOrd]. *)
Definition ts_eqb (a b : ServerTimestamp) : bool := SFeqb (ts a) (ts b).
Definition ts_ltb (a b : ServerTimestamp) : bool := SFltb (ts a) (ts b).
Definition ts_leb (a b : ServerTimestamp) : bool := SFleb (ts a) (ts b).

(** [From<f64> for ServerTimestamp]. *)
Definition ts_from {E} (x : f64) : res E ServerTimestamp :=
  _ ← rassert (SFleb (S754_zero false) x) "assertion failed: ts >= 0.0";
  Ok (mkServerTimestamp x).

(** [duration_since]: [None] when [other] is later; the [Duration] is a pair of
    seconds and nanoseconds.  [Duration::new] carries nanoseconds beyond one second
    into the seconds. *)
Definition duration_since (self other : ServerTimestamp) : option (Z * Z) :=
  let delta := f64_sub (ts self) (ts other) in
  if SFltb delta (S754_zero false) then None
  else
    let secs := f64_floor delta in
    let nanos := f64_as_uint 32 (f64_floor (f64_mul (f64_sub delta secs) (f64_of_Z 1000000000))) in
    Some (f64_as_uint 64 secs + nanos / 1000000000, nanos mod 1000000000).

Definition as_millis (self : ServerTimestamp) : Z :=
  f64_as_uint 64 (f64_floor (f64_mul (ts self) (f64_of_Z 1000))).

End Util.
Export Util.

(** [ts.as_millis() as i64], and [ServerTimestamp(millis as f64 / 1000.0)]. *)
Definition millis_i64 (t : ServerTimestamp) : Z := wrap_i64 (as_millis t).
Definition timestamp_of_millis (ms : Z) : ServerTimestamp :=
  Util.mkServerTimestamp (SFdiv 53 1024 (Util.f64_of_Z ms) (Util.f64_of_Z 1000)).

(** ** error.rs

    The variants that wrap an error of another crate carry its display text. *)
Inductive ErrorKind :=
| BadKeyLength (which : string) (got expected : Z)
| HmacMismatch
| TokenserverHttpError (status : Z)
| StorageHttpError (code : Z) (route : string)
| BackoffError (until : Z)
| RecordTooLargeError
| BatchInterrupted
| RecordUploadFailed
| StorageResetError
| UnacceptableUrl (why : string)
| MissingServerTimestamp
| ServerBatchProblem (why : string)
| SetupRace
| ClientUpgradeRequired
| SetupRequired
| StoreError (cause : string)
| CryptoError (cause : string)
| OpensslError (cause : string)
| Base64Decode (cause : string)
| JsonError (cause : string)
| BadCleartextUtf8 (cause : string)
| RequestError (cause : string)
| UnexpectedStatus (cause : string)
| HawkError (cause : string)
| MalformedUrl (cause : string)
| Interrupted.

(** [Error::is_not_found]. *)
Definition is_not_found (e : ErrorKind) : bool :=
  match e with StorageHttpError code _ => code =? 404 | _ => false end.

(** ** viaduct status codes *)
Definition is_success_code (c : Z) : bool := (200 <=? c) && (c <? 300).
Definition is_client_error_code (c : Z) : bool := (400 <=? c) && (c <? 500).
Definition is_server_error_code (c : Z) : bool := (500 <=? c) && (c <? 600).
Definition ACCEPTED : Z := 202.
Definition PRECONDITION_FAILED : Z := 412.

(** ** record_types.rs *)
Record MetaGlobalEngine := mkMetaGlobalEngine { engine_version : Z; engine_sync_id : string }.

Record MetaGlobalRecord := mkMetaGlobalRecord {
  mg_sync_id : string;
  storage_version : Z;
  engines : gmap string MetaGlobalEngine;
  declined : list string;
}.

Record CryptoKeysRecord := mkCryptoKeysRecord {
  ckr_id : string;
  ckr_collection : string;
  ckr_default : string * string;
  ckr_collections : gmap string (string * string);
}.

(** ** request.rs: limits and requests *)
Definition usize_max : Z := 2 ^ 64 - 1.

Record InfoConfiguration := mkInfoConfiguration {
  max_request_bytes : Z;
  max_post_records : Z;
  max_post_bytes : Z;
  max_total_records : Z;
  max_total_bytes : Z;
  max_record_payload_bytes : Z;
}.

Definition default_max_request_bytes : Z := 260 * 1024.
Definition default_max_record_payload_bytes : Z := 256 * 1024.

Definition InfoConfiguration_default : InfoConfiguration :=
  mkInfoConfiguration default_max_request_bytes usize_max usize_max usize_max usize_max
    default_max_record_payload_bytes.

Abbreviation InfoCollections := (gmap string ServerTimestamp).

Inductive RequestOrder := Oldest | Newest | Index.

Definition order_to_string (o : RequestOrder) : string :=
  match o with Oldest => "oldest" | Newest => "newest" | Index => "index" end.

Record CollectionRequest := mkCollectionRequest {
  cr_collection : string;
  cr_full : bool;
  cr_ids : option (list string);
  cr_limit : Z;
  cr_older : option ServerTimestamp;
  cr_newer : option ServerTimestamp;
  cr_order : option RequestOrder;
  cr_commit : bool;
  cr_batch : option string;
}.

Module CollectionRequest.
Definition new (collection : string) : CollectionRequest :=
  mkCollectionRequest collection false None 0 None None None false None.
Definition ids (v : list string) (r : CollectionRequest) : CollectionRequest :=
  mkCollectionRequest (cr_collection r) (cr_full r) (Some v) (cr_limit r) (cr_older r)
    (cr_newer r) (cr_order r) (cr_commit r) (cr_batch r).
Definition full (r : CollectionRequest) : CollectionRequest :=
  mkCollectionRequest (cr_collection r) true (cr_ids r) (cr_limit r) (cr_older r)
    (cr_newer r) (cr_order r) (cr_commit r) (cr_batch r).
Definition older_than (t : ServerTimestamp) (r : CollectionRequest) : CollectionRequest :=
  mkCollectionRequest (cr_collection r) (cr_full r) (cr_ids r) (cr_limit r) (Some t)
    (cr_newer r) (cr_order r) (cr_commit r) (cr_batch r).
Definition newer_than (t : ServerTimestamp) (r : CollectionRequest) : CollectionRequest :=
  mkCollectionRequest (cr_collection r) (cr_full r) (cr_ids r) (cr_limit r) (cr_older r)
    (Some t) (cr_order r) (cr_commit r) (cr_batch r).
Definition sort_by (o : RequestOrder) (r : CollectionRequest) : CollectionRequest :=
  mkCollectionRequest (cr_collection r) (cr_full r) (cr_ids r) (cr_limit r) (cr_older r)
    (cr_newer r) (Some o) (cr_commit r) (cr_batch r).
Definition limit (num : Z) (r : CollectionRequest) : CollectionRequest :=
  mkCollectionRequest (cr_collection r) (cr_full r) (cr_ids r) num (cr_older r)
    (cr_newer r) (cr_order r) (cr_commit r) (cr_batch r).
Definition batch (b : option string) (r : CollectionRequest) : CollectionRequest :=
  mkCollectionRequest (cr_collection r) (cr_full r) (cr_ids r) (cr_limit r) (cr_older r)
    (cr_newer r) (cr_order r) (cr_commit r) b.
Definition commit (v : bool) (r : CollectionRequest) : CollectionRequest :=
  mkCollectionRequest (cr_collection r) (cr_full r) (cr_ids r) (cr_limit r) (cr_older r)
    (cr_newer r) (cr_order r) v (cr_batch r).
End CollectionRequest.

(** ** request.rs: responses *)
Record UploadResult := mkUploadResult {
  ur_batch : option string;
  ur_failed : gmap string string;
  ur_success : list string;
}.

Record PostResponse := mkPostResponse {
  pr_status : Z;
  pr_result : UploadResult;
  pr_last_modified : ServerTimestamp;
}.

Definition is_success (r : PostResponse) : bool := is_success_code (pr_status r).

Record UploadInfo := mkUploadInfo {
  ui_successful_ids : list string;
  ui_failed_ids : list string;
  ui_modified_timestamp : ServerTimestamp;
}.

(** ** client.rs: responses to GET requests *)
Inductive Sync15ClientResponse (T : Type) :=
| Success (record : T) (last_modified : ServerTimestamp) (route : string)
| NotFound (route : string)
| Unauthorized (route : string)
| ServerError (route : string) (status : Z)
| RequestFailed (route : string) (status : Z).
Arguments Success {T} record last_modified route.
Arguments NotFound {T} route.
Arguments Unauthorized {T} route.
Arguments ServerError {T} route status.
Arguments RequestFailed {T} route status.

Definition create_storage_error {T} (r : Sync15ClientResponse T) : ErrorKind :=
  let '(code, route) :=
    match r with
    | Success _ _ route => (200, route)
    | NotFound route => (404, route)
    | Unauthorized route => (401, route)
    | ServerError route status => (status, route)
    | RequestFailed route status => (status, route)
    end in
  StorageHttpError code route.
