(* ===== verification/KeyBundle.v ===== *)
(** * Key bundles and authenticated encryption

    Model of [components/sync15/src/key_bundle.rs] and of the parts of
    [components/support/rc_crypto] it calls ([hmac.rs], [constant_time.rs]).  The
    ciphers, digests and codecs of NSS, OpenSSL, base64 and base16 are code outside
    the repository: they are the operations of the class [Crypto], and what the
    round-trip theorems rely on is the class [CryptoLaws]. *)

From S2P Require Import Prelude Sync15Types.
From Stdlib Require Import Ascii String.
Local Open Scope Z_scope.
Local Open Scope list_scope.

(** A byte slice.  A [String] is the sequence of its UTF-8 bytes. *)
Abbreviation bytes := (list ascii).
Definition as_bytes : string → bytes := list_ascii_of_string.
Definition bytes_len (b : bytes) : Z := Z.of_nat (List.length b).
Definition string_len (s : string) : Z := Z.of_nat (String.length s).

Lemma as_bytes_len s : bytes_len (as_bytes s) = string_len s.
Proof. unfold bytes_len, string_len, as_bytes. f_equal. induction s; cbn; congruence. Qed.

(** ** Code outside the repository *)
Class Crypto := {
  (** NSS: HMAC-SHA256 of a message under a key, through PKCS#11 contexts. *)
  nss_hmac_sha256 : bytes → bytes → res string bytes;
  (** NSS: [NSS_SecureMemcmp]. *)
  NSS_SecureMemcmp : bytes → bytes → Z;
  (** OpenSSL: AES-256-CBC under a key and an initialisation vector. *)
  aes_256_cbc_encrypt : bytes → bytes → bytes → res string bytes;
  aes_256_cbc_decrypt : bytes → bytes → bytes → res string bytes;
  (** base64 and base16. *)
  base64_encode : bytes → string;
  base64_decode : string → res string bytes;
  base64_decode_url_safe_no_pad : string → res string bytes;
  base16_encode_lower : bytes → string;
  (** [decode_slice] into a buffer: its contents after the call. *)
  base16_decode_slice : string → bytes → res string bytes;
}.

(** A source of random bytes over the state [W] of the outside world. *)
Class Rand (W : Type) := rand_fill : nat → ST W string bytes.

(** Documented behaviour of these functions that the theorems use. *)
Class CryptoLaws `{!Crypto} := {
  memcmp_zero a b : List.length a = List.length b → (NSS_SecureMemcmp a b = 0 ↔ a = b);
  aes_round_trip k iv m c : aes_256_cbc_encrypt k iv m = Ok c → aes_256_cbc_decrypt k iv c = Ok m;
  base64_round_trip b : base64_decode (base64_encode b) = Ok b;
  base16_round_trip b buf : List.length b = List.length buf →
    base16_decode_slice (base16_encode_lower b) buf = Ok b;
  hmac_length k m d : nss_hmac_sha256 k m = Ok d → List.length d = 32%nat;
}.
Global Hint Mode CryptoLaws ! : typeclass_instances.

Class RandLaws {W} (R : Rand W) :=
  rand_fill_length n w b w' : rand_fill n w = (Ok b, w') → List.length b = n.

(** ** UTF-8 validation ([String::from_utf8]) *)
Module Utf8.
Definition byte_in (lo hi : nat) (b : ascii) : bool :=
  let n := nat_of_ascii b in Nat.leb lo n && Nat.leb n hi.
Definition cont : ascii → bool := byte_in 128 191.

(** Well-formed byte sequences, after the table of the Unicode standard that the
    standard library implements. *)
Fixpoint valid (fuel : nat) (b : bytes) : bool :=
  match fuel with
  | O => false
  | S fuel =>
      match b with
      | [] => true
      | b1 :: r1 =>
          if byte_in 0 127 b1 then valid fuel r1
          else match r1 with
          | [] => false
          | b2 :: r2 =>
              if byte_in 194 223 b1 && cont b2 then valid fuel r2
              else match r2 with
              | [] => false
              | b3 :: r3 =>
                  if ((byte_in 224 224 b1 && byte_in 160 191 b2)
                      || (byte_in 225 236 b1 && cont b2)
                      || (byte_in 237 237 b1 && byte_in 128 159 b2)
                      || (byte_in 238 239 b1 && cont b2)) && cont b3
                  then valid fuel r3
                  else match r3 with
                  | [] => false
                  | b4 :: r4 =>
                      if ((byte_in 240 240 b1 && byte_in 144 191 b2)
                          || (byte_in 241 243 b1 && cont b2)
                          || (byte_in 244 244 b1 && byte_in 128 143 b2)) && cont b3 && cont b4
                      then valid fuel r4
                      else false
                  end
              end
          end
      end
  end.

Definition is_utf8 (b : bytes) : bool := valid (S (List.length b)) b.

Definition from_utf8 (b : bytes) : res string string :=
  if is_utf8 b then Ok (string_of_list_ascii b) else Err "invalid utf-8 sequence"%string.

Lemma from_utf8_as_bytes s : is_utf8 (as_bytes s) = true → from_utf8 (as_bytes s) = Ok s.
Proof. unfold from_utf8. intros ->. f_equal. apply string_of_list_ascii_of_string. Qed.
End Utf8.

(** ** rc_crypto *)
Module RcCrypto.
Section rc_crypto.
Context `{!Crypto}.

(** [hmac::sign] with the SHA-256 digest: the length must fit the [u32] that NSS
    takes. *)
Definition sign (key data : bytes) : res string bytes :=
  if 2 ^ 32 <=? bytes_len data then Err "Conversion error"%string
  else nss_hmac_sha256 key data.

Definition verify_slices_are_equal (a b : bytes) : res string unit :=
  if negb (bytes_len a =? bytes_len b) then Err "Internal error"%string
  else match NSS_SecureMemcmp a b with
       | 0 => Ok tt
       | _ => Err "Internal error"%string
       end.

(** [hmac::verify]. *)
Definition verify (key data signature : bytes) : res string unit :=
  s ← sign key data;
  verify_slices_are_equal s signature.

Lemma verify_slices_equal_iff `{!CryptoLaws} a b :
  verify_slices_are_equal a b = Ok tt ↔ a = b.
Proof.
  unfold verify_slices_are_equal, bytes_len.
  destruct (Z.eqb_spec (Z.of_nat (List.length a)) (Z.of_nat (List.length b))) as [Hl|Hl]; cbn [negb].
  - rewrite <-(memcmp_zero a b) by lia. destruct (NSS_SecureMemcmp a b); naive_solver.
  - naive_solver.
Qed.
End rc_crypto.
End RcCrypto.

(** ** key_bundle.rs *)
Record KeyBundle := mkKeyBundle { enc_key : bytes; mac_key : bytes }.

Module KeyBundle.
Section key_bundle.
Context `{!Crypto}.

Definition new (enc mac : bytes) : res ErrorKind KeyBundle :=
  if negb (bytes_len enc =? 32) then Err (BadKeyLength "enc_key" (bytes_len enc) 32)
  else if negb (bytes_len mac =? 32) then Err (BadKeyLength "mac_key" (bytes_len mac) 32)
  else Ok (mkKeyBundle enc mac).

Definition from_ksync_bytes (ksync : bytes) : res ErrorKind KeyBundle :=
  if negb (bytes_len ksync =? 64) then Err (BadKeyLength "kSync" (bytes_len ksync) 64)
  else Ok (mkKeyBundle (take 32 ksync) (take 32 (drop 32 ksync))).

Definition new_random {W} `{!Rand W} : ST W ErrorKind KeyBundle :=
  λ w, match rand_fill 64 w with
       | (Ok buffer, w) => (from_ksync_bytes buffer, w)
       | (Err e, w) => (Err (CryptoError e), w)
       | (Panic m, w) => (Panic m, w)
       end.

Definition from_ksync_base64 (ksync : string) : res ErrorKind KeyBundle :=
  b ← map_err Base64Decode (base64_decode_url_safe_no_pad ksync);
  from_ksync_bytes b.

Definition from_base64 (enc mac : string) : res ErrorKind KeyBundle :=
  enc_bytes ← map_err Base64Decode (base64_decode enc);
  mac_bytes ← map_err Base64Decode (base64_decode mac);
  new enc_bytes mac_bytes.

Definition to_b64_array (k : KeyBundle) : string * string :=
  (base64_encode (enc_key k), base64_encode (mac_key k)).

Definition hmac (k : KeyBundle) (ciphertext : bytes) : res ErrorKind bytes :=
  map_err CryptoError (RcCrypto.sign (mac_key k) ciphertext).

Definition hmac_string (k : KeyBundle) (ciphertext : bytes) : res ErrorKind string :=
  base16_encode_lower <$> hmac k ciphertext.

Definition verify_hmac (k : KeyBundle) (expected_hmac : bytes) (ciphertext_base64 : string)
    : res ErrorKind unit :=
  map_err CryptoError (RcCrypto.verify (mac_key k) (as_bytes ciphertext_base64) expected_hmac).

Definition verify_hmac_string (k : KeyBundle) (expected_hmac ciphertext_base64 : string)
    : res ErrorKind unit :=
  match base16_decode_slice expected_hmac (replicate 32 Ascii.zero) with
  | Err _ => Err HmacMismatch
  | Panic m => Panic m
  | Ok decoded_hmac => verify_hmac k decoded_hmac ciphertext_base64
  end.

Definition decrypt (k : KeyBundle) (ciphertext iv : bytes) : res ErrorKind string :=
  cleartext_bytes ← map_err OpensslError (aes_256_cbc_decrypt (enc_key k) iv ciphertext);
  map_err BadCleartextUtf8 (Utf8.from_utf8 cleartext_bytes).

Definition encrypt_bytes_with_iv (k : KeyBundle) (cleartext_bytes iv : bytes)
    : res ErrorKind bytes :=
  map_err OpensslError (aes_256_cbc_encrypt (enc_key k) iv cleartext_bytes).

Definition encrypt_bytes_rand_iv {W} `{!Rand W} (k : KeyBundle) (cleartext_bytes : bytes)
    : ST W ErrorKind (bytes * bytes) :=
  λ w, match rand_fill 16 w with
       | (Ok iv, w) =>
           (ciphertext ← encrypt_bytes_with_iv k cleartext_bytes iv; Ok (ciphertext, iv), w)
       | (Err e, w) => (Err (CryptoError e), w)
       | (Panic m, w) => (Panic m, w)
       end.
End key_bundle.
End KeyBundle.

(** A key bundle whose keys both have 32 bytes. *)
Definition key_ok (k : KeyBundle) : Prop := bytes_len (enc_key k) = 32 ∧ bytes_len (mac_key k) = 32.

Section key_theorems.
Context `{!Crypto}.

Lemma new_key_ok enc mac k : KeyBundle.new enc mac = Ok k → key_ok k.
Proof.
  unfold KeyBundle.new. destruct (Z.eqb_spec (bytes_len enc) 32), (Z.eqb_spec (bytes_len mac) 32);
    cbn; intros; by simplify_eq.
Qed.

Lemma hmac_round_trip `{!CryptoLaws} k c h :
  KeyBundle.hmac_string k (as_bytes c) = Ok h → KeyBundle.verify_hmac_string k h c = Ok tt.
Proof.
  unfold KeyBundle.hmac_string, KeyBundle.verify_hmac_string, KeyBundle.hmac, KeyBundle.verify_hmac.
  destruct (RcCrypto.sign (mac_key k) (as_bytes c)) as [d| |] eqn:Hs; try done. intros [= <-].
  assert (Hd : List.length d = 32%nat).
  { unfold RcCrypto.sign in Hs. destruct (2 ^ 32 <=? _); [done|]. by eapply hmac_length. }
  rewrite base16_round_trip by (by rewrite Hd). unfold RcCrypto.verify.
  rewrite Hs, res_bind_ok. by rewrite (proj2 (RcCrypto.verify_slices_equal_iff d d)).
Qed.
End key_theorems.

(** Key material.  A 64-byte kSync splits into the encryption key and the MAC key
    in order, both 32 bytes long, and any other length is a [BadKeyLength] error; a key
    bundle accepted by [new] survives the base64 export and import unchanged. *)
Theorem key_bundle_ksync_and_export `{!Crypto, !CryptoLaws} ksync enc mac k :
  (bytes_len ksync = 64 →
     ∃ k, KeyBundle.from_ksync_bytes ksync = Ok k ∧ key_ok k ∧ enc_key k ++ mac_key k = ksync) ∧
  (bytes_len ksync ≠ 64 →
     KeyBundle.from_ksync_bytes ksync = Err (BadKeyLength "kSync" (bytes_len ksync) 64)) ∧
  (KeyBundle.new enc mac = Ok k →
     KeyBundle.from_base64 (KeyBundle.to_b64_array k).1 (KeyBundle.to_b64_array k).2 = Ok k).
Proof.
  unfold KeyBundle.from_ksync_bytes. split_and!.
  - intros Hl. rewrite Hl. cbn [Z.eqb negb Pos.eqb]. eexists; split; [done|].
    unfold bytes_len in *. unfold key_ok, bytes_len. cbn [enc_key mac_key].
    rewrite !length_take, length_drop. split; [lia|].
    rewrite <-(take_drop 32 ksync) at 3. f_equal. apply take_ge. rewrite length_drop. lia.
  - intros Hl. by destruct (Z.eqb_spec (bytes_len ksync) 64).
  - intros Hk. destruct (new_key_ok _ _ _ Hk) as [He Hm]. unfold KeyBundle.from_base64, KeyBundle.to_b64_array.
    cbn [fst snd].
    rewrite !base64_round_trip. cbn [map_err]. rewrite !res_bind_ok.
    unfold KeyBundle.new. rewrite He, Hm. by destruct k.
Qed.

(** ** A concrete instance of the parameters

    Transparent stand-ins (identity codecs and cipher, a padding MAC) that satisfy the
    laws; the witnesses evaluate the definitions with them. *)
Module ToyCrypto.
Definition toy_mac (k m : bytes) : bytes := take 32 (k ++ m ++ replicate 32 Ascii.zero).

#[export] Instance toy : Crypto := {|
  nss_hmac_sha256 k m := Ok (toy_mac k m);
  NSS_SecureMemcmp a b := if bool_decide (a = b) then 0 else 1;
  aes_256_cbc_encrypt _ _ m := Ok m;
  aes_256_cbc_decrypt _ _ c := Ok c;
  base64_encode := string_of_list_ascii;
  base64_decode s := Ok (list_ascii_of_string s);
  base64_decode_url_safe_no_pad s := Ok (list_ascii_of_string s);
  base16_encode_lower := string_of_list_ascii;
  base16_decode_slice s _ := Ok (list_ascii_of_string s);
|}.

#[export] Instance toy_laws : CryptoLaws.
Proof.
  split; cbn.
  - intros a b _. case_bool_decide; naive_solver.
  - by intros k iv m c [= <-].
  - intros b. by rewrite list_ascii_of_string_of_list_ascii.
  - intros b buf _. by rewrite list_ascii_of_string_of_list_ascii.
  - intros k m d [= <-]. unfold toy_mac. rewrite length_take, !length_app, length_replicate. lia.
Qed.

(** A counter as the source of randomness. *)
#[export] Instance toy_rand : Rand nat :=
  λ n w, (Ok (replicate n (ascii_of_nat w)), S w).
#[export] Instance toy_rand_laws : RandLaws toy_rand.
Proof. intros n w b w' [= <- _]. apply length_replicate. Qed.
End ToyCrypto.

Lemma key_bundle_ksync_and_export_witness :
  ∃ k, KeyBundle.from_ksync_bytes (replicate 64 Ascii.one) = Ok k ∧ key_ok k ∧
    enc_key k ++ mac_key k = replicate 64 Ascii.one.
Proof.
  apply (@key_bundle_ksync_and_export ToyCrypto.toy ToyCrypto.toy_laws
    (replicate 64 Ascii.one) [] [] (mkKeyBundle [] [])).
  reflexivity.
Defined.
