(* ===== verification/Bso.v ===== *)
(** * Basic storage objects

    Model of [components/sync15/src/bso_record.rs]: the [BsoRecord] envelope, the
    cleartext [Payload] with its automatic fields, the [EncryptedPayload], and the two
    directions between them; and of [components/sync15/src/collection_keys.rs].

    JSON values and the (de)serialisers that serde derives are code outside the
    repository: the classes [SerdeJson] and [Serde] name what the code uses of them. *)

From S2P Require Import Prelude Sync15Types KeyBundle.
From Stdlib Require Import Ascii String.
Local Open Scope Z_scope.
Local Open Scope string_scope.

(** ** Code outside the repository *)
Class SerdeJson := {
  JsonValue : Type;
  (** [JsonValue::String], [JsonValue::Bool], [JsonValue::Object], and [From<i32>] /
      [From<u32>]. *)
  json_string : string → JsonValue;
  json_bool : bool → JsonValue;
  json_object : gmap string JsonValue → JsonValue;
  json_int : Z → JsonValue;
  (** [serde_json::from_value::<i32>] and [::<u32>]. *)
  from_value_i32 : JsonValue → res string Z;
  from_value_u32 : JsonValue → res string Z;
}.

(** The derived serialiser and deserialiser of a type. *)
Class Serde `{!SerdeJson} (T : Type) := {
  to_string : T → res string string;
  from_str : string → res string T;
  to_value : T → res string JsonValue;
  from_value : JsonValue → res string T;
}.

(** ** The envelope *)
Record BsoRecord (T : Type) := mkBsoRecord {
  bso_id : string;
  bso_collection : string;
  bso_modified : ServerTimestamp;
  bso_sortindex : option Z;
  bso_ttl : option Z;
  bso_payload : T;
}.
Arguments mkBsoRecord {T}.
Arguments bso_id {T}.
Arguments bso_collection {T}.
Arguments bso_modified {T}.
Arguments bso_sortindex {T}.
Arguments bso_ttl {T}.
Arguments bso_payload {T}.

Module BsoRecord.
Definition map_payload {T P} (mapper : T → P) (self : BsoRecord T) : BsoRecord P :=
  mkBsoRecord (bso_id self) (bso_collection self) (bso_modified self) (bso_sortindex self)
    (bso_ttl self) (mapper (bso_payload self)).

Definition with_payload {T P} (payload : P) (self : BsoRecord T) : BsoRecord P :=
  map_payload (λ _, payload) self.

Definition new_record {T} (id coll : string) (payload : T) : BsoRecord T :=
  mkBsoRecord id coll ts_default None None payload.

(** The two [transpose]s. *)
Definition transpose_option {T} (self : BsoRecord (option T)) : option (BsoRecord T) :=
  match bso_payload self with
  | Some p => Some (mkBsoRecord (bso_id self) (bso_collection self) (bso_modified self)
                      (bso_sortindex self) (bso_ttl self) p)
  | None => None
  end.

Definition transpose_result {T E} (self : BsoRecord (res E T)) : res E (BsoRecord T) :=
  match bso_payload self with
  | Ok p => Ok (mkBsoRecord (bso_id self) (bso_collection self) (bso_modified self)
                  (bso_sortindex self) (bso_ttl self) p)
  | Err e => Err e
  | Panic m => Panic m
  end.

Definition try_map_payload {T P E} (mapper : T → res E P) (self : BsoRecord T)
    : res E (BsoRecord P) :=
  transpose_result (map_payload mapper self).

Definition map_payload_or {T P} (mapper : T → option P) (self : BsoRecord T)
    : option (BsoRecord P) :=
  transpose_option (map_payload mapper self).

Definition into_timestamped_payload {T} (self : BsoRecord T) : T * ServerTimestamp :=
  (bso_payload self, bso_modified self).
End BsoRecord.

(** ** Payloads *)
Record Payload `{!SerdeJson} := mkPayload {
  p_id : string;
  p_deleted : bool;
  p_data : gmap string JsonValue;
}.

Record EncryptedPayload := mkEncryptedPayload {
  ep_iv : string;
  ep_hmac : string;
  ep_ciphertext : string;
}.

Abbreviation EncryptedBso := (BsoRecord EncryptedPayload).
Abbreviation CleartextBso := (BsoRecord Payload).

Module Payload.
Section payload.
Context `{!SerdeJson}.

Definition new_tombstone (id : string) : Payload := mkPayload _ id true ∅.

Definition new_tombstone_with_ttl (id : string) (ttl : Z) : Payload :=
  let result := new_tombstone id in
  mkPayload _ (p_id result) (p_deleted result) (<["ttl" := json_int ttl]> (p_data result)).

Definition with_sortindex (index : Z) (self : Payload) : Payload :=
  mkPayload _ (p_id self) (p_deleted self) (<["sortindex" := json_int index]> (p_data self)).

Definition is_tombstone (self : Payload) : bool := p_deleted self.

(** [add_auto_field] for a field whose [Into<JsonValue>] is the one of integers. *)
Definition add_auto_field (name : string) (v : option Z) (self : Payload) : Payload :=
  match v with
  | Some value => mkPayload _ (p_id self) (p_deleted self) (<[name := json_int value]> (p_data self))
  | None => mkPayload _ (p_id self) (p_deleted self) (delete name (p_data self))
  end.

(** [take_auto_field]: the field is removed whether or not it deserialises. *)
Definition take_auto_field (from_value : JsonValue → res string Z) (name : string) (self : Payload)
    : option Z * Payload :=
  match p_data self !! name with
  | None => (None, self)
  | Some v =>
      let self := mkPayload _ (p_id self) (p_deleted self) (delete name (p_data self)) in
      match from_value v with
      | Ok v => (Some v, self)
      | _ => (None, self)
      end
  end.

Definition into_bso (collection : string) (self : Payload) : CleartextBso :=
  let id := p_id self in
  let '(sortindex, self) := take_auto_field from_value_i32 "sortindex" self in
  let '(ttl, self) := take_auto_field from_value_u32 "ttl" self in
  mkBsoRecord id collection ts_default sortindex ttl self.

(** [From<Payload> for JsonValue]. *)
Definition into_json (cleartext : Payload) : JsonValue :=
  let data := <["id" := json_string (p_id cleartext)]> (p_data cleartext) in
  let data := if p_deleted cleartext then <["deleted" := json_bool true]> data else data in
  json_object data.

Definition from_json `{!Serde Payload} (value : JsonValue) : res ErrorKind Payload :=
  map_err JsonError (from_value value).

Definition into_record {T} `{!Serde T} (self : Payload) : res ErrorKind T :=
  map_err JsonError (from_value (into_json self)).

Definition from_record {T} `{!Serde T, !Serde Payload} (v : T) : res ErrorKind Payload :=
  value ← map_err JsonError (to_value v);
  from_json value.
End payload.
End Payload.

(** ** Encryption *)
Module EncryptedPayload.
Section encrypted_payload.
Context `{!SerdeJson, !Crypto}.

(** [EMPTY_ENCRYPTED_PAYLOAD_SIZE]: the size of a serialised empty payload;
    [unwrap]ped, so a failing serialiser panics. *)
Definition empty_size `{!Serde EncryptedPayload} : res ErrorKind Z :=
  match to_string (mkEncryptedPayload "" "" "") with
  | Ok s => Ok (string_len s)
  | Err _ => Panic "called `Result::unwrap()` on an `Err` value"
  | Panic m => Panic m
  end.

Definition serialized_len `{!Serde EncryptedPayload} (self : EncryptedPayload) : res ErrorKind Z :=
  empty ← empty_size;
  mret (empty + string_len (ep_ciphertext self) + string_len (ep_hmac self)
        + string_len (ep_iv self)).

Definition decrypt_and_parse_payload {T} `{!Serde T} (self : EncryptedPayload) (key : KeyBundle)
    : res ErrorKind T :=
  _ ← map_err (λ _, HmacMismatch)
        (KeyBundle.verify_hmac_string key (ep_hmac self) (ep_ciphertext self));
  iv ← map_err Base64Decode (base64_decode (ep_iv self));
  ciphertext ← map_err Base64Decode (base64_decode (ep_ciphertext self));
  cleartext ← KeyBundle.decrypt key ciphertext iv;
  map_err JsonError (from_str cleartext).

Definition from_cleartext_payload {W T} `{!Rand W, !Serde T} (key : KeyBundle)
    (cleartext_payload : T) : ST W ErrorKind EncryptedPayload :=
  cleartext ← st_lift (map_err JsonError (to_string cleartext_payload));
  '(enc_bytes, iv) ← KeyBundle.encrypt_bytes_rand_iv key (as_bytes cleartext);
  let iv_base64 := base64_encode iv in
  let enc_base64 := base64_encode enc_bytes in
  hmac ← st_lift (KeyBundle.hmac_string key (as_bytes enc_base64));
  mret (mkEncryptedPayload iv_base64 hmac enc_base64).
End encrypted_payload.
End EncryptedPayload.

Section bso_crypto.
Context `{!SerdeJson, !Crypto, !Serde Payload}.

(** [EncryptedBso::decrypt]. *)
Definition decrypt (self : EncryptedBso) (key : KeyBundle) : res ErrorKind CleartextBso :=
  new_payload ← EncryptedPayload.decrypt_and_parse_payload (bso_payload self) key;
  let new_payload := Payload.add_auto_field "sortindex" (bso_sortindex self) new_payload in
  let new_payload := Payload.add_auto_field "ttl" (bso_ttl self) new_payload in
  Ok (BsoRecord.with_payload new_payload self).

(** [CleartextBso::into_record]. *)
Definition into_record {T} `{!Serde T} (self : CleartextBso) : res ErrorKind (BsoRecord T) :=
  BsoRecord.try_map_payload Payload.into_record self.

Definition decrypt_as {T} `{!Serde T} (self : EncryptedBso) (key : KeyBundle)
    : res ErrorKind (BsoRecord T) :=
  cleartext ← decrypt self key;
  into_record cleartext.

(** [CleartextBso::encrypt]. *)
Definition encrypt {W} `{!Rand W} (self : CleartextBso) (key : KeyBundle)
    : ST W ErrorKind EncryptedBso :=
  encrypted_payload ← EncryptedPayload.from_cleartext_payload key (bso_payload self);
  mret (BsoRecord.with_payload encrypted_payload self).
End bso_crypto.

(** ** collection_keys.rs *)
Record CollectionKeys := mkCollectionKeys {
  ck_timestamp : ServerTimestamp;
  ck_default : KeyBundle;
  ck_collections : gmap string KeyBundle;
}.

Module CollectionKeys.
Section collection_keys.
Context `{!SerdeJson, !Crypto, !Serde Payload, !Serde CryptoKeysRecord}.

Definition new_random {W} `{!Rand W} : ST W ErrorKind CollectionKeys :=
  default ← KeyBundle.new_random;
  mret (mkCollectionKeys ts_default default ∅).

(** [collect] of an iterator of results into a result of a map: the first error
    wins. *)
Fixpoint collect_keys (l : list (string * (string * string))) : res ErrorKind (gmap string KeyBundle) :=
  match l with
  | [] => Ok ∅
  | (name, (enc, mac)) :: l =>
      k ← KeyBundle.from_base64 enc mac;
      m ← collect_keys l;
      Ok (<[name := k]> m)
  end.

Definition from_encrypted_bso (record : EncryptedBso) (root_key : KeyBundle)
    : res ErrorKind CollectionKeys :=
  keys ← decrypt_as (T:=CryptoKeysRecord) record root_key;
  let payload := bso_payload keys in
  default ← KeyBundle.from_base64 (ckr_default payload).1 (ckr_default payload).2;
  collections ← collect_keys (map_to_list (ckr_collections payload));
  Ok (mkCollectionKeys (bso_modified keys) default collections).

Definition to_encrypted_bso {W} `{!Rand W} (self : CollectionKeys) (root_key : KeyBundle)
    : ST W ErrorKind EncryptedBso :=
  let record := mkCryptoKeysRecord "keys" "crypto" (KeyBundle.to_b64_array (ck_default self))
                  (KeyBundle.to_b64_array <$> ck_collections self) in
  payload ← st_lift (Payload.from_record record);
  let bso := Payload.into_bso "crypto" payload in
  encrypt bso root_key.

Definition key_for_collection (self : CollectionKeys) (collection : string) : KeyBundle :=
  default (ck_default self) (ck_collections self !! collection).
End collection_keys.
End CollectionKeys.

(** ** Round trips *)

(** A payload whose free-form data does not shadow the fields of the struct, which the
    flattened representation could not tell apart. *)
Definition payload_clean `{!SerdeJson} (p : Payload) : Prop :=
  p_data p !! "id" = None ∧ p_data p !! "deleted" = None.

(** Documented behaviour of serde_json on payloads: what it writes is UTF-8 and parses
    back to the payload. *)
Class PayloadSerdeLaws `{!SerdeJson} (S : Serde Payload) := {
  payload_to_string_utf8 p s : to_string p = Ok s → Utf8.is_utf8 (as_bytes s) = true;
  payload_from_to_string p s : payload_clean p → to_string p = Ok s → from_str s = Ok p;
}.

(** An automatic field of a payload is absent or an integer in the field's range. *)
Definition auto_canonical `{!SerdeJson} (from_value : JsonValue → res string Z) (name : string)
    (p : Payload) : Prop :=
  match p_data p !! name with
  | None => True
  | Some v => ∃ n, from_value v = Ok n ∧ v = json_int n
  end.

Section bso_theorems.
Context `{!SerdeJson, !Crypto, !CryptoLaws, SP : !Serde Payload, !PayloadSerdeLaws SP}.
Context {W : Type} `{!Rand W}.

(** Taking an automatic field out of a payload and putting it back. *)
Lemma take_add_auto_field from_value name (p q : Payload) v :
  auto_canonical from_value name p →
  Payload.take_auto_field from_value name p = (v, q) →
  p_id q = p_id p ∧ p_deleted q = p_deleted p ∧ p_data q = delete name (p_data p) ∧
  Payload.add_auto_field name v q = p.
Proof.
  unfold auto_canonical, Payload.take_auto_field, Payload.add_auto_field.
  destruct p as [i d m]; cbn. destruct (m !! name) as [x|] eqn:Hm.
  - intros (n & -> & ->) [= <- <-]. cbn. do 3 (split; [done|]). f_equal.
    rewrite insert_delete_eq. by apply insert_id.
  - intros _ [= <- <-]. cbn. rewrite delete_id by done. done.
Qed.

(** What encryption under a key produces decrypts under that key, if the JSON parses back. *)
Lemma encrypted_round_trip {T} `{!Serde T} key (p : T) w ep w' :
  (∀ s, to_string p = Ok s → Utf8.is_utf8 (as_bytes s) = true ∧ from_str s = Ok p) →
  EncryptedPayload.from_cleartext_payload key p w = (Ok ep, w') →
  EncryptedPayload.decrypt_and_parse_payload ep key = Ok p.
Proof.
  intros Hjson. unfold EncryptedPayload.from_cleartext_payload, mbind, ST_bind, st_lift.
  destruct (to_string p) as [s| |] eqn:Hs; cbn [map_err]; [|done..].
  unfold KeyBundle.encrypt_bytes_rand_iv, KeyBundle.encrypt_bytes_with_iv.
  destruct (rand_fill 16 w) as [[iv| |] w1]; [|done..].
  destruct (aes_256_cbc_encrypt (enc_key key) iv (as_bytes s)) as [c| |] eqn:Hc; cbn; [|done..].
  destruct (KeyBundle.hmac_string key (as_bytes (base64_encode c))) as [h| |] eqn:Hh; [|done..].
  intros [= <- <-]. unfold EncryptedPayload.decrypt_and_parse_payload. cbn.
  rewrite (hmac_round_trip _ _ _ Hh). cbn. rewrite !base64_round_trip. cbn.
  unfold KeyBundle.decrypt. rewrite (aes_round_trip _ _ _ _ Hc). cbn.
  destruct (Hjson s eq_refl) as [Hutf Hparse]. rewrite Utf8.from_utf8_as_bytes by done. cbn. by rewrite Hparse.
Qed.
Lemma encrypted_payload_round_trip key (p : Payload) w ep w' :
  payload_clean p →
  EncryptedPayload.from_cleartext_payload key p w = (Ok ep, w') →
  EncryptedPayload.decrypt_and_parse_payload ep key = Ok p.
Proof.
  intros Hclean. apply encrypted_round_trip. intros s Hs. split; [by eapply payload_to_string_utf8|by apply payload_from_to_string].
Qed.

(** The envelope of an encrypted object decrypts to the payload it was made from. *)
Lemma encrypt_decrypt_payload (p : Payload) coll key w enc w' :
  payload_clean p →
  auto_canonical from_value_i32 "sortindex" p → auto_canonical from_value_u32 "ttl" p →
  encrypt (Payload.into_bso coll p) key w = (Ok enc, w') →
  ∃ bso, decrypt enc key = Ok bso ∧ bso_payload bso = p ∧
    bso_id bso = p_id p ∧ bso_collection bso = coll ∧ bso_modified bso = ts_default.
Proof.
  intros Hclean Hsort Httl Henc. unfold Payload.into_bso in Henc.
  destruct (Payload.take_auto_field from_value_i32 "sortindex" p) as [si p1] eqn:Ht1.
  destruct (take_add_auto_field _ _ _ _ _ Hsort Ht1) as (Hi1 & _ & Hd1 & Hadd1).
  destruct (Payload.take_auto_field from_value_u32 "ttl" p1) as [ttl p2] eqn:Ht2.
  assert (Httl1 : auto_canonical from_value_u32 "ttl" p1).
  { unfold auto_canonical in *. rewrite Hd1. by rewrite lookup_delete_ne. }
  destruct (take_add_auto_field _ _ _ _ _ Httl1 Ht2) as (Hi2 & _ & Hd2 & Hadd2).
  unfold encrypt, mbind, ST_bind in Henc. cbn [bso_payload] in Henc.
  destruct (EncryptedPayload.from_cleartext_payload key p2 w) as [[ep| |] w1] eqn:Hep; [|done..].
  injection Henc as <- <-. unfold decrypt. cbn [bso_payload BsoRecord.with_payload BsoRecord.map_payload].
  rewrite (encrypted_payload_round_trip key p2 w ep w1); [|split; rewrite Hd2, Hd1|done].
  2,3: rewrite !lookup_delete_ne by done; apply Hclean.
  rewrite res_bind_ok. eexists; split; [done|]. cbn. split; [|done].
  assert (Hswap : ∀ v u (q : Payload), Payload.add_auto_field "ttl" v (Payload.add_auto_field "sortindex" u q)
    = Payload.add_auto_field "sortindex" u (Payload.add_auto_field "ttl" v q)).
  { intros [v|] [u|] q; unfold Payload.add_auto_field; cbn; f_equal.
    - by apply insert_insert_ne.
    - by rewrite delete_insert_ne.
    - by rewrite delete_insert_ne.
    - apply delete_delete. }
  rewrite Hswap, Hadd2. exact Hadd1.
Qed.
End bso_theorems.

(** Documented behaviour of serde on the record of [crypto/keys]: read as a payload, its
    other fields are its data, and the payload's JSON parses back to the record. *)
Class KeysSerdeLaws `{!SerdeJson} (SP : Serde Payload) (SK : Serde CryptoKeysRecord) :=
  keys_payload_round_trip r p :
    Payload.from_record r = Ok p →
    payload_clean p ∧ p_data p !! "sortindex" = None ∧ p_data p !! "ttl" = None ∧
    Payload.into_record p = Ok r.

Section keys_theorems.
Context `{!SerdeJson, !Crypto, !CryptoLaws, SP : !Serde Payload, !PayloadSerdeLaws SP}.
Context `{SK : !Serde CryptoKeysRecord, !KeysSerdeLaws SP SK}.

Lemma from_base64_to_b64_array k :
  key_ok k → KeyBundle.from_base64 (KeyBundle.to_b64_array k).1 (KeyBundle.to_b64_array k).2 = Ok k.
Proof.
  intros [He Hm]. unfold KeyBundle.from_base64, KeyBundle.to_b64_array. cbn [fst snd].
  rewrite !base64_round_trip. cbn [map_err]. rewrite !res_bind_ok. unfold KeyBundle.new.
  rewrite He, Hm. by destruct k.
Qed.

Lemma collect_keys_to_b64 (l : list (string * KeyBundle)) :
  Forall (λ kv, key_ok kv.2) l →
  CollectionKeys.collect_keys (prod_map id KeyBundle.to_b64_array <$> l) = Ok (list_to_map l).
Proof.
  induction 1 as [|[n k] l Hk _ IH]; [done|]. rewrite fmap_cons. cbn [prod_map fst snd id].
  destruct (KeyBundle.to_b64_array k) as [e m] eqn:Hb. cbn [CollectionKeys.collect_keys].
  pose proof (from_base64_to_b64_array k Hk) as Hf. rewrite Hb in Hf. cbn in Hf.
  by rewrite Hf, res_bind_ok, IH, res_bind_ok.
Qed.

(** Uploading the collection keys and reading them back with the same root key gives
    the same default key and per-collection keys. *)
Theorem collection_keys_round_trip {W} `{!Rand W} (keys : CollectionKeys) root_key (w : W) bso w' :
  key_ok (ck_default keys) → map_Forall (λ _ k, key_ok k) (ck_collections keys) →
  CollectionKeys.to_encrypted_bso keys root_key w = (Ok bso, w') →
  CollectionKeys.from_encrypted_bso bso root_key =
    Ok (mkCollectionKeys ts_default (ck_default keys) (ck_collections keys)).
Proof.
  intros Hd Hc. unfold CollectionKeys.to_encrypted_bso, mbind, ST_bind, st_lift.
  set (record := mkCryptoKeysRecord _ _ _ _).
  destruct (Payload.from_record record) as [p|e|m] eqn:Hp; [|done..]. intros Henc.
  destruct (keys_payload_round_trip record p Hp) as (Hclean & Hs & Ht & Hrec).
  destruct (encrypt_decrypt_payload p "crypto" root_key w bso w') as (cl & Hdec & Hpl & _ & _ & Hmod); try done.
  1,2: unfold auto_canonical; by rewrite ?Hs, ?Ht.
  unfold CollectionKeys.from_encrypted_bso, decrypt_as, into_record, BsoRecord.try_map_payload.
  rewrite Hdec, res_bind_ok. destruct cl as [i c md si tt pl]. cbn in Hpl, Hmod. subst pl md.
  unfold BsoRecord.transpose_result, BsoRecord.map_payload. cbn [bso_payload]. rewrite Hrec, res_bind_ok.
  unfold record. cbn [ckr_default ckr_collections bso_payload bso_modified].
  rewrite from_base64_to_b64_array, res_bind_ok by done.
  rewrite map_to_list_fmap, collect_keys_to_b64; [by rewrite res_bind_ok, list_to_map_to_list|].
  apply map_Forall_to_list in Hc. eapply Forall_impl; [exact Hc|]. by intros [].
Qed.
End keys_theorems.

(** C33: Nothing unauthenticated is decrypted.  If the HMAC in an encrypted payload,
    decoded from hexadecimal, is not the HMAC of the ciphertext under the key, decryption
    stops with [HmacMismatch]; so does an HMAC that is not hexadecimal.  A successful
    decryption implies that the two are equal. *)
Theorem decrypt_is_authenticated `{!SerdeJson, !Crypto, !CryptoLaws, !Serde Payload}
    (enc : EncryptedBso) key mac :
  RcCrypto.sign (mac_key key) (as_bytes (ep_ciphertext (bso_payload enc))) = Ok mac →
  (∀ d, base16_decode_slice (ep_hmac (bso_payload enc)) (replicate 32 Ascii.zero) = Ok d →
     d ≠ mac → decrypt enc key = Err HmacMismatch) ∧
  (∀ e, base16_decode_slice (ep_hmac (bso_payload enc)) (replicate 32 Ascii.zero) = Err e →
     decrypt enc key = Err HmacMismatch) ∧
  (∀ bso, decrypt enc key = Ok bso →
     base16_decode_slice (ep_hmac (bso_payload enc)) (replicate 32 Ascii.zero) = Ok mac).
Proof.
  intros Hmac.
  assert (Hv : ∀ d, base16_decode_slice (ep_hmac (bso_payload enc)) (replicate 32 Ascii.zero) = Ok d →
    d ≠ mac → decrypt enc key = Err HmacMismatch).
  { intros d Hd Hne. unfold decrypt, EncryptedPayload.decrypt_and_parse_payload,
      KeyBundle.verify_hmac_string, KeyBundle.verify_hmac, RcCrypto.verify.
    rewrite Hd, Hmac, res_bind_ok.
    destruct (RcCrypto.verify_slices_are_equal mac d) as [[]|e|m] eqn:Hveq; cbn; [|done|].
    - by apply RcCrypto.verify_slices_equal_iff in Hveq as ->.
    - exfalso. unfold RcCrypto.verify_slices_are_equal in Hveq. case_res. }
  split; [done|]. split.
  - intros e He. unfold decrypt, EncryptedPayload.decrypt_and_parse_payload,
      KeyBundle.verify_hmac_string. by rewrite He.
  - intros bso Hb. destruct (base16_decode_slice _ _) as [d|e|m] eqn:Hd.
    + destruct (decide (d = mac)) as [->|Hne]; [done|]. rewrite (Hv d) in Hb by done. done.
    + unfold decrypt, EncryptedPayload.decrypt_and_parse_payload, KeyBundle.verify_hmac_string in Hb.
      by rewrite Hd in Hb.
    + unfold decrypt, EncryptedPayload.decrypt_and_parse_payload, KeyBundle.verify_hmac_string in Hb.
      by rewrite Hd in Hb.
Qed.

(** ** A concrete instance of the serialisers

    JSON values as labelled trees and payloads written as the digits of their encoding:
    a stand-in that satisfies the laws, for the witnesses. *)
Module ToySerde.
#[export] Instance toy_json : SerdeJson := {|
  JsonValue := gen_tree (Z + (string + bool));
  json_string s := GenLeaf (inr (inl s));
  json_bool b := GenLeaf (inr (inr b));
  json_int z := GenLeaf (inl z);
  json_object m := GenNode 0 ((λ kv, GenNode 1 [GenLeaf (inr (inl kv.1)); kv.2]) <$> map_to_list m);
  from_value_i32 v := match v with GenLeaf (inl z) => Ok z | _ => Err "not an i32" end;
  from_value_u32 v := match v with GenLeaf (inl z) => Ok z | _ => Err "not a u32" end;
|}.

Definition payload_tuple (p : Payload) : string * bool * gmap string (gen_tree (Z + (string + bool))) :=
  (p_id p, p_deleted p, p_data p).
Definition tuple_payload (t : string * bool * gmap string (gen_tree (Z + (string + bool)))) : Payload :=
  mkPayload _ t.1.1 t.1.2 t.2.

Fixpoint pos_digits (p : positive) : string :=
  match p with
  | xH => EmptyString
  | xO p => String "0" (pos_digits p)
  | xI p => String "1" (pos_digits p)
  end.
Fixpoint digits_pos (s : string) : positive :=
  match s with
  | EmptyString => xH
  | String c s => if Ascii.eqb c "0" then xO (digits_pos s) else xI (digits_pos s)
  end.

Lemma digits_pos_digits p : digits_pos (pos_digits p) = p.
Proof. induction p; cbn; congruence. Qed.

Lemma pos_digits_utf8 p : Utf8.is_utf8 (as_bytes (pos_digits p)) = true.
Proof.
  unfold Utf8.is_utf8. set (n := S (List.length _)).
  assert (List.length (as_bytes (pos_digits p)) < n)%nat as Hn by (unfold n; lia). clearbody n.
  revert n Hn. induction p as [p IH|p IH|]; intros [|n] Hn; [cbn in Hn; lia| |cbn in Hn; lia| |lia|done].
  all: apply (IH n), Nat.succ_lt_mono, Hn.
Qed.

#[export] Instance toy_payload : Serde Payload := {|
  to_string p := Ok (pos_digits (encode (payload_tuple p)));
  from_str s := ok_or "syntax error" (tuple_payload <$> decode (digits_pos s));
  to_value p := Ok (GenLeaf (inr (inl (pos_digits (encode (payload_tuple p))))));
  from_value v :=
    match v with
    | GenLeaf (inr (inl s)) => ok_or "syntax error" (tuple_payload <$> decode (digits_pos s))
    | _ => Err "not a payload"
    end;
|}.

#[export] Instance toy_payload_laws : PayloadSerdeLaws toy_payload.
Proof.
  split; cbn.
  - intros p s [= <-]. apply pos_digits_utf8.
  - intros p s _ [= <-]. rewrite digits_pos_digits, decode_encode. by destruct p.
Qed.

(** The record of [crypto/keys] as a payload with one field that holds its digits. *)
Definition keys_tuple (r : CryptoKeysRecord) :=
  (ckr_id r, ckr_collection r, ckr_default r, map_to_list (ckr_collections r)).
Definition tuple_keys '(i, c, d, m) : CryptoKeysRecord := mkCryptoKeysRecord i c d (list_to_map m).
Definition keys_payload (r : CryptoKeysRecord) : Payload :=
  mkPayload _ "keys" false {["k" := json_string (pos_digits (encode (keys_tuple r)))]}.
Definition parse_keys (v : option JsonValue) : res string CryptoKeysRecord :=
  match v with
  | Some (GenLeaf (inr (inl s))) => ok_or "syntax error" (tuple_keys <$> decode (digits_pos s))
  | _ => Err "missing field"
  end.
Fixpoint find_field (k : string) (fields : list JsonValue) : option JsonValue :=
  match fields with
  | GenNode 1 [GenLeaf (inr (inl k')); x] :: fields =>
      if String.eqb k k' then Some x else find_field k fields
  | _ => None
  end.
Definition field (k : string) (v : JsonValue) : option JsonValue :=
  match v with GenNode 0 fields => find_field k fields | _ => None end.

#[export] Instance toy_keys : Serde CryptoKeysRecord := {|
  to_string r := to_string (keys_payload r);
  from_str s := p ← from_str s; parse_keys (p_data p !! "k");
  to_value r := to_value (keys_payload r);
  from_value v := parse_keys (field "k" v);
|}.

Lemma find_field_list k (l : list (string * JsonValue)) :
  find_field k ((λ kv, GenNode 1 [GenLeaf (inr (inl kv.1)); kv.2]) <$> l) =
  (list_to_map l : gmap string JsonValue) !! k.
Proof.
  induction l as [|[k' x] l IH]; [done|]. rewrite list_to_map_cons, fmap_cons.
  cbn [find_field fst snd]. rewrite IH.
  destruct (String.eqb_spec k k') as [->|Hne]; [by rewrite lookup_insert_eq|by rewrite lookup_insert_ne].
Qed.

Lemma find_field_lookup k (m : gmap string JsonValue) : field k (json_object m) = m !! k.
Proof. rewrite <-(list_to_map_to_list m) at 2. apply find_field_list. Qed.

#[export] Instance toy_keys_laws : KeysSerdeLaws toy_payload toy_keys.
Proof.
  intros r p. unfold Payload.from_record, Payload.from_json. cbn.
  rewrite digits_pos_digits, decode_encode. intros [= <-]. change (tuple_payload (payload_tuple ?x)) with x.
  split; [by split|]. split; [done|]. split; [done|].
  unfold Payload.into_record, Payload.into_json. cbn [p_deleted p_data keys_payload from_value toy_keys].
  rewrite find_field_lookup, lookup_insert_ne, lookup_singleton_eq by done. cbn.
  rewrite digits_pos_digits, decode_encode. cbn. rewrite list_to_map_to_list. by destruct r.
Qed.
End ToySerde.

Module ToyBso.
Import ToyCrypto ToySerde.
Definition payload : Payload :=
  mkPayload _ "abc" false (<["sortindex" := json_int 7]> (<["title" := json_string "t"]> ∅)).
Definition key : KeyBundle := mkKeyBundle (replicate 32 Ascii.one) (replicate 32 Ascii.zero).
Definition sealed : EncryptedBso :=
  mkBsoRecord "x" "bookmarks" ts_default None None (mkEncryptedPayload "" "00" "11").

Definition keys : CollectionKeys :=
  mkCollectionKeys ts_default key {["bookmarks" := mkKeyBundle (replicate 32 Ascii.zero) (replicate 32 Ascii.one)]}.

Lemma collection_keys_round_trip_witness :
  ∃ bso w', CollectionKeys.to_encrypted_bso keys key 0%nat = (Ok bso, w') ∧
    CollectionKeys.from_encrypted_bso bso key = Ok keys.
Proof.
  assert (Hok : is_ok (CollectionKeys.to_encrypted_bso keys key 0%nat).1 = true) by (vm_compute; reflexivity).
  destruct (CollectionKeys.to_encrypted_bso keys key 0%nat) as [[bso|e|m] w'] eqn:Henc; try discriminate Hok.
  exists bso, w'. split; [reflexivity|].
  apply (collection_keys_round_trip keys key 0%nat bso w'); [split; reflexivity| |exact Henc].
  apply map_Forall_singleton. split; reflexivity.
Defined.

Lemma decrypt_is_authenticated_witness :
  decrypt sealed key = Err HmacMismatch.
Proof.
  apply (proj1 (@decrypt_is_authenticated toy_json toy toy_laws toy_payload sealed key
    (toy_mac (replicate 32 Ascii.zero) (as_bytes "11")) ltac:(vm_compute; reflexivity)) (as_bytes "00")).
  - reflexivity.
  - vm_compute. discriminate.
Defined.
End ToyBso.
