(* ===== verification/PostQueue.v ===== *)
(** * The upload queue

    Model of the batched upload of [components/sync15/src/request.rs]:
    [LimitTracker], [NormalResponseHandler], and [PostQueue] with [enqueue] and
    [flush].  The two traits of the source, [BatchPoster] and [PostResponseHandler],
    are classes; the theorems hold for every poster (hence for every server) and are
    stated through an instrumented poster that records the requests. *)

From S2P Require Import Prelude Sync15Types KeyBundle Bso.
From Stdlib Require Import Ascii.
Local Open Scope Z_scope.
Local Open Scope list_scope.

(** ** Interfaces *)

(** [BatchPoster::post] over the state [W] of the outside world.  The last argument of
    the source, a reference to the queue that only test posters look at, is left out. *)
Class BatchPoster (W : Type) :=
  post : bytes → ServerTimestamp → option string → bool → ST W ErrorKind PostResponse.

Class PostResponseHandler (H : Type) :=
  handle_response : PostResponse → bool → ST H ErrorKind unit.

(** [serde_json::to_writer] of a record, which the source [unwrap]s. *)
Class RecordWriter := to_writer : EncryptedBso → bytes.

(** ** LimitTracker *)
Record LimitTracker := mkLimitTracker {
  max_bytes : Z;
  max_records : Z;
  cur_bytes : Z;
  cur_records : Z;
}.

Module LimitTracker.
Definition new (max_bytes max_records : Z) : LimitTracker :=
  mkLimitTracker max_bytes max_records 0 0.

Definition clear (t : LimitTracker) : LimitTracker :=
  mkLimitTracker (max_bytes t) (max_records t) 0 0.

(** [usize] arithmetic: [checks] is the build's overflow-check setting. *)
Definition can_add_record {E} (checks : bool) (t : LimitTracker) (payload_size : Z) : res E bool :=
  if cur_records t <? max_records t then
    total ← uadd checks 64 (cur_bytes t) payload_size;
    Ok (total <=? max_bytes t)
  else Ok false.

Definition can_never_add (t : LimitTracker) (record_size : Z) : bool := max_bytes t <=? record_size.

Definition record_added {E} (checks : bool) (t : LimitTracker) (record_size : Z)
    : res E LimitTracker :=
  ok ← can_add_record checks t record_size;
  _ ← rassert ok "LimitTracker::record_added caller must check can_add_record";
  records ← uadd checks 64 (cur_records t) 1;
  bytes ← uadd checks 64 (cur_bytes t) record_size;
  Ok (mkLimitTracker (max_bytes t) (max_records t) bytes records).
End LimitTracker.

(** ** NormalResponseHandler *)
Record NormalResponseHandler := mkNormalResponseHandler {
  failed_ids : list string;
  successful_ids : list string;
  allow_failed : bool;
  pending_failed : list string;
  pending_success : list string;
}.

Module NormalResponseHandler.
Definition new (allow_failed : bool) : NormalResponseHandler :=
  mkNormalResponseHandler [] [] allow_failed [] [].

Definition handle_response (r : PostResponse) (mid_batch : bool)
    : ST NormalResponseHandler ErrorKind unit :=
  λ h,
    if negb (is_success r) then
      if pr_status r =? PRECONDITION_FAILED then (Err BatchInterrupted, h)
      else (Err (StorageHttpError (pr_status r) "collection storage (TODO: record route somewhere)"), h)
    else if negb (bool_decide (ur_failed (pr_result r) = ∅)) && negb (allow_failed h) then
      (Err RecordUploadFailed, h)
    else
      let pending_success := pending_success h ++ ur_success (pr_result r) in
      let pending_failed := pending_failed h ++ (map_to_list (ur_failed (pr_result r))).*1 in
      if negb mid_batch then
        (Ok tt, mkNormalResponseHandler (failed_ids h ++ pending_failed)
                  (successful_ids h ++ pending_success) (allow_failed h) [] [])
      else
        (Ok tt, mkNormalResponseHandler (failed_ids h) (successful_ids h) (allow_failed h)
                  pending_failed pending_success).
End NormalResponseHandler.

Global Instance normal_handler : PostResponseHandler NormalResponseHandler :=
  NormalResponseHandler.handle_response.

(** ** PostQueue *)
Inductive BatchState := Unsupported | NoBatch | InBatch (id : string).

Global Instance BatchState_eq_dec : EqDecision BatchState.
Proof. solve_decision. Defined.

Record PostQueue (H : Type) := mkPostQueue {
  on_response : H;
  post_limits : LimitTracker;
  batch_limits : LimitTracker;
  max_payload_bytes : Z;
  q_max_request_bytes : Z;
  queued : bytes;
  batch : BatchState;
  q_last_modified : ServerTimestamp;
}.
Arguments mkPostQueue {H}.
Arguments on_response {H}.
Arguments post_limits {H}.
Arguments batch_limits {H}.
Arguments max_payload_bytes {H}.
Arguments q_max_request_bytes {H}.
Arguments queued {H}.
Arguments batch {H}.
Arguments q_last_modified {H}.

Definition set_queued {H} (b : bytes) (q : PostQueue H) : PostQueue H :=
  mkPostQueue (on_response q) (post_limits q) (batch_limits q) (max_payload_bytes q)
    (q_max_request_bytes q) b (batch q) (q_last_modified q).
Definition set_post_limits {H} (t : LimitTracker) (q : PostQueue H) : PostQueue H :=
  mkPostQueue (on_response q) t (batch_limits q) (max_payload_bytes q)
    (q_max_request_bytes q) (queued q) (batch q) (q_last_modified q).
Definition set_batch_limits {H} (t : LimitTracker) (q : PostQueue H) : PostQueue H :=
  mkPostQueue (on_response q) (post_limits q) t (max_payload_bytes q)
    (q_max_request_bytes q) (queued q) (batch q) (q_last_modified q).
Definition set_batch {H} (b : BatchState) (q : PostQueue H) : PostQueue H :=
  mkPostQueue (on_response q) (post_limits q) (batch_limits q) (max_payload_bytes q)
    (q_max_request_bytes q) (queued q) b (q_last_modified q).
Definition set_last_modified {H} (t : ServerTimestamp) (q : PostQueue H) : PostQueue H :=
  mkPostQueue (on_response q) (post_limits q) (batch_limits q) (max_payload_bytes q)
    (q_max_request_bytes q) (queued q) (batch q) t.
Definition set_on_response {H} (h : H) (q : PostQueue H) : PostQueue H :=
  mkPostQueue h (post_limits q) (batch_limits q) (max_payload_bytes q)
    (q_max_request_bytes q) (queued q) (batch q) (q_last_modified q).

Definition LBRACKET : ascii := "[".
Definition COMMA : ascii := ",".
Definition RBRACKET : ascii := "]".

Module PostQueue.
Section post_queue.
Context {W H : Type} {BP : BatchPoster W} {RH : PostResponseHandler H}.
Context `{!SerdeJson, !Serde EncryptedPayload, !RecordWriter}.
(** The build: with [debug], additions are overflow-checked and [debug_assert!]s run. *)
Context (debug : bool).

Definition new (config : InfoConfiguration) (t : ServerTimestamp) (h : H) : PostQueue H :=
  mkPostQueue h
    (LimitTracker.new (max_post_bytes config) (max_post_records config))
    (LimitTracker.new (max_total_bytes config) (max_total_records config))
    (max_record_payload_bytes config) (max_request_bytes config) [] NoBatch t.

Definition in_batch (q : PostQueue H) : bool :=
  match batch q with Unsupported | NoBatch => false | _ => true end.

(** A call of [self.on_response.handle_response(..)?] followed by [k]. *)
Definition call_handler (r : PostResponse) (mid_batch : bool)
    (k : ST (PostQueue H * W) ErrorKind unit) : ST (PostQueue H * W) ErrorKind unit :=
  λ '(q, w),
    let '(o, h) := handle_response r mid_batch (on_response q) in
    let q := set_on_response h q in
    match o with
    | Ok _ => k (q, w)
    | Err e => (Err e, (q, w))
    | Panic m => (Panic m, (q, w))
    end.

(** The second half of [flush]: what is done with the reply. *)
Definition process_reply (want_commit : bool) (resp : PostResponse)
    : ST (PostQueue H * W) ErrorKind unit :=
  λ '(q, w),
    if negb (is_success resp) then
      call_handler resp (negb want_commit)
        (st_err (StorageHttpError (pr_status resp) "Client bug!")) (q, w)
    else
      let q :=
        if want_commit || bool_decide (batch q = Unsupported)
        then set_last_modified (pr_last_modified resp) q else q in
      if want_commit then
        let q := set_batch NoBatch q in
        call_handler resp false (mret tt) (q, w)
      else if negb (pr_status resp =? ACCEPTED) then
        if in_batch q then
          (Err (ServerBatchProblem
             "Server responded non-202 success code while a batch was in progress"), (q, w))
        else
          let q := set_last_modified (pr_last_modified resp) q in
          let q := set_batch Unsupported q in
          let q := set_batch_limits (LimitTracker.clear (batch_limits q)) q in
          call_handler resp false (mret tt) (q, w)
      else
        match ur_batch (pr_result resp) with
        | None =>
            (Err (ServerBatchProblem "Invalid server response: 202 without a batch ID"), (q, w))
        | Some batch_id =>
            let mismatch :=
              match batch q with
              | InBatch cur_id => negb (String.eqb cur_id batch_id)
              | _ => false
              end in
            if mismatch then
              (Err (ServerBatchProblem "Invalid server response: 202 without a batch ID"), (q, w))
            else
              let q := set_batch (InBatch batch_id) q in
              let q := set_last_modified (pr_last_modified resp) q in
              call_handler resp true (mret tt) (q, w)
        end.

Definition flush (want_commit : bool) : ST (PostQueue H * W) ErrorKind unit :=
  λ '(q, w),
    match queued q with
    | [] =>
        if in_batch q
        then (Panic "Bug: Somehow we're in a batch but have no queued records", (q, w))
        else (Ok tt, (q, w))
    | _ :: _ =>
      let q := set_queued (queued q ++ [RBRACKET]) q in
      let batch_id :=
        match batch q with
        | Unsupported => None
        | NoBatch => Some "true"%string
        | InBatch s => Some s
        end in
      let is_commit := want_commit && bool_decide (is_Some batch_id) in
      let '(resp_or_error, w) := post (queued q) (q_last_modified q) batch_id is_commit w in
      let q := set_queued [] q in
      let q :=
        if want_commit || bool_decide (batch q = Unsupported)
        then set_batch_limits (LimitTracker.clear (batch_limits q)) q else q in
      let q := set_post_limits (LimitTracker.clear (post_limits q)) q in
      match resp_or_error with
      | Err e => (Err e, (q, w))
      | Panic m => (Panic m, (q, w))
      | Ok resp => process_reply want_commit resp (q, w)
      end
    end.

(** Appends a record to the body: an opening bracket or a comma, then the record. *)
Definition write_record (record : EncryptedBso) (q : PostQueue H) : PostQueue H :=
  let c := match queued q with [] => LBRACKET | _ => COMMA end in
  set_queued (queued q ++ [c] ++ to_writer record) q.

(** [self.post_limits.record_added(..)] and [self.batch_limits.record_added(..)]. *)
Definition count_record (payload_length : Z) : ST (PostQueue H * W) ErrorKind unit :=
  λ '(q, w),
    match LimitTracker.record_added debug (post_limits q) payload_length with
    | Err e => (Err e, (q, w))
    | Panic m => (Panic m, (q, w))
    | Ok t =>
        let q := set_post_limits t q in
        match LimitTracker.record_added debug (batch_limits q) payload_length with
        | Err e => (Err e, (q, w))
        | Panic m => (Panic m, (q, w))
        | Ok t => (Ok tt, (set_batch_limits t q, w))
        end
    end.

(** The second half of [enqueue]: the record is written at the end of [queued]; if a limit
    is hit it is "unwritten", the queue flushed, and the record written again. *)
Definition place_record (record : EncryptedBso) (payload_length : Z) (item_start : nat)
    : ST (PostQueue H * W) ErrorKind bool :=
  '(q, w) ← st_get;
  can_post_record ← st_lift (LimitTracker.can_add_record debug (post_limits q) payload_length);
  can_batch_record ← st_lift (LimitTracker.can_add_record debug (batch_limits q) payload_length);
  let can_send_record := Z.of_nat (List.length (queued q)) <? q_max_request_bytes q in
  _ ← (if negb can_post_record || negb can_send_record || negb can_batch_record then
         _ ← st_modify (λ '(q, w), (set_queued (take item_start (queued q)) q, w));
         _ ← flush (negb can_batch_record);
         st_modify (λ '(q, w), (write_record record q, w))
       else mret tt);
  _ ← count_record payload_length;
  mret true.

Definition enqueue (record : EncryptedBso) : ST (PostQueue H * W) ErrorKind bool :=
  payload_length ← st_lift (EncryptedPayload.serialized_len (bso_payload record));
  (λ '(q, w),
    if LimitTracker.can_never_add (post_limits q) payload_length
       || LimitTracker.can_never_add (batch_limits q) payload_length
       || (max_payload_bytes q <=? payload_length)
    then (Ok false, (q, w))
    else
      let item_start := List.length (queued q) in
      let q := write_record record q in
      let item_end := List.length (queued q) in
      if debug && (Z.of_nat item_end <? payload_length)
      then (Panic "EncryptedPayload::serialized_len is bugged", (q, w))
      else
        let item_len := Z.of_nat item_end - Z.of_nat item_start + 1 in
        if q_max_request_bytes q <=? item_len then
          (Ok false, (set_queued (take item_start (queued q)) q, w))
        else
          place_record record payload_length item_start (q, w)) : ST (PostQueue H * W) ErrorKind bool.
End post_queue.

(** [completed_upload_info] drains the handler's lists. *)
Definition completed_upload_info (q : PostQueue NormalResponseHandler)
    : UploadInfo * PostQueue NormalResponseHandler :=
  let h := on_response q in
  (mkUploadInfo (successful_ids h) (failed_ids h ++ pending_failed h ++ pending_success h)
     (q_last_modified q),
   set_on_response (mkNormalResponseHandler [] [] (allow_failed h) [] []) q).
End PostQueue.

(** ** Observing the requests

    [logged] runs a poster and records every request with its reply. *)
Record Post := mkPost {
  po_body : bytes;
  po_xius : ServerTimestamp;
  po_batch : option string;
  po_commit : bool;
  po_reply : res ErrorKind PostResponse;
}.

Definition logged {W} (P : BatchPoster W) : BatchPoster (W * list Post) :=
  λ body xius batch commit '(w, log),
    let '(r, w) := P body xius batch commit w in
    (r, (w, log ++ [mkPost body xius batch commit r])).

(** A poster and a handler that do not panic themselves. *)
Definition poster_total {W} (P : BatchPoster W) : Prop :=
  ∀ body xius batch commit w m, (P body xius batch commit w).1 ≠ Panic m.
Definition handler_total {H} (P : PostResponseHandler H) : Prop :=
  ∀ r mid h m, (P r mid h).1 ≠ Panic m.

(** ** The specification of a sequence of requests *)
Section spec.
Context `{!SerdeJson, !Serde EncryptedPayload, !RecordWriter}.
Implicit Types (rs g : list EncryptedBso) (r : EncryptedBso).

Definition payload_len (r : EncryptedBso) : Z :=
  match EncryptedPayload.serialized_len (bso_payload r) with Ok n => n | _ => 0 end.

(** The record can be measured: the serialiser does not fail on it, and it meets the
    precondition of the debug assertion in [enqueue]. *)
Definition measured (debug : bool) (r : EncryptedBso) : Prop :=
  EncryptedPayload.serialized_len (bso_payload r) = Ok (payload_len r) ∧
  (debug = true → payload_len r ≤ bytes_len (to_writer r)).
Definition payload_sum (rs : list EncryptedBso) : Z := foldr (λ r n, payload_len r + n) 0 rs.
Definition count (rs : list EncryptedBso) : Z := Z.of_nat (List.length rs).

(** A JSON array of the records, without and with its closing bracket. *)
Definition render_open (rs : list EncryptedBso) : bytes :=
  match rs with
  | [] => []
  | r :: rs => LBRACKET :: to_writer r ++ List.concat ((λ r, COMMA :: to_writer r) <$> rs)
  end.
Definition render (rs : list EncryptedBso) : bytes := render_open rs ++ [RBRACKET].

(** One request carries the records [g]: the body is their JSON array, and the
    per-request limits of the server configuration are met. *)
Definition post_ok (cfg : InfoConfiguration) (p : Post) (g : list EncryptedBso) : Prop :=
  po_body p = render g ∧ g ≠ [] ∧
  count g ≤ max_post_records cfg ∧ payload_sum g ≤ max_post_bytes cfg ∧
  bytes_len (po_body p) ≤ max_request_bytes cfg.

(** Whether the batch the request belongs to ends with it: a commit, a request
    outside a batch, or a reply that is not [202 Accepted]. *)
Definition closes (p : Post) : bool :=
  po_commit p || negb (bool_decide (is_Some (po_batch p))) ||
  match po_reply p with Ok resp => negb (pr_status resp =? ACCEPTED) | _ => true end.

(** The requests of one batch together meet the per-batch limits; [acc] are the
    records of the open batch. *)
Fixpoint batches_ok (cfg : InfoConfiguration) (acc : list EncryptedBso)
    (l : list (Post * list EncryptedBso)) : Prop :=
  match l with
  | [] => True
  | (p, g) :: l =>
      (count (acc ++ g) ≤ max_total_records cfg ∧ payload_sum (acc ++ g) ≤ max_total_bytes cfg) ∧
      batches_ok cfg (if closes p then [] else acc ++ g) l
  end.

(** The records of the batch that is open after the requests. *)
Fixpoint open_batch (acc : list EncryptedBso) (l : list (Post * list EncryptedBso))
    : list EncryptedBso :=
  match l with
  | [] => acc
  | (p, g) :: l => open_batch (if closes p then [] else acc ++ g) l
  end.

(** A record that cannot be sent whatever else is in the request. *)
Definition too_large (cfg : InfoConfiguration) (r : EncryptedBso) : bool :=
  (max_post_bytes cfg <=? payload_len r) || (max_total_bytes cfg <=? payload_len r)
  || (max_record_payload_bytes cfg <=? payload_len r)
  || (max_request_bytes cfg <=? bytes_len (render [r])).

(** The requests [log] carry the record groups [gs] within all limits. *)
Definition log_ok (cfg : InfoConfiguration) (log : list Post) (gs : list (list EncryptedBso)) : Prop :=
  Forall2 (post_ok cfg) log gs ∧ batches_ok cfg [] (zip log gs).

Lemma payload_len_nonneg r : 0 ≤ payload_len r.
Proof.
  unfold payload_len, EncryptedPayload.serialized_len, EncryptedPayload.empty_size, string_len.
  destruct (to_string _); cbn; lia.
Qed.

Lemma payload_sum_app rs1 rs2 : payload_sum (rs1 ++ rs2) = payload_sum rs1 + payload_sum rs2.
Proof. unfold payload_sum. induction rs1; cbn [foldr app]; lia. Qed.

Lemma payload_sum_nonneg rs : 0 ≤ payload_sum rs.
Proof.
  unfold payload_sum. induction rs as [|r rs IH]; cbn [foldr]; [lia|].
  pose proof (payload_len_nonneg r). lia.
Qed.

Lemma payload_sum_singleton r : payload_sum [r] = payload_len r.
Proof. unfold payload_sum. cbn [foldr]. lia. Qed.

Lemma count_app rs1 rs2 : count (rs1 ++ rs2) = count rs1 + count rs2.
Proof. unfold count. rewrite length_app. lia. Qed.

Lemma render_open_nil rs : render_open rs = [] ↔ rs = [].
Proof. by destruct rs. Qed.

Lemma render_open_snoc rs r :
  render_open (rs ++ [r]) =
    render_open rs ++ [match render_open rs with [] => LBRACKET | _ => COMMA end] ++ to_writer r.
Proof.
  destruct rs as [|r0 rs]; cbn; [by rewrite app_nil_r|].
  rewrite fmap_app, List.concat_app. cbn. by rewrite app_nil_r, <-app_assoc.
Qed.

Lemma zip_snoc {A B} (l : list A) (k : list B) a b :
  length l = length k → zip (l ++ [a]) (k ++ [b]) = zip l k ++ [(a, b)].
Proof. intros Hl. by rewrite zip_with_app. Qed.

Lemma batches_ok_snoc cfg acc l p g :
  batches_ok cfg acc (l ++ [(p, g)]) ↔
  batches_ok cfg acc l ∧ count (open_batch acc l ++ g) ≤ max_total_records cfg ∧
    payload_sum (open_batch acc l ++ g) ≤ max_total_bytes cfg.
Proof. revert acc. induction l as [|[p0 g0] l IH]; intros acc; cbn; [tauto|]. rewrite IH. tauto. Qed.

Lemma open_batch_snoc acc l p g :
  open_batch acc (l ++ [(p, g)]) = if closes p then [] else open_batch acc l ++ g.
Proof. revert acc. induction l as [|[p0 g0] l IH]; intros acc; cbn; [done|]. apply IH. Qed.

Lemma log_ok_snoc cfg log gs p g :
  log_ok cfg log gs → post_ok cfg p g →
  count (open_batch [] (zip log gs) ++ g) ≤ max_total_records cfg →
  payload_sum (open_batch [] (zip log gs) ++ g) ≤ max_total_bytes cfg →
  log_ok cfg (log ++ [p]) (gs ++ [g]).
Proof.
  intros [Hl Hb] Hp Hc Hs. split; [by apply Forall2_app; [|constructor]|].
  rewrite zip_snoc by (by eapply Forall2_length). by apply batches_ok_snoc.
Qed.
End spec.

(** ** The queue invariant *)
Section invariant.
Context {W H : Type} {P : BatchPoster W} {PH : PostResponseHandler H}.
Context `{!SerdeJson, !Serde EncryptedPayload, !RecordWriter}.
Context (cfg : InfoConfiguration).
Implicit Types (q : PostQueue H).

(** A tracker counts the records [rs] and they are within its limits. *)
Definition tracks (t : LimitTracker) (mb mr : Z) (rs : list EncryptedBso) : Prop :=
  max_bytes t = mb ∧ max_records t = mr ∧
  cur_bytes t = payload_sum rs ∧ cur_records t = count rs ∧
  payload_sum rs ≤ mb ∧ count rs ≤ mr.

(** [pending] are the records in the body under construction, [acc] those sent in the
    open batch. *)
Record live q (acc pending : list EncryptedBso) : Prop := {
  live_queued : queued q = render_open pending;
  live_request : pending ≠ [] → bytes_len (queued q) < max_request_bytes cfg;
  live_post : tracks (post_limits q) (max_post_bytes cfg) (max_post_records cfg) pending;
  live_batch : tracks (batch_limits q) (max_total_bytes cfg) (max_total_records cfg) (acc ++ pending);
  live_acc : PostQueue.in_batch q = false → acc = [];
  live_payload : max_payload_bytes q = max_record_payload_bytes cfg;
  live_max_request : q_max_request_bytes q = max_request_bytes cfg;
}.

(** Limits are [usize]s, and one record may be sent. *)
Definition cfg_ok : Prop :=
  fits 64 (max_post_bytes cfg) ∧ fits 64 (max_total_bytes cfg) ∧
  1 ≤ max_post_records cfg < 2 ^ 64 ∧ 1 ≤ max_total_records cfg < 2 ^ 64.

Lemma tracks_clear t mb mr rs :
  0 ≤ mb → 0 ≤ mr → tracks t mb mr rs → tracks (LimitTracker.clear t) mb mr [].
Proof. intros ? ? (? & ? & _). by repeat split. Qed.

Lemma new_live t h : cfg_ok → live (PostQueue.new cfg t h) [] [].
Proof.
  intros ([? ?] & [? ?] & ? & ?). split; try done.
  all: repeat split; unfold count; cbn; lia.
Qed.

(** The body of a request is the JSON array of the pending records. *)
Lemma live_post_ok q acc pending p :
  live q acc pending → pending ≠ [] → po_body p = queued q ++ [RBRACKET] →
  post_ok cfg p pending.
Proof.
  intros Hl Hne Hb. destruct (live_post _ _ _ Hl) as (_ & _ & _ & _ & ? & ?).
  unfold post_ok, render. rewrite Hb, (live_queued _ _ _ Hl).
  split_and!; try done. pose proof (live_request _ _ _ Hl Hne) as Hr.
  unfold bytes_len in *. rewrite (live_queued _ _ _ Hl) in Hr. rewrite length_app. cbn. lia.
Qed.

(** The queue after a request was sent and its reply accepted; [acc'] is the open batch. *)
Lemma live_sent q acc pending acc' q' :
  cfg_ok → live q acc pending →
  queued q' = [] →
  max_payload_bytes q' = max_payload_bytes q → q_max_request_bytes q' = q_max_request_bytes q →
  post_limits q' = LimitTracker.clear (post_limits q) →
  (batch_limits q' = LimitTracker.clear (batch_limits q) ∧ acc' = [] ∨
   batch_limits q' = batch_limits q ∧ acc' = acc ++ pending ∧ PostQueue.in_batch q' = true) →
  live q' acc' [].
Proof.
  intros ([? ?] & [? ?] & ? & ?) Hl Hq Hp Hr Hpost Hb.
  split; rewrite ?Hq, ?Hp, ?Hr, ?Hpost; try done; try apply Hl.
  - by eapply tracks_clear; [..|apply Hl]; [done|lia].
  - rewrite app_nil_r. destruct Hb as [[-> ->]|(-> & -> & _)]; [|apply Hl].
    by eapply tracks_clear; [..|apply Hl]; [done|lia].
  - destruct Hb as [[_ ->]|(_ & _ & ->)]; done.
Qed.

(** The reply is processed: no panic, the world is not touched, and on success the
    queue is out of the batch after a commit, in a batch (with its limits kept) after a
    [202], and out of batches with the limits cleared otherwise. *)
Lemma process_reply_spec {W'} q (w : W') wc resp o q' w' :
  handler_total PH →
  PostQueue.process_reply wc resp (q, w) = (o, (q', w')) →
  w' = w ∧ (∀ m, o ≠ Panic m) ∧
  (o = Ok tt →
     queued q' = queued q ∧ post_limits q' = post_limits q ∧
     max_payload_bytes q' = max_payload_bytes q ∧
     q_max_request_bytes q' = q_max_request_bytes q ∧
     if wc then PostQueue.in_batch q' = false ∧ batch_limits q' = batch_limits q
     else if pr_status resp =? ACCEPTED
     then PostQueue.in_batch q' = true ∧ batch_limits q' = batch_limits q
     else PostQueue.in_batch q = false ∧
          batch_limits q' = LimitTracker.clear (batch_limits q)).
Proof.
  intros HH. unfold PostQueue.process_reply, PostQueue.call_handler, st_err, mret, ST_ret.
  assert (HH' : ∀ r mid h m h', handle_response r mid h ≠ (Panic m, h')).
  { intros r mid h m h' Heq. apply (HH r mid h m). unfold handle_response in Heq. by rewrite Heq. }
  destruct (is_success resp); cbn [negb].
  2:{ destruct (handle_response resp (negb wc) _) as [[u|e|m] h] eqn:Hh; [..|by apply HH' in Hh].
      all: intros; by simplify_eq/=. }
  destruct wc; cbn [orb].
  { destruct (handle_response resp false _) as [[[]|e|m] h] eqn:Hh; [..|by apply HH' in Hh].
    all: intros; by simplify_eq/=. }
  destruct (pr_status resp =? ACCEPTED); cbn [negb].
  - destruct (ur_batch (pr_result resp)) as [bid|]; [|by intros; simplify_eq].
    destruct (match batch _ with InBatch _ => _ | _ => _ end); [by intros; simplify_eq|].
    destruct (handle_response resp true _) as [[[]|e|m] h] eqn:Hh; [..|by apply HH' in Hh].
    all: case_bool_decide; intros; by simplify_eq/=.
  - assert (Hin : PostQueue.in_batch (if bool_decide (batch q = Unsupported)
                    then set_last_modified (pr_last_modified resp) q else q) = PostQueue.in_batch q).
    { by case_bool_decide. }
    rewrite Hin. destruct (PostQueue.in_batch q); [by intros; simplify_eq|].
    destruct (handle_response resp false _) as [[[]|e|m] h] eqn:Hh; [..|by apply HH' in Hh].
    all: case_bool_decide; intros; by simplify_eq/=.
Qed.

(** What [flush] does on a live queue with pending records. *)
Lemma flush_live q acc pending wc w log gs o q' w' log' :
  poster_total P → handler_total PH → cfg_ok →
  live q acc pending → pending ≠ [] →
  log_ok cfg log gs → open_batch [] (zip log gs) = acc →
  PostQueue.flush (BP:=logged P) wc (q, (w, log)) = (o, (q', (w', log'))) →
  log_ok cfg log' (gs ++ [pending]) ∧
  (∀ m, o ≠ Panic m) ∧
  (o = Ok tt → ∃ acc', live q' acc' [] ∧ open_batch [] (zip log' (gs ++ [pending])) = acc' ∧
     (acc' = [] ∨ acc' = acc ++ pending ∧ wc = false) ∧
     (wc = true → PostQueue.in_batch q' = false)).
Proof.
  intros HP HH Hcfg Hl Hne Hlog Hacc.
  assert (Hq : ∃ c b, queued q = c :: b).
  { rewrite (live_queued _ _ _ Hl). destruct pending; [done|]. cbn. eauto. }
  destruct Hq as (c & b & Hq). unfold PostQueue.flush. rewrite Hq. rewrite <-Hq.
  set (bid := match batch _ with Unsupported => _ | NoBatch => _ | InBatch _ => _ end).
  destruct (post _ _ bid _ (w, log)) as [r [w1 log1]] eqn:Hpost.
  unfold post, logged in Hpost.
  destruct (P _ _ bid _ w) as [r0 w0] eqn:HPost. injection Hpost as -> -> <-.
  set (p := mkPost _ _ _ _ r).
  set (q1 := set_post_limits _ _).
  assert (Hpok : post_ok cfg p pending) by (by eapply live_post_ok).
  assert (Hlog' : log_ok cfg (log ++ [p]) (gs ++ [pending])).
  { apply log_ok_snoc; try done; rewrite Hacc; apply (live_batch _ _ _ Hl). }
  assert (Hopen : open_batch [] (zip (log ++ [p]) (gs ++ [pending])) = if closes p then [] else acc ++ pending).
  { rewrite zip_snoc by (eapply Forall2_length, Hlog). by rewrite open_batch_snoc, Hacc. }
  destruct r as [resp|e|m].
  2:{ intros [= <- <- <- <-]. done. }
  2:{ exfalso. eapply (HP _ _ bid _ w m). by rewrite HPost. }
  intros Hproc.
  destruct (process_reply_spec q1 (w1, log ++ [p]) wc resp o q' (w', log') HH Hproc)
    as (Hw & Hnp & Hok). injection Hw as -> ->. do 2 (split; [done|]).
  intros ->. destruct (Hok eq_refl) as (Hqd & Hpl & Hmp & Hmr & Hcase). clear Hok.
  assert (Hcl : closes p = (wc || bool_decide (batch q = Unsupported)) || negb (pr_status resp =? ACCEPTED)).
  { unfold closes, p, bid. cbn. by destruct wc, (batch q). }
  assert (Hq1 : queued q1 = [] ∧ max_payload_bytes q1 = max_payload_bytes q ∧
    q_max_request_bytes q1 = q_max_request_bytes q ∧
    post_limits q1 = LimitTracker.clear (post_limits q) ∧
    PostQueue.in_batch q1 = PostQueue.in_batch q ∧
    batch_limits q1 = if wc || bool_decide (batch q = Unsupported)
                      then LimitTracker.clear (batch_limits q) else batch_limits q).
  { unfold q1. change (batch (set_queued _ _)) with (batch q).
    by destruct (wc || bool_decide (batch q = Unsupported)). }
  destruct Hq1 as (Hq1 & Hq2 & Hq3 & Hq4 & Hq5 & Hq6). clearbody q1.
  assert (Hsent : (batch_limits q' = LimitTracker.clear (batch_limits q) ∧ closes p = true) ∨
    (batch_limits q' = batch_limits q ∧ closes p = false ∧ wc = false ∧ PostQueue.in_batch q' = true)).
  { rewrite Hcl. destruct wc; cbn [orb] in *.
    - left. destruct Hcase as [_ ->]. by rewrite Hq6.
    - destruct (pr_status resp =? ACCEPTED); destruct Hcase as [Hin Hb]; rewrite Hb, Hq6.
      + case_bool_decide; [by left|by right].
      + left. by case_bool_decide. }
  exists (if closes p then [] else acc ++ pending). split; [|split; [done|split]].
  - eapply (live_sent q acc pending); try congruence.
    destruct Hsent as [[-> ->]|(-> & -> & _ & ->)]; auto.
  - destruct Hsent as [[_ ->]|(_ & -> & -> & _)]; auto.
  - intros ->. apply Hcase.
Qed.

Lemma can_add_record_spec {E} debug t mb mr rs n :
  tracks t mb mr rs → 0 ≤ n → payload_sum rs + n < 2 ^ 64 →
  LimitTracker.can_add_record (E:=E) debug t n
  = Ok ((count rs <? mr) && (payload_sum rs + n <=? mb)).
Proof.
  intros (Hb & Hr & Hcb & Hcr & _) Hn Hs. unfold LimitTracker.can_add_record.
  rewrite Hb, Hr, Hcb, Hcr. destruct (count rs <? mr); [|done].
  rewrite uadd_small; [done|]. pose proof (payload_sum_nonneg rs). lia.
Qed.

Lemma record_added_spec {E} debug t mb mr rs r :
  tracks t mb mr rs → count rs < mr < 2 ^ 64 → payload_sum rs + payload_len r ≤ mb < 2 ^ 64 →
  ∃ t', LimitTracker.record_added (E:=E) debug t (payload_len r) = Ok t' ∧ tracks t' mb mr (rs ++ [r]).
Proof.
  intros Ht Hc Hs. pose proof (payload_len_nonneg r). pose proof (payload_sum_nonneg rs).
  unfold LimitTracker.record_added.
  rewrite (can_add_record_spec debug t mb mr rs) by (done || lia).
  rewrite (proj2 (Z.ltb_lt _ _)), (proj2 (Z.leb_le _ _)) by lia.
  cbn [andb]. rewrite res_bind_ok, rassert_bind by done.
  destruct Ht as (Hb & Hr & Hcb & Hcr & _). rewrite Hcb, Hcr.
  assert (0 ≤ count rs) by (unfold count; lia). rewrite !uadd_small by lia.
  eexists; split; [done|]. unfold tracks. cbn [max_bytes max_records cur_bytes cur_records].
  rewrite payload_sum_app, count_app, payload_sum_singleton.
  change (count [r]) with 1. repeat split; try done; lia.
Qed.

(** Adding a record that the limits admit to a live queue. *)
Lemma add_record_live {W'} debug q acc pending r (w : W') :
  cfg_ok → live q acc pending →
  count pending < max_post_records cfg → payload_sum pending + payload_len r ≤ max_post_bytes cfg →
  count (acc ++ pending) < max_total_records cfg →
  payload_sum (acc ++ pending) + payload_len r ≤ max_total_bytes cfg →
  bytes_len (render_open (pending ++ [r])) < max_request_bytes cfg →
  ∃ q', PostQueue.count_record debug (payload_len r) (PostQueue.write_record r q, w) = (Ok tt, (q', w)) ∧
    live q' acc (pending ++ [r]).
Proof.
  intros ([? ?] & [? ?] & ? & ?) Hl Hc1 Hs1 Hc2 Hs2 Hreq. unfold PostQueue.count_record.
  change (post_limits (PostQueue.write_record r q)) with (post_limits q).
  destruct (record_added_spec (E:=ErrorKind) debug (post_limits q) _ _ pending r (live_post _ _ _ Hl))
    as (t1 & -> & Ht1); [lia..|].
  change (batch_limits (set_post_limits t1 (PostQueue.write_record r q))) with (batch_limits q).
  destruct (record_added_spec (E:=ErrorKind) debug (batch_limits q) _ _ (acc ++ pending) r (live_batch _ _ _ Hl))
    as (t2 & -> & Ht2); [lia..|].
  eexists; split; [done|].
  assert (Hq : queued (PostQueue.write_record r q) = render_open (pending ++ [r])).
  { unfold PostQueue.write_record. cbn. by rewrite render_open_snoc, (live_queued _ _ _ Hl). }
  split; cbn [queued post_limits batch_limits set_batch_limits set_post_limits
    max_payload_bytes q_max_request_bytes].
  - exact Hq.
  - intros _. rewrite Hq. exact Hreq.
  - exact Ht1.
  - by rewrite app_assoc.
  - apply (live_acc _ _ _ Hl).
  - apply (live_payload _ _ _ Hl).
  - apply (live_max_request _ _ _ Hl).
Qed.

(** A queue between two calls: with nothing pending it is not in a batch. *)
Definition ready q (acc pending : list EncryptedBso) (log : list Post)
    (gs : list (list EncryptedBso)) : Prop :=
  live q acc pending ∧ (pending = [] → PostQueue.in_batch q = false) ∧
  log_ok cfg log gs ∧ open_batch [] (zip log gs) = acc.

(** The record as it would be written and counted fits an empty request. *)
Lemma render_open_one_len q pending r :
  queued q = render_open pending →
  Z.of_nat (length (queued (PostQueue.write_record r q))) - Z.of_nat (length (queued q)) =
  bytes_len (render_open [r]).
Proof.
  intros Hq. unfold PostQueue.write_record, bytes_len. cbn. rewrite !length_app. cbn.
  rewrite ?app_nil_r, ?length_app. cbn. lia.
Qed.

(** The path of [enqueue] that flushes first. *)
Lemma flush_add_live debug q acc pending r wc w log gs :
  poster_total P → handler_total PH → cfg_ok →
  live q acc pending → pending ≠ [] → log_ok cfg log gs → open_batch [] (zip log gs) = acc →
  payload_len r < max_post_bytes cfg → payload_len r < max_total_bytes cfg →
  bytes_len (render_open [r]) < max_request_bytes cfg →
  (wc = false → count (acc ++ pending) < max_total_records cfg ∧
     payload_sum (acc ++ pending) + payload_len r ≤ max_total_bytes cfg) →
  ∃ o q' w' log',
    (_ ← PostQueue.flush (BP:=logged P) wc;
     _ ← st_modify (λ '(q, w), (PostQueue.write_record r q, w));
     _ ← PostQueue.count_record debug (payload_len r);
     mret true) (q, (w, log)) = (o, (q', (w', log'))) ∧
    log_ok cfg log' (gs ++ [pending]) ∧
    ((∃ e, o = Err e) ∨
     (o = Ok true ∧ ∃ acc', ready q' acc' [r] log' (gs ++ [pending]) ∧
        (acc' = [] ∨ acc' = acc ++ pending))).
Proof.
  intros HP HH Hcfg Hl Hne Hlog Hacc Hp1 Hp2 Hreq Hroom. unfold mbind, ST_bind.
  destruct (PostQueue.flush (BP:=logged P) wc (q, (w, log))) as [o [q1 [w1 log1]]] eqn:Hfl.
  destruct (flush_live q acc pending wc w log gs o q1 w1 log1) as (Hlog1 & Hnp & Hok); try done.
  destruct o as [[]|e|m]; [|by eexists _, _, _, _; eauto|by destruct (Hnp m)].
  destruct (Hok eq_refl) as (acc' & Hl1 & Hacc' & Hcases & Hin). unfold st_modify.
  pose proof Hcfg as ([? ?] & [? ?] & ? & ?). pose proof (payload_len_nonneg r).
  destruct (add_record_live debug q1 acc' [] r (w1, log1)) as (q2 & Hcount & Hl2); try done;
    rewrite ?app_nil_r; change (payload_sum []) with 0; change (count []) with 0; try lia.
  1,2: destruct Hcases as [->|[-> ->]]; [change (payload_sum []) with 0; change (count []) with 0; lia|];
    by apply Hroom.
  rewrite Hcount. eexists _, _, _, _. split; [done|]. split; [done|]. right. split; [done|].
  exists acc'. split; [|destruct Hcases as [->|[-> _]]; auto]. by split_and!.
Qed.

Lemma unwrite_record r q :
  set_queued (take (length (queued q)) (queued (PostQueue.write_record r q)))
    (PostQueue.write_record r q) = q.
Proof.
  unfold PostQueue.write_record, set_queued. cbn. rewrite take_app_length. by destruct q.
Qed.

Lemma ready_room q acc pending log gs r :
  cfg_ok → ready q acc pending log gs → pending = [] →
  payload_len r < max_total_bytes cfg → payload_len r < max_post_bytes cfg →
  (count (acc ++ pending) <? max_total_records cfg) = true ∧
  (payload_sum (acc ++ pending) + payload_len r <=? max_total_bytes cfg) = true ∧
  (count pending <? max_post_records cfg) = true ∧
  (payload_sum pending + payload_len r <=? max_post_bytes cfg) = true.
Proof.
  intros (_ & _ & ? & ?) (Hl & Hin & _) -> Ht Hp. rewrite (live_acc _ _ _ Hl (Hin eq_refl)).
  change (count ([] ++ [])) with 0. change (payload_sum ([] ++ [])) with 0.
  change (count []) with 0. change (payload_sum []) with 0.
  rewrite !Z.ltb_lt, !Z.leb_le. lia.
Qed.

(** The outcome of appending [r]: an error, or [r] at the end of what was accepted. *)
Definition appended acc pending (gs : list (list EncryptedBso)) (r : EncryptedBso)
    (o : res ErrorKind bool) q' (log' : list Post) : Prop :=
  (∃ gs', log_ok cfg log' gs') ∧
  ((∃ e, o = Err e) ∨
   (o = Ok true ∧ ∃ acc' pending' gs', ready q' acc' pending' log' gs' ∧
      List.concat gs' ++ pending' = (List.concat gs ++ pending) ++ [r] ∧
      payload_sum (acc' ++ pending') ≤ payload_sum (acc ++ pending) + payload_len r)).

Lemma place_record_ready debug q acc pending log gs r w :
  poster_total P → handler_total PH → cfg_ok → ready q acc pending log gs →
  payload_sum (acc ++ pending) + payload_len r < 2 ^ 64 →
  payload_len r < max_post_bytes cfg → payload_len r < max_total_bytes cfg →
  bytes_len (render_open [r]) + 1 < max_request_bytes cfg →
  ∃ o q' w' log',
    PostQueue.place_record (BP:=logged P) debug r (payload_len r) (length (queued q))
      (PostQueue.write_record r q, (w, log)) = (o, (q', (w', log'))) ∧
    appended acc pending gs r o q' log'.
Proof.
  intros HP HH Hcfg Hr Hsum Hp1 Hp2 Hreq. pose proof Hr as (Hl & Hin & Hlog & Hacc).
  pose proof (payload_len_nonneg r) as Hr0. pose proof (payload_sum_nonneg acc) as Ha0.
  pose proof (payload_sum_app acc pending) as Happ.
  assert (Hq : queued (PostQueue.write_record r q) = render_open (pending ++ [r])).
  { unfold PostQueue.write_record. cbn. by rewrite render_open_snoc, (live_queued _ _ _ Hl). }
  unfold PostQueue.place_record, mbind, ST_bind, st_get, st_lift.
  change (q_max_request_bytes (PostQueue.write_record r q)) with (q_max_request_bytes q).
  change (post_limits (PostQueue.write_record r q)) with (post_limits q).
  change (batch_limits (PostQueue.write_record r q)) with (batch_limits q).
  rewrite (can_add_record_spec debug _ _ _ _ _ (live_post _ _ _ Hl)) by lia.
  rewrite (can_add_record_spec debug _ _ _ _ _ (live_batch _ _ _ Hl)) by lia.
  rewrite Hq, (live_max_request _ _ _ Hl). fold (bytes_len (render_open (pending ++ [r]))).
  set (cp := (count pending <? _) && _). set (cb := (count (acc ++ pending) <? _) && _).
  set (cs := bytes_len _ <? _).
  destruct (negb cp || negb cs || negb cb) eqn:Hflush.
  - assert (pending ≠ []) as Hne.
    { intros Hnil. destruct (ready_room _ _ _ _ _ r Hcfg Hr Hnil) as (E1 & E2 & E3 & E4); try done.
      revert Hflush. unfold cp, cb, cs. rewrite E1, E2, E3, E4, Hnil. cbn [app andb negb orb].
      rewrite (proj2 (Z.ltb_lt _ _)); [done|lia]. }
    destruct (flush_add_live debug q acc pending r (negb cb) w log gs) as
      (o & q' & w' & log' & Heq & Hlog' & Hres); try done; try lia.
    { intros Hcb%negb_false_iff. apply andb_true_iff in Hcb.
      by rewrite Z.ltb_lt, Z.leb_le in Hcb. }
    exists o, q', w', log'. split; [|split; [by eexists|]].
    + rewrite <-Heq. unfold mbind, ST_bind, st_modify. rewrite unwrite_record.
      by destruct (PostQueue.flush _ _) as [[[]|e|m] [q2 w2]].
    + destruct Hres as [?|[-> (acc' & Hr' & Hacc')]]; [by left|right]. split; [done|].
      exists acc', [r], (gs ++ [pending]). split; [done|]. split.
      * rewrite List.concat_app. cbn. by rewrite app_nil_r.
      * destruct Hacc' as [->| ->]; rewrite ?payload_sum_app, payload_sum_singleton;
          pose proof (payload_sum_nonneg pending); change (payload_sum []) with 0; lia.
  - rewrite !orb_false_iff, !negb_false_iff in Hflush. destruct Hflush as [[Hcp Hcs] Hcb].
    unfold cp, cs, cb in *. rewrite !andb_true_iff, !Z.ltb_lt, !Z.leb_le in *.
    destruct (add_record_live debug q acc pending r (w, log)) as (q' & Hcount & Hl'); try done; try lia.
    unfold mret, ST_ret. rewrite Hcount. eexists _, _, _, _. split; [done|].
    split; [by eexists|]. right. split; [done|]. exists acc, (pending ++ [r]), gs. split; [|split].
    + split_and!; try done. by destruct pending.
    + by rewrite app_assoc.
    + rewrite app_assoc, payload_sum_app, payload_sum_singleton. lia.
Qed.

(** [enqueue] on a queue between two calls: an error, a refused record that leaves
    everything as it was, or the record appended to those pending. *)
Lemma enqueue_ready debug q acc pending log gs r w :
  poster_total P → handler_total PH → cfg_ok → ready q acc pending log gs →
  payload_sum (acc ++ pending) + payload_len r < 2 ^ 64 →
  measured debug r →
  ∃ o q' w' log',
    PostQueue.enqueue (BP:=logged P) debug r (q, (w, log)) = (o, (q', (w', log'))) ∧
    (appended acc pending gs r o q' log' ∧ too_large cfg r = false ∨
     (o = Ok false ∧ q' = q ∧ w' = w ∧ log' = log) ∧ too_large cfg r = true).
Proof.
  intros HP HH Hcfg Hr Hsum [Hlen Hdbg]. pose proof Hr as (Hl & _).
  destruct (live_post _ _ _ Hl) as (Hpb & _). destruct (live_batch _ _ _ Hl) as (Hbb & _).
  unfold PostQueue.enqueue, mbind, ST_bind, st_lift. rewrite Hlen. unfold LimitTracker.can_never_add.
  rewrite Hpb, Hbb, (live_payload _ _ _ Hl). unfold too_large.
  assert (Hone' : bytes_len (render [r]) = bytes_len (render_open [r]) + 1).
  { unfold render, bytes_len. rewrite length_app. cbn [length]. lia. }
  rewrite Hone'.
  destruct (Z.leb_spec (max_post_bytes cfg) (payload_len r)) as [|Hp1]; [by eexists _, _, _, _; eauto 10|].
  destruct (Z.leb_spec (max_total_bytes cfg) (payload_len r)) as [|Hp2]; [by eexists _, _, _, _; eauto 10|].
  destruct (Z.leb_spec (max_record_payload_bytes cfg) (payload_len r)) as [|Hp3];
    [by eexists _, _, _, _; eauto 10|]. cbn [orb].
  pose proof (render_open_one_len q pending r (live_queued _ _ _ Hl)) as Hone.
  assert (debug && (Z.of_nat (length (queued (PostQueue.write_record r q))) <? payload_len r) = false) as ->.
  { destruct debug; [|done]. cbn [andb]. apply Z.ltb_ge. specialize (Hdbg eq_refl).
    assert (bytes_len (render_open [r]) = bytes_len (to_writer r) + 1) as Hb.
    { unfold bytes_len. cbn. rewrite app_nil_r. lia. }
    lia. }
  change (q_max_request_bytes (PostQueue.write_record r q)) with (q_max_request_bytes q).
  rewrite (live_max_request _ _ _ Hl), Hone.
  destruct (Z.leb_spec (max_request_bytes cfg) (bytes_len (render_open [r]) + 1)) as [|Hreq].
  { rewrite unwrite_record. by eexists _, _, _, _; eauto 10. }
  destruct (place_record_ready debug q acc pending log gs r w) as (o & q' & w' & log' & Heq & Hap); try done.
  rewrite Heq. by eexists _, _, _, _; eauto.
Qed.
End invariant.

(** ** Uploading a list of records *)

Section upload.
Context {W H : Type} {BP : BatchPoster W} {RH : PostResponseHandler H}.
Context `{!SerdeJson, !Serde EncryptedPayload, !RecordWriter}.
Context (debug : bool).

(** The loop of [CollectionUpdate::upload] over the queue, keeping what [enqueue]
    returned for each record, and the final commit. *)
Fixpoint enqueue_all (rs : list EncryptedBso) : ST (PostQueue H * W) ErrorKind (list bool) :=
  match rs with
  | [] => mret []
  | r :: rs =>
      b ← PostQueue.enqueue debug r;
      bs ← enqueue_all rs;
      mret (b :: bs)
  end.

Definition send_all (rs : list EncryptedBso) : ST (PostQueue H * W) ErrorKind (list bool) :=
  bs ← enqueue_all rs;
  _ ← PostQueue.flush true;
  mret bs.
End upload.

Section upload_lemmas.
Context {W H : Type} {P : BatchPoster W} {PH : PostResponseHandler H}.
Context `{!SerdeJson, !Serde EncryptedPayload, !RecordWriter}.
Context (cfg : InfoConfiguration) (debug : bool).
Implicit Types (q : PostQueue H).

Definition sendable (rs : list EncryptedBso) : list EncryptedBso :=
  filter (λ r, too_large cfg r = false) rs.

Lemma sendable_cons r rs :
  sendable (r :: rs) = if too_large cfg r then sendable rs else r :: sendable rs.
Proof. unfold sendable. rewrite filter_cons. by destruct (too_large cfg r). Qed.

Lemma enqueue_all_ready rs q acc pending log gs w :
  poster_total P → handler_total PH → cfg_ok cfg → ready cfg q acc pending log gs →
  payload_sum (acc ++ pending) + payload_sum rs < 2 ^ 64 →
  (∀ r, r ∈ rs → measured debug r) →
  ∃ o q' w' log',
    enqueue_all (BP:=logged P) debug rs (q, (w, log)) = (o, (q', (w', log'))) ∧
    (∃ gs', log_ok cfg log' gs') ∧
    ((∃ e, o = Err e) ∨
     (o = Ok ((λ r, negb (too_large cfg r)) <$> rs) ∧
      ∃ acc' pending' gs', ready cfg q' acc' pending' log' gs' ∧
        List.concat gs' ++ pending' = (List.concat gs ++ pending) ++ sendable rs)).
Proof.
  intros HP HH Hcfg. revert q acc pending log gs w.
  induction rs as [|r rs IH]; intros q acc pending log gs w Hr Hsum Hdbg.
  { eexists _, _, _, _. split; [done|]. pose proof Hr as (_ & _ & ? & _). split; [by eexists|].
    right. split; [done|]. exists acc, pending, gs. by rewrite app_nil_r. }
  assert (Hs : payload_sum (r :: rs) = payload_len r + payload_sum rs) by done.
  pose proof (payload_len_nonneg r). pose proof (payload_sum_nonneg rs).
  destruct (enqueue_ready cfg debug q acc pending log gs r w) as (o & q1 & w1 & log1 & Heq & Hres); try done.
  { lia. } { apply Hdbg; set_solver. }
  cbn [enqueue_all]. unfold mbind, ST_bind. rewrite Heq. cbn [fmap list_fmap].
  rewrite sendable_cons.
  destruct Hres as [[[Hlog1 [[e ->]|(-> & acc1 & p1 & gs1 & Hr1 & Hcat & Hs1)]] Htl]|[(-> & -> & -> & ->) Htl]];
    rewrite Htl.
  - by eexists _, _, _, _; eauto.
  - destruct (IH q1 acc1 p1 log1 gs1 w1 Hr1) as (o2 & q2 & w2 & log2 & Heq2 & Hlog2 & Hres2).
    { lia. } { intros r' Hr'. apply Hdbg; set_solver. }
    rewrite Heq2. destruct Hres2 as [[e ->]|(-> & acc2 & p2 & gs2 & Hr2 & Hcat2)].
    + by eexists _, _, _, _; eauto.
    + eexists _, _, _, _. split; [done|]. split; [done|]. right. split; [done|].
      exists acc2, p2, gs2. split; [done|]. rewrite Hcat2, Hcat. by rewrite <-!app_assoc.
  - destruct (IH q acc pending log gs w Hr) as (o2 & q2 & w2 & log2 & Heq2 & Hlog2 & Hres2).
    { lia. } { intros r' Hr'. apply Hdbg; set_solver. }
    rewrite Heq2. destruct Hres2 as [[e ->]|(-> & acc2 & p2 & gs2 & Hr2 & Hcat2)].
    + by eexists _, _, _, _; eauto.
    + eexists _, _, _, _. split; [done|]. split; [done|]. right. split; [done|]. eauto.
Qed.

Lemma send_all_spec rs t (h : H) w :
  poster_total P → handler_total PH → cfg_ok cfg → payload_sum rs < 2 ^ 64 →
  (∀ r, r ∈ rs → measured debug r) →
  ∃ o q' w' log',
    send_all (BP:=logged P) debug rs (PostQueue.new cfg t h, (w, [])) = (o, (q', (w', log'))) ∧
    ((∃ e, o = Err e) ∧ (∃ gs, log_ok cfg log' gs) ∨
     o = Ok ((λ r, negb (too_large cfg r)) <$> rs) ∧
     ∃ gs, log_ok cfg log' gs ∧ List.concat gs = sendable rs ∧
       queued q' = [] ∧ PostQueue.in_batch q' = false).
Proof.
  intros HP HH Hcfg Hsum Hdbg.
  destruct (enqueue_all_ready rs (PostQueue.new cfg t h) [] [] [] [] w) as
    (o & q1 & w1 & log1 & Heq & Hlog1 & Hres); try done.
  { split; [by apply new_live|]. by split_and!; [|split|]. }
  unfold send_all, mbind, ST_bind. rewrite Heq.
  destruct Hres as [[e ->]|(-> & acc & pending & gs & Hr & Hcat)].
  { by eexists _, _, _, _; eauto 10. }
  cbn in Hcat. pose proof Hr as (Hl & Hin & Hlog & Hacc).
  destruct (decide (pending = [])) as [->|Hne].
  - unfold PostQueue.flush. rewrite (live_queued _ _ _ _ Hl), (Hin eq_refl). cbn.
    eexists _, _, _, _. split; [done|]. right. split; [done|]. exists gs.
    rewrite app_nil_r in Hcat. split_and!; try done; [|by apply Hin].
    by rewrite (live_queued _ _ _ _ Hl).
  - destruct (PostQueue.flush (BP:=logged P) true (q1, (w1, log1))) as [o2 [q2 [w2 log2]]] eqn:Hfl.
    destruct (flush_live cfg q1 acc pending true w1 log1 gs o2 q2 w2 log2) as (Hlog2 & Hnp & Hok); try done.
    destruct o2 as [[]|e|m]; [|by eexists _, _, _, _; eauto 10|by destruct (Hnp m)].
    destruct (Hok eq_refl) as (acc' & Hl2 & _ & _ & Hin2).
    eexists _, _, _, _. split; [done|]. right. split; [done|]. exists (gs ++ [pending]).
    split; [done|]. split; [rewrite List.concat_app; cbn; by rewrite app_nil_r|].
    split; [apply (live_queued _ _ _ _ Hl2)|by apply Hin2].
Qed.
End upload_lemmas.

(** ** What only [flush] can change

    [enqueue] talks to the server and to the handler only through [flush]; a property of
    the handler, the batch state and the timestamp that [flush] preserves is preserved by
    a whole upload. *)
Section frame.
Context {W H : Type} {BP : BatchPoster W} {RH : PostResponseHandler H}.
Context `{!SerdeJson, !Serde EncryptedPayload, !RecordWriter}.
(** [I] holds between calls; [J] after a failed call, with its error or [None] for a panic. *)
Context (debug : bool) (I : PostQueue H * W → Prop) (J : option ErrorKind → PostQueue H * W → Prop).

Definition core (q : PostQueue H) := (on_response q, batch q, q_last_modified q).

Definition after {A} (o : res ErrorKind A) : PostQueue H * W → Prop :=
  match o with Ok _ => I | Err e => J (Some e) | Panic _ => J None end.

Definition framed {A} (c : ST (PostQueue H * W) ErrorKind A) : Prop :=
  ∀ s, I s → after (c s).1 (c s).2.

Hypothesis I_core : ∀ q q' w, core q = core q' → I (q, w) → I (q', w).
Hypothesis I_J : ∀ s, I s → J None s.
Hypothesis flush_framed : ∀ wc, framed (PostQueue.flush wc).

Lemma framed_ret {A} (a : A) : framed (mret a).
Proof. intros s Hs. exact Hs. Qed.

Lemma framed_bind {A B} (c : ST _ _ A) (k : A → ST _ _ B) :
  framed c → (∀ a, framed (k a)) → framed (c ≫= k).
Proof.
  intros Hc Hk s Hs. specialize (Hc s Hs). unfold mbind, ST_bind.
  destruct (c s) as [[a|e|m] s']; [by apply Hk|done..].
Qed.

Lemma framed_modify (f : PostQueue H → PostQueue H) :
  (∀ q, core q = core (f q)) → framed (st_modify (λ '(q, w), (f q, w))).
Proof. intros Hf [q w] Hs. by apply (I_core q). Qed.

Lemma framed_lift {A} (r : res ErrorKind A) : (∀ e, r ≠ Err e) → framed (st_lift r).
Proof. intros Hr s Hs. unfold st_lift, after. cbn. destruct r; cbn; naive_solver. Qed.

Lemma can_add_record_no_err t n e : LimitTracker.can_add_record (E:=ErrorKind) debug t n ≠ Err e.
Proof. unfold LimitTracker.can_add_record, uadd. by repeat case_match. Qed.

Lemma record_added_no_err t n e : LimitTracker.record_added (E:=ErrorKind) debug t n ≠ Err e.
Proof.
  unfold LimitTracker.record_added.
  destruct (LimitTracker.can_add_record debug t n) as [b|e'|m] eqn:Hc;
    [|by apply can_add_record_no_err in Hc|done].
  unfold rassert, uadd. destruct b; [|done]. cbn. by repeat case_match.
Qed.

Lemma framed_get : framed st_get.
Proof. intros s Hs. exact Hs. Qed.

Lemma framed_count_record n : framed (PostQueue.count_record debug n).
Proof.
  intros [q w] Hs. unfold PostQueue.count_record.
  destruct (LimitTracker.record_added _ _ _) as [t1|e|m] eqn:Ht;
    [|by apply record_added_no_err in Ht|by apply I_J].
  assert (I (set_post_limits t1 q, w)) by (by apply (I_core q)).
  destruct (LimitTracker.record_added _ (batch_limits _) _) as [t2|e|m] eqn:Ht';
    [|by apply record_added_no_err in Ht'|by apply I_J].
  by apply (I_core q).
Qed.

Lemma framed_place_record r n i : framed (PostQueue.place_record debug r n i).
Proof.
  apply framed_bind; [apply framed_get|intros [q w]].
  do 2 (apply framed_bind; [apply framed_lift, can_add_record_no_err|intros ?]).
  apply framed_bind; [|intros _; apply framed_bind; [apply framed_count_record|intros _; apply framed_ret]].
  destruct (_ || _ || _); [|apply framed_ret].
  apply framed_bind; [by apply framed_modify|intros _].
  apply framed_bind; [apply flush_framed|intros _]. by apply framed_modify.
Qed.

Lemma serialized_len_no_err p e : EncryptedPayload.serialized_len p ≠ Err e.
Proof. unfold EncryptedPayload.serialized_len, EncryptedPayload.empty_size. by destruct (to_string _). Qed.

Lemma framed_enqueue r : framed (PostQueue.enqueue debug r).
Proof.
  apply framed_bind; [apply framed_lift, serialized_len_no_err|intros n [q w] Hs]. cbv beta iota zeta.
  destruct (_ || _ || _); [done|].
  assert (Hw : I (PostQueue.write_record r q, w)) by (by apply (I_core q)).
  destruct (debug && _); [by apply I_J|].
  destruct (_ <=? _); [by apply (I_core q)|]. by apply framed_place_record.
Qed.

Lemma framed_enqueue_all rs : framed (enqueue_all debug rs).
Proof.
  induction rs as [|r rs IH]; cbn [enqueue_all]; [apply framed_ret|].
  apply framed_bind; [apply framed_enqueue|intros b].
  apply framed_bind; [exact IH|intros bs; apply framed_ret].
Qed.

Lemma framed_send_all rs : framed (send_all debug rs).
Proof.
  apply framed_bind; [apply framed_enqueue_all|intros bs].
  apply framed_bind; [apply flush_framed|intros _; apply framed_ret].
Qed.
End frame.

(** ** The conversation with the server

    The batch a request names and the [X-If-Unmodified-Since] it carries are determined by
    the replies so far: a transition system over the batch state and the timestamp. *)
Section conversation.
Definition batch_param (b : BatchState) : option string :=
  match b with Unsupported => None | NoBatch => Some "true"%string | InBatch s => Some s end.

(** How a successful reply to the request [p] moves the batch state. *)
Inductive reply_step : BatchState → Post → PostResponse → BatchState → Prop :=
| step_commit b p resp :
    po_commit p = true → reply_step b p resp NoBatch
| step_accepted b p resp id :
    po_commit p = false → pr_status resp = ACCEPTED → ur_batch (pr_result resp) = Some id →
    (∀ cur, b = InBatch cur → cur = id) → reply_step b p resp (InBatch id)
| step_unsupported b p resp :
    po_commit p = false → pr_status resp ≠ ACCEPTED → (∀ cur, b ≠ InBatch cur) →
    reply_step b p resp Unsupported
| step_unsupported_done p resp :
    po_commit p = false → reply_step Unsupported p resp NoBatch.

Inductive conversation (t0 : ServerTimestamp) : list Post → ServerTimestamp → BatchState → Prop :=
| conversation_start : conversation t0 [] t0 NoBatch
| conversation_step log t b p resp b' :
    conversation t0 log t b →
    po_xius p = t → po_batch p = batch_param b →
    po_reply p = Ok resp → is_success resp = true →
    reply_step b p resp b' →
    conversation t0 (log ++ [p]) (pr_last_modified resp) b'.

(** A conversation, possibly with one more request whose reply ended it. *)
Definition interrupted (t0 : ServerTimestamp) (log : list Post) : Prop :=
  ∃ log0 t b, conversation t0 log0 t b ∧
    (log = log0 ∨ ∃ p, log = log0 ++ [p] ∧ po_xius p = t ∧ po_batch p = batch_param b).
End conversation.

Section flush_steps.
Context {W H : Type} {P : BatchPoster W} {PH : PostResponseHandler H}.
Context `{!SerdeJson, !Serde EncryptedPayload, !RecordWriter}.
Implicit Types (q : PostQueue H).

Lemma process_reply_world {W'} wc resp q (w : W') :
  (PostQueue.process_reply wc resp (q, w)).2.2 = w.
Proof.
  unfold PostQueue.process_reply, PostQueue.call_handler, st_err, mret, ST_ret.
  repeat first [ progress cbn [fst snd] | done | case_match ].
Qed.

(** [flush] either does nothing or sends one request; [q1] is the queue when the
    reply arrives. *)
Lemma flush_logged wc q w log o q' w' log' :
  PostQueue.flush (BP:=logged P) wc (q, (w, log)) = (o, (q', (w', log'))) →
  (queued q = [] ∧ q' = q ∧ log' = log ∧ (PostQueue.in_batch q = true → o ≠ Ok tt)) ∨
  ∃ q1 p, log' = log ++ [p] ∧ core q1 = core q ∧
    po_xius p = q_last_modified q ∧ po_batch p = batch_param (batch q) ∧
    po_commit p = wc && bool_decide (is_Some (batch_param (batch q))) ∧
    match po_reply p with
    | Ok resp => PostQueue.process_reply wc resp (q1, (w', log')) = (o, (q', (w', log')))
    | _ => o ≠ Ok tt
    end.
Proof.
  intros Hfl. unfold PostQueue.flush in Hfl. destruct (queued q) as [|c b] eqn:Hq.
  { destruct (PostQueue.in_batch q) eqn:?; injection Hfl as <- <- <- <-; left; by split_and!. }
  right. revert Hfl. change (match batch (set_queued _ q) with Unsupported => _ | NoBatch => _ | InBatch _ => _ end)
    with (batch_param (batch q)).
  unfold post, logged. destruct (P _ _ _ _ w) as [r w1].
  set (p := mkPost _ _ _ _ r). set (q1 := set_post_limits _ _).
  assert (Hcore : core q1 = core q).
  { unfold q1. by destruct (wc || _). }
  clearbody q1. intros Hproc. exists q1, p. change (po_reply p) with r.
  destruct r as [resp|e|m].
  - pose proof (process_reply_world wc resp q1 (w1, log ++ [p])) as Hw. rewrite Hproc in Hw.
    cbn in Hw. injection Hw as -> ->. by split_and!.
  - injection Hproc as <- <- <- <-. by split_and!.
  - injection Hproc as <- <- <- <-. by split_and!.
Qed.

(** A reply that is accepted. *)
Lemma process_reply_ok {W'} wc resp q (w : W') q' w' :
  PostQueue.process_reply wc resp (q, w) = (Ok tt, (q', w')) →
  is_success resp = true ∧ q_last_modified q' = pr_last_modified resp ∧
  ∃ mid, handle_response resp mid (on_response q) = (Ok tt, on_response q') ∧
    mid = PostQueue.in_batch q' ∧
    if wc then batch q' = NoBatch
    else if pr_status resp =? ACCEPTED
    then ∃ id, batch q' = InBatch id ∧ ur_batch (pr_result resp) = Some id ∧
               ∀ cur, batch q = InBatch cur → cur = id
    else batch q' = Unsupported ∧ ∀ cur, batch q ≠ InBatch cur.
Proof.
  unfold PostQueue.process_reply, PostQueue.call_handler, st_err, mret, ST_ret.
  destruct (is_success resp); cbn [negb]; [|by repeat case_match].
  destruct wc; cbn [orb].
  { destruct (handle_response resp false _) as [[[]|e|m] h] eqn:Hh; intros [= <- <-].
    split_and!; [done..|]. by exists false. }
  assert (Hu : ∀ q, (if bool_decide (batch q = Unsupported)
    then set_last_modified (pr_last_modified resp) q else q) = 
    set_last_modified (if bool_decide (batch q = Unsupported) then pr_last_modified resp else q_last_modified q) q).
  { intros q0. case_bool_decide; by destruct q0. }
  rewrite Hu. destruct (pr_status resp =? ACCEPTED); cbn [negb].
  - destruct (ur_batch (pr_result resp)) as [bid|]; [|done].
    change (batch (set_last_modified _ q)) with (batch q).
    destruct (match batch q with InBatch _ => _ | _ => _ end) eqn:Hmis; [done|].
    destruct (handle_response resp true _) as [[[]|e|m] h] eqn:Hh; intros [= <- <-].
    split_and!; [done..|]. exists true. split_and!; [done..|]. exists bid. split_and!; [done..|].
    intros cur Hcur. rewrite Hcur in Hmis. by apply negb_false_iff, String.eqb_eq in Hmis.
  - destruct (PostQueue.in_batch _) eqn:Hin; [done|].
    destruct (handle_response resp false _) as [[[]|e|m] h] eqn:Hh; intros [= <- <-].
    split_and!; [done..|]. exists false. split_and!; [done..|].
    intros cur Hcur. unfold PostQueue.in_batch in Hin. cbn in Hin. by rewrite Hcur in Hin.
Qed.

(** [flush] keeps the conversation going. *)
Lemma flush_conversation t0 wc q w log o q' w' log' :
  conversation t0 log (q_last_modified q) (batch q) →
  PostQueue.flush (BP:=logged P) wc (q, (w, log)) = (o, (q', (w', log'))) →
  if is_ok o then conversation t0 log' (q_last_modified q') (batch q') else interrupted t0 log'.
Proof.
  intros Hc [(_ & -> & -> & _)|(q1 & p & -> & Hcore & Hx & Hb & Hcm & Hp)]%flush_logged.
  { destruct (is_ok o); [done|]. exists log, (q_last_modified q), (batch q). eauto. }
  destruct o as [[]|e|m]; cbn [is_ok].
  2,3: exists log, (q_last_modified q), (batch q); split; [done|]; right; by exists p.
  destruct (po_reply p) as [resp|e|m] eqn:Hr; [|done..].
  apply process_reply_ok in Hp as (Hs & -> & mid & _ & _ & Hcase).
  injection Hcore as _ Hb1 _. rewrite Hb1 in Hcase.
  eapply conversation_step; eauto. destruct wc; cbn [andb] in Hcm.
  - rewrite Hcase. destruct (batch q); [by apply step_unsupported_done|by apply step_commit..].
  - destruct (Z.eqb_spec (pr_status resp) ACCEPTED).
    + destruct Hcase as (id & -> & Hid & Hcur). by apply step_accepted.
    + destruct Hcase as [-> Hcur]. by apply step_unsupported.
Qed.
End flush_steps.

(** ** What the handler records *)
Section accounting.
Context {W : Type} {P : BatchPoster W}.
Context `{!SerdeJson, !Serde EncryptedPayload, !RecordWriter}.

Definition reply_success (p : Post) : list string :=
  match po_reply p with Ok r => ur_success (pr_result r) | _ => [] end.
Definition reply_failed (p : Post) : list string :=
  match po_reply p with Ok r => (map_to_list (ur_failed (pr_result r))).*1 | _ => [] end.

(** The handler has seen the replies of [log]: nothing is pending outside a batch, and
    no failure is on record unless failures are allowed. *)
Definition handled (allow : bool) (log : list Post) (in_batch : bool) (h : NormalResponseHandler) : Prop :=
  allow_failed h = allow ∧
  successful_ids h ++ pending_success h = log ≫= reply_success ∧
  failed_ids h ++ pending_failed h = log ≫= reply_failed ∧
  (in_batch = false → pending_success h = [] ∧ pending_failed h = []) ∧
  (allow = false → failed_ids h = [] ∧ pending_failed h = []).

Lemma handled_step allow log p ib ib' h h' resp :
  handled allow log ib h → po_reply p = Ok resp →
  NormalResponseHandler.handle_response resp ib' h = (Ok tt, h') →
  handled allow (log ++ [p]) ib' h'.
Proof.
  intros (Ha & Hs & Hf & _ & Hno) Hp. unfold NormalResponseHandler.handle_response.
  destruct (is_success resp); cbn [negb]; [|by case_match].
  destruct (negb (bool_decide _) && negb (allow_failed h)) eqn:Hbad; [done|].
  assert (Hsx : (log ++ [p]) ≫= reply_success = (log ≫= reply_success) ++ ur_success (pr_result resp)).
  { rewrite bind_app. unfold reply_success at 2. cbn. by rewrite Hp, app_nil_r. }
  assert (Hfx : (log ++ [p]) ≫= reply_failed =
    (log ≫= reply_failed) ++ (map_to_list (ur_failed (pr_result resp))).*1).
  { rewrite bind_app. unfold reply_failed at 2. cbn. by rewrite Hp, app_nil_r. }
  assert (Hem : allow = false → (map_to_list (ur_failed (pr_result resp))).*1 = []).
  { intros ->. rewrite Ha, andb_true_r in Hbad. apply negb_false_iff, bool_decide_eq_true in Hbad.
    by rewrite Hbad, map_to_list_empty. }
  unfold handled. rewrite Hsx, Hfx, <-Hs, <-Hf.
  destruct ib'; cbn [negb]; intros [= <-]; cbn; rewrite ?app_nil_r, <-?app_assoc; split_and!; try done.
  all: intros Hal; destruct (Hno Hal) as [-> ->]; by rewrite (Hem Hal).
Qed.

Lemma flush_handled allow wc (q : PostQueue NormalResponseHandler) w log q' w' log' :
  handled allow log (PostQueue.in_batch q) (on_response q) →
  PostQueue.flush (BP:=logged P) wc (q, (w, log)) = (Ok tt, (q', (w', log'))) →
  handled allow log' (PostQueue.in_batch q') (on_response q').
Proof.
  intros Hh [(_ & -> & -> & _)|(q1 & p & -> & Hcore & _ & _ & _ & Hp)]%flush_logged; [done|].
  destruct (po_reply p) as [resp|e|m] eqn:Hr; [|done..].
  apply process_reply_ok in Hp as (_ & _ & mid & Hp & -> & _).
  injection Hcore as Hon Hb1 _. rewrite Hon in Hp. by eapply handled_step.
Qed.

Lemma normal_handler_total : handler_total normal_handler.
Proof.
  intros r mid h m. unfold normal_handler, NormalResponseHandler.handle_response.
  by repeat case_match.
Qed.
End accounting.

(** ** A server that follows the batch protocol *)
Section accepting.
Context {W H : Type} {P : BatchPoster W} {PH : PostResponseHandler H}.
Context `{!SerdeJson, !Serde EncryptedPayload, !RecordWriter}.

(** Every request succeeds; one that neither commits nor is outside a batch is answered
    with [202 Accepted] and the name of its batch. *)
Definition accepting (P : BatchPoster W) : Prop :=
  ∀ body xius batch commit w, ∃ resp,
    (P body xius batch commit w).1 = Ok resp ∧ is_success resp = true ∧
    ∀ id, batch = Some id → commit = false →
      pr_status resp = ACCEPTED ∧
      ∃ id', ur_batch (pr_result resp) = Some id' ∧ id' ≠ "true"%string ∧ (id = "true"%string ∨ id' = id).

(** In the states [good] the handler accepts every successful reply. *)
Definition handler_accepts (good : H → Prop) : Prop :=
  ∀ r mid h, good h → is_success r = true → ∃ h', PH r mid h = (Ok tt, h') ∧ good h'.

Context (good : H → Prop).

(** The server has batches, and has not named one ["true"]. *)
Definition batching (q : PostQueue H) : Prop :=
  good (on_response q) ∧
  match batch q with Unsupported => False | NoBatch => True | InBatch s => s ≠ "true"%string end.

Lemma process_reply_accepting {W'} wc resp q (w : W') :
  handler_accepts good → batching q → is_success resp = true →
  (wc = false → pr_status resp = ACCEPTED ∧
     ∃ id', ur_batch (pr_result resp) = Some id' ∧ id' ≠ "true"%string ∧
       (batch_param (batch q) = Some "true"%string ∨ batch_param (batch q) = Some id')) →
  ∃ q', PostQueue.process_reply wc resp (q, w) = (Ok tt, (q', w)) ∧ batching q'.
Proof.
  intros HH [Hg Hb] Hs Hacc. unfold PostQueue.process_reply, PostQueue.call_handler, mret, ST_ret, handle_response.
  rewrite Hs. cbn [negb]. destruct wc; cbn [orb].
  { destruct (HH resp false (on_response q) Hg Hs) as (h' & Hh' & Hg'). cbn. rewrite Hh'. by eexists. }
  destruct (Hacc eq_refl) as (-> & id' & -> & Hid & Hcur).
  rewrite bool_decide_false by (by intros Hu; rewrite Hu in Hb).
  rewrite Z.eqb_refl. cbn [negb].
  destruct (HH resp true (on_response q) Hg Hs) as (h' & Hh' & Hg').
  destruct (batch q) as [| |s]; [done| |].
  - cbn. rewrite Hh'. by eexists.
  - destruct Hcur as [[=]|[= ->]]; [done|]. rewrite String.eqb_refl. cbn. rewrite Hh'. by eexists.
Qed.

Lemma flush_accepting wc q w :
  accepting P → handler_accepts good → batching q →
  match PostQueue.flush (BP:=logged P) wc (q, w) with
  | (Ok _, (q', _)) => batching q' | (Err _, _) => False | (Panic _, _) => True
  end.
Proof.
  intros HP HH Hb. destruct w as [w log].
  destruct (PostQueue.flush _ _) as [o [q' [w' log']]] eqn:Hfl.
  unfold PostQueue.flush in Hfl. destruct (queued q) as [|c b].
  { destruct (PostQueue.in_batch q); by injection Hfl as <- <- <- <-. }
  revert Hfl.
  change (match batch (set_queued _ q) with Unsupported => _ | NoBatch => _ | InBatch _ => _ end)
    with (batch_param (batch q)).
  unfold post, logged.
  match goal with |- context [P ?body ?xius ?bt ?cm w] =>
    destruct (HP body xius bt cm w) as (resp & Hr & Hs & Hacc);
    destruct (P body xius bt cm w) as [r w1] end.
  cbn [fst] in Hr. subst r. set (q1 := set_post_limits _ _).
  assert (Hb1 : batch q1 = batch q ∧ on_response q1 = on_response q)
    by (unfold q1; by destruct (wc || _)). clearbody q1. destruct Hb1 as [Hb1 Hon1].
  destruct (process_reply_accepting wc resp q1 (w1, log ++ [mkPost (queued (set_queued ((c :: b) ++ [RBRACKET]) q))
    (q_last_modified q) (batch_param (batch q)) (wc && bool_decide (is_Some (batch_param (batch q)))) (Ok resp)]))
    as (q2 & Heq & Hb2); try done.
  - unfold batching. by rewrite Hb1, Hon1.
  - intros ->. rewrite Hb1. destruct Hb as [_ Hb].
    destruct (batch_param (batch q)) as [id|] eqn:Hbp; [|by destruct (batch q)].
    destruct (Hacc id eq_refl eq_refl) as (Hst & id' & Hid & Hne & Hor).
    split; [done|]. exists id'. split_and!; try done. destruct Hor as [->| ->]; auto.
  - intros Hfl. cbn in Hfl, Heq. rewrite Heq in Hfl. by injection Hfl as <- <- <- <-.
Qed.

Lemma send_all_accepting debug rs q w e s :
  accepting P → handler_accepts good → batching q →
  send_all (BP:=logged P) debug rs (q, w) ≠ (Err e, s).
Proof.
  intros HP HH Hb Heq.
  pose proof (framed_send_all (BP:=logged P) debug (λ s, batching s.1)
    (λ e _, e = None)) as Hframe.
  assert (after (λ s, batching s.1) (λ e _, e = None)
    (send_all (BP:=logged P) debug rs (q, w)).1 (send_all (BP:=logged P) debug rs (q, w)).2) as Haf.
  { apply Hframe; [..|done].
    - intros q1 q2 w0 [= Hon12 Hb12 _]. unfold batching. cbn. by rewrite Hon12, Hb12.
    - done.
    - intros wc [q1 w1] Hq1. pose proof (flush_accepting wc q1 w1 HP HH Hq1) as Hf.
      by destruct (PostQueue.flush wc (q1, w1)) as [[]  []]. }
  by rewrite Heq in Haf.
Qed.
End accepting.

(** ** The queue is parametric in its poster

    Two posters that reply alike in related worlds make uploads that run alike. *)
Section simulation.
Context {W1 W2 H : Type} (Rel : W1 → W2 → Prop) {P1 : BatchPoster W1} {P2 : BatchPoster W2} {PH : PostResponseHandler H}.
Context `{!SerdeJson, !Serde EncryptedPayload, !RecordWriter}.
Context (debug : bool).

Definition sims {A} (c1 : ST (PostQueue H * W1) ErrorKind A) (c2 : ST (PostQueue H * W2) ErrorKind A) : Prop :=
  ∀ q w1 w2, Rel w1 w2 →
    (c1 (q, w1)).1 = (c2 (q, w2)).1 ∧ (c1 (q, w1)).2.1 = (c2 (q, w2)).2.1 ∧ Rel (c1 (q, w1)).2.2 (c2 (q, w2)).2.2.
Hypothesis posters_sim : ∀ body xius b c w1 w2, Rel w1 w2 →
  (P1 body xius b c w1).1 = (P2 body xius b c w2).1 ∧ Rel (P1 body xius b c w1).2 (P2 body xius b c w2).2.

Lemma sims_bind {A B} c1 c2 (k1 : A → ST _ _ B) k2 :
  sims c1 c2 → (∀ a, sims (k1 a) (k2 a)) → sims (c1 ≫= k1) (c2 ≫= k2).
Proof.
  intros Hc Hk q w1 w2 HR. unfold mbind, ST_bind. destruct (Hc q w1 w2 HR) as (Hr & Hq & HR').
  destruct (c1 (q, w1)) as [r1 [q1 w1']], (c2 (q, w2)) as [r2 [q2 w2']]; cbn in *; subst.
  destruct r2; [by apply Hk|done..].
Qed.
Lemma sims_lift {A} (r : res ErrorKind A) : sims (st_lift r) (st_lift r).
Proof. by intros q w1 w2 HR. Qed.
Lemma sims_modify f : sims (st_modify (λ '(q, w), (f q, w))) (st_modify (λ '(q, w), (f q, w))).
Proof. by intros q w1 w2 HR. Qed.
Lemma sims_ret {A} (a : A) : sims (mret a) (mret a).
Proof. by intros q w1 w2 HR. Qed.

Lemma sims_process_reply wc resp : sims (PostQueue.process_reply wc resp) (PostQueue.process_reply wc resp).
Proof.
  intros q w1 w2 HR. unfold PostQueue.process_reply, PostQueue.call_handler, st_err, mret, ST_ret.
  repeat first [ progress cbn [fst snd] | done | case_match ].
Qed.
Lemma sims_flush wc : sims (PostQueue.flush (BP:=P1) wc) (PostQueue.flush (BP:=P2) wc).
Proof.
  intros q w1 w2 HR. unfold PostQueue.flush. destruct (queued q) as [|c b]; [by destruct (PostQueue.in_batch q)|].
  unfold post. match goal with |- context [P1 ?a ?b ?c ?d w1] => destruct (posters_sim a b c d w1 w2 HR) as [Hr HR'];
    destruct (P1 a b c d w1) as [r1 w1'], (P2 a b c d w2) as [r2 w2'] end.
  cbn in Hr, HR'. subst. destruct r2; [by apply sims_process_reply|done..].
Qed.
Lemma sims_count_record n : sims (PostQueue.count_record debug n) (PostQueue.count_record debug n).
Proof. intros q w1 w2 HR. unfold PostQueue.count_record. by repeat case_match. Qed.
Lemma sims_place_record r n i :
  sims (PostQueue.place_record (BP:=P1) debug r n i) (PostQueue.place_record (BP:=P2) debug r n i).
Proof.
  intros q w1 w2 HR. unfold PostQueue.place_record.
  refine (sims_bind (st_lift _) (st_lift _) _ _ (sims_lift _) (λ cp, _) q w1 w2 HR).
  refine (sims_bind (st_lift _) (st_lift _) _ _ (sims_lift _) (λ cb, _)).
  apply sims_bind.
  - destruct (_ || _ || _); [|apply sims_ret].
    apply sims_bind; [apply (sims_modify (λ q, set_queued (take i (queued q)) q))|intros _].
    apply sims_bind; [apply sims_flush|intros _]. apply (sims_modify (PostQueue.write_record r)).
  - intros _. apply sims_bind; [apply sims_count_record|intros _; apply sims_ret].
Qed.
Lemma sims_enqueue r : sims (PostQueue.enqueue (BP:=P1) debug r) (PostQueue.enqueue (BP:=P2) debug r).
Proof.
  apply sims_bind; [by intros q w1 w2 HR|intros n q w1 w2 HR]. cbv beta iota zeta. destruct (_ || _ || _); [done|].
  destruct (debug && _); [done|]. destruct (_ <=? _); [done|]. by apply sims_place_record.
Qed.
End simulation.

(** ** Theorems *)
Section theorems.
Context {W H : Type} {P : BatchPoster W} {PH : PostResponseHandler H}.
Context `{!SerdeJson, !Serde EncryptedPayload, !RecordWriter}.
Context (cfg : InfoConfiguration) (debug : bool) (rs : list EncryptedBso).
Implicit Types (t : ServerTimestamp).

(** The records can be measured, and the sum of the payload lengths does not overflow. *)
Definition sane_records : Prop :=
  payload_sum rs < 2 ^ 64 ∧
  (∀ r, r ∈ rs → measured debug r).

Lemma send_all_conversation t (h : H) w o q' w' log' :
  send_all (BP:=logged P) debug rs (PostQueue.new cfg t h, (w, [])) = (o, (q', (w', log'))) →
  if is_ok o then conversation t log' (q_last_modified q') (batch q') else interrupted t log'.
Proof.
  intros Heq.
  pose proof (framed_send_all (BP:=logged P) debug
    (λ '(q, (_, log)), conversation t log (q_last_modified q) (batch q))
    (λ _ '(_, (_, log)), interrupted t log)) as Hframe.
  unfold framed in Hframe. opose proof (Hframe _ _ _ rs (PostQueue.new cfg t h, (w, [])) _) as Haf.
  - intros q1 q2 [w0 log0] [= _ -> ->]. done.
  - intros [q1 [w0 log0]] Hc. exists log0, (q_last_modified q1), (batch q1). eauto.
  - intros wc [q1 [w1 log1]] Hc.
    destruct (PostQueue.flush wc (q1, (w1, log1))) as [o2 [q2 [w2 log2]]] eqn:Hfl.
    pose proof (flush_conversation t _ _ _ _ _ _ _ _ Hc Hfl). by destruct o2.
  - constructor.
  - rewrite Heq in Haf. by destruct o.
Qed.

(** C3: Let the limits of the server configuration allow one record in a request and one in a
    batch (with a limit of zero records an upload panics, see [zero_record_limit_panics]), let the
    payload lengths be computable (the serialiser does not fail) and sum up to less than 2^64, and, in a debug build, let no payload be longer than the
    record it is written in.  Then, whatever the server answers to the requests,
    uploading the records does not panic, and every request that is sent is the JSON array of a
    non-empty group of records within the per-request limits (records, payload bytes, request
    bytes); the groups of one batch together stay within its per-batch limits. *)
Theorem upload_within_limits t (h : H) w o q' w' log' :
  poster_total P → handler_total PH → cfg_ok cfg → sane_records →
  send_all (BP:=logged P) debug rs (PostQueue.new cfg t h, (w, [])) = (o, (q', (w', log'))) →
  (∀ m, o ≠ Panic m) ∧
  ∃ gs, Forall2 (post_ok cfg) log' gs ∧ batches_ok cfg [] (zip log' gs).
Proof.
  intros HP HH Hcfg [Hsum Hdbg] Heq.
  destruct (send_all_spec cfg debug rs t h w HP HH Hcfg Hsum Hdbg) as (o1 & q1 & w1 & log1 & Heq1 & Hres).
  rewrite Heq in Heq1. injection Heq1 as <- <- <- <-.
  destruct Hres as [[[e ->] [gs Hgs]]|[-> (gs & Hgs & _)]]; (split; [done|by exists gs]).
Qed.

(** C2: For limits and records as in C3: when an upload succeeds, exactly the records that can never be sent (too large for
    a request, a batch, or the payload limit) were refused, and the requests carry all the
    other records, each once and in the order they were enqueued; nothing is left in the
    queue and no batch is left open. *)
Theorem upload_sends_each_record_once t (h : H) w bs q' w' log' :
  poster_total P → handler_total PH → cfg_ok cfg → sane_records →
  send_all (BP:=logged P) debug rs (PostQueue.new cfg t h, (w, [])) = (Ok bs, (q', (w', log'))) →
  bs = (λ r, negb (too_large cfg r)) <$> rs ∧
  (∃ gs, po_body <$> log' = render <$> gs ∧ List.concat gs = sendable cfg rs) ∧
  queued q' = [] ∧ PostQueue.in_batch q' = false.
Proof.
  intros HP HH Hcfg [Hsum Hdbg] Heq.
  destruct (send_all_spec cfg debug rs t h w HP HH Hcfg Hsum Hdbg) as (o1 & q1 & w1 & log1 & Heq1 & Hres).
  rewrite Heq in Heq1. injection Heq1 as <- <- <- <-.
  destruct Hres as [[[e [=]] _]|[[= ->] (gs & [Hgs _] & Hcat & Hq & Hin)]].
  split; [done|]. split; [|done]. exists gs. split; [|done].
  clear -Hgs. induction Hgs as [|p g log gs [Hb _] _ IH]; [done|]. by rewrite !fmap_cons, Hb, IH.
Qed.

(** C34: Every upload is a conversation that follows the batch protocol: each request
    carries as [X-If-Unmodified-Since] the timestamp of the last successful reply and names
    the batch that reply left open (or asks for a new one, or none when the server does not
    support batches); after an error at most one more request was sent, and it was for the
    same batch and timestamp. *)
Theorem upload_follows_batch_protocol t (h : H) w o q' w' log' :
  send_all (BP:=logged P) debug rs (PostQueue.new cfg t h, (w, [])) = (o, (q', (w', log'))) →
  if is_ok o then conversation t log' (q_last_modified q') (batch q') else interrupted t log'.
Proof. apply send_all_conversation. Qed.

(** C35: For limits and records as in C3: with a server that accepts every request and follows the batch protocol, and a
    handler that accepts successful replies, an upload succeeds: it returns for each record
    whether it could be sent. *)
Theorem upload_completes (good : H → Prop) t (h : H) w :
  accepting P → handler_accepts good → good h → handler_total PH → cfg_ok cfg → sane_records →
  ∃ s', send_all (BP:=logged P) debug rs (PostQueue.new cfg t h, (w, []))
        = (Ok ((λ r, negb (too_large cfg r)) <$> rs), s').
Proof.
  intros HP HA Hgood HH Hcfg [Hsum Hdbg].
  assert (HPt : poster_total P).
  { intros body xius b c w0 m Hm. destruct (HP body xius b c w0) as (resp & Hr & _). congruence. }
  destruct (send_all_spec cfg debug rs t h w HPt HH Hcfg Hsum Hdbg) as (o1 & q1 & w1 & log1 & Heq1 & Hres).
  destruct Hres as [[[e ->] _]|[-> _]]; [|by eexists].
  exfalso. by eapply (send_all_accepting good); [..|exact Heq1].
Qed.
End theorems.

Section handler_theorems.
Context {W : Type} {P : BatchPoster W}.
Context `{!SerdeJson, !Serde EncryptedPayload, !RecordWriter}.
Context (cfg : InfoConfiguration) (debug : bool) (rs : list EncryptedBso).

Lemma send_all_handled allow t w bs q' w' log' :
  send_all (BP:=logged P) debug rs
    (PostQueue.new cfg t (NormalResponseHandler.new allow), (w, [])) = (Ok bs, (q', (w', log'))) →
  handled allow log' (PostQueue.in_batch q') (on_response q').
Proof.
  intros Heq.
  pose proof (framed_send_all (BP:=logged P) debug
    (λ '(q, (_, log)), handled allow log (PostQueue.in_batch q) (on_response q)) (λ _ _, True)) as Hframe.
  unfold framed in Hframe.
  opose proof (Hframe _ _ _ rs (PostQueue.new cfg t (NormalResponseHandler.new allow), (w, [])) _) as Haf.
  - intros q1 q2 [w0 log0] [= Hon Hb _]. unfold PostQueue.in_batch. by rewrite Hon, Hb.
  - done.
  - intros wc [q1 [w1 log1]] Hc.
    destruct (PostQueue.flush wc (q1, (w1, log1))) as [[[]|e|m] [q2 [w2 log2]]] eqn:Hfl; [|done..].
    by eapply flush_handled.
  - by split_and!.
  - by rewrite Heq in Haf.
Qed.

(** After a successful upload, [completed_upload_info] reports as successful exactly
    the ids the server acknowledged in its replies, in order, and as failed exactly the ids
    it rejected; in a fully atomic upload none is reported as failed. *)
Theorem upload_info_is_what_the_server_said allow t w bs q' w' log' :
  poster_total P → cfg_ok cfg → sane_records debug rs →
  send_all (BP:=logged P) debug rs
    (PostQueue.new cfg t (NormalResponseHandler.new allow), (w, [])) = (Ok bs, (q', (w', log'))) →
  let info := (PostQueue.completed_upload_info q').1 in
  ui_successful_ids info = log' ≫= reply_success ∧
  ui_failed_ids info = log' ≫= reply_failed ∧
  ui_modified_timestamp info = q_last_modified q' ∧
  (allow = false → ui_failed_ids info = []).
Proof.
  intros HP Hcfg [Hsum Hdbg] Heq.
  destruct (send_all_spec cfg debug rs t (NormalResponseHandler.new allow) w HP normal_handler_total Hcfg Hsum Hdbg)
    as (o1 & q1 & w1 & log1 & Heq1 & Hres).
  pose proof (send_all_handled _ _ _ _ _ _ _ Heq) as (_ & Hs & Hf & Hpend & Hno).
  rewrite Heq in Heq1. injection Heq1 as <- <- <- <-.
  destruct Hres as [[[e [=]] _]|[_ (gs & _ & _ & _ & Hin)]].
  destruct (Hpend Hin) as [Hps Hpf]. rewrite Hps, app_nil_r in Hs. rewrite Hpf, app_nil_r in Hf.
  cbn. rewrite Hps, Hpf, !app_nil_r. split_and!; try done. intros Hal. by destruct (Hno Hal).
Qed.
End handler_theorems.

(** ** Witnesses: a batching server and a small configuration *)
Module ToyPost.
Import ToyCrypto ToySerde.

#[export] Instance toy_encrypted : Serde EncryptedPayload := {|
  to_string p := Ok (ep_iv p +:+ ep_hmac p +:+ ep_ciphertext p);
  from_str _ := Err "not needed";
  to_value _ := Err "not needed";
  from_value _ := Err "not needed";
|}.
#[export] Instance toy_writer : RecordWriter :=
  λ r, as_bytes (bso_id r) ++ as_bytes (ep_ciphertext (bso_payload r)).

(** A server that counts the requests, and keeps a batch open until it is committed. *)
Definition reply (batch : option string) (commit : bool) : PostResponse :=
  mkPostResponse (if commit then 200 else ACCEPTED)
    (mkUploadResult (if bool_decide (batch = Some "true"%string) then Some "batch7"%string else batch) ∅ ["ok"%string])
    ts_default.
#[export] Instance toy_server : BatchPoster nat :=
  λ _ _ batch commit w, (Ok (reply batch commit), S w).

Definition rec (id cipher : string) : EncryptedBso :=
  mkBsoRecord id "bookmarks" ts_default None None (mkEncryptedPayload "" "" cipher).
Definition config : InfoConfiguration := mkInfoConfiguration 40 2 8 3 12 7.
Definition records : list EncryptedBso :=
  [rec "a" "12"; rec "b" "345"; rec "big" "12345678"; rec "c" "6"; rec "d" "789"; rec "e" "0"].
Definition run := send_all (BP:=logged toy_server) true records
  (PostQueue.new config ts_default (NormalResponseHandler.new true), (0%nat, [])).

Lemma server_accepting : accepting toy_server.
Proof.
  intros body xius b c w. exists (reply b c).
  split; [done|]. split; [by destruct c|]. intros id -> ->. split; [done|]. cbn.
  case_bool_decide as Hb; simplify_eq/=; eexists; split; try done; naive_solver.
Qed.

Lemma server_total : poster_total toy_server.
Proof. by intros body xius b c w m. Qed.

Lemma handler_accepts_normal : handler_accepts (PH:=normal_handler) (λ h, allow_failed h = true).
Proof.
  intros r mid h Hh Hs. unfold normal_handler, NormalResponseHandler.handle_response.
  rewrite Hs, Hh, andb_false_r. cbn. destruct mid; by eexists.
Qed.

Lemma config_ok : cfg_ok config.
Proof. unfold cfg_ok, fits. cbn. lia. Qed.

Lemma records_sane : sane_records true records.
Proof.
  split; [by vm_compute|]. apply Forall_forall.
  repeat constructor; try (intros _); by vm_compute.
Qed.

Lemma upload_within_limits_witness :
  (∀ m, run.1 ≠ Panic m) ∧
  ∃ gs, Forall2 (post_ok config) run.2.2.2 gs ∧ batches_ok config [] (zip run.2.2.2 gs).
Proof.
  apply (upload_within_limits (P:=toy_server) config true records ts_default (NormalResponseHandler.new true) 0%nat
    run.1 run.2.1 run.2.2.1 run.2.2.2); [apply server_total|apply normal_handler_total|
    apply config_ok|apply records_sane|vm_compute; reflexivity].
Defined.

(** A configuration that allows no records, which the server may send, makes the assertion in
    [record_added] fail. *)
Theorem zero_record_limit_panics :
  fst (send_all (BP:=logged toy_server) true records
    (PostQueue.new (mkInfoConfiguration 40 0 8 3 12 7) ts_default (NormalResponseHandler.new true), (0%nat, []))) =
  Panic "LimitTracker::record_added caller must check can_add_record".
Proof. vm_compute. reflexivity. Qed.

Lemma upload_sends_each_record_once_witness :
  run.1 = Ok [true; true; false; true; true; true] ∧
  queued run.2.1 = [] ∧ PostQueue.in_batch run.2.1 = false ∧
  sendable config records = [rec "a" "12"; rec "b" "345"; rec "c" "6"; rec "d" "789"; rec "e" "0"].
Proof.
  split; [vm_compute; reflexivity|].
  destruct (upload_sends_each_record_once (P:=toy_server) config true records ts_default
    (NormalResponseHandler.new true) 0%nat [true; true; false; true; true; true]
    run.2.1 run.2.2.1 run.2.2.2) as (_ & _ & Hq & Hb);
    [apply server_total|apply normal_handler_total|apply config_ok|apply records_sane|vm_compute; reflexivity|].
  split; [exact Hq|]. split; [exact Hb|]. vm_compute. reflexivity.
Defined.

Lemma upload_follows_batch_protocol_witness :
  po_batch <$> run.2.2.2 = [Some "true"; Some "batch7"; Some "true"]%string ∧
  conversation ts_default run.2.2.2 ts_default NoBatch.
Proof.
  split; [vm_compute; reflexivity|].
  assert (Ht : q_last_modified run.2.1 = ts_default) by (vm_compute; reflexivity).
  assert (Hb : batch run.2.1 = NoBatch) by (vm_compute; reflexivity).
  rewrite <-Ht at 2. rewrite <-Hb.
  refine (upload_follows_batch_protocol (P:=toy_server) config true records ts_default
    (NormalResponseHandler.new true) 0%nat (Ok [true; true; false; true; true; true])
    run.2.1 run.2.2.1 run.2.2.2 _). vm_compute. reflexivity.
Defined.

Lemma upload_completes_witness : ∃ s', run = (Ok [true; true; false; true; true; true], s').
Proof.
  assert (Hf : [true; true; false; true; true; true] = (λ r, negb (too_large config r)) <$> records)
    by (vm_compute; reflexivity).
  rewrite Hf. unfold run.
  apply (upload_completes (P:=toy_server) config true records (λ h, allow_failed h = true) ts_default
    (NormalResponseHandler.new true) 0%nat); [apply server_accepting|apply handler_accepts_normal|reflexivity|
    apply normal_handler_total|apply config_ok|apply records_sane].
Defined.

Lemma upload_info_witness :
  ui_successful_ids (PostQueue.completed_upload_info run.2.1).1 = ["ok"; "ok"; "ok"]%string ∧
  ui_failed_ids (PostQueue.completed_upload_info run.2.1).1 = [].
Proof.
  destruct (upload_info_is_what_the_server_said (P:=toy_server) config true records true ts_default 0%nat
    [true; true; false; true; true; true] run.2.1 run.2.2.1 run.2.2.2) as (Hs & Hf & _);
    [apply server_total|apply config_ok|apply records_sane|vm_compute; reflexivity|].
  split; [rewrite Hs|rewrite Hf]; vm_compute; reflexivity.
Defined.
End ToyPost.
