(* ===== verification/State.v ===== *)
(** * The setup state machine

    Model of [components/sync15/src/state.rs]: how a client gets from nothing, or from a
    cached state, to a [GlobalState] that matches the server, possibly by wiping the server
    and uploading fresh [meta/global] and [crypto/keys] records.

    The traits [SetupStorageClient] and [Interruptee] are classes over the state [W] of the
    outside world.  The theorems hold for every client, hence for every server. *)

From S2P Require Import Prelude Sync15Types KeyBundle Bso.
From Stdlib Require Import Ascii.
Local Open Scope Z_scope.
Local Open Scope list_scope.

(** ** Interfaces *)
Class SetupStorageClient (W : Type) := {
  fetch_info_configuration : ST W ErrorKind (Sync15ClientResponse InfoConfiguration);
  fetch_info_collections : ST W ErrorKind (Sync15ClientResponse InfoCollections);
  fetch_meta_global : ST W ErrorKind (Sync15ClientResponse MetaGlobalRecord);
  fetch_crypto_keys : ST W ErrorKind (Sync15ClientResponse EncryptedBso);
  put_meta_global : ServerTimestamp → MetaGlobalRecord → ST W ErrorKind unit;
  put_crypto_keys : ServerTimestamp → EncryptedBso → ST W ErrorKind unit;
  wipe_all_remote : ST W ErrorKind unit;
}.

Class Interruptee (W : Type) := was_interrupted : W → bool * W.

Definition err_if_interrupted {W} `{!Interruptee W} : ST W ErrorKind unit :=
  λ w, let '(b, w) := was_interrupted w in (if b then Err Interrupted else Ok tt, w).

(** [base64::encode_config(.., URL_SAFE_NO_PAD)]. *)
Class UrlSafeBase64 := base64_encode_url_safe_no_pad : bytes → string.

(** [util::random_guid], with its error as the caller's [?] converts it. *)
Definition random_guid {W} `{!Rand W, !UrlSafeBase64} : ST W ErrorKind string :=
  λ w, let '(r, w) := rand_fill 9 w in
       (base64_encode_url_safe_no_pad <$> map_err OpensslError r, w).

(** ** Data *)
Definition STORAGE_VERSION : Z := 5.

Definition DEFAULT_ENGINES : list (string * Z) :=
  [("passwords", 1); ("clients", 1); ("addons", 1); ("addresses", 1); ("bookmarks", 2);
   ("creditcards", 1); ("forms", 1); ("history", 1); ("prefs", 2); ("tabs", 1)]%string.

Definition DEFAULT_DECLINED : list string := [].

Inductive PersistedGlobalState := V2 (declined : option (list string)).

Definition PersistedGlobalState_default : PersistedGlobalState := V2 None.

Record GlobalState := mkGlobalState {
  gs_config : InfoConfiguration;
  gs_collections : InfoCollections;
  gs_global : MetaGlobalRecord;
  gs_global_timestamp : ServerTimestamp;
  gs_keys : CollectionKeys;
}.

Inductive SetupState :=
| Initial
| InitialWithConfig (config : InfoConfiguration)
| InitialWithInfo (config : InfoConfiguration) (collections : InfoCollections)
| InitialWithMetaGlobal (config : InfoConfiguration) (collections : InfoCollections)
    (global : MetaGlobalRecord) (global_timestamp : ServerTimestamp)
| WithPreviousState (old_state : GlobalState)
| Ready (state : GlobalState)
| FreshStartRequired (config : InfoConfiguration).

Definition label (s : SetupState) : string :=
  match s with
  | Initial => "Initial"
  | InitialWithConfig _ => "InitialWithConfig"
  | InitialWithInfo _ _ => "InitialWithInfo"
  | InitialWithMetaGlobal _ _ _ _ => "InitialWithMetaGlobal"
  | Ready _ => "Ready"
  | WithPreviousState _ => "WithPreviousState"
  | FreshStartRequired _ => "FreshStartRequired"
  end.

Definition is_fresh (local : ServerTimestamp) (collections : InfoCollections) (key : string) : bool :=
  match collections !! key with Some t => ts_leb t local | None => false end.

(** The client, the root key and the interruptee of the source's struct are parameters. *)
Record SetupStateMachine := mkSetupStateMachine {
  pgs : PersistedGlobalState;
  allowed_states : list string;
  sequence : list string;
}.

Module SetupStateMachine.
Definition with_allowed_states (pgs : PersistedGlobalState) (allowed : list string) : SetupStateMachine :=
  mkSetupStateMachine pgs allowed [].

Definition for_full_sync (pgs : PersistedGlobalState) : SetupStateMachine :=
  with_allowed_states pgs
    ["Initial"; "InitialWithConfig"; "InitialWithInfo"; "InitialWithMetaGlobal"; "Ready";
     "FreshStartRequired"; "WithPreviousState"]%string.

Definition for_fast_sync (pgs : PersistedGlobalState) : SetupStateMachine :=
  with_allowed_states pgs ["Ready"; "WithPreviousState"]%string.

Definition for_readonly_sync (pgs : PersistedGlobalState) : SetupStateMachine :=
  with_allowed_states pgs
    ["Initial"; "InitialWithConfig"; "InitialWithInfo"; "InitialWithMetaGlobal"; "Ready";
     "WithPreviousState"]%string.

Definition set_pgs (p : PersistedGlobalState) (m : SetupStateMachine) : SetupStateMachine :=
  mkSetupStateMachine p (allowed_states m) (sequence m).
Definition push_sequence (l : string) (m : SetupStateMachine) : SetupStateMachine :=
  mkSetupStateMachine (pgs m) (allowed_states m) (sequence m ++ [l]).

Section machine.
Context {W : Type} `{!SetupStorageClient W, !Interruptee W, !Rand W}.
Context `{!UrlSafeBase64, !SerdeJson, !Crypto, !Serde Payload, !Serde CryptoKeysRecord}.
Context (root_key : KeyBundle).

(** One fresh engine entry per default engine. *)
Fixpoint new_engines (engines : gmap string MetaGlobalEngine) (l : list (string * Z))
    : ST W ErrorKind (gmap string MetaGlobalEngine) :=
  match l with
  | [] => mret engines
  | (name, version) :: l =>
      sync_id ← random_guid;
      new_engines (<[name := mkMetaGlobalEngine version sync_id]> engines) l
  end.

Definition new_global (p : PersistedGlobalState) : ST W ErrorKind MetaGlobalRecord :=
  sync_id ← random_guid;
  engines ← new_engines ∅ DEFAULT_ENGINES;
  let declined := match p with V2 (Some d) => d | _ => DEFAULT_DECLINED end in
  mret (mkMetaGlobalRecord sync_id STORAGE_VERSION engines declined).

(** A call that does not touch the machine itself. *)
Definition world {A} (c : ST W ErrorKind A) : ST (SetupStateMachine * W) ErrorKind A :=
  λ '(m, w), let '(r, w) := c w in (r, (m, w)).

Definition advance (from : SetupState) : ST (SetupStateMachine * W) ErrorKind SetupState :=
  match from with
  | Initial =>
      r ← world fetch_info_configuration;
      match r with
      | Success record _ _ => mret (InitialWithConfig record)
      | NotFound _ => mret (InitialWithConfig InfoConfiguration_default)
      | other => st_err (create_storage_error other)
      end
  | InitialWithConfig config =>
      r ← world fetch_info_collections;
      match r with
      | Success collections _ _ => mret (InitialWithInfo config collections)
      | NotFound _ => mret (FreshStartRequired config)
      | other => st_err (create_storage_error other)
      end
  | InitialWithInfo config collections =>
      r ← world fetch_meta_global;
      match r with
      | Success global global_timestamp _ =>
          if STORAGE_VERSION <? storage_version global then st_err ClientUpgradeRequired
          else if storage_version global <? STORAGE_VERSION then mret (FreshStartRequired config)
          else mret (InitialWithMetaGlobal config collections global global_timestamp)
      | NotFound _ => mret (FreshStartRequired config)
      | other => st_err (create_storage_error other)
      end
  | InitialWithMetaGlobal config collections global global_timestamp =>
      _ ← st_modify (λ '(m, w), (set_pgs (V2 (Some (declined global))) m, w));
      r ← world fetch_crypto_keys;
      match r with
      | Success record last_modified _ =>
          _ ← st_lift (rassert (ts_eqb last_modified (bso_modified record))
                         "assertion failed: `(left == right)`");
          new_keys ← st_lift (CollectionKeys.from_encrypted_bso record root_key);
          mret (Ready (mkGlobalState config collections global global_timestamp new_keys))
      | NotFound _ => mret (FreshStartRequired config)
      | other => st_err (create_storage_error other)
      end
  | WithPreviousState old_state =>
      r ← world fetch_info_collections;
      match r with
      | Success collections _ _ =>
          if is_fresh (gs_global_timestamp old_state) collections "meta"
             && is_fresh (ck_timestamp (gs_keys old_state)) collections "crypto"
          then mret (Ready (mkGlobalState (gs_config old_state) collections (gs_global old_state)
                             (gs_global_timestamp old_state) (gs_keys old_state)))
          else mret (InitialWithConfig (gs_config old_state))
      | _ => mret (InitialWithConfig (gs_config old_state))
      end
  | Ready state => mret (Ready state)
  | FreshStartRequired config =>
      _ ← world wipe_all_remote;
      '(m, _) ← st_get;
      global ← world (new_global (pgs m));
      _ ← world (put_meta_global ts_default global);
      keys ← world (keys ← CollectionKeys.new_random; CollectionKeys.to_encrypted_bso keys root_key);
      _ ← world (put_crypto_keys ts_default keys);
      mret (InitialWithConfig config)
  end.

Definition contains (l : list string) (x : string) : bool := bool_decide (x ∈ l).

(** One iteration of the loop of [run_to_ready]: the result, or the next state. *)
Definition iterate (s : SetupState) : ST (SetupStateMachine * W) ErrorKind (GlobalState + SetupState) :=
  _ ← world err_if_interrupted;
  '(m, _) ← st_get;
  match s with
  | Ready state =>
      _ ← st_modify (λ '(m, w), (push_sequence (label s) m, w));
      mret (inl state)
  | _ =>
      _ ← match s with
          | FreshStartRequired _ | WithPreviousState _ | Initial =>
              if contains (sequence m) (label s) then st_err SetupRace else mret tt
          | _ =>
              if negb (contains (allowed_states m) (label s)) then st_err SetupRequired else mret tt
          end;
      _ ← st_modify (λ '(m, w), (push_sequence (label s) m, w));
      s' ← advance s;
      mret (inr s')
  end.

(** The loop; [None] when the fuel runs out. *)
Fixpoint run_loop (fuel : nat) (s : SetupState) (st : SetupStateMachine * W)
    : option (res ErrorKind GlobalState * (SetupStateMachine * W)) :=
  match fuel with
  | O => None
  | S fuel =>
      match iterate s st with
      | (Ok (inl state), st) => Some (Ok state, st)
      | (Ok (inr s'), st) => run_loop fuel s' st
      | (Err e, st) => Some (Err e, st)
      | (Panic m, st) => Some (Panic m, st)
      end
  end.

Definition start (state : option GlobalState) : SetupState :=
  match state with Some old_state => WithPreviousState old_state | None => Initial end.

(** Nine iterations are enough, whatever the client answers ([setup_terminates]). *)
Definition run_to_ready (state : option GlobalState) (st : SetupStateMachine * W)
    : option (res ErrorKind GlobalState * (SetupStateMachine * W)) :=
  run_loop 9 (start state) st.
End machine.
End SetupStateMachine.

(** ** Observing the requests *)
Inductive Event :=
| EConfig (r : res ErrorKind (Sync15ClientResponse InfoConfiguration))
| ECollections (r : res ErrorKind (Sync15ClientResponse InfoCollections))
| EGlobal (r : res ErrorKind (Sync15ClientResponse MetaGlobalRecord))
| EKeys (r : res ErrorKind (Sync15ClientResponse EncryptedBso))
| EWipe
| EPutGlobal (g : MetaGlobalRecord)
| EPutKeys (k : EncryptedBso).

Section logging.
Context {W : Type}.

Definition logging {A} (ev : res ErrorKind A → Event) (c : ST W ErrorKind A)
    : ST (W * list Event) ErrorKind A :=
  λ '(w, log), let '(r, w) := c w in (r, (w, log ++ [ev r])).

Definition logged_client (C : SetupStorageClient W) : SetupStorageClient (W * list Event) := {|
  fetch_info_configuration := logging EConfig fetch_info_configuration;
  fetch_info_collections := logging ECollections fetch_info_collections;
  fetch_meta_global := logging EGlobal fetch_meta_global;
  fetch_crypto_keys := logging EKeys fetch_crypto_keys;
  put_meta_global t g := logging (λ _, EPutGlobal g) (put_meta_global t g);
  put_crypto_keys t k := logging (λ _, EPutKeys k) (put_crypto_keys t k);
  wipe_all_remote := logging (λ _, EWipe) wipe_all_remote;
|}.

Definition quiet_interruptee (I : Interruptee W) : Interruptee (W * list Event) :=
  λ '(w, log), let '(b, w) := was_interrupted w in (b, (w, log)).
Definition quiet_rand (R : Rand W) : Rand (W * list Event) :=
  λ n '(w, log), let '(r, w) := rand_fill n w in (r, (w, log)).
End logging.

(** A reply that calls for a fresh start. *)
Definition justifies (e : Event) : bool :=
  match e with
  | ECollections (Ok (NotFound _)) | EGlobal (Ok (NotFound _)) | EKeys (Ok (NotFound _)) => true
  | EGlobal (Ok (Success g _ _)) => storage_version g <? STORAGE_VERSION
  | _ => false
  end.

Definition is_put (e : Event) : bool :=
  match e with EPutGlobal _ | EPutKeys _ => true | _ => false end.
Definition is_wipe (e : Event) : bool := match e with EWipe => true | _ => false end.
Definition is_fresh_start (s : SetupState) : bool :=
  match s with FreshStartRequired _ => true | _ => false end.

(** ** The specification of one step

    [setup_step p s evs p' o]: from the state [s] with persisted state [p], the machine
    makes the requests [evs] and ends with [p'] and the outcome [o]. *)
Section setup_step.
Context `{!SerdeJson, !Crypto, !Serde Payload, !Serde CryptoKeysRecord}.
Context (root_key : KeyBundle).

(** A record that may be uploaded by a fresh start. *)
Definition fresh_global (p : PersistedGlobalState) (g : MetaGlobalRecord) : Prop :=
  storage_version g = STORAGE_VERSION ∧
  declined g = match p with V2 (Some d) => d | V2 None => [] end ∧
  (∀ name, is_Some (engines g !! name) ↔ name ∈ DEFAULT_ENGINES.*1).

(** The configuration that a reply to [info/configuration] stands for. *)
Definition config_reply (r : res ErrorKind (Sync15ClientResponse InfoConfiguration))
    : option InfoConfiguration :=
  match r with
  | Ok (Success c _ _) => Some c
  | Ok (NotFound _) => Some InfoConfiguration_default
  | _ => None
  end.

(** A reply to [info/collections] that shows the cached state to be current. *)
Definition confirms (old : GlobalState) (r : res ErrorKind (Sync15ClientResponse InfoCollections)) : bool :=
  match r with
  | Ok (Success cols _ _) =>
      is_fresh (gs_global_timestamp old) cols "meta" && is_fresh (ck_timestamp (gs_keys old)) cols "crypto"
  | _ => false
  end.

Inductive setup_step : PersistedGlobalState → SetupState → list Event →
    PersistedGlobalState → res ErrorKind SetupState → Prop :=
| step_config p r c :
    config_reply r = Some c → setup_step p Initial [EConfig r] p (Ok (InitialWithConfig c))
| step_info p c cols t rt :
    setup_step p (InitialWithConfig c) [ECollections (Ok (Success cols t rt))] p
      (Ok (InitialWithInfo c cols))
| step_no_info p c rt :
    setup_step p (InitialWithConfig c) [ECollections (Ok (NotFound rt))] p (Ok (FreshStartRequired c))
| step_global p c cols g t rt :
    storage_version g = STORAGE_VERSION →
    setup_step p (InitialWithInfo c cols) [EGlobal (Ok (Success g t rt))] p
      (Ok (InitialWithMetaGlobal c cols g t))
| step_old_global p c cols g t rt :
    storage_version g < STORAGE_VERSION →
    setup_step p (InitialWithInfo c cols) [EGlobal (Ok (Success g t rt))] p (Ok (FreshStartRequired c))
| step_no_global p c cols rt :
    setup_step p (InitialWithInfo c cols) [EGlobal (Ok (NotFound rt))] p (Ok (FreshStartRequired c))
| step_keys p c cols g t k bso t' rt :
    ts_eqb t' (bso_modified bso) = true →
    CollectionKeys.from_encrypted_bso bso root_key = Ok k →
    setup_step p (InitialWithMetaGlobal c cols g t) [EKeys (Ok (Success bso t' rt))]
      (V2 (Some (declined g))) (Ok (Ready (mkGlobalState c cols g t k)))
| step_no_keys p c cols g t rt :
    setup_step p (InitialWithMetaGlobal c cols g t) [EKeys (Ok (NotFound rt))]
      (V2 (Some (declined g))) (Ok (FreshStartRequired c))
| step_cached p old cols t rt :
    is_fresh (gs_global_timestamp old) cols "meta" = true →
    is_fresh (ck_timestamp (gs_keys old)) cols "crypto" = true →
    setup_step p (WithPreviousState old) [ECollections (Ok (Success cols t rt))] p
      (Ok (Ready (mkGlobalState (gs_config old) cols (gs_global old)
                    (gs_global_timestamp old) (gs_keys old))))
| step_stale p old r :
    confirms old r = false →
    setup_step p (WithPreviousState old) [ECollections r] p (Ok (InitialWithConfig (gs_config old)))
| step_ready p gs : setup_step p (Ready gs) [] p (Ok (Ready gs))
| step_fresh_start p c g k :
    fresh_global p g →
    setup_step p (FreshStartRequired c) [EWipe; EPutGlobal g; EPutKeys k] p (Ok (InitialWithConfig c))
| step_read_fails p s e p' o :
    is_fresh_start s = false → is_wipe e = false → is_put e = false → is_ok o = false →
    setup_step p s [e] p' o
| step_fresh_start_fails p c o evs :
    (evs = [EWipe] ∨ ∃ g, fresh_global p g ∧
       (evs = [EWipe; EPutGlobal g] ∨ ∃ k, evs = [EWipe; EPutGlobal g; EPutKeys k])) →
    is_ok o = false → setup_step p (FreshStartRequired c) evs p o.
End setup_step.

Section advance_spec.
Context {W : Type} {C : SetupStorageClient W} {I : Interruptee W} {R : Rand W}.
Context `{!UrlSafeBase64, !SerdeJson, !Crypto, !Serde Payload, !Serde CryptoKeysRecord}.
Context (root_key : KeyBundle).
Local Existing Instances logged_client quiet_interruptee quiet_rand.

(** Computations that make no request. *)
Definition silent {A} (c : ST (W * list Event) ErrorKind A) : Prop :=
  ∀ w log, (c (w, log)).2.2 = log.

Lemma silent_ret {A} (a : A) : silent (mret a).
Proof. done. Qed.
Lemma silent_lift {A} (r : res ErrorKind A) : silent (st_lift r).
Proof. done. Qed.
Lemma silent_bind {A B} (c : ST _ _ A) (k : A → ST _ _ B) :
  silent c → (∀ a, silent (k a)) → silent (c ≫= k).
Proof.
  intros Hc Hk w log. specialize (Hc w log). unfold mbind, ST_bind.
  destruct (c (w, log)) as [[a|e|m] [w1 log1]]; cbn in *; subst; [apply Hk|done..].
Qed.
Lemma silent_random_guid : silent random_guid.
Proof.
  intros w log. unfold random_guid, rand_fill, quiet_rand. by destruct (rand_fill 9 w) as [r w1].
Qed.
Lemma silent_new_engines l : ∀ m, silent (SetupStateMachine.new_engines m l).
Proof.
  induction l as [|[name v] l IH]; intros m; cbn [SetupStateMachine.new_engines]; [done|].
  apply silent_bind; [apply silent_random_guid|done].
Qed.
Lemma silent_new_global p : silent (SetupStateMachine.new_global p).
Proof.
  apply silent_bind; [apply silent_random_guid|intros id].
  by apply silent_bind; [apply silent_new_engines|].
Qed.
Lemma silent_new_keys :
  silent (keys ← CollectionKeys.new_random; CollectionKeys.to_encrypted_bso keys root_key).
Proof.
  apply silent_bind; [apply silent_bind; [|done]|intros keys].
  - intros w log. unfold KeyBundle.new_random, rand_fill, quiet_rand.
    by destruct (rand_fill 64 w) as [[]  w1].
  - apply silent_bind; [apply silent_lift|intros pl].
    apply silent_bind; [|done].
    apply silent_bind; [apply silent_lift|intros ct].
    apply silent_bind; [|intros [enc iv]; by apply silent_bind; [apply silent_lift|]].
    intros w log. unfold KeyBundle.encrypt_bytes_rand_iv, rand_fill, quiet_rand.
    by destruct (rand_fill 16 w) as [[]  w1].
Qed.

Lemma new_engines_dom {W'} `{!Rand W'} l : ∀ m (w : W') m' w',
  SetupStateMachine.new_engines m l w = (Ok m', w') →
  ∀ name, is_Some (m' !! name) ↔ is_Some (m !! name) ∨ name ∈ l.*1.
Proof.
  induction l as [|[n v] l IH]; intros m w m' w'; cbn [SetupStateMachine.new_engines fmap list_fmap].
  { intros [= <- <-] name. set_solver. }
  unfold mbind, ST_bind. destruct (random_guid w) as [[id|e|e] w1]; [|done..].
  intros Heq name. rewrite (IH _ _ _ _ Heq), elem_of_cons. cbn.
  destruct (decide (n = name)) as [->|Hne].
  - rewrite lookup_insert_eq. naive_solver.
  - rewrite lookup_insert_ne by done. naive_solver.
Qed.

Lemma new_global_fresh {W'} `{!Rand W'} p (w : W') g w' :
  SetupStateMachine.new_global p w = (Ok g, w') → fresh_global p g.
Proof.
  unfold SetupStateMachine.new_global, mbind, ST_bind.
  destruct (random_guid w) as [[id|e|e] w1]; [|done..].
  destruct (SetupStateMachine.new_engines ∅ DEFAULT_ENGINES w1) as [[m|e|e] w2] eqn:He; [|done..].
  intros [= <- _]. split_and!; [done|by destruct p as [[d|]]|]. intros name. cbn [engines].
  rewrite (new_engines_dom _ _ _ _ _ He). rewrite lookup_empty. split; [intros [[? [=]]|?]; done|by right].
Qed.

Definition advanced (m : SetupStateMachine) (s : SetupState) (log : list Event)
    (r : res ErrorKind SetupState * (SetupStateMachine * (W * list Event))) : Prop :=
  let '(o, (m', (_, log'))) := r in
  allowed_states m' = allowed_states m ∧ sequence m' = sequence m ∧
  ∃ evs, log' = log ++ evs ∧ setup_step root_key (pgs m) s evs (pgs m') o.

(** A fresh start makes at most three requests, in order. *)
Lemma advance_fresh_start c m w log :
  advanced m (FreshStartRequired c) log
    (SetupStateMachine.advance root_key (FreshStartRequired c) (m, (w, log))).
Proof.
  unfold SetupStateMachine.advance, mbind, ST_bind, SetupStateMachine.world, st_get, mret, ST_ret.
  cbn [wipe_all_remote put_meta_global put_crypto_keys logged_client]. unfold logging.
  destruct (wipe_all_remote w) as [[[]|e|e] w1].
  2,3: split_and!; [done..|]; exists [EWipe]; split; [done|]; apply step_fresh_start_fails; auto.
  pose proof (silent_new_global (pgs m) w1 (log ++ [EWipe])) as Hsil.
  destruct (SetupStateMachine.new_global (pgs m) _) as [[g|e|e] [w2 log2]] eqn:Hg; cbn in Hsil; subst log2.
  2,3: split_and!; [done..|]; exists [EWipe]; split; [done|]; apply step_fresh_start_fails; auto.
  apply new_global_fresh in Hg.
  destruct (put_meta_global ts_default g w2) as [[[]|e|e] w3].
  2,3: split_and!; [done..|]; exists [EWipe; EPutGlobal g]; split; [by rewrite <-app_assoc|];
    apply step_fresh_start_fails; eauto.
  pose proof (silent_new_keys w3 ((log ++ [EWipe]) ++ [EPutGlobal g])) as Hsil.
  unfold mbind, ST_bind in Hsil.
  destruct (match CollectionKeys.new_random _ with (Ok _, _) => _ | (Err _, _) => _ | (Panic _, _) => _ end)
    as [[k|e|e] [w4 log4]]; cbn in Hsil; subst log4.
  2,3: split_and!; [done..|]; exists [EWipe; EPutGlobal g]; split; [by rewrite <-app_assoc|];
    apply step_fresh_start_fails; eauto.
  destruct (put_crypto_keys ts_default k w4) as [[[]|e|e] w5].
  all: split_and!; [done..|]; exists [EWipe; EPutGlobal g; EPutKeys k]; split; [by rewrite <-!app_assoc|].
  - by apply step_fresh_start.
  - apply step_fresh_start_fails; eauto 10.
  - apply step_fresh_start_fails; eauto 10.
Qed.

(** [advance] implements the specification of a step. *)
Lemma advance_refines s m w log :
  advanced m s log (SetupStateMachine.advance root_key s (m, (w, log))).
Proof.
  destruct s as [|c|c cols|c cols g t|old|gs|c]; [..|apply advance_fresh_start].
  all: unfold SetupStateMachine.advance, mbind, ST_bind, SetupStateMachine.world, st_modify, mret, ST_ret, st_err.
  all: cbn [fetch_info_configuration fetch_info_collections fetch_meta_global fetch_crypto_keys logged_client].
  all: unfold logging.
  6: { split_and!; [done..|]. exists []. split; [by rewrite app_nil_r|]. constructor. }
  1: destruct (fetch_info_configuration w) as [[r|e|e] w1].
  4: destruct (fetch_info_collections w) as [[r|e|e] w1].
  7: destruct (fetch_meta_global w) as [[r|e|e] w1].
  10: destruct (fetch_crypto_keys w) as [[r|e|e] w1].
  13: destruct (fetch_info_collections w) as [[r|e|e] w1].
  all: try (by split_and!; [done..|]; eexists; split; [done|]; by apply step_read_fails).
  all: destruct r as [rec lm rt|rt|rt|rt st|rt st].
  all: try (by split_and!; [done..|]; eexists; split; [done|]; first [by constructor|by apply step_read_fails]).
  - destruct (Z.ltb_spec STORAGE_VERSION (storage_version rec)).
    { split_and!; [done..|]. eexists; split; [done|]. by apply step_read_fails. }
    destruct (Z.ltb_spec (storage_version rec) STORAGE_VERSION);
      (split_and!; [done..|]; eexists; split; [done|]).
    + by apply step_old_global.
    + apply step_global. lia.
  - unfold st_lift. destruct (ts_eqb lm (bso_modified rec)) eqn:Hlm; cbn [rassert].
    2:{ split_and!; [done..|]. eexists; split; [done|]. by apply step_read_fails. }
    destruct (CollectionKeys.from_encrypted_bso rec root_key) as [k|e|e] eqn:Hk;
      (split_and!; [done..|]; eexists; split; [done|]); [|by apply step_read_fails..].
    by apply step_keys.
  - destruct (_ && _) eqn:Hf; (split_and!; [done..|]; eexists; split; [done|]); [|by constructor].
    apply andb_true_iff in Hf as [? ?]. by apply step_cached.
Qed.
End advance_spec.

(** ** Runs

    [setup_run allowed p sq s evs p' o]: started in [s] with the labels [sq] already
    visited, the machine makes the requests [evs] and returns [o]. *)
Section setup_run.
Context `{!SerdeJson, !Crypto, !Serde Payload, !Serde CryptoKeysRecord}.
Context (root_key : KeyBundle) (allowed : list string).

(** The guards of the loop. *)
Definition admitted (sq : list string) (s : SetupState) : Prop :=
  match s with
  | Ready _ => False
  | FreshStartRequired _ | WithPreviousState _ | Initial => label s ∉ sq
  | _ => label s ∈ allowed
  end.

Inductive setup_run : PersistedGlobalState → list string → SetupState → list Event →
    PersistedGlobalState → res ErrorKind GlobalState → Prop :=
| run_ready p sq gs : setup_run p sq (Ready gs) [] p (Ok gs)
| run_stopped p sq s o : is_ok o = false → setup_run p sq s [] p o
| run_failed p sq s evs p' o o' :
    admitted sq s → setup_step root_key p s evs p' o' → is_ok o' = false → is_ok o = false →
    setup_run p sq s evs p' o
| run_continued p sq s evs p1 s1 evs' p' o :
    admitted sq s → setup_step root_key p s evs p1 (Ok s1) →
    setup_run p1 (sq ++ [label s]) s1 evs' p' o →
    setup_run p sq s (evs ++ evs') p' o.

(** Every wipe directly follows a reply that calls for it; [prev] is whether the request
    before the list does. *)
Fixpoint wipes_justified (prev : bool) (evs : list Event) : Prop :=
  match evs with
  | [] => True
  | e :: evs => (is_wipe e = true → prev = true) ∧ wipes_justified (justifies e) evs
  end.

Definition wipes (evs : list Event) : nat := length (List.filter is_wipe evs).
Definition puts (evs : list Event) : nat := length (List.filter is_put evs).

Lemma wipes_app a b : wipes (a ++ b) = (wipes a + wipes b)%nat.
Proof. unfold wipes. by rewrite List.filter_app, length_app. Qed.
Lemma puts_app a b : puts (a ++ b) = (puts a + puts b)%nat.
Proof. unfold puts. by rewrite List.filter_app, length_app. Qed.

Lemma wipes_justified_mono b evs : wipes_justified false evs → wipes_justified b evs.
Proof. destruct evs as [|e evs]; [done|]. intros [H' ?]. split; [|done]. intros He. by apply H' in He. Qed.

(** What one step contributes to the trace. *)
Lemma setup_step_trace p s evs p' o :
  setup_step root_key p s evs p' o →
  wipes evs = (if is_fresh_start s then 1 else 0)%nat ∧
  (is_fresh_start s = false → puts evs = 0%nat) ∧
  wipes_justified (is_fresh_start s) evs ∧
  (∀ s' evs', o = Ok s' → wipes_justified (is_fresh_start s') evs' →
     wipes_justified (is_fresh_start s) (evs ++ evs')).
Proof.
  assert (Hfail : ∀ (s' : SetupState), is_ok (E:=ErrorKind) (Ok s') = false → False) by done.
  destruct 1; try (split_and!; cbn; try done; intros s' evs' [= <-]; cbn; eauto using wipes_justified_mono).
  - by rewrite (proj2 (Z.ltb_lt _ _)).
  - destruct s, e; try done; split_and!; try done; by intros s' evs' ->.
  - match goal with Hev : _ ∨ _ |- _ => destruct Hev as [->|(g & _ & [->|[k ->]])] end;
      split_and!; try done; by intros s' evs' ->.
Qed.

Lemma setup_run_trace p sq s evs p' o :
  setup_run p sq s evs p' o →
  wipes_justified (is_fresh_start s) evs ∧
  (wipes evs ≤ 1)%nat ∧
  (("FreshStartRequired" ∈ sq)%string → wipes evs = 0%nat) ∧
  (wipes evs = 0%nat → puts evs = 0%nat).
Proof.
  induction 1 as [p sq gs|p sq s o Ho|p sq s evs p' o o' Hadm Hst Ho' Ho
                 |p sq s evs p1 s1 evs' p' o Hadm Hst Hrun (IHj & IHw & IHs & IHp)].
  - split_and!; try done; unfold wipes; cbn; lia.
  - split_and!; try done; unfold wipes; cbn; lia.
  - apply setup_step_trace in Hst as (Hw & Hp & Hj & _). rewrite Hw.
    destruct s; cbn in *; split_and!; try done; lia.
  - apply setup_step_trace in Hst as (Hw & Hp & Hj & Hc). rewrite wipes_app, puts_app, Hw.
    split; [by apply (Hc s1)|]. destruct (is_fresh_start s) eqn:Hs.
    + destruct s; try done. cbn [label] in IHs. rewrite IHs by set_solver.
      split_and!; [lia|done|done].
    + rewrite Hp by done. split_and!; [lia| |done]. intros Hin. apply IHs. set_solver.
Qed.

(** Where a ready state comes from: the last three replies of the run are the collections,
    the [meta/global] record with its timestamp and the keys of the state, the version is the
    supported one and the declined engines are persisted in [p']. *)
Definition from_server (p' : PersistedGlobalState) (evs : list Event) (gs : GlobalState) : Prop :=
  (∃ before bso t1 r1 r2 t3 r3,
     evs = before ++ [ECollections (Ok (Success (gs_collections gs) t1 r1));
                      EGlobal (Ok (Success (gs_global gs) (gs_global_timestamp gs) r2));
                      EKeys (Ok (Success bso t3 r3))] ∧
     ts_eqb t3 (bso_modified bso) = true ∧
     CollectionKeys.from_encrypted_bso bso root_key = Ok (gs_keys gs)) ∧
  storage_version (gs_global gs) = STORAGE_VERSION ∧ p' = V2 (Some (declined (gs_global gs))).

(** The cached state with new collection timestamps, which confirm it. *)
Definition revalidated (old : GlobalState) (gs : GlobalState) : Prop :=
  gs = mkGlobalState (gs_config old) (gs_collections gs) (gs_global old) (gs_global_timestamp old) (gs_keys old) ∧
  is_fresh (gs_global_timestamp gs) (gs_collections gs) "meta" = true ∧
  is_fresh (ck_timestamp (gs_keys gs)) (gs_collections gs) "crypto" = true.

Lemma from_server_app p' evs0 evs gs : from_server p' evs gs → from_server p' (evs0 ++ evs) gs.
Proof.
  intros [(before & bso & t1 & r1 & r2 & t3 & r3 & -> & ?) ?]. split; [|done].
  exists (evs0 ++ before), bso, t1, r1, r2, t3, r3. by rewrite app_assoc.
Qed.

(** What a run from each state returns, in terms of the replies [evs] it gets. *)
Definition ready_from (p p' : PersistedGlobalState) (s : SetupState) (evs : list Event) (gs : GlobalState) : Prop :=
  match s with
  | Initial =>
      from_server p' evs gs ∧ ∃ r evs', evs = EConfig r :: evs' ∧ config_reply r = Some (gs_config gs)
  | InitialWithConfig c | FreshStartRequired c => from_server p' evs gs ∧ gs_config gs = c
  | InitialWithInfo c cols =>
      gs_config gs = c ∧ ∀ t r, from_server p' (ECollections (Ok (Success cols t r)) :: evs) gs
  | InitialWithMetaGlobal c cols g gt =>
      storage_version g = STORAGE_VERSION →
      gs_config gs = c ∧ ∀ t r r', from_server p'
        (ECollections (Ok (Success cols t r)) :: EGlobal (Ok (Success g gt r')) :: evs) gs
  | WithPreviousState old =>
      ∃ r evs', evs = ECollections r :: evs' ∧
        if confirms old r
        then evs' = [] ∧ p' = p ∧ revalidated old gs ∧ ∃ t rt, r = Ok (Success (gs_collections gs) t rt)
        else from_server p' evs' gs ∧ gs_config gs = gs_config old
  | Ready gs' => evs = [] ∧ p' = p ∧ gs = gs'
  end.

Lemma setup_run_ready p sq s evs p' gs :
  setup_run p sq s evs p' (Ok gs) → ready_from p p' s evs gs.
Proof.
  remember (Ok gs) as o eqn:Ho. intros Hrun. revert Ho.
  induction Hrun as [p sq gs'|p sq s o Ho|p sq s evs p' o o' Hadm Hst Ho' Ho
                 |p sq s evs p1 s1 evs' p' o Hadm Hst Hrun IH]; intros Heq; simplify_eq/=; try done.
  specialize (IH eq_refl). unfold ready_from in *.
  inversion Hst; subst; cbn [is_ok] in *; try done.
  - destruct IH as [Hs <-]. split; [by apply (from_server_app _ [_])|eauto].
  - destruct IH as [<- Hs]. split; [apply Hs|done].
  - destruct IH as [Hs <-]. split; [by apply (from_server_app _ [_])|done].
  - destruct IH as [<- Hs]; [done|]. split; [done|intros t' r'; apply Hs].
  - destruct IH as [Hs <-]. split; [done|intros t' r'; by apply (from_server_app _ [_; _])].
  - destruct IH as [Hs <-]. split; [done|intros t' r'; by apply (from_server_app _ [_; _])].
  - destruct IH as (-> & -> & ->). intros Hv. split; [done|intros t1 r1 r2].
    split; [|done]. by exists [], bso, t1, r1, r2, t', rt.
  - destruct IH as [Hs <-]. intros Hv. split; [done|intros t1 r1 r2; by apply (from_server_app _ [_; _; _])].
  - destruct IH as (-> & -> & ->). eexists _, []. split; [done|]. cbn [confirms].
    match goal with Hm : _ "meta" = true, Hk : _ "crypto" = true |- _ => rewrite Hm, Hk end.
    cbn. split_and!; [done..|]. eauto.
  - destruct IH as [Hs Hc]. eexists _, evs'. split; [done|].
    match goal with Hf : confirms _ _ = false |- _ => by rewrite Hf end.
  - destruct IH as [Hs <-]. split; [by apply (from_server_app _ [_; _; _])|done].
Qed.
End setup_run.

(** ** [run_to_ready] refines the specification, and terminates *)
Section refinement.
Context {W : Type} {C : SetupStorageClient W} {I : Interruptee W} {R : Rand W}.
Context `{!UrlSafeBase64, !SerdeJson, !Crypto, !Serde Payload, !Serde CryptoKeysRecord}.
Context (root_key : KeyBundle).

(** One iteration, for any world: it stops, or returns the ready state, or advances. *)
Lemma iterate_cases s m (w : W) :
  (∃ o w' m', SetupStateMachine.iterate root_key s (m, w) = (o, (m', w')) ∧ is_ok o = false ∧ m' = m ∧
     w' = (err_if_interrupted w).2) ∨
  (∃ gs w', s = Ready gs ∧ w' = (err_if_interrupted w).2 ∧
     SetupStateMachine.iterate root_key s (m, w) =
     (Ok (inl gs), (SetupStateMachine.push_sequence (label s) m, w'))) ∨
  (∃ w', w' = (err_if_interrupted w).2 ∧ admitted (allowed_states m) (sequence m) s ∧
     SetupStateMachine.iterate root_key s (m, w) =
     (s' ← SetupStateMachine.advance root_key s; mret (inr s'))
       (SetupStateMachine.push_sequence (label s) m, w')).
Proof.
  unfold SetupStateMachine.iterate, mbind, ST_bind, SetupStateMachine.world, st_get, st_modify, mret, ST_ret, st_err.
  destruct (err_if_interrupted w) as [[[]|e|e] w1]; [|by left; eauto 10..].
  unfold SetupStateMachine.contains, admitted.
  destruct s; try (case_bool_decide; cbn [negb]; [by left; eauto 10|right; right; by eauto 10]).
  all: try (case_bool_decide; cbn [negb]; [right; right; by eauto 10|by left; eauto 10]).
  right; left. eauto 10.
Qed.

(** The states that are still ahead, once a fresh start has been made and before. *)
Definition rank (sq : list string) (s : SetupState) : nat :=
  let again := if bool_decide ("FreshStartRequired"%string ∈ sq) then 0%nat else 4%nat in
  match s with
  | Ready _ => 0
  | FreshStartRequired _ => again
  | InitialWithMetaGlobal _ _ _ _ => 1 + again
  | InitialWithInfo _ _ => 2 + again
  | InitialWithConfig _ => 3 + again
  | WithPreviousState _ | Initial => 4 + again
  end.

Lemma advance_next s m (w : W) s' m' w' :
  SetupStateMachine.advance root_key s (m, w) = (Ok s', (m', w')) →
  sequence m' = sequence m ∧
  ∀ sq, match s with
        | FreshStartRequired _ => ∃ c, s' = InitialWithConfig c
        | Ready _ => True
        | _ => rank sq s' < rank sq s
        end%nat.
Proof.
  unfold SetupStateMachine.advance, mbind, ST_bind, SetupStateMachine.world, st_get, st_modify, st_lift,
    mret, ST_ret, st_err.
  intros Heq. destruct s; repeat case_match; simplify_eq/=; (split; [done|]); intros sq; try done; eauto;
    unfold rank; repeat case_match; lia.
Qed.

Lemma run_loop_total fuel s m (w : W) :
  (rank (sequence m) s < fuel)%nat → is_Some (SetupStateMachine.run_loop root_key fuel s (m, w)).
Proof.
  revert s m w. induction fuel as [|fuel IH]; intros s m w Hr; [lia|]. cbn [SetupStateMachine.run_loop].
  destruct (iterate_cases s m w) as [(o & w' & m' & -> & Ho & _)|[(gs & w' & _ & _ & ->)|(w' & _ & Hadm & ->)]].
  - destruct o as [?|e|e]; [done|by eexists..].
  - by eexists.
  - unfold mbind, ST_bind, mret, ST_ret.
    destruct (SetupStateMachine.advance root_key s _) as [[s'|e|e] [m' w1]] eqn:Hadv; [|by eexists..].
    apply advance_next in Hadv as [Hsq Hrank]. apply IH. rewrite Hsq. cbn [sequence SetupStateMachine.push_sequence].
    specialize (Hrank (sequence m)).
    assert (Hlab : is_fresh_start s = false → rank (sequence m ++ [label s]) s' = rank (sequence m) s').
    { intros Hf. unfold rank. erewrite bool_decide_ext; [done|]. rewrite elem_of_app, list_elem_of_singleton.
      split; [intros [?|Hl]; [done|by destruct s]|by left]. }
    destruct s; try (rewrite Hlab by done; lia); [done|].
    destruct Hrank as [c ->]. unfold rank in *. cbn [label admitted] in *.
    rewrite bool_decide_false in Hr by done. rewrite bool_decide_true by set_solver. lia.
Qed.
End refinement.

Section logged_refinement.
Context {W : Type} {C : SetupStorageClient W} {I : Interruptee W} {R : Rand W}.
Context `{!UrlSafeBase64, !SerdeJson, !Crypto, !Serde Payload, !Serde CryptoKeysRecord}.
Context (root_key : KeyBundle).
Local Existing Instances logged_client quiet_interruptee quiet_rand.

Lemma run_loop_refines fuel s m w log o m' w' log' :
  SetupStateMachine.run_loop root_key fuel s (m, (w, log)) = Some (o, (m', (w', log'))) →
  ∃ evs, log' = log ++ evs ∧ setup_run root_key (allowed_states m) (pgs m) (sequence m) s evs (pgs m') o.
Proof.
  revert s m w log. induction fuel as [|fuel IH]; intros s m w log; [done|]. cbn [SetupStateMachine.run_loop].
  assert (Hint : ∀ w', w' = (err_if_interrupted (w, log)).2 → ∃ w1, w' = (w1, log)).
  { intros ? ->. unfold err_if_interrupted, was_interrupted, quiet_interruptee.
    destruct (was_interrupted w) as [b w1]. by exists w1. }
  destruct (iterate_cases root_key s m (w, log)) as
    [(o1 & w1 & m1 & -> & Ho & -> & Hw)|[(gs & w1 & -> & Hw & ->)|(w1 & Hw & Hadm & ->)]];
    destruct (Hint _ Hw) as [w2 ->]; clear Hint Hw.
  - intros Heq. exists []. rewrite app_nil_r.
    destruct o1 as [?|e|e]; [done|injection Heq as <- <- <- <-; split; [done|by constructor]..].
  - intros [= <- <- <- <-]. exists []. rewrite app_nil_r. split; [done|constructor].
  - unfold mbind, ST_bind, mret, ST_ret.
    pose proof (advance_refines root_key s (SetupStateMachine.push_sequence (label s) m) w2 log) as Hadv.
    destruct (SetupStateMachine.advance root_key s _) as [o1 [m1 [w1 log1]]].
    destruct Hadv as (Hal & Hsq & evs & -> & Hst).
    cbn [allowed_states sequence pgs SetupStateMachine.push_sequence] in Hal, Hsq, Hst.
    destruct o1 as [s1|e|e].
    + intros (evs' & -> & Hrun)%IH. exists (evs ++ evs'). rewrite <-app_assoc. split; [done|].
      rewrite Hal, Hsq in Hrun. by eapply run_continued.
    + intros [= <- <- <- <-]. exists evs. split; [done|]. by eapply run_failed.
    + intros [= <- <- <- <-]. exists evs. split; [done|]. by eapply run_failed.
Qed.

Lemma run_to_ready_refines state m w o m' w' log' :
  SetupStateMachine.run_to_ready root_key state (m, (w, [])) = Some (o, (m', (w', log'))) →
  setup_run root_key (allowed_states m) (pgs m) (sequence m) (SetupStateMachine.start state) log' (pgs m') o.
Proof. unfold SetupStateMachine.run_to_ready. intros Hr. by apply run_loop_refines in Hr as (evs & -> & ?). Qed.
End logged_refinement.

(** ** The allowed states *)
Section allowed.
Context {W : Type} {C : SetupStorageClient W} {I : Interruptee W} {R : Rand W}.
Context `{!UrlSafeBase64, !SerdeJson, !Crypto, !Serde Payload, !Serde CryptoKeysRecord}.
Context (root_key : KeyBundle).

Definition with_allowed (a : list string) (m : SetupStateMachine) : SetupStateMachine :=
  mkSetupStateMachine (pgs m) a (sequence m).

(** [allowed_states] is consulted for three labels only. *)
Definition allows_same (a b : list string) : Prop :=
  ∀ l, l ∈ ["InitialWithConfig"; "InitialWithInfo"; "InitialWithMetaGlobal"]%string → l ∈ a ↔ l ∈ b.

(** A computation that does not look at [allowed_states]. *)
Definition ignores {A} (c : ST (SetupStateMachine * W) ErrorKind A) : Prop :=
  ∀ a m w, c (with_allowed a m, w) = ((c (m, w)).1, (with_allowed a (c (m, w)).2.1, (c (m, w)).2.2)).

Lemma ignores_ret {A} (x : A) : ignores (mret x).
Proof. done. Qed.
Lemma ignores_err {A} e : ignores (st_err (A:=A) e).
Proof. done. Qed.
Lemma ignores_lift {A} (r : res ErrorKind A) : ignores (st_lift r).
Proof. done. Qed.
Lemma ignores_world {A} (c : ST W ErrorKind A) : ignores (SetupStateMachine.world c).
Proof. intros a m w. cbn. by destruct (c w). Qed.
Lemma ignores_set_pgs p : ignores (st_modify (λ '(m, w), (SetupStateMachine.set_pgs p m, w))).
Proof. done. Qed.
Lemma ignores_bind {A B} (c : ST _ _ A) (k : A → ST _ _ B) :
  ignores c → (∀ x, ignores (k x)) → ignores (c ≫= k).
Proof.
  intros Hc Hk a m w. unfold mbind, ST_bind. rewrite Hc.
  destruct (c (m, w)) as [[x|e|e] [m1 w1]]; cbn; [apply Hk|done..].
Qed.
Lemma ignores_get {A} (k : PersistedGlobalState → ST _ _ A) :
  (∀ p, ignores (k p)) → ignores (st_get ≫= λ '(m, _), k (pgs m)).
Proof. intros Hk a m w. apply Hk. Qed.

Lemma advance_ignores s : ignores (SetupStateMachine.advance root_key s).
Proof.
  destruct s; unfold SetupStateMachine.advance; try done.
  all: try (apply ignores_bind; [apply ignores_set_pgs|intros _]).
  all: apply ignores_bind; [apply ignores_world|intros r].
  6: { apply (ignores_get (λ p, global ← SetupStateMachine.world (SetupStateMachine.new_global p); _)).
       intros p. repeat (apply ignores_bind; [apply ignores_world|intros ?]). done. }
  all: destruct r; try done.
  - by repeat case_match.
  - apply ignores_bind; [apply ignores_lift|intros _].
    by apply ignores_bind; [apply ignores_lift|].
  - by case_match.
Qed.

Lemma iterate_allowed a s m w :
  allows_same (allowed_states m) a →
  SetupStateMachine.iterate root_key s (with_allowed a m, w) =
  let r := SetupStateMachine.iterate root_key s (m, w) in (r.1, (with_allowed a r.2.1, r.2.2)).
Proof.
  intros Ha. unfold SetupStateMachine.iterate, mbind, ST_bind, SetupStateMachine.world, st_get, st_modify, st_err, mret, ST_ret.
  destruct (err_if_interrupted w) as [[[]|e|e] w1]; [|done..].
  assert (Hc : ∀ l, l ∈ ["InitialWithConfig"; "InitialWithInfo"; "InitialWithMetaGlobal"]%string →
    SetupStateMachine.contains (allowed_states m) l = SetupStateMachine.contains a l).
  { intros l Hl. apply bool_decide_ext. by apply Ha. }
  assert (Hp : ∀ l, SetupStateMachine.push_sequence l (with_allowed a m) =
    with_allowed a (SetupStateMachine.push_sequence l m)) by done.
  change (allowed_states (with_allowed a m)) with a. change (sequence (with_allowed a m)) with (sequence m).
  destruct s; try rewrite Hc by (cbn [label]; set_solver); try done.
  all: destruct (SetupStateMachine.contains _ _); cbv beta iota delta [negb]; try done.
  all: rewrite Hp, advance_ignores.
  all: by destruct (SetupStateMachine.advance _ _ _) as [[] []].
Qed.

Lemma iterate_keeps_allowed s m w :
  allowed_states (SetupStateMachine.iterate root_key s (m, w)).2.1 = allowed_states m.
Proof.
  destruct (iterate_cases root_key s m w) as
    [(o1 & w1 & m1 & -> & _ & -> & _)|[(gs & w1 & _ & _ & ->)|(w1 & _ & _ & ->)]]; [done..|].
  unfold mbind, ST_bind, mret, ST_ret.
  pose proof (advance_ignores s (allowed_states m) (SetupStateMachine.push_sequence (label s) m) w1) as Hi.
  change (with_allowed (allowed_states m) (SetupStateMachine.push_sequence (label s) m))
    with (SetupStateMachine.push_sequence (label s) m) in Hi.
  destruct (SetupStateMachine.advance _ _ _) as [[] [m1 w2]]; by injection Hi as ->.
Qed.

Lemma run_loop_allowed a fuel s m w :
  allows_same (allowed_states m) a →
  SetupStateMachine.run_loop root_key fuel s (with_allowed a m, w) =
  (λ '(o, (m', w')), (o, (with_allowed a m', w'))) <$> SetupStateMachine.run_loop root_key fuel s (m, w).
Proof.
  revert s m w. induction fuel as [|fuel IH]; intros s m w Ha; [done|]. cbn [SetupStateMachine.run_loop].
  rewrite iterate_allowed by done. pose proof (iterate_keeps_allowed s m w) as Hk.
  destruct (SetupStateMachine.iterate _ _ _) as [[[gs|s']|e|e] [m' w']]; cbn [fst snd] in *; try done.
  apply IH. by rewrite Hk.
Qed.
End allowed.

(** ** Theorems *)
Section theorems.
Context {W : Type} {C : SetupStorageClient W} {I : Interruptee W} {R : Rand W}.
Context `{!UrlSafeBase64, !SerdeJson, !Crypto, !Serde Payload, !Serde CryptoKeysRecord}.
Context (root_key : KeyBundle).
Local Existing Instances logged_client quiet_interruptee quiet_rand.

(** C38: The setup state machine terminates whatever the server answers: from any state of
    the machine and of the outside world [run_to_ready] returns within nine iterations. *)
Theorem setup_terminates (state : option GlobalState) (m : SetupStateMachine) (w : W) :
  ∃ o m' w', SetupStateMachine.run_to_ready root_key state (m, w) = Some (o, (m', w')).
Proof.
  destruct (run_loop_total root_key 9 (SetupStateMachine.start state) m w) as [[o [m' w']] Hr]; [|by eauto].
  destruct state; unfold SetupStateMachine.start, rank; case_bool_decide; lia.
Qed.

(** C4: A run of the setup machine wipes the server at most once; the wipe directly follows
    a reply that calls for it (no [info/collections], no or an outdated [meta/global], no
    [crypto/keys]), and [meta/global] and [crypto/keys] are uploaded only after a wipe. *)
Theorem setup_wipes_only_when_needed state m (w : W) o m' w' log' :
  SetupStateMachine.run_to_ready root_key state (m, (w, [])) = Some (o, (m', (w', log'))) →
  wipes_justified false log' ∧ (wipes log' ≤ 1)%nat ∧ (wipes log' = 0%nat → puts log' = 0%nat).
Proof.
  intros Hrun%run_to_ready_refines. apply setup_run_trace in Hrun as (Hj & Hw & _ & Hp).
  by destruct state.
Qed.

(** C37: When the setup machine reaches [Ready], the state it returns is what the server
    last said. Without a cached state, the configuration is that of the first reply (or the
    default where the server has none), and the collections, the [meta/global] record with
    its timestamp and the keys are those of the last three replies of the run: the storage
    version is the supported one, the keys are the reply decrypted with the root key, and the
    declined engines of that record are persisted. With a cached state, the first reply lists
    the collections: if it shows that neither [meta/global] nor [crypto/keys] changed, it is
    the only request, and the result is the cached state with the collections of that reply
    and the persisted state is kept; if not, everything but the configuration is read from
    the server as above. *)
Theorem setup_ready_is_current state m (w : W) gs m' w' log' :
  SetupStateMachine.run_to_ready root_key state (m, (w, [])) = Some (Ok gs, (m', (w', log'))) →
  match state with
  | None =>
      ∃ r evs, log' = EConfig r :: evs ∧ config_reply r = Some (gs_config gs) ∧
        from_server root_key (pgs m') log' gs
  | Some old =>
      ∃ r evs, log' = ECollections r :: evs ∧
        if confirms old r
        then evs = [] ∧ pgs m' = pgs m ∧ (∃ t rt, r = Ok (Success (gs_collections gs) t rt)) ∧
             gs = mkGlobalState (gs_config old) (gs_collections gs) (gs_global old)
                    (gs_global_timestamp old) (gs_keys old)
        else gs_config gs = gs_config old ∧ from_server root_key (pgs m') evs gs
  end.
Proof.
  intros Hrun%run_to_ready_refines. apply setup_run_ready in Hrun.
  destruct state as [old|]; cbn in Hrun.
  - destruct Hrun as (r & evs & -> & Hc). exists r, evs. split; [done|].
    destruct (confirms old r); [|by destruct Hc]. by destruct Hc as (-> & ? & [? _] & ?).
  - destruct Hrun as (Hs & r & evs & -> & Hc). by exists r, evs.
Qed.

(** A fast sync makes one request and never writes to the server; it succeeds only with a
    cached state that the server's collection timestamps confirm. *)
Theorem fast_sync_only_revalidates state p (w : W) o m' w' log' :
  SetupStateMachine.run_to_ready root_key state (SetupStateMachine.for_fast_sync p, (w, [])) = Some (o, (m', (w', log'))) →
  (length log' ≤ 1)%nat ∧ wipes log' = 0%nat ∧ puts log' = 0%nat ∧
  ∀ gs, o = Ok gs → ∃ old, state = Some old ∧ revalidated old gs.
Proof.
  intros Hrun%run_to_ready_refines.
  cbn [SetupStateMachine.for_fast_sync SetupStateMachine.with_allowed_states allowed_states sequence pgs] in Hrun.
  assert (Hno : ∀ p sq c evs p' o, setup_run root_key ["Ready"; "WithPreviousState"]%string p sq
            (InitialWithConfig c) evs p' o → evs = [] ∧ is_ok o = false).
  { intros p0 sq c evs0 p' o0 Hr. inversion Hr as [| |? ? ? ? ? ? ? Hadm|? ? ? ? ? ? ? ? ? Hadm]; subst; [done|..].
    all: unfold admitted in Hadm; cbn [label] in Hadm; set_solver. }
  assert (Hstart : SetupStateMachine.start state = Initial ∧ state = None ∨
    ∃ old, state = Some old ∧ SetupStateMachine.start state = WithPreviousState old) by (destruct state; eauto).
  inversion Hrun as [? ? gs Heq|? ? ? ? Ho|? ? ? ? ? ? ? Hadm Hst Ho' Ho|? ? ? ev1 ? s1 ? ? ? Hadm Hst Hr]; subst.
  - destruct Hstart as [[Hs _]|(old & _ & Hs)]; congruence.
  - split_and!; [cbn; lia|done..|]. by intros gs ->.
  - pose proof Hst as (Hw & Hp & _)%setup_step_trace.
    destruct Hstart as [[Hs ->]|(old & -> & Hs)]; rewrite Hs in *; cbn [is_fresh_start] in *.
    all: inversion Hst; subst; try done; split_and!; [cbn; lia|exact Hw|by apply Hp|by intros gs ->].
  - pose proof Hst as (Hw & Hp & _)%setup_step_trace.
    destruct Hstart as [[Hs ->]|(old & -> & Hs)]; rewrite Hs in *; cbn [is_fresh_start] in *.
    all: inversion Hst; subst; try done.
    all: try (destruct (Hno _ _ _ _ _ _ Hr) as [-> Hf]; split_and!; [cbn; lia|done..|]; by intros gs ->).
    pose proof Hr as Hr'. inversion Hr' as [| | |? ? ? ? ? ? ? ? ? Hadm']; subst; try done.
    + split_and!; [cbn; lia|done..|]. intros gs [= <-]. exists old. by split_and!.
    + split_and!; [cbn; lia|done..|]. by intros gs ->.
Qed.

(** A read-only sync behaves exactly like a full sync, on every server: the guard on
    [allowed_states] never looks at ["FreshStartRequired"], so a read-only machine also wipes
    the server and uploads fresh records. *)
Theorem readonly_sync_is_full_sync state p (w : W) :
  SetupStateMachine.run_to_ready root_key state (SetupStateMachine.for_readonly_sync p, w) =
  (λ '(o, (m, w)), (o, (with_allowed (allowed_states (SetupStateMachine.for_readonly_sync p)) m, w)))
    <$> SetupStateMachine.run_to_ready root_key state (SetupStateMachine.for_full_sync p, w).
Proof.
  unfold SetupStateMachine.run_to_ready. rewrite <-run_loop_allowed; [done|].
  intros l Hl. cbn. set_solver.
Qed.
End theorems.

(** ** Witnesses: a server that stores what it is sent *)
Module ToyState.
Import ToyCrypto ToySerde.

#[export] Instance toy_url64 : UrlSafeBase64 := String.string_of_list_ascii.

Record Server := mkServer {
  srv_global : option MetaGlobalRecord;
  srv_keys : option EncryptedBso;
  srv_rand : nat;
}.

Definition stored {A} (o : option A) : Sync15ClientResponse A :=
  match o with Some a => Success a ts_default "route" | None => NotFound "route" end.

#[export] Instance toy_client : SetupStorageClient Server := {|
  fetch_info_configuration w := (Ok (NotFound "info/configuration"), w);
  fetch_info_collections w :=
    (Ok (Success {["meta" := ts_default; "crypto" := ts_default]}%string ts_default "info/collections"), w);
  fetch_meta_global w := (Ok (stored (srv_global w)), w);
  fetch_crypto_keys w := (Ok (stored (srv_keys w)), w);
  put_meta_global _ g w := (Ok tt, mkServer (Some g) (srv_keys w) (srv_rand w));
  put_crypto_keys _ k w := (Ok tt, mkServer (srv_global w) (Some k) (srv_rand w));
  wipe_all_remote w := (Ok tt, mkServer None None (srv_rand w));
|}.
#[export] Instance toy_never : Interruptee Server := λ w, (false, w).
#[export] Instance toy_server_rand : Rand Server :=
  λ n w, (Ok (replicate n (ascii_of_nat (srv_rand w))), mkServer (srv_global w) (srv_keys w) (S (srv_rand w))).

Definition empty_server : Server := mkServer None None 0.
Definition root : KeyBundle := mkKeyBundle (replicate 32 Ascii.one) (replicate 32 Ascii.zero).
Local Existing Instances logged_client quiet_interruptee quiet_rand.

Definition readonly : SetupStateMachine := SetupStateMachine.for_readonly_sync (V2 (Some ["tabs"%string])).
Abbreviation first_run := (SetupStateMachine.run_to_ready root None (readonly, (empty_server, []))).

(** Whether the run succeeded, and how many requests, wipes and uploads it made. *)
Definition summary (r : option (res ErrorKind GlobalState * (SetupStateMachine * (Server * list Event)))) :=
  (λ '(o, (_, (_, log))), (is_ok o, length log, wipes log, puts log)) <$> r.

(** The first run of a read-only client on an empty server: it wipes the server. *)
Lemma first_run_summary : summary first_run = Some (true, 9, 1, 2)%nat.
Proof. vm_compute. reflexivity. Qed.

Lemma setup_wipes_only_when_needed_witness :
  ∃ o m w log, first_run = Some (o, (m, (w, log))) ∧ is_ok o = true ∧ wipes log = 1%nat ∧ wipes_justified false log.
Proof.
  pose proof first_run_summary as Hsum.
  destruct first_run as [[o [m [w log]]]|] eqn:Hrun; [|discriminate Hsum].
  injection Hsum as Ho _ Hw _. exists o, m, w, log.
  split; [reflexivity|]. split; [exact Ho|]. split; [exact Hw|].
  apply (setup_wipes_only_when_needed root None _ _ _ _ _ _ Hrun).
Defined.

Lemma setup_ready_is_current_witness :
  ∃ gs m w log, first_run = Some (Ok gs, (m, (w, log))) ∧ length log = 9%nat ∧ from_server root (pgs m) log gs.
Proof.
  pose proof first_run_summary as Hsum.
  destruct first_run as [[[gs|e|e] [m [w log]]]|] eqn:Hrun; try discriminate Hsum.
  injection Hsum as Hlen _ _. exists gs, m, w, log. split; [reflexivity|]. split; [exact Hlen|].
  destruct (setup_ready_is_current root None _ _ _ _ _ _ Hrun) as (r & evs & _ & _ & Hs). exact Hs.
Defined.

Definition cached : GlobalState :=
  mkGlobalState InfoConfiguration_default ∅ (mkMetaGlobalRecord "id" 5 ∅ []) ts_default
    (mkCollectionKeys ts_default root ∅).
Abbreviation fast_run :=
  (SetupStateMachine.run_to_ready root (Some cached)
    (SetupStateMachine.for_fast_sync PersistedGlobalState_default, (empty_server, []))).

Lemma fast_run_summary : summary fast_run = Some (true, 1, 0, 0)%nat.
Proof. vm_compute. reflexivity. Qed.

Lemma fast_sync_only_revalidates_witness :
  ∃ gs m w log, fast_run = Some (Ok gs, (m, (w, log))) ∧ revalidated cached gs.
Proof.
  pose proof fast_run_summary as Hsum.
  destruct fast_run as [[[gs|e|e] [m [w log]]]|] eqn:Hrun; try discriminate Hsum.
  exists gs, m, w, log. split; [reflexivity|].
  destruct (fast_sync_only_revalidates root (Some cached) _ _ _ _ _ _ Hrun) as (_ & _ & _ & Hok).
  destruct (Hok gs eq_refl) as (old & [= <-] & Hre). exact Hre.
Defined.
End ToyState.
