(* ===== verification/CollState.v ===== *)
(** * The per-collection state machine

    Model of [components/sync15/src/coll_state.rs], of the data of
    [components/sync15/src/changeset.rs], and of the trait [Store] of
    [components/sync15/src/sync.rs] as a class over the state [W] of the outside world (the
    store's database included).  The theorem replaces the looping machine by what it
    computes. *)

From S2P Require Import Prelude Sync15Types KeyBundle Bso State.
Local Open Scope Z_scope.
Local Open Scope list_scope.

(** ** changeset.rs: data *)
Record RecordChangeset (P : Type) := mkRecordChangeset {
  rc_changes : list P;
  rc_timestamp : ServerTimestamp;
  rc_collection : string;
}.
Arguments mkRecordChangeset {P}.
Arguments rc_changes {P}.
Arguments rc_timestamp {P}.
Arguments rc_collection {P}.

Abbreviation IncomingChangeset := (RecordChangeset (Payload * ServerTimestamp)).
Abbreviation OutgoingChangeset := (RecordChangeset Payload).

Definition RecordChangeset_new {P} (collection : string) (timestamp : ServerTimestamp)
    : RecordChangeset P :=
  mkRecordChangeset [] timestamp collection.

(** ** coll_state.rs: data *)
Record CollSyncIds := mkCollSyncIds { cs_global : string; cs_coll : string }.
Inductive StoreSyncAssociation := Disconnected | Connected (ids : CollSyncIds).

Global Instance CollSyncIds_eq_dec : EqDecision CollSyncIds.
Proof. solve_decision. Defined.
Global Instance StoreSyncAssociation_eq_dec : EqDecision StoreSyncAssociation.
Proof. solve_decision. Defined.

Record CollState := mkCollState {
  cl_config : InfoConfiguration;
  cl_last_modified : ServerTimestamp;
  cl_key : KeyBundle;
}.

Inductive LocalCollState :=
| LUnknown (assoc : StoreSyncAssociation)
| LDeclined
| LNoSuchCollection
| LSyncIdChanged (ids : CollSyncIds)
| LReady (key : KeyBundle).

(** ** sync.rs: the trait [Store]

    The errors of a store are [failure::Error]s; the [?] of the callers wraps them as
    [ErrorKind::StoreError].  The telemetry counters that [apply_incoming] fills are left
    out. *)
Class Store `{!SerdeJson} (W : Type) := {
  collection_name : string;
  apply_incoming : IncomingChangeset → ST W string OutgoingChangeset;
  sync_finished : ServerTimestamp → list string → ST W string unit;
  get_collection_request : ST W string CollectionRequest;
  get_sync_assoc : ST W string StoreSyncAssociation;
  reset : StoreSyncAssociation → ST W string unit;
  wipe : ST W string unit;
}.

(** The [?] operator on a store's result. *)
Definition store_call {W A} (c : ST W string A) : ST W ErrorKind A :=
  st_map_err StoreError c.

Module LocalCollStateMachine.
Section machine.
Context {W : Type} `{!SerdeJson} `{!Store W}.
Context (global_state : GlobalState).

Definition advance (from : LocalCollState) : ST W ErrorKind LocalCollState :=
  let name := collection_name in
  let meta_global := gs_global global_state in
  match from with
  | LUnknown assoc =>
      if bool_decide (name ∈ declined meta_global) then mret LDeclined
      else
        match engines meta_global !! name with
        | Some engine_meta =>
            let ids := mkCollSyncIds (mg_sync_id meta_global) (engine_sync_id engine_meta) in
            match assoc with
            | Disconnected => mret (LSyncIdChanged ids)
            | Connected ids' =>
                if String.eqb (cs_global ids') (mg_sync_id meta_global)
                   && String.eqb (cs_coll ids') (engine_sync_id engine_meta)
                then mret (LReady (ck_default (gs_keys global_state)))
                else mret (LSyncIdChanged ids)
            end
        | None => mret LNoSuchCollection
        end
  | LDeclined => st_lift (Panic "can't advance from declined")
  | LNoSuchCollection => st_lift (Panic "the collection is unknown")
  | LSyncIdChanged ids =>
      let assoc := Connected ids in
      _ ← store_call (reset assoc);
      mret (LUnknown assoc)
  | LReady _ => st_lift (Panic "can't advance from ready")
  end.

(** The loop; [n] is how many more times it may go around. *)
Fixpoint run_loop (n : nat) (s : LocalCollState) : ST W ErrorKind (option CollState) :=
  match s with
  | LReady key =>
      let last_modified := default ts_default (gs_collections global_state !! collection_name) in
      mret (Some (mkCollState (gs_config global_state) last_modified key))
  | LDeclined | LNoSuchCollection => mret None
  | _ =>
      match n with
      | O => mret None
      | S n => s' ← advance s; run_loop n s'
      end
  end.

Definition run_and_run_as_farst_as_you_can : ST W ErrorKind (option CollState) :=
  assoc ← store_call get_sync_assoc;
  run_loop 10 (LUnknown assoc).

Definition get_state : ST W ErrorKind (option CollState) := run_and_run_as_farst_as_you_can.
End machine.
End LocalCollStateMachine.

(** ** What the machine computes *)
Section spec.
Context {W : Type} `{!SerdeJson} `{!Store W}.
Context (global_state : GlobalState).

(** The sync ids the server expects of the collection, unless it is declined or unknown. *)
Definition wanted_ids (name : string) : option CollSyncIds :=
  if bool_decide (name ∈ declined (gs_global global_state)) then None
  else mkCollSyncIds (mg_sync_id (gs_global global_state)) ∘ engine_sync_id
         <$> engines (gs_global global_state) !! name.

Definition ready_state (name : string) : CollState :=
  mkCollState (gs_config global_state) (default ts_default (gs_collections global_state !! name))
    (ck_default (gs_keys global_state)).

(** Ask the store for its association; reset it if, and only if, the ids differ. *)
Definition coll_state_spec : ST W ErrorKind (option CollState) :=
  assoc ← store_call get_sync_assoc;
  match wanted_ids collection_name with
  | None => mret None
  | Some ids =>
      _ ← (if bool_decide (assoc = Connected ids) then mret tt else store_call (reset (Connected ids)));
      mret (Some (ready_state collection_name))
  end.

(** Once the association is the wanted one, the machine is ready. *)
Lemma run_loop_matching n ids (w : W) :
  wanted_ids collection_name = Some ids →
  LocalCollStateMachine.run_loop global_state (S n) (LUnknown (Connected ids)) w =
  (Ok (Some (ready_state collection_name)), w).
Proof.
  unfold wanted_ids. case_bool_decide as Hd; [done|].
  destruct (engines _ !! _) as [e|] eqn:He; [|done]. intros [= <-].
  cbn [LocalCollStateMachine.run_loop]. unfold mbind, ST_bind, LocalCollStateMachine.advance.
  rewrite bool_decide_false, He by done. cbn. rewrite !String.eqb_refl. cbn. by destruct n.
Qed.

Lemma run_loop_spec n assoc (w : W) :
  LocalCollStateMachine.run_loop global_state (3 + n) (LUnknown assoc) w =
  match wanted_ids collection_name with
  | None => (Ok None, w)
  | Some ids =>
      (_ ← (if bool_decide (assoc = Connected ids) then mret tt else store_call (reset (Connected ids)));
       mret (Some (ready_state collection_name))) w
  end.
Proof.
  destruct (wanted_ids collection_name) as [ids|] eqn:Hw.
  - case_bool_decide as Ha; [subst; by apply run_loop_matching|].
    pose proof Hw as Hw'. unfold wanted_ids in Hw. case_bool_decide as Hd; [done|].
    destruct (engines _ !! _) as [e|] eqn:He; [|done]. injection Hw as Hids. cbn in Hids.
    assert (Hadv : LocalCollStateMachine.advance global_state (LUnknown assoc) w = (Ok (LSyncIdChanged ids), w)).
    { unfold LocalCollStateMachine.advance. rewrite bool_decide_false, He, Hids by done.
      destruct assoc as [|[g c]]; [done|]. cbn.
      destruct (String.eqb_spec g (mg_sync_id (gs_global global_state))); [|done].
      destruct (String.eqb_spec c (engine_sync_id e)); [|done]. cbn. congruence. }
    change (3 + n)%nat with (S (S (S n))). cbn [LocalCollStateMachine.run_loop].
    unfold mbind, ST_bind. rewrite Hadv. cbn [LocalCollStateMachine.advance].
    unfold mbind, ST_bind. destruct (store_call (reset (Connected ids)) w) as [[[]|err|m] w']; [|done..].
    unfold mret, ST_ret. by apply (run_loop_matching n).
  - unfold wanted_ids in Hw.
    change (3 + n)%nat with (S (S (S n))). cbn [LocalCollStateMachine.run_loop].
    unfold mbind, ST_bind, LocalCollStateMachine.advance. case_bool_decide; [done|].
    by destruct (engines _ !! _).
Qed.

Lemma get_state_spec (w : W) :
  LocalCollStateMachine.get_state global_state w = coll_state_spec w.
Proof.
  unfold LocalCollStateMachine.get_state, LocalCollStateMachine.run_and_run_as_farst_as_you_can,
    coll_state_spec, mbind, ST_bind.
  destruct (store_call get_sync_assoc w) as [[assoc|e|m] w1]; [|done..].
  rewrite (run_loop_spec 7). by destruct (wanted_ids collection_name).
Qed.

(** The collection state machine is equivalent to its direct specification, on every
    store: it never reaches an [unreachable!] nor its limit of ten rounds; a collection is
    ready exactly when it is in [meta/global] and not declined; and the store is reset, to
    the server's sync ids, if and only if its own ids differ. *)
Theorem coll_state_machine_spec (w : W) :
  LocalCollStateMachine.get_state global_state w = coll_state_spec w.
Proof. apply get_state_spec. Qed.
End spec.
