(* ===== verification/Changeset.v ===== *)
(** * Fetching and uploading the changes of a collection

    Model of [components/sync15/src/changeset.rs]: encrypting the outgoing changes, fetching
    and decrypting the incoming ones, and [CollectionUpdate] with its upload through the
    queue of [PostQueue.v]. *)

From S2P Require Import Prelude Sync15Types KeyBundle Bso PostQueue State CollState.
Local Open Scope Z_scope.
Local Open Scope list_scope.

(** The operations of [Sync15StorageClient] that changesets use; [post_to coll] is the
    poster of [new_post_queue] for the collection. *)
Class StorageClient (W : Type) := {
  get_encrypted_records : CollectionRequest → ST W ErrorKind (Sync15ClientResponse (list EncryptedBso));
  post_to : string → BatchPoster W;
}.

Section outgoing.
Context {W : Type} `{!Rand W} `{!SerdeJson, !Crypto, !Serde Payload}.

(** The iterator of encrypted records, collected: the first error wins. *)
Fixpoint encrypt_changes (collection : string) (key : KeyBundle) (changes : list Payload)
    : ST W ErrorKind (list EncryptedBso) :=
  match changes with
  | [] => mret []
  | change :: changes =>
      r ← encrypt (Payload.into_bso collection change) key;
      rs ← encrypt_changes collection key changes;
      mret (r :: rs)
  end.

Definition OutgoingChangeset_encrypt (self : OutgoingChangeset) (key : KeyBundle)
    : ST W ErrorKind (list EncryptedBso) :=
  encrypt_changes (rc_collection self) key (rc_changes self).
End outgoing.

Section incoming.
Context {W : Type} `{!StorageClient W} `{!SerdeJson, !Crypto, !Serde Payload}.

Fixpoint decrypt_records (key : KeyBundle) (records : list EncryptedBso)
    : res ErrorKind (list (Payload * ServerTimestamp)) :=
  match records with
  | [] => Ok []
  | record :: records =>
      decrypted ← decrypt record key;
      rest ← decrypt_records key records;
      Ok (BsoRecord.into_timestamped_payload decrypted :: rest)
  end.

(** [fetch] updates the timestamp of the collection state also when decryption fails. *)
Definition IncomingChangeset_fetch (collection : string) (collection_request : CollectionRequest)
    : ST (CollState * W) ErrorKind IncomingChangeset :=
  λ '(state, w),
    let '(r, w) := get_encrypted_records collection_request w in
    match r with
    | Err e => (Err e, (state, w))
    | Panic m => (Panic m, (state, w))
    | Ok (Success records timestamp _) =>
        let state := mkCollState (cl_config state) timestamp (cl_key state) in
        (changes ← decrypt_records (cl_key state) records;
         Ok (mkRecordChangeset changes timestamp collection),
         (state, w))
    | Ok other => (Err (create_storage_error other), (state, w))
    end.
End incoming.

(** The client of the source's struct is a parameter. *)
Record CollectionUpdate := mkCollectionUpdate {
  cu_state : CollState;
  cu_collection : string;
  cu_xius : ServerTimestamp;
  cu_to_update : list EncryptedBso;
  cu_fully_atomic : bool;
}.

Module CollectionUpdate.
Definition new := mkCollectionUpdate.

Section update.
Context {W : Type} `{!Rand W}.
Context `{!SerdeJson, !Crypto, !Serde Payload, !Serde EncryptedPayload, !RecordWriter}.
Context (debug : bool).

Definition new_from_changeset (state : CollState) (changeset : OutgoingChangeset) (fully_atomic : bool)
    : ST W ErrorKind CollectionUpdate :=
  let collection := rc_collection changeset in
  let xius := rc_timestamp changeset in
  if ts_ltb xius (cl_last_modified state) then st_err BatchInterrupted
  else
    to_update ← OutgoingChangeset_encrypt changeset (cl_key state);
    mret (new state collection xius to_update fully_atomic).

Context `{!StorageClient W}.

Fixpoint upload_loop {BP : BatchPoster W} (fully_atomic : bool) (records : list EncryptedBso)
    : ST (PostQueue NormalResponseHandler * W) ErrorKind unit :=
  match records with
  | [] => mret tt
  | record :: records =>
      enqueued ← PostQueue.enqueue debug record;
      if negb enqueued && fully_atomic then st_err RecordTooLargeError
      else upload_loop fully_atomic records
  end.

(** [upload] with the poster of the collection. *)
Definition upload_with {BP : BatchPoster W} (self : CollectionUpdate) : ST W ErrorKind UploadInfo :=
  λ w,
    let failed := [] in
    let q := PostQueue.new (cl_config (cu_state self)) (cu_xius self)
               (NormalResponseHandler.new (negb (cu_fully_atomic self))) in
    let '(r, (q, w)) :=
      (_ ← upload_loop (cu_fully_atomic self) (cu_to_update self);
       PostQueue.flush true) (q, w) in
    match r with
    | Err e => (Err e, w)
    | Panic m => (Panic m, w)
    | Ok _ =>
        let '(info, _) := PostQueue.completed_upload_info q in
        let info := mkUploadInfo (ui_successful_ids info) (ui_failed_ids info ++ failed)
                      (ui_modified_timestamp info) in
        if cu_fully_atomic self && negb (Nat.eqb (length (ui_failed_ids info)) 0)
        then (Panic "Bug: Should have failed by now if we aren't allowing dropped records", w)
        else (Ok info, w)
    end.

Definition upload (self : CollectionUpdate) : ST W ErrorKind UploadInfo :=
  upload_with (BP:=post_to (cu_collection self)) self.

(** [OutgoingChangeset::post]. *)
Definition post (changeset : OutgoingChangeset) (state : CollState) (fully_atomic : bool)
    : ST W ErrorKind UploadInfo :=
  update ← new_from_changeset state changeset fully_atomic;
  upload update.
End update.
End CollectionUpdate.

(** ** The loop of [upload] and the queue *)
Section upload_lemmas.
Context {W : Type} {P : BatchPoster W}.
Context `{!SerdeJson, !Serde EncryptedPayload, !RecordWriter}.
Context (debug : bool).

(** A loop that ends well enqueued all records; in an atomic upload none was refused. *)
Lemma upload_loop_ok atomic rs s s' :
  CollectionUpdate.upload_loop debug (BP:=P) atomic rs s = (Ok tt, s') →
  ∃ bs, enqueue_all debug rs s = (Ok bs, s') ∧ (atomic = true → Forall (eq true) bs).
Proof.
  revert s. induction rs as [|r rs IH]; intros s; cbn [CollectionUpdate.upload_loop enqueue_all].
  { intros [= <-]. by exists []. }
  unfold mbind, ST_bind. destruct (PostQueue.enqueue debug r s) as [[b|e|m] s1]; [|done..].
  destruct (negb b && atomic) eqn:Hb; [done|]. intros (bs & -> & Hall)%IH.
  exists (b :: bs). split; [done|]. intros ->. rewrite andb_true_r in Hb.
  constructor; [by destruct b|by apply Hall].
Qed.

(** A loop that stops early enqueued a prefix of the records. *)
Lemma upload_loop_not_ok atomic rs s o s' :
  CollectionUpdate.upload_loop debug (BP:=P) atomic rs s = (o, s') → o ≠ Ok tt →
  ∃ n o', enqueue_all debug (take n rs) s = (o', s') ∧ (is_panic o' = is_panic o) ∧
    (is_ok o' = true → o = Err RecordTooLargeError ∧ atomic = true).
Proof.
  revert s. induction rs as [|r rs IH]; intros s; cbn [CollectionUpdate.upload_loop].
  { intros [= <- <-]. done. }
  unfold mbind, ST_bind. destruct (PostQueue.enqueue debug r s) as [[b|e|m] s1] eqn:Hen.
  - destruct (negb b && atomic) eqn:Hb.
    + intros [= <- <-] _. exists 1%nat, (Ok [b]). cbn [take enqueue_all]. unfold mbind, ST_bind.
      rewrite take_0, Hen. apply andb_true_iff in Hb as [_ ?]. by split_and!.
    + intros Hl Ho. destruct (IH _ Hl Ho) as (n & o' & Heq & Hp & Hok).
      exists (S n). cbn [take enqueue_all]. unfold mbind, ST_bind. rewrite Hen, Heq.
      destruct o' as [bs|e|m]; eexists; by split_and!.
  - intros [= <- <-] _. exists 1%nat, (Err e). cbn [take enqueue_all]. unfold mbind, ST_bind. by rewrite Hen.
  - intros [= <- <-] _. exists 1%nat, (Panic m). cbn [take enqueue_all]. unfold mbind, ST_bind. by rewrite Hen.
Qed.
End upload_lemmas.

(** Uploads with posters that reply alike run alike. *)
Section upload_simulation.
Context {W1 W2 : Type} (Rel : W1 → W2 → Prop) {P1 : BatchPoster W1} {P2 : BatchPoster W2}.
Context `{!SerdeJson, !Serde EncryptedPayload, !RecordWriter}.
Context (debug : bool).
Hypothesis posters_sim : ∀ body xius b c w1 w2, Rel w1 w2 →
  (P1 body xius b c w1).1 = (P2 body xius b c w2).1 ∧ Rel (P1 body xius b c w1).2 (P2 body xius b c w2).2.

Lemma upload_loop_sims atomic l :
  sims Rel (H:=NormalResponseHandler) (CollectionUpdate.upload_loop debug (BP:=P1) atomic l)
    (CollectionUpdate.upload_loop debug (BP:=P2) atomic l).
Proof.
  induction l as [|r l IH]; cbn [CollectionUpdate.upload_loop]; [apply sims_ret|].
  apply sims_bind; [by apply sims_enqueue|intros b]. destruct (negb b && atomic); [by intros q w1 w2 HR|done].
Qed.

Lemma upload_with_sims u w1 w2 :
  Rel w1 w2 →
  (CollectionUpdate.upload_with debug (BP:=P1) u w1).1 = (CollectionUpdate.upload_with debug (BP:=P2) u w2).1 ∧
  Rel (CollectionUpdate.upload_with debug (BP:=P1) u w1).2 (CollectionUpdate.upload_with debug (BP:=P2) u w2).2.
Proof.
  intros HR. unfold CollectionUpdate.upload_with. set (q0 := PostQueue.new _ _ _).
  destruct (sims_bind Rel _ _ _ _ (upload_loop_sims (cu_fully_atomic u) (cu_to_update u))
    (λ _, sims_flush Rel posters_sim true) q0 w1 w2 HR) as (Hr & Hq & HR').
  destruct ((CollectionUpdate.upload_loop debug (BP:=P1) _ _ ≫= _) (q0, w1)) as [r1 [q1 w1']].
  destruct ((CollectionUpdate.upload_loop debug (BP:=P2) _ _ ≫= _) (q0, w2)) as [r2 [q2 w2']].
  cbn in *. subst. destruct r2 as [[]|e|m]; [|done..].
  destruct (PostQueue.completed_upload_info q2) as [info q3]. by destruct (_ && _).
Qed.
End upload_simulation.

Section upload_theorems.
Context {W : Type} {P : BatchPoster W}.
Context `{!SerdeJson, !Serde EncryptedPayload, !RecordWriter}.
Context (debug : bool) (u : CollectionUpdate).
Local Abbreviation cfg := (cl_config (cu_state u)).
Local Abbreviation rs := (cu_to_update u).
Local Abbreviation q0 := (PostQueue.new cfg (cu_xius u) (NormalResponseHandler.new (negb (cu_fully_atomic u)))).

Lemma payload_sum_take n l : payload_sum (take n l) ≤ payload_sum l.
Proof.
  rewrite <-(take_drop n l) at 2. rewrite payload_sum_app. pose proof (payload_sum_nonneg (drop n l)). lia.
Qed.

Lemma sane_records_take n l : sane_records debug l → sane_records debug (take n l).
Proof.
  intros [Hs Hd]. split; [pose proof (payload_sum_take n l); lia|].
  intros r Hr. apply Hd. by eapply elem_of_take in Hr as (? & ? & _); eapply list_elem_of_lookup_2.
Qed.

(** The queue part of [upload]: its outcome and the requests it made. *)
Lemma upload_queue_spec w r q' w' log' :
  poster_total P → cfg_ok cfg → sane_records debug rs →
  (_ ← CollectionUpdate.upload_loop debug (BP:=logged P) (cu_fully_atomic u) rs; PostQueue.flush (BP:=logged P) true)
    (q0, (w, [])) = (r, (q', (w', log'))) →
  (∀ m, r ≠ Panic m) ∧ (∃ gs, log_ok cfg log' gs) ∧
  (r = Ok tt → ∃ bs, send_all (BP:=logged P) debug rs (q0, (w, [])) = (Ok bs, (q', (w', log'))) ∧
     (cu_fully_atomic u = true → Forall (eq true) bs)).
Proof.
  intros HP Hcfg Hsane. unfold mbind, ST_bind.
  destruct (CollectionUpdate.upload_loop _ _ _ _) as [o [q1 [w1 log1]]] eqn:Hl.
  assert (Hdec : o = Ok tt ∨ o ≠ Ok tt) by (destruct o as [[]| |]; by auto).
  destruct Hdec as [->|Ho].
  - destruct (upload_loop_ok debug _ _ _ _ Hl) as (bs & Heq & Hall). intros Hfl.
    destruct (send_all_spec cfg debug rs (cu_xius u) (NormalResponseHandler.new (negb (cu_fully_atomic u))) w
      HP normal_handler_total Hcfg (proj1 Hsane) (proj2 Hsane)) as (o2 & q2 & w2 & log2 & Heq2 & Hres).
    assert (Hsend : send_all (BP:=logged P) debug rs (q0, (w, [])) =
      ((λ _, bs) <$> r, (q', (w', log')))).
    { unfold send_all, mbind, ST_bind. rewrite Heq, Hfl. by destruct r. }
    rewrite Heq2 in Hsend. injection Hsend as -> -> -> ->.
    destruct Hres as [[[e He] Hgs]|[He (gs & Hgs & _)]]; destruct r as [[]|e'|m]; simplify_eq/=.
    + split_and!; [done|done|by intros [=]].
    + split_and!; [done|by eauto|]. intros _. eexists. by split.
  - destruct (upload_loop_not_ok debug _ _ _ _ _ Hl Ho) as (n & o' & Heq & Hpan & _).
    destruct (sane_records_take n rs Hsane) as [Hs Hd].
    destruct (enqueue_all_ready cfg debug (take n rs) q0 [] [] [] [] w) as
      (o2 & q2 & w2 & log2 & Heq2 & Hlog2 & Hres); try done; [apply normal_handler_total|by split; [apply new_live|by split_and!; [|split|]]|].
    rewrite Heq in Heq2. injection Heq2 as -> -> -> ->.
    assert (Hnp : ∀ m, o ≠ Panic m).
    { intros m ->. destruct Hres as [[e ->]|[-> _]]; done. }
    destruct o as [[]|e|m]; [done| |by destruct (Hnp m)].
    intros [= <- <- <- <-]. by split_and!.
Qed.

Lemma upload_with_spec w o w' log' :
  poster_total P → cfg_ok cfg → sane_records debug rs →
  CollectionUpdate.upload_with debug (BP:=logged P) u (w, []) = (o, (w', log')) →
  (∀ m, o ≠ Panic m) ∧
  (∃ gs, Forall2 (post_ok cfg) log' gs ∧ batches_ok cfg [] (zip log' gs)) ∧
  ∀ info, o = Ok info →
    (∃ gs, Forall2 (post_ok cfg) log' gs ∧
       List.concat gs = if cu_fully_atomic u then rs else sendable cfg rs) ∧
    ui_successful_ids info = log' ≫= reply_success ∧ ui_failed_ids info = log' ≫= reply_failed ∧
    (∃ b, conversation (cu_xius u) log' (ui_modified_timestamp info) b) ∧
    (cu_fully_atomic u = true → ui_failed_ids info = []).
Proof.
  intros HP Hcfg Hsane. unfold CollectionUpdate.upload_with.
  destruct ((_ ← CollectionUpdate.upload_loop debug (BP:=logged P) (cu_fully_atomic u) rs;
             PostQueue.flush (BP:=logged P) true) (q0, (w, []))) as [r [q' [w1 log1]]] eqn:Hq.
  destruct (upload_queue_spec _ _ _ _ _ HP Hcfg Hsane Hq) as (Hnp & Hgs & Hok).
  destruct r as [[]|e|m]; [|intros [= <- <- <-]; by split_and!|by destruct (Hnp m)].
  destruct (Hok eq_refl) as (bs & Hsend & Hall).
  pose proof (send_all_conversation _ _ _ _ _ _ _ _ _ _ Hsend) as Hconv. cbn [is_ok] in Hconv.
  pose proof (send_all_handled _ _ _ _ _ _ _ _ _ _ Hsend) as (_ & Hs & Hf & Hpend & Hno).
  destruct (send_all_spec cfg debug rs (cu_xius u) (NormalResponseHandler.new (negb (cu_fully_atomic u))) w
    HP normal_handler_total Hcfg (proj1 Hsane) (proj2 Hsane)) as (o2 & q2 & w2 & log2 & Heq2 & Hres).
  rewrite Hsend in Heq2. injection Heq2 as <- <- <- <-.
  destruct Hres as [[[e [=]] _]|[[= ->] (gs & [Hposts _] & Hcat & _ & Hin)]].
  destruct (Hpend Hin) as [Hps Hpf]. rewrite Hps, app_nil_r in Hs. rewrite Hpf, app_nil_r in Hf.
  cbn [PostQueue.completed_upload_info ui_failed_ids ui_successful_ids]. rewrite Hps, Hpf, !app_nil_r, Hs, Hf.
  assert (Hfail : cu_fully_atomic u = true → log1 ≫= reply_failed = []).
  { intros Ha. rewrite <-Hf. rewrite Ha in Hno. by destruct (Hno eq_refl). }
  assert (Hsendable : cu_fully_atomic u = true → sendable cfg rs = rs).
  { intros Ha. specialize (Hall Ha). clear -Hall. induction rs as [|r l IH]; [done|].
    rewrite fmap_cons in Hall. inversion Hall as [|? ? Hr Hl]; subst. rewrite sendable_cons.
    destruct (too_large _ r); [done|]. by rewrite IH. }
  destruct (cu_fully_atomic u).
  - rewrite Hfail by done. cbn [andb length Nat.eqb negb]. intros [= <- <- <-].
    split; [done|]. split; [done|]. intros info [= <-]. split_and!; [|done|by rewrite Hfail|by eexists|done].
    exists gs. split; [done|]. by rewrite Hcat, Hsendable.
  - cbn [andb]. intros [= <- <- <-]. split; [done|]. split; [done|].
    intros info [= <-]. split_and!; try done; [by exists gs|by eexists].
Qed.

(** Recording the requests does not change the upload. *)
Lemma upload_with_erases w :
  ∃ log', CollectionUpdate.upload_with debug (BP:=logged P) u (w, []) =
    ((CollectionUpdate.upload_with debug u w).1, ((CollectionUpdate.upload_with debug u w).2, log')).
Proof.
  assert (Hsim : ∀ body xius b c (wl : W * list Post) w, wl.1 = w →
    (logged P body xius b c wl).1 = (P body xius b c w).1 ∧ (logged P body xius b c wl).2.1 = (P body xius b c w).2).
  { intros body xius b c [w1 log] w2 <-. unfold logged. cbn. by destruct (P body xius b c w1). }
  destruct (upload_with_sims _ debug Hsim u (w, []) w eq_refl) as [Hr Hw].
  destruct (CollectionUpdate.upload_with _ _ (w, [])) as [o [w1 log1]]. exists log1. cbn in *. by subst.
Qed.

Lemma upload_with_no_panic w m :
  poster_total P → cfg_ok cfg → sane_records debug rs → (CollectionUpdate.upload_with debug u w).1 ≠ Panic m.
Proof.
  intros HP Hcfg Hsane. destruct (upload_with_erases w) as [log' Heq].
  by eapply upload_with_spec in Heq as (Hnp & _).
Qed.

(** Uploading the changes of a collection never panics (in particular the final check
    that an atomic upload has no failed record holds), keeps every request and batch within
    the server's limits, and if it succeeds: an atomic upload has sent every record, once and
    in order, and none failed; any other has sent all records that are not too large; and the
    ids it reports are those the server acknowledged or rejected. *)
Theorem collection_upload_correct w o w' log' :
  poster_total P → cfg_ok cfg → sane_records debug rs →
  CollectionUpdate.upload_with debug (BP:=logged P) u (w, []) = (o, (w', log')) →
  (∀ m, o ≠ Panic m) ∧
  (∃ gs, Forall2 (post_ok cfg) log' gs ∧ batches_ok cfg [] (zip log' gs)) ∧
  ∀ info, o = Ok info →
    (∃ gs, Forall2 (post_ok cfg) log' gs ∧
       List.concat gs = if cu_fully_atomic u then rs else sendable cfg rs) ∧
    ui_successful_ids info = log' ≫= reply_success ∧ ui_failed_ids info = log' ≫= reply_failed ∧
    (∃ b, conversation (cu_xius u) log' (ui_modified_timestamp info) b) ∧
    (cu_fully_atomic u = true → ui_failed_ids info = []).
Proof. apply upload_with_spec. Qed.
End upload_theorems.

(** ** What one client uploads, another one fetches *)
Section round_trip.
Context `{!SerdeJson, !Crypto, !CryptoLaws, SP : !Serde Payload, !PayloadSerdeLaws SP}.
Context {W : Type} `{!Rand W}.

(** A payload whose data does not shadow the struct's fields and whose automatic fields
    are integers in range. *)
Definition payload_canonical (p : Payload) : Prop :=
  payload_clean p ∧ auto_canonical from_value_i32 "sortindex" p ∧ auto_canonical from_value_u32 "ttl" p.

(** The server sets the modification time of a record. *)
Definition stamped {T} (t : ServerTimestamp) (r : BsoRecord T) : BsoRecord T :=
  mkBsoRecord (bso_id r) (bso_collection r) t (bso_sortindex r) (bso_ttl r) (bso_payload r).

Lemma decrypt_stamped t r key bso :
  decrypt r key = Ok bso → decrypt (stamped t r) key = Ok (stamped t bso).
Proof.
  unfold decrypt. cbn [bso_payload stamped bso_sortindex bso_ttl].
  destruct (EncryptedPayload.decrypt_and_parse_payload _ _); [|done..].
  rewrite !res_bind_ok. by intros [= <-].
Qed.

(** C36: The changes a client encrypts and uploads are what another client with the same
    collection key gets when it fetches and decrypts them, in order and each with the
    modification time the server gave it. *)
Theorem changeset_round_trip (out : OutgoingChangeset) key (w : W) rs w' (stamp : EncryptedBso → ServerTimestamp) :
  Forall payload_canonical (rc_changes out) →
  OutgoingChangeset_encrypt out key w = (Ok rs, w') →
  decrypt_records key ((λ r, stamped (stamp r) r) <$> rs) = Ok (zip (rc_changes out) (stamp <$> rs)).
Proof.
  unfold OutgoingChangeset_encrypt. intros Hcan. revert w rs.
  induction Hcan as [|p ps (Hclean & Hsort & Httl) _ IH]; intros w rs; cbn [encrypt_changes].
  { by intros [= <- _]. }
  unfold mbind, ST_bind. destruct (encrypt _ _ w) as [[r|e|m] w1] eqn:Henc; [|done..].
  destruct (encrypt_changes _ key ps w1) as [[rs1|e|m] w2] eqn:Hrest; [|done..]. intros [= <- <-].
  destruct (encrypt_decrypt_payload p _ key w r w1 Hclean Hsort Httl Henc) as (bso & Hdec & Hp & _).
  rewrite !fmap_cons. cbn [decrypt_records zip_with].
  rewrite (decrypt_stamped _ _ _ _ Hdec), res_bind_ok, (IH _ _ Hrest), res_bind_ok.
  unfold BsoRecord.into_timestamped_payload. cbn. by rewrite Hp.
Qed.
End round_trip.

(** ** Records that are dropped *)
Section dropped.
Context {W : Type} {P : BatchPoster W}.
Context `{!SerdeJson, !Serde EncryptedPayload, !RecordWriter}.
Context (debug : bool) (u : CollectionUpdate).

Lemma enqueue_too_large (q : PostQueue NormalResponseHandler) acc pending log gs r w cfg :
  poster_total P → cfg_ok cfg → ready cfg q acc pending log gs →
  payload_sum (acc ++ pending) + payload_len r < 2 ^ 64 →
  measured debug r → too_large cfg r = true →
  PostQueue.enqueue (BP:=logged P) debug r (q, (w, log)) = (Ok false, (q, (w, log))).
Proof.
  intros HP Hcfg Hr Hs Hd Htl.
  destruct (enqueue_ready cfg debug q acc pending log gs r w HP normal_handler_total Hcfg Hr Hs Hd)
    as (o & q' & w' & log' & Heq & [[_ Hf]|[(-> & -> & -> & ->) _]]); [congruence|done].
Qed.

(** A record that is too large to be sent is dropped without a trace by an upload that
    is not atomic: uploading only such records succeeds, makes no request, and reports no
    failed id. *)
Theorem dropped_records_are_not_reported w :
  poster_total P → cfg_ok (cl_config (cu_state u)) → sane_records debug (cu_to_update u) →
  cu_fully_atomic u = false →
  Forall (λ r, too_large (cl_config (cu_state u)) r = true) (cu_to_update u) →
  CollectionUpdate.upload_with debug (BP:=logged P) u (w, []) =
  (Ok (mkUploadInfo [] [] (cu_xius u)), (w, [])).
Proof.
  intros HP Hcfg [Hsum Hdbg] Ha Hall. unfold CollectionUpdate.upload_with. rewrite Ha.
  set (q0 := PostQueue.new _ _ _).
  assert (Hready : ready (cl_config (cu_state u)) q0 [] [] [] []).
  { split; [by apply new_live|]. by split_and!; [|split|]. }
  assert (Hloop : CollectionUpdate.upload_loop debug (BP:=logged P) false (cu_to_update u) (q0, (w, [])) =
    (Ok tt, (q0, (w, [])))).
  { induction Hall as [|r l Hr Hl IH]; [done|]. cbn [CollectionUpdate.upload_loop]. unfold mbind, ST_bind.
    change (payload_sum (r :: l)) with (payload_len r + payload_sum l) in Hsum.
    pose proof (payload_sum_nonneg l). pose proof (payload_len_nonneg r).
    rewrite (enqueue_too_large q0 [] [] [] [] r w (cl_config (cu_state u))); try done.
    - rewrite andb_false_r. apply IH; [lia|]. intros r' Hr'. apply Hdbg; set_solver.
    - cbn [app]. change (payload_sum []) with 0. lia.
    - apply Hdbg; set_solver. }
  unfold mbind, ST_bind. by rewrite Hloop.
Qed.
End dropped.

(** ** Witnesses *)
Module ToyUpload.
Import ToyCrypto ToySerde ToyPost.

Definition update (atomic : bool) (rs : list EncryptedBso) : CollectionUpdate :=
  mkCollectionUpdate (mkCollState config ts_default ToyBso.key) "bookmarks" ts_default rs atomic.
Definition small : list EncryptedBso := [rec "a" "12"; rec "b" "345"; rec "c" "6"].

Lemma small_sane : sane_records true small.
Proof.
  split; [by vm_compute|]. apply Forall_forall. repeat constructor; try (intros _); by vm_compute.
Qed.
Lemma big_sane : sane_records true [rec "big" "12345678"].
Proof.
  split; [by vm_compute|]. apply Forall_forall. repeat constructor; try (intros _); by vm_compute.
Qed.

Abbreviation run u := (CollectionUpdate.upload_with true (BP:=logged toy_server) u (0%nat, [])).

Lemma collection_upload_correct_witness :
  ∃ info, (run (update true small)).1 = Ok info ∧ ui_failed_ids info = [] ∧ ui_successful_ids info = ["ok"; "ok"]%string.
Proof.
  eexists. split; [vm_compute; reflexivity|].
  destruct (collection_upload_correct (P:=toy_server) true (update true small) 0%nat
    (run (update true small)).1 (run (update true small)).2.1 (run (update true small)).2.2) as (_ & _ & Hok);
    [apply server_total|apply config_ok|apply small_sane|vm_compute; reflexivity|].
  edestruct Hok as (_ & Hs & _ & Hf); [vm_compute; reflexivity|].
  split; [by apply Hf|]. rewrite Hs. vm_compute. reflexivity.
Defined.

Lemma dropped_records_are_not_reported_witness :
  run (update false [rec "big" "12345678"]) = (Ok (mkUploadInfo [] [] ts_default), (0%nat, [])).
Proof.
  apply (dropped_records_are_not_reported (P:=toy_server) true (update false [rec "big" "12345678"]) 0%nat);
    [apply server_total|apply config_ok|apply big_sane|reflexivity|].
  apply Forall_singleton. vm_compute. reflexivity.
Defined.

Definition outgoing : OutgoingChangeset := mkRecordChangeset [ToyBso.payload] ts_default "bookmarks".

Lemma changeset_round_trip_witness :
  ∃ rs w', OutgoingChangeset_encrypt outgoing ToyBso.key 0%nat = (Ok rs, w') ∧
    decrypt_records ToyBso.key ((λ r, stamped SERVER_EPOCH r) <$> rs) =
    Ok (zip [ToyBso.payload] ((λ _, SERVER_EPOCH) <$> rs)).
Proof.
  assert (Hok : is_ok (OutgoingChangeset_encrypt outgoing ToyBso.key 0%nat).1 = true) by (vm_compute; reflexivity).
  destruct (OutgoingChangeset_encrypt outgoing ToyBso.key 0%nat) as [[rs|e|m] w'] eqn:Henc; try discriminate Hok.
  exists rs, w'. split; [reflexivity|].
  apply (changeset_round_trip outgoing ToyBso.key 0%nat rs w' (λ _, SERVER_EPOCH)); [|exact Henc].
  apply Forall_singleton. split; [split; reflexivity|]. split; [exists 7; split; reflexivity|exact I].
Defined.
End ToyUpload.
