(* ===== verification/Viaduct.v ===== *)
(** * HTTP headers, requests and responses

    Model of [components/viaduct/src]: header names with their validation table
    ([headers/name.rs]), header lists ([headers.rs]), and the request and response types
    ([lib.rs]).  Header lists are shown to implement a map from lower-case names to trimmed
    values, free of line breaks. *)

From S2P Require Import Prelude Sync15Types KeyBundle.
From Stdlib Require Import Ascii.
Local Open Scope Z_scope.
Local Open Scope list_scope.

(** ** Bytes of a string *)
Definition byte_val (c : ascii) : Z := Z.of_nat (nat_of_ascii c).

Definition to_ascii_lowercase_char (c : ascii) : ascii :=
  if (65 <=? byte_val c) && (byte_val c <=? 90) then ascii_of_nat (nat_of_ascii c + 32) else c.

Fixpoint to_ascii_lowercase (s : string) : string :=
  match s with
  | EmptyString => EmptyString
  | String c s => String (to_ascii_lowercase_char c) (to_ascii_lowercase s)
  end.

Definition eq_ignore_ascii_case (a b : string) : bool :=
  String.eqb (to_ascii_lowercase a) (to_ascii_lowercase b).

(** [str::trim] removes characters with the Unicode property White_Space at both ends: the
    length in bytes of such a character at the start of a UTF-8 string, 0 if there is none. *)
Definition ws_len (b : bytes) : nat :=
  match byte_val <$> b with
  | [] => 0
  | c :: r =>
      if ((9 <=? c) && (c <=? 13) || (c =? 32))%Z then 1
      else match r with
      | [] => 0
      | d :: r =>
          if ((c =? 0xC2) && ((d =? 0x85) || (d =? 0xA0)))%Z then 2
          else match r with
          | [] => 0
          | e :: _ =>
              if ((c =? 0xE1) && (d =? 0x9A) && (e =? 0x80)
                 || (c =? 0xE2) && (d =? 0x80)
                    && ((0x80 <=? e) && (e <=? 0x8A) || (e =? 0xA8) || (e =? 0xA9) || (e =? 0xAF))
                 || (c =? 0xE2) && (d =? 0x81) && (e =? 0x9F)
                 || (c =? 0xE3) && (d =? 0x80) && (e =? 0x80))%Z
              then 3 else 0
          end
      end
  end%nat.

Fixpoint trim_start (fuel : nat) (b : bytes) : bytes :=
  match fuel with
  | O => b
  | S fuel => match ws_len b with O => b | n => trim_start fuel (drop n b) end
  end.

(** Whether the last one, two or three bytes are a white-space character. *)
Definition ws_len_end (b : bytes) : nat :=
  let tail n := drop (length b - n) b in
  if Nat.eqb (ws_len (tail 1%nat)) 1 then 1
  else if Nat.leb 2 (length b) && Nat.eqb (ws_len (tail 2%nat)) 2 then 2
  else if Nat.leb 3 (length b) && Nat.eqb (ws_len (tail 3%nat)) 3 then 3
  else 0.

Fixpoint trim_end (fuel : nat) (b : bytes) : bytes :=
  match fuel with
  | O => b
  | S fuel => match ws_len_end b with O => b | n => trim_end fuel (take (length b - n) b) end
  end.

Definition trim (s : string) : string :=
  let b := as_bytes s in
  String.string_of_list_ascii (trim_end (length b) (trim_start (length b) b)).

(** ** headers/name.rs *)
Definition VALID_HEADER_LUT : list Z := [
  0; 0; 0; 0; 0; 0; 0; 0; 0; 0; 0; 0; 0; 0; 0; 0; 0; 0; 0; 0; 0; 0; 0; 0; 0; 0; 0; 0; 0; 0; 0; 0;
  0; 1; 0; 1; 1; 1; 1; 1; 0; 0; 1; 1; 0; 1; 1; 0; 1; 1; 1; 1; 1; 1; 1; 1; 1; 1; 0; 0; 0; 0; 0; 0;
  0; 2; 2; 2; 2; 2; 2; 2; 2; 2; 2; 2; 2; 2; 2; 2; 2; 2; 2; 2; 2; 2; 2; 2; 2; 2; 2; 0; 0; 0; 1; 1;
  1; 1; 1; 1; 1; 1; 1; 1; 1; 1; 1; 1; 1; 1; 1; 1; 1; 1; 1; 1; 1; 1; 1; 1; 1; 1; 1; 0; 1; 0; 1; 0;
  0; 0; 0; 0; 0; 0; 0; 0; 0; 0; 0; 0; 0; 0; 0; 0; 0; 0; 0; 0; 0; 0; 0; 0; 0; 0; 0; 0; 0; 0; 0; 0;
  0; 0; 0; 0; 0; 0; 0; 0; 0; 0; 0; 0; 0; 0; 0; 0; 0; 0; 0; 0; 0; 0; 0; 0; 0; 0; 0; 0; 0; 0; 0; 0;
  0; 0; 0; 0; 0; 0; 0; 0; 0; 0; 0; 0; 0; 0; 0; 0; 0; 0; 0; 0; 0; 0; 0; 0; 0; 0; 0; 0; 0; 0; 0; 0;
  0; 0; 0; 0; 0; 0; 0; 0; 0; 0; 0; 0; 0; 0; 0; 0; 0; 0; 0; 0; 0; 0; 0; 0; 0; 0; 0; 0; 0; 0; 0; 0].

Record HeaderName := mkHeaderName { as_str : string }.
Record InvalidHeaderName := mkInvalidHeaderName { invalid_name : string }.

Global Instance HeaderName_eq_dec : EqDecision HeaderName.
Proof. solve_decision. Defined.

(** The scan of [validate_header]: [None] at an invalid byte, else whether the name needs
    lower-casing. *)
Fixpoint scan_name (need_lower_case : bool) (b : bytes) : option bool :=
  match b with
  | [] => Some need_lower_case
  | c :: b =>
      let validity := nth (nat_of_ascii c) VALID_HEADER_LUT 0 in
      if validity =? 0 then None
      else scan_name (if validity =? 2 then true else need_lower_case) b
  end.

Definition validate_header (name : string) : res InvalidHeaderName HeaderName :=
  if string_len name =? 0 then Err (mkInvalidHeaderName name)
  else match scan_name false (as_bytes name) with
       | None => Err (mkInvalidHeaderName name)
       | Some need_lower_case =>
           Ok (mkHeaderName (if need_lower_case then to_ascii_lowercase name else name))
       end.

Definition HeaderName_new (s : string) : res InvalidHeaderName HeaderName := validate_header s.

(** [From<&'static str> for HeaderName], and from [String] and [Cow]. *)
Definition HeaderName_from {E} (s : string) : res E HeaderName :=
  match HeaderName_new s with
  | Ok v => Ok v
  | Err e => Panic "Illegal locally specified header"
  | Panic m => Panic m
  end.

(** ** error.rs *)
Inductive ViaductError :=
| RequestHeaderError (name : HeaderName)
| BackendError (why : string)
| NetworkError (why : string)
| BackendNotInitialized
| UrlError (why : string).

(** ** headers.rs *)
Record Header := mkHeader { hname : HeaderName; hvalue : string }.
Abbreviation Headers := (list Header).

(** A name given by a caller: a string, or a [HeaderName]. *)
Inductive NameArg := NStr (s : string) | NName (n : HeaderName).

Definition arg_eq (name : NameArg) (h : HeaderName) : bool :=
  match name with
  | NStr s => eq_ignore_ascii_case s (as_str h)
  | NName n => String.eqb (as_str n) (as_str h)
  end.
Definition arg_into {E} (name : NameArg) : res E HeaderName :=
  match name with NStr s => HeaderName_from s | NName n => Ok n end.

Definition is_valid_header_value (value : string) : bool :=
  forallb (λ c, (32 <=? byte_val c) && (byte_val c <? 127) || (byte_val c =? 9)) (as_bytes value).

Module Header.
Definition new (name : NameArg) (value : string) : res ViaductError Header :=
  name ← arg_into name;
  let value := trim value in
  if negb (is_valid_header_value value) then Err (RequestHeaderError name)
  else Ok (mkHeader name value).

Definition set_value (self : Header) (s : string) : res ViaductError Header :=
  if negb (is_valid_header_value s) then Err (RequestHeaderError (hname self))
  else Ok (mkHeader (hname self) (trim s)).
End Header.

Module Headers.
Definition new : Headers := [].
Definition clear (self : Headers) : Headers := [].
Definition len (self : Headers) : Z := Z.of_nat (length self).
Definition is_empty (self : Headers) : bool := match self with [] => true | _ => false end.

(** The first entry with the name is updated by [upd], or [add] gives a new last entry. *)
Fixpoint upsert {E} (eq : HeaderName → bool) (upd : Header → res E Header) (add : res E Header)
    (self : Headers) : res E Headers :=
  match self with
  | [] => h ← add; Ok [h]
  | h :: self =>
      if eq (hname h) then h' ← upd h; Ok (h' :: self)
      else rest ← upsert eq upd add self; Ok (h :: rest)
  end.

Definition insert (name : NameArg) (value : string) (self : Headers) : res ViaductError Headers :=
  upsert (arg_eq name) (λ h, Header.set_value h value) (Header.new name value) self.

Definition insert_if_missing (name : NameArg) (value : string) (self : Headers) : res ViaductError Headers :=
  if negb (existsb (λ h, arg_eq name (hname h)) self) then
    h ← Header.new name value; Ok (self ++ [h])
  else Ok self.

Definition insert_header (new : Header) (self : Headers) : Headers :=
  match upsert (E:=Empty_set) (λ n, String.eqb (as_str n) (as_str (hname new)))
          (λ h, Ok (mkHeader (hname h) (hvalue new))) (Ok new) self with
  | Ok hs => hs
  | Err e => match e with end
  | Panic _ => self
  end.

Definition extend (l : list Header) (self : Headers) : Headers :=
  fold_left (λ self h, insert_header h self) l self.

(** [collect] of results: the first error wins. *)
Fixpoint collect {E} (l : list (res E Header)) : res E (list Header) :=
  match l with
  | [] => Ok []
  | r :: l => h ← r; hs ← collect l; Ok (h :: hs)
  end.

Definition try_extend {E} (l : list (res E Header)) (self : Headers) : res E Headers :=
  hs ← collect l;
  Ok (extend hs self).

Definition get_header (name : NameArg) (self : Headers) : option Header :=
  List.find (λ h, arg_eq name (hname h)) self.

Definition get (name : NameArg) (self : Headers) : option string :=
  hvalue <$> get_header name self.

(** With the parser of the target type. *)
Definition get_as {E T} (parse : string → res E T) (name : NameArg) (self : Headers) : option (res E T) :=
  parse <$> get name self.

Definition try_get {E T} (parse : string → res E T) (name : NameArg) (self : Headers) : option T :=
  get name self ≫= λ val, match parse val with Ok t => Some t | _ => None end.

(** [sort_by] is a stable sort; [dedup_by] drops an element equal to its predecessor. *)
Fixpoint sort_insert (h : Header) (l : list Header) : list Header :=
  match l with
  | [] => [h]
  | h' :: l' =>
      if String.leb (as_str (hname h)) (as_str (hname h')) then h :: l else h' :: sort_insert h l'
  end.
Definition sort_by_name (l : list Header) : list Header := foldr sort_insert [] l.

Fixpoint dedup_from (prev : HeaderName) (l : list Header) : list Header :=
  match l with
  | [] => []
  | h :: l =>
      if String.eqb (as_str (hname h)) (as_str prev) then dedup_from prev l
      else h :: dedup_from (hname h) l
  end.
Definition dedup (l : list Header) : list Header :=
  match l with [] => [] | h :: l => h :: dedup_from (hname h) l end.

Definition from_iter (l : list Header) : Headers := dedup (reverse (sort_by_name l)).
End Headers.

(** ** lib.rs: requests and responses

    [url::Url] is code outside the repository. *)
Module Method.
Inductive Method := Get | Head | Post | Put | Delete | Connect | Options | Trace.

Definition as_str (m : Method) : string :=
  match m with
  | Get => "GET" | Head => "HEAD" | Post => "POST" | Put => "PUT"
  | Delete => "DELETE" | Connect => "CONNECT" | Options => "OPTIONS" | Trace => "TRACE"
  end.
End Method.
Abbreviation Method := Method.Method.

Class UrlLib := {
  Url : Type;
  (** [Url::parse], [Url::join], [Url::as_str], and the derived [PartialEq]. *)
  url_parse : string → res string Url;
  url_join : Url → string → res string Url;
  url_as_str : Url → string;
  url_eqb : Url → Url → bool;
  (** [path], [query], [host_str], [port_or_known_default]. *)
  url_path : Url → string;
  url_query : Url → option string;
  url_host_str : Url → option string;
  url_port_or_known_default : Url → option Z;
  (** [path_segments_mut]: pop the last segment, push one; [None] if the URL cannot be a
      base. *)
  url_pop_segment : Url → option Url;
  url_extend_segments : Url → list string → option Url;
  (** [query_pairs_mut] with [append_pair]s, and [set_query(None)]. *)
  url_append_pairs : Url → list (string * string) → Url;
  url_clear_query : Url → Url;
}.

Section request.
Context `{!UrlLib}.

Record Request := mkRequest {
  rq_method : Method;
  rq_url : Url;
  rq_headers : Headers;
  rq_body : option bytes;
}.

Record Response := mkResponse {
  rs_request_method : Method;
  rs_url : Url;
  rs_status : Z;
  rs_headers : Headers;
  rs_body : bytes;
}.
End request.

Module Request.
Section request.
Context `{!UrlLib}.
Definition new (m : Method) (u : Url) : Request := mkRequest m u Headers.new None.
Definition get (u : Url) : Request := new Method.Get u.
Definition post (u : Url) : Request := new Method.Post u.
Definition put (u : Url) : Request := new Method.Put u.
Definition delete (u : Url) : Request := new Method.Delete u.

Definition query (pairs : list (string * string)) (self : Request) : Request :=
  mkRequest (rq_method self) (url_append_pairs (rq_url self) pairs) (rq_headers self) (rq_body self).
Definition headers (to_add : list Header) (self : Request) : Request :=
  mkRequest (rq_method self) (rq_url self) (Headers.extend to_add (rq_headers self)) (rq_body self).
Definition header (name : NameArg) (val : string) (self : Request) : res ViaductError Request :=
  hs ← Headers.insert name val (rq_headers self);
  Ok (mkRequest (rq_method self) (rq_url self) hs (rq_body self)).
Definition body (b : bytes) (self : Request) : Request :=
  mkRequest (rq_method self) (rq_url self) (rq_headers self) (Some b).

(** With the bytes [serde_json::to_vec] writes. *)
Definition json {E} (val : res string bytes) (self : Request) : res E Request :=
  match val with
  | Ok b =>
      match Headers.insert_if_missing (NName (mkHeaderName "content-type")) "application/json" (rq_headers self) with
      | Ok hs => Ok (mkRequest (rq_method self) (rq_url self) hs (Some b))
      | Err e => Panic "called `Result::unwrap()` on an `Err` value"
      | Panic m => Panic m
      end
  | Err e => Panic "Rust component bug: serde_json::to_vec failure"
  | Panic m => Panic m
  end.
End request.
End Request.

Module Response.
Section response.
Context `{!UrlLib}.
Definition is_success (self : Response) : bool := is_success_code (rs_status self).
Definition is_server_error (self : Response) : bool := is_server_error_code (rs_status self).
Definition is_client_error (self : Response) : bool := is_client_error_code (rs_status self).

Definition require_success (self : Response) : res (Method * Url * Z) Response :=
  if is_success self then Ok self else Err (rs_request_method self, rs_url self, rs_status self).
End response.
End Response.

(** Header names used by the clients. *)
Definition ACCEPT : NameArg := NName (mkHeaderName "accept").
Definition AUTHORIZATION : NameArg := NName (mkHeaderName "authorization").
Definition CONTENT_TYPE : NameArg := NName (mkHeaderName "content-type").
Definition RETRY_AFTER : NameArg := NName (mkHeaderName "retry-after").
Definition X_IF_UNMODIFIED_SINCE : NameArg := NName (mkHeaderName "x-if-unmodified-since").
Definition X_KEYID : NameArg := NName (mkHeaderName "x-keyid").
Definition X_LAST_MODIFIED : NameArg := NName (mkHeaderName "x-last-modified").
Definition X_TIMESTAMP : NameArg := NName (mkHeaderName "x-timestamp").

(** ** Header names *)
Lemma as_bytes_cons c s : as_bytes (String c s) = c :: as_bytes s.
Proof. done. Qed.

(** The field-name token characters of RFC 7230, section 3.2. *)
Definition is_upper (c : ascii) : bool := (65 <=? byte_val c) && (byte_val c <=? 90).
Definition is_token (c : ascii) : bool :=
  (48 <=? byte_val c) && (byte_val c <=? 57) || is_upper c || (97 <=? byte_val c) && (byte_val c <=? 122)
  || existsb (Ascii.eqb c) (as_bytes "!#$%&'*+-.^_`|~").

Lemma lut_spec c :
  nth (nat_of_ascii c) VALID_HEADER_LUT 0 = if is_upper c then 2 else if is_token c then 1 else 0.
Proof. by destruct c as [[] [] [] [] [] [] [] []]. Qed.

Lemma upper_token c : is_upper c = true → is_token c = true.
Proof. unfold is_token. intros ->. by rewrite !orb_true_r. Qed.

Lemma scan_name_spec nl b :
  scan_name nl b = if forallb is_token b then Some (nl || existsb is_upper b) else None.
Proof.
  revert nl. induction b as [|c b IH]; intros nl; cbn [scan_name forallb existsb].
  { by rewrite orb_false_r. }
  rewrite lut_spec. destruct (is_upper c) eqn:Hu.
  - rewrite (upper_token c Hu). cbn. rewrite IH. by destruct (forallb _ _), nl.
  - destruct (is_token c); [|done]. cbn. rewrite IH. by destruct (forallb _ _), nl.
Qed.

Lemma lowercase_no_upper s : existsb is_upper (as_bytes s) = false → to_ascii_lowercase s = s.
Proof.
  induction s as [|c s IH]; [done|]. cbn. intros [Hc Hs]%orb_false_iff. rewrite IH by done.
  unfold to_ascii_lowercase_char. fold (is_upper c). by rewrite Hc.
Qed.

Lemma lowercase_idem s : to_ascii_lowercase (to_ascii_lowercase s) = to_ascii_lowercase s.
Proof.
  induction s as [|c s IH]; [done|]. cbn. rewrite IH. f_equal.
  by destruct c as [[] [] [] [] [] [] [] []].
Qed.

Lemma lowercase_token s :
  forallb is_token (as_bytes (to_ascii_lowercase s)) = forallb is_token (as_bytes s).
Proof.
  induction s as [|c s IH]; [done|]. cbn [to_ascii_lowercase]. rewrite !as_bytes_cons. cbn [forallb].
  rewrite IH. f_equal.
  by destruct c as [[] [] [] [] [] [] [] []].
Qed.

(** A name as [HeaderName::new] makes them. *)
Definition name_ok (n : HeaderName) : Prop :=
  as_str n ≠ ""%string ∧ forallb is_token (as_bytes (as_str n)) = true ∧
  to_ascii_lowercase (as_str n) = as_str n.

Definition name_valid (s : string) : bool := negb (String.eqb s "") && forallb is_token (as_bytes s).

Lemma HeaderName_new_spec s :
  HeaderName_new s =
  if name_valid s then Ok (mkHeaderName (to_ascii_lowercase s)) else Err (mkInvalidHeaderName s).
Proof.
  unfold HeaderName_new, validate_header, name_valid, string_len.
  destruct s as [|c s]; [done|]. cbn [String.length negb String.eqb andb].
  destruct (Z.eqb_spec (Z.of_nat (S (String.length s))) 0); [lia|].
  rewrite scan_name_spec. destruct (forallb is_token _) eqn:Ht; [|done]. cbn [orb].
  destruct (existsb is_upper _) eqn:Hu; [done|]. by rewrite lowercase_no_upper.
Qed.

(** A header name is accepted exactly when it is a non-empty sequence of the token
    characters of RFC 7230 (so the look-up table is right), and the accepted name is its
    lower-case form, which is again valid and compares equal to it. *)
Theorem header_name_accepts_tokens (s : string) :
  HeaderName_new s =
    (if name_valid s then Ok (mkHeaderName (to_ascii_lowercase s)) else Err (mkInvalidHeaderName s)) ∧
  (∀ n, HeaderName_new s = Ok n → name_ok n ∧ arg_eq (NStr s) n = true).
Proof.
  split; [apply HeaderName_new_spec|]. intros n. rewrite HeaderName_new_spec.
  destruct (name_valid s) eqn:Hv; [|done]. intros [= <-].
  unfold name_valid in Hv. apply andb_true_iff in Hv as [He Ht]. split.
  - split; [by destruct s|]. cbn. rewrite lowercase_token, lowercase_idem. done.
  - unfold arg_eq, eq_ignore_ascii_case. cbn. rewrite lowercase_idem. apply String.eqb_refl.
Qed.

(** ** Header lists as maps *)

(** A header as [Header::new] makes them: its value cannot hold a line break. *)
Definition header_ok (h : Header) : Prop := name_ok (hname h) ∧ is_valid_header_value (hvalue h) = true.
Definition hkey (h : Header) : string := as_str (hname h).

(** The name a caller's argument stands for. *)
Definition key (a : NameArg) : string :=
  match a with NStr s => to_ascii_lowercase s | NName n => as_str n end.
Definition arg_ok (a : NameArg) : Prop := match a with NStr _ => True | NName n => name_ok n end.

Lemma arg_eq_key a n : name_ok n → arg_eq a n = String.eqb (key a) (as_str n).
Proof.
  intros (_ & _ & Hl). destruct a; [|done]. unfold arg_eq, eq_ignore_ascii_case. by rewrite Hl.
Qed.

Definition headers_wf (hs : Headers) : Prop := NoDup (hkey <$> hs) ∧ Forall header_ok hs.
Definition abs (hs : Headers) : gmap string string := list_to_map ((λ h, (hkey h, hvalue h)) <$> hs).

Lemma abs_cons h hs : abs (h :: hs) = <[hkey h := hvalue h]> (abs hs).
Proof. done. Qed.

Lemma abs_lookup_None hs k : abs hs !! k = None ↔ k ∉ hkey <$> hs.
Proof.
  unfold abs. rewrite <-not_elem_of_list_to_map, <-list_fmap_compose. done.
Qed.

Lemma get_abs a hs : Forall header_ok hs → Headers.get a hs = abs hs !! key a.
Proof.
  unfold Headers.get, Headers.get_header. induction 1 as [|h hs [Hn _] _ IH]; [done|].
  rewrite abs_cons. cbn [List.find]. rewrite arg_eq_key by done.
  destruct (String.eqb_spec (key a) (as_str (hname h))) as [->|Hne].
  - by rewrite lookup_insert_eq.
  - rewrite lookup_insert_ne by done. exact IH.
Qed.

(** The two cases of [upsert] on a well-formed list. *)
Section upsert.
Context {E : Type} (eq : HeaderName → bool) (k : string).
Context (upd : Header → res E Header) (add : res E Header).
Hypothesis eq_key : ∀ n, name_ok n → eq n = String.eqb k (as_str n).

Lemma upsert_missing hs :
  Forall header_ok hs → abs hs !! k = None →
  Headers.upsert eq upd add hs = (h ← add; Ok (hs ++ [h])).
Proof.
  induction 1 as [|h hs [Hn _] _ IH]; [done|]. rewrite abs_cons. cbn [Headers.upsert].
  intros Hk. rewrite eq_key by done.
  destruct (String.eqb_spec k (as_str (hname h))) as [->|Hne].
  { by rewrite lookup_insert_eq in Hk. }
  rewrite lookup_insert_ne in Hk by done. rewrite IH by done. by destruct add.
Qed.

Lemma upsert_found hs v :
  headers_wf hs → abs hs !! k = Some v →
  ∃ h, hkey h = k ∧ header_ok h ∧
    match upd h with
    | Ok h' => hkey h' = k → header_ok h' →
        ∃ hs', Headers.upsert eq upd add hs = Ok hs' ∧ headers_wf hs' ∧
          hkey <$> hs' = hkey <$> hs ∧ abs hs' = <[k := hvalue h']> (abs hs)
    | Err e => Headers.upsert eq upd add hs = Err e
    | Panic m => Headers.upsert eq upd add hs = Panic m
    end.
Proof.
  intros [Hnd Hall]. induction Hall as [|h hs [Hn Hv] Hall IH]; [done|].
  rewrite fmap_cons in Hnd. apply NoDup_cons in Hnd as [Hnin Hnd]. rewrite abs_cons. cbn [Headers.upsert].
  rewrite eq_key by done. destruct (String.eqb_spec k (as_str (hname h))) as [->|Hne].
  - intros _. exists h. split; [done|]. split; [done|].
    destruct (upd h) as [h'|e|m]; [|done..]. intros Hk' Hok. eexists. split; [done|].
    assert (Hks : hkey <$> h' :: hs = hkey <$> h :: hs) by (rewrite !fmap_cons; by f_equal).
    split; [split; [rewrite Hks, fmap_cons; by constructor|by constructor]|]. split; [done|].
    rewrite abs_cons, Hk'. by rewrite insert_insert_eq.
  - rewrite lookup_insert_ne by done. intros Hk. destruct (IH Hnd Hk) as (h0 & Hh0 & Hok0 & Hcase).
    exists h0. split; [done|]. split; [done|].
    destruct (upd h0) as [h'|e|m]; [|by rewrite Hcase..]. intros Hk' Hok.
    destruct (Hcase Hk' Hok) as (hs' & -> & [Hnd' Hall'] & Hks & Habs). eexists. split; [done|].
    assert (Hks' : hkey <$> h :: hs' = hkey <$> h :: hs) by (rewrite !fmap_cons; by f_equal).
    split; [split; [rewrite Hks', fmap_cons; by constructor|by constructor]|]. split; [done|].
    rewrite abs_cons, Habs. by apply insert_insert_ne.
Qed.
End upsert.

Lemma headers_wf_snoc hs h :
  headers_wf hs → header_ok h → abs hs !! hkey h = None →
  headers_wf (hs ++ [h]) ∧ abs (hs ++ [h]) = <[hkey h := hvalue h]> (abs hs).
Proof.
  intros [Hnd Hall] Hok Hnone. apply abs_lookup_None in Hnone. split.
  - split; [|by apply Forall_app; auto]. rewrite fmap_app. apply NoDup_app. split; [done|]. split; [|apply NoDup_singleton].
    intros x Hx Hx'. apply list_elem_of_singleton in Hx'. by subst.
  - induction hs as [|h0 hs IH]; [done|]. cbn [app]. rewrite !abs_cons.
    rewrite fmap_cons in Hnd, Hnone. apply NoDup_cons in Hnd as [? ?]. inversion Hall; subst.
    rewrite IH; [|done|done|set_solver]. apply insert_insert_ne. set_solver.
Qed.

(** The abstract map: insertion with the two validity checks of the code. *)
Definition map_insert (a : NameArg) (v : string) (m : gmap string string) : res ViaductError (gmap string string) :=
  match m !! key a with
  | Some _ =>
      if is_valid_header_value v then Ok (<[key a := trim v]> m)
      else Err (RequestHeaderError (mkHeaderName (key a)))
  | None =>
      n ← arg_into a;
      if is_valid_header_value (trim v) then Ok (<[key a := trim v]> m)
      else Err (RequestHeaderError n)
  end.

Lemma arg_into_key {E} a n : arg_ok a → arg_into (E:=E) a = Ok n → as_str n = key a ∧ name_ok n.
Proof.
  destruct a as [s|n0]; cbn; [|by intros ? [= <-]]. intros _. unfold HeaderName_from.
  rewrite HeaderName_new_spec. destruct (name_valid s) eqn:Hv; [|done]. intros [= <-]. split; [done|].
  unfold name_valid in Hv. apply andb_true_iff in Hv as [He Ht].
  split; [by destruct s|]. cbn. by rewrite lowercase_token, lowercase_idem.
Qed.

Lemma forallb_sublist (P : ascii → bool) n (b : bytes) :
  forallb P b = true → forallb P (drop n b) = true ∧ forallb P (take n b) = true.
Proof.
  intros Hb. rewrite <-(take_drop n b), forallb_app in Hb. by apply andb_true_iff in Hb as [? ?].
Qed.

Lemma trim_valid v : is_valid_header_value v = true → is_valid_header_value (trim v) = true.
Proof.
  unfold is_valid_header_value, trim. set (P := λ c, _).
  assert (Hs : ∀ fuel b, forallb P b = true → forallb P (trim_start fuel b) = true).
  { induction fuel as [|fuel IH]; intros b Hb; [done|]. cbn [trim_start].
    destruct (ws_len b); [done|]. by apply IH, forallb_sublist. }
  assert (He : ∀ fuel b, forallb P b = true → forallb P (trim_end fuel b) = true).
  { induction fuel as [|fuel IH]; intros b Hb; [done|]. cbn [trim_end].
    destruct (ws_len_end b); [done|]. by apply IH, forallb_sublist. }
  intros Hv. unfold as_bytes at 1. rewrite String.list_ascii_of_string_of_list_ascii. by apply He, Hs.
Qed.

(** Outcomes of the code and of the map agree. *)
Definition agree (r : res ViaductError Headers) (m : res ViaductError (gmap string string)) : Prop :=
  match r, m with
  | Ok hs, Ok m => headers_wf hs ∧ abs hs = m
  | Err e, Err e' => e = e'
  | Panic x, Panic x' => x = x'
  | _, _ => False
  end.

Lemma insert_refines a v hs :
  arg_ok a → headers_wf hs → agree (Headers.insert a v hs) (map_insert a v (abs hs)).
Proof.
  intros Ha [Hnd Hall]. unfold Headers.insert, map_insert.
  destruct (abs hs !! key a) as [v0|] eqn:Hk.
  - destruct (upsert_found (arg_eq a) (key a) (λ h, Header.set_value h v) (Header.new a v)
      (arg_eq_key a) hs v0 (conj Hnd Hall) Hk) as (h & Hh & [Hn _] & Hcase).
    unfold Header.set_value in Hcase at 1. destruct (is_valid_header_value v) eqn:Hv; cbn [negb] in Hcase.
    + destruct Hcase as (hs' & -> & Hwf & _ & Habs); [done|by split; [|apply trim_valid]|]. by split.
    + rewrite Hcase. cbn. unfold hkey in Hh. rewrite <-Hh. by destruct (hname h).
  - rewrite (upsert_missing _ _ _ _ (arg_eq_key a)) by done. unfold Header.new.
    destruct (arg_into a) as [n|e|m] eqn:Hinto; [|done..].
    apply arg_into_key in Hinto as [Hn Hok]; [|done]. rewrite !res_bind_ok.
    destruct (is_valid_header_value (trim v)) eqn:Hv; cbn [negb]; [|done]. rewrite res_bind_ok.
    destruct (headers_wf_snoc hs (mkHeader n (trim v)) (conj Hnd Hall)) as [Hwf Habs]; [done|by unfold hkey; cbn; rewrite Hn|].
    split; [done|]. rewrite Habs. unfold hkey. cbn. by rewrite Hn.
Qed.

Lemma insert_if_missing_refines a v hs :
  arg_ok a → headers_wf hs →
  agree (Headers.insert_if_missing a v hs)
        (match abs hs !! key a with Some _ => Ok (abs hs) | None => map_insert a v (abs hs) end).
Proof.
  intros Ha [Hnd Hall]. unfold Headers.insert_if_missing.
  assert (Hex : existsb (λ h, arg_eq a (hname h)) hs = bool_decide (is_Some (abs hs !! key a))).
  { rewrite <-get_abs by done. unfold Headers.get, Headers.get_header. clear.
    induction hs as [|h hs IH]; [done|]. cbn. destruct (arg_eq a (hname h)); [done|exact IH]. }
  rewrite Hex. destruct (abs hs !! key a) as [v0|] eqn:Hk; cbn [negb bool_decide]; [done|].
  pose proof (insert_refines a v hs Ha (conj Hnd Hall)) as Hins. unfold Headers.insert in Hins.
  rewrite (upsert_missing _ _ _ _ (arg_eq_key a)) in Hins by done. done.
Qed.

Lemma insert_header_refines h hs :
  header_ok h → headers_wf hs →
  headers_wf (Headers.insert_header h hs) ∧ abs (Headers.insert_header h hs) = <[hkey h := hvalue h]> (abs hs).
Proof.
  intros [Hn Hv] [Hnd Hall]. unfold Headers.insert_header.
  assert (Heq : ∀ n, name_ok n → String.eqb (as_str n) (hkey h) = String.eqb (hkey h) (as_str n)).
  { intros n _. apply String.eqb_sym. }
  fold (hkey h). destruct (abs hs !! hkey h) as [v0|] eqn:Hk.
  - destruct (upsert_found (E:=Empty_set) (λ n, String.eqb (as_str n) (hkey h)) (hkey h)
      (λ h0, Ok (mkHeader (hname h0) (hvalue h))) (Ok h) Heq hs v0 (conj Hnd Hall) Hk) as (h0 & Hh0 & [Hn0 _] & Hcase).
    destruct Hcase as (hs' & -> & Hwf & _ & Habs); [done|by split|]. by split.
  - rewrite (upsert_missing _ _ _ _ Heq) by done. rewrite res_bind_ok. by apply headers_wf_snoc.
Qed.

(** ** Sequences of operations *)
Inductive hop :=
| HInsert (name : NameArg) (value : string)
| HInsertIfMissing (name : NameArg) (value : string)
| HInsertHeader (h : Header)
| HExtend (l : list Header)
| HClear.

Definition hop_ok (o : hop) : Prop :=
  match o with
  | HInsert a _ | HInsertIfMissing a _ => arg_ok a
  | HInsertHeader h => header_ok h
  | HExtend l => Forall header_ok l
  | HClear => True
  end.

Definition hstep (o : hop) (hs : Headers) : res ViaductError Headers :=
  match o with
  | HInsert a v => Headers.insert a v hs
  | HInsertIfMissing a v => Headers.insert_if_missing a v hs
  | HInsertHeader h => Ok (Headers.insert_header h hs)
  | HExtend l => Ok (Headers.extend l hs)
  | HClear => Ok (Headers.clear hs)
  end.

Definition map_put (m : gmap string string) (h : Header) : gmap string string := <[hkey h := hvalue h]> m.

Definition mstep (o : hop) (m : gmap string string) : res ViaductError (gmap string string) :=
  match o with
  | HInsert a v => map_insert a v m
  | HInsertIfMissing a v => match m !! key a with Some _ => Ok m | None => map_insert a v m end
  | HInsertHeader h => Ok (map_put m h)
  | HExtend l => Ok (fold_left map_put l m)
  | HClear => Ok ∅
  end.

(** A failed operation leaves the collection as it was. *)
Fixpoint run_ops {S} (step : hop → S → res ViaductError S) (ops : list hop) (s : S)
    : list (res ViaductError unit) * S :=
  match ops with
  | [] => ([], s)
  | o :: ops =>
      let r := step o s in
      let s' := match r with Ok s' => s' | _ => s end in
      let '(outs, s'') := run_ops step ops s' in
      (((λ _, tt) <$> r) :: outs, s'')
  end.

Lemma extend_refines l hs :
  Forall header_ok l → headers_wf hs →
  headers_wf (Headers.extend l hs) ∧ abs (Headers.extend l hs) = fold_left map_put l (abs hs).
Proof.
  intros Hl. revert hs. induction Hl as [|h l Hh _ IH]; intros hs Hwf; [done|].
  destruct (insert_header_refines h hs Hh Hwf) as [Hwf' Habs]. unfold Headers.extend. cbn [fold_left].
  change (fold_left _ l (Headers.insert_header h hs)) with (Headers.extend l (Headers.insert_header h hs)).
  destruct (IH _ Hwf') as [Hwf'' Habs']. split; [done|]. by rewrite Habs', Habs.
Qed.

Lemma hstep_refines o hs :
  hop_ok o → headers_wf hs → agree (hstep o hs) (mstep o (abs hs)).
Proof.
  intros Ho Hwf. destruct o; cbn [hstep mstep hop_ok] in *.
  - by apply insert_refines.
  - by apply insert_if_missing_refines.
  - by apply insert_header_refines.
  - by apply extend_refines.
  - split; [split; constructor|done].
Qed.

Lemma run_ops_refines ops hs :
  Forall hop_ok ops → headers_wf hs →
  (run_ops hstep ops hs).1 = (run_ops mstep ops (abs hs)).1 ∧
  headers_wf (run_ops hstep ops hs).2 ∧ abs (run_ops hstep ops hs).2 = (run_ops mstep ops (abs hs)).2.
Proof.
  intros Hops. revert hs. induction Hops as [|o ops Ho _ IH]; intros hs Hwf; [done|]. cbn [run_ops].
  pose proof (hstep_refines o hs Ho Hwf) as Hst. unfold agree in Hst.
  destruct (hstep o hs) as [hs'|e|x], (mstep o (abs hs)) as [m'|e'|x']; try done.
  - destruct Hst as [Hwf' <-]. destruct (IH _ Hwf') as (Ho1 & Hw & Ha).
    destruct (run_ops hstep ops hs'), (run_ops mstep ops (abs hs')); cbn in *. by rewrite Ho1.
  - subst. destruct (IH _ Hwf) as (Ho1 & Hw & Ha).
    destruct (run_ops hstep ops hs), (run_ops mstep ops (abs hs)); cbn in *. by rewrite Ho1.
  - subst. destruct (IH _ Hwf) as (Ho1 & Hw & Ha).
    destruct (run_ops hstep ops hs), (run_ops mstep ops (abs hs)); cbn in *. by rewrite Ho1.
Qed.

(** C39: A header list refines a map from lower-case names to trimmed values: after any
    sequence of insertions (failed ones included) the outcomes are those of the map, [get]
    returns what the map holds under the name in any letter case, names are unique, and no
    value holds a control character other than a tab, hence no line break. *)
Theorem headers_refine_map (ops : list hop) :
  Forall hop_ok ops →
  let '(outs, hs) := run_ops hstep ops Headers.new in
  let '(mouts, m) := run_ops mstep ops ∅ in
  outs = mouts ∧ (∀ a, Headers.get a hs = m !! key a) ∧ NoDup (hkey <$> hs) ∧
  Forall (λ h, is_valid_header_value (hvalue h) = true) hs.
Proof.
  intros Hops. destruct (run_ops_refines ops Headers.new Hops) as (Ho & [Hnd Hall] & Ha); [by split; constructor|].
  change (abs Headers.new) with (∅ : gmap string string) in *.
  destruct (run_ops hstep ops Headers.new) as [outs hs], (run_ops mstep ops ∅) as [mouts m]. cbn [fst snd] in *.
  split; [done|]. split; [intros a; by rewrite get_abs, Ha|]. split; [done|].
  eapply Forall_impl; [exact Hall|]. by intros h [_ ?].
Qed.

(** ** [from_iter] *)
Lemma string_leb_refl s : String.leb s s = true.
Proof.
  unfold String.leb. induction s as [|c s IH]; [done|]. cbn. unfold Ascii.compare.
  by rewrite N.compare_refl.
Qed.

Lemma sort_insert_elem h l x : x ∈ Headers.sort_insert h l ↔ x ∈ h :: l.
Proof.
  induction l as [|h' l IH]; [done|]. cbn [Headers.sort_insert].
  destruct (String.leb _ _); [done|]. rewrite elem_of_cons, IH. set_solver.
Qed.

Lemma sort_elem l x : x ∈ Headers.sort_by_name l ↔ x ∈ l.
Proof.
  induction l as [|h l IH]; [done|]. cbn [Headers.sort_by_name foldr]. rewrite sort_insert_elem.
  fold (Headers.sort_by_name l). set_solver.
Qed.

Lemma dedup_elem l x : x ∈ Headers.dedup l → x ∈ l.
Proof.
  assert (Hf : ∀ l prev, x ∈ Headers.dedup_from prev l → x ∈ l).
  { clear l. induction l as [|h l IH]; intros prev; [done|]. cbn [Headers.dedup_from].
    destruct (String.eqb _ _); rewrite ?elem_of_cons; naive_solver. }
  destruct l as [|h l]; [done|]. cbn [Headers.dedup]. rewrite !elem_of_cons. naive_solver.
Qed.

Lemma from_iter_ok l : Forall header_ok l → Forall header_ok (Headers.from_iter l).
Proof.
  rewrite !Forall_forall. intros Hl h Hh%dedup_elem. by apply Hl, sort_elem, elem_of_reverse.
Qed.

Section from_iter.
Context (k : string).

Definition has_key (h : Header) : bool := String.eqb k (hkey h).

Lemma filter_sort_insert h l :
  List.filter has_key (Headers.sort_insert h l) = List.filter has_key (h :: l).
Proof.
  induction l as [|h' l IH]; [done|]. cbn [Headers.sort_insert].
  destruct (String.leb _ _) eqn:Hle; [done|]. cbn [List.filter] in *. rewrite IH.
  destruct (has_key h) eqn:Hh, (has_key h') eqn:Hh'; try done.
  unfold has_key in *. apply String.eqb_eq in Hh, Hh'. exfalso. revert Hle. unfold hkey in *.
  rewrite <-Hh, <-Hh'. apply eq_true_false_abs, string_leb_refl.
Qed.

Lemma filter_sort l : List.filter has_key (Headers.sort_by_name l) = List.filter has_key l.
Proof.
  induction l as [|h l IH]; [done|]. cbn [Headers.sort_by_name foldr].
  rewrite filter_sort_insert. cbn [List.filter]. by rewrite <-IH.
Qed.

Lemma find_filter l : List.find has_key l = head (List.filter has_key l).
Proof. induction l as [|h l IH]; [done|]. cbn. by destruct (has_key h). Qed.

Lemma find_dedup_from prev l :
  has_key prev = false → List.find has_key (Headers.dedup_from (hname prev) l) = List.find has_key l.
Proof.
  revert prev. induction l as [|h l IH]; intros prev Hp; [done|]. cbn [Headers.dedup_from].
  destruct (String.eqb_spec (as_str (hname h)) (as_str (hname prev))) as [Heq|Hne].
  - cbn [List.find]. rewrite IH by done. unfold has_key, hkey in *. by rewrite Heq, Hp.
  - cbn [List.find]. destruct (has_key h) eqn:Hh; [done|]. by apply IH.
Qed.

Lemma find_dedup l : List.find has_key (Headers.dedup l) = List.find has_key l.
Proof.
  destruct l as [|h l]; [done|]. cbn [Headers.dedup List.find].
  destruct (has_key h) eqn:Hh; [done|]. by apply find_dedup_from.
Qed.

Lemma filter_reverse l : List.filter has_key (reverse l) = reverse (List.filter has_key l).
Proof.
  induction l as [|h l IH]; [done|]. rewrite reverse_cons, List.filter_app, IH. cbn [List.filter].
  destruct (has_key h); [by rewrite reverse_cons|by rewrite app_nil_r].
Qed.

Lemma find_from_iter l : List.find has_key (Headers.from_iter l) = last (List.filter has_key l).
Proof.
  unfold Headers.from_iter. rewrite find_dedup, find_filter, filter_reverse, filter_sort. apply head_reverse.
Qed.

Lemma fold_put_lookup l m :
  fold_left map_put l m !! k =
  match last (List.filter has_key l) with Some h => Some (hvalue h) | None => m !! k end.
Proof.
  induction l as [|h l IH] using rev_ind; [done|]. rewrite fold_left_app. cbn [fold_left].
  rewrite List.filter_app. cbn [List.filter]. unfold map_put at 1. unfold has_key at 2.
  destruct (String.eqb_spec k (hkey h)) as [->|Hne].
  - by rewrite lookup_insert_eq, last_snoc.
  - by rewrite lookup_insert_ne, app_nil_r.
Qed.
End from_iter.

(** Building a header list from an iterator (a stable sort, a reversal and a
    deduplication) finds under every name the same value as inserting the headers one by one:
    the last one given. *)
Theorem headers_from_iter_is_extend (l : list Header) (a : NameArg) :
  Forall header_ok l →
  Headers.get a (Headers.from_iter l) = Headers.get a (Headers.extend l Headers.new) ∧
  Headers.get a (Headers.from_iter l) = hvalue <$> last (List.filter (has_key (key a)) l).
Proof.
  intros Hl. destruct (extend_refines l Headers.new Hl) as [[_ Hall] Habs]; [by split; constructor|].
  assert (Hfind : Headers.get a (Headers.from_iter l) = hvalue <$> last (List.filter (has_key (key a)) l)).
  { rewrite <-find_from_iter. unfold Headers.get, Headers.get_header. f_equal.
    pose proof (from_iter_ok l Hl) as Hok. clear -Hok. induction Hok as [|h hs [Hn _] _ IH]; [done|]. cbn [List.find].
    rewrite arg_eq_key by done. unfold has_key, hkey in *. by destruct (String.eqb _ _). }
  split; [|done]. rewrite Hfind, get_abs, Habs, fold_put_lookup by done.
  by destruct (last _).
Qed.

(** The check of a header value depends on whether the header is already there: a value
    that is legal only once trimmed (one that ends in a line break, say) is accepted, trimmed,
    for a new header, and refused as an update of the same header. *)
Theorem insert_checks_differ (a : NameArg) (v v0 : string) (hs : Headers) (n : HeaderName) :
  arg_ok a → headers_wf hs → arg_into (E:=ViaductError) a = Ok n → Headers.get a hs = None →
  is_valid_header_value v = false → is_valid_header_value (trim v) = true → is_valid_header_value v0 = true →
  Headers.insert a v hs = Ok (hs ++ [mkHeader n (trim v)]) ∧
  ∃ hs', Headers.insert a v0 hs = Ok hs' ∧ Headers.insert a v hs' = Err (RequestHeaderError n).
Proof.
  intros Ha Hwf Hinto Hget Hv Htv Hv0. pose proof Hwf as [_ Hall]. rewrite get_abs in Hget by done.
  assert (Hnew : ∀ v1, is_valid_header_value (trim v1) = true →
    Headers.insert a v1 hs = Ok (hs ++ [mkHeader n (trim v1)])).
  { intros v1 Hv1. unfold Headers.insert. rewrite (upsert_missing _ _ _ _ (arg_eq_key a)) by done.
    unfold Header.new. by rewrite Hinto, res_bind_ok, Hv1. }
  split; [by apply Hnew|]. exists (hs ++ [mkHeader n (trim v0)]).
  pose proof (trim_valid v0 Hv0) as Htv0. split; [by apply Hnew|].
  apply arg_into_key in Hinto as [Hn Hok]; [|done].
  destruct (headers_wf_snoc hs (mkHeader n (trim v0)) Hwf) as [Hwf' Habs]; [done|by unfold hkey; cbn; rewrite Hn|].
  pose proof (insert_refines a v _ Ha Hwf') as Hag. unfold map_insert in Hag.
  rewrite Habs in Hag. unfold hkey in Hag. cbn [hname hvalue] in Hag. rewrite Hn, lookup_insert_eq, Hv in Hag.
  destruct (Headers.insert _ _ _); try done. cbn in Hag. subst. rewrite <-Hn. by destruct n.
Qed.

(** ** Witnesses *)
Module ToyHeaders.
Definition ops : list hop :=
  [HInsert (NStr "Content-Type") " text/plain "; HInsert (NStr "content-type") "application/json";
   HInsertIfMissing (NStr "CONTENT-TYPE") "x"; HInsertHeader (mkHeader (mkHeaderName "accept") "y")].

Lemma accept_ok : header_ok (mkHeader (mkHeaderName "accept") "y").
Proof. by repeat split. Qed.

Lemma headers_refine_map_witness :
  Forall hop_ok ops ∧ ∀ a, Headers.get a (run_ops hstep ops Headers.new).2 =
       ({["content-type" := "application/json"; "accept" := "y"]}%string : gmap string string) !! key a.
Proof.
  assert (Hok : Forall hop_ok ops) by (repeat constructor; apply accept_ok).
  pose proof (headers_refine_map ops Hok) as Href. split; [exact Hok|]. intros a.
  assert (Hm : (run_ops mstep ops ∅).2 = {["content-type" := "application/json"; "accept" := "y"]}%string)
    by (vm_compute; reflexivity).
  destruct (run_ops hstep ops Headers.new) as [outs hs], (run_ops mstep ops ∅) as [mouts m].
  cbn [snd] in *. destruct Href as (_ & Hget & _). rewrite Hget, Hm. reflexivity.
Defined.

Lemma headers_from_iter_is_extend_witness :
  Headers.get ACCEPT (Headers.from_iter [mkHeader (mkHeaderName "accept") "x"; mkHeader (mkHeaderName "accept") "y"])
  = Some "y"%string.
Proof.
  destruct (headers_from_iter_is_extend
    [mkHeader (mkHeaderName "accept") "x"; mkHeader (mkHeaderName "accept") "y"] ACCEPT) as [_ ->].
  - repeat constructor; discriminate.
  - vm_compute. reflexivity.
Defined.

Definition with_newline : string := String "a" (String (ascii_of_nat 10) EmptyString).

Lemma insert_checks_differ_witness :
  Headers.insert (NStr "ETag") with_newline [] = Ok [mkHeader (mkHeaderName "etag") "a"].
Proof.
  apply (proj1 (insert_checks_differ (NStr "ETag") with_newline "b" [] (mkHeaderName "etag")
    I ltac:(split; constructor) eq_refl eq_refl eq_refl eq_refl eq_refl)).
Defined.
End ToyHeaders.
