(* ===== verification/Token.v ===== *)
(** * The token provider

    Model of [components/sync15/src/token.rs]: the client of the token server and the state
    machine that keeps, renews and gives up on its token.  HTTP, the clock, Hawk and JSON are
    the classes of this file and of [Viaduct.v]; the theorems hold for every token server. *)

From S2P Require Import Prelude Sync15Types KeyBundle Viaduct.
From Stdlib Require Import Ascii.
Local Open Scope Z_scope.
Local Open Scope list_scope.

(** ** Code outside the repository *)

(** Sending a request ([viaduct::Request::send]). *)
Class Http `{!UrlLib} (W : Type) := send : Request → ST W ViaductError Response.

(** [SystemTime::now]: nanoseconds since the epoch. *)
Class Clock (W : Type) := system_now : W → Z * W.

Class Hawk := {
  HawkKey : Type;
  hawk_key_new : bytes → res string HawkKey;
}.
(** [RequestBuilder::new(method, host, port, path).request().make_header(credentials)], which
    draws a nonce and reads the clock. *)
Class HawkClient `{!Hawk} (W : Type) :=
  make_header : string → string → Z → string → string * HawkKey → ST W string string.

(** [f64::from_str]. *)
Class ParseF64 := parse_f64 : string → res string Util.f64.

(** [SystemTime + Duration]: panics when the seconds do not fit an [i64]. *)
Definition NANOS : Z := 1000000000.
Definition time_add {E} (t nanos : Z) : res E Z :=
  if 2 ^ 63 * NANOS <=? t + nanos then Panic "overflow when adding duration to instant"
  else Ok (t + nanos).

Definition viaduct_display (e : ViaductError) : string :=
  match e with
  | RequestHeaderError n => "Illegal characters in request header '" +:+ as_str n +:+ "'"
  | BackendError s => "Backend error: " +:+ s
  | NetworkError s => "Network error: " +:+ s
  | BackendNotInitialized => "The rust-components network backend must be initialized before use!"
  | UrlError s => "URL Parse Error: " +:+ s
  end.

(** The [?] operator on viaduct results. *)
Definition from_viaduct {A} (r : res ViaductError A) : res ErrorKind A :=
  map_err (λ e, RequestError (viaduct_display e)) r.

(** ** Data *)
Definition RETRY_AFTER_DEFAULT_MS : Z := 10000.

Record TokenserverToken := mkTokenserverToken {
  tk_id : string;
  tk_key : string;
  tk_api_endpoint : string;
  tk_uid : Z;
  tk_duration : Z;
  tk_hashed_fxa_uid : string;
}.

Record TokenFetchResult := mkTokenFetchResult {
  tf_token : TokenserverToken;
  tf_server_timestamp : ServerTimestamp;
}.

(** The trait [TokenFetcher]. *)
Class TokenFetcher (W : Type) := {
  fetch_token : ST W ErrorKind TokenFetchResult;
  now : W → Z * W;
}.

Section data.
Context `{!Hawk}.

Record TokenContext := mkTokenContext {
  tc_token : TokenserverToken;
  tc_credentials : string * HawkKey;
  tc_server_timestamp : ServerTimestamp;
  tc_valid_until : Z;
}.

Inductive TokenState :=
| NoToken
| Token (tc : TokenContext)
| Failed (e : option ErrorKind) (endpoint : option string)
| Backoff (until : Z) (endpoint : option string)
| NodeReassigned.
End data.

Module TokenContext.
Section context.
Context `{!Hawk, !UrlLib} {W : Type} `{!HawkClient W}.

Definition is_valid (self : TokenContext) (t : Z) : bool := t <? tc_valid_until self.

Definition authorization (self : TokenContext) (req : Request) : ST W ErrorKind string :=
  let url := rq_url req in
  let path_and_query :=
    match url_query url with
    | None => url_path url
    | Some qs => url_path url +:+ "?" +:+ qs
    end in
  host ← st_lift (ok_or (UnacceptableUrl "Storage URL has no host") (url_host_str url));
  port ← st_lift (ok_or (UnacceptableUrl
            "Storage URL has no port and no default port is known for the protocol")
            (url_port_or_known_default url));
  header ← st_map_err HawkError
    (make_header (Method.as_str (rq_method req)) host port path_and_query (tc_credentials self));
  mret ("Hawk " +:+ header).
End context.
End TokenContext.

(** ** TokenServerFetcher *)
Section fetcher.
Context `{!UrlLib}.

Record TokenServerFetcher := mkTokenServerFetcher {
  fx_server_url : Url;
  fx_access_token : string;
  fx_key_id : string;
}.

(** [str::ends_with]. *)
Definition ends_with (suffix s : string) : bool :=
  Nat.leb (String.length suffix) (String.length s) &&
  String.eqb (String.substring (String.length s - String.length suffix) (String.length suffix) s) suffix.

Definition fixup_server_url (url : Url) : res ErrorKind Url :=
  if ends_with "1.0/sync/1.5" (url_as_str url) then Ok url
  else if ends_with "1.0/sync/1.5/" (url_as_str url) then
    Ok (default url (url_pop_segment url))
  else map_err MalformedUrl (url_join url "1.0/sync/1.5").

Definition TokenServerFetcher_new (base_url : Url) (access_token key_id : string)
    : res ErrorKind TokenServerFetcher :=
  server_url ← fixup_server_url base_url;
  Ok (mkTokenServerFetcher server_url access_token key_id).

Context {W : Type} `{!Http W, !Clock W, !ParseF64}.
(** The deserialiser of the token. *)
Context (token_from_slice : bytes → res string TokenserverToken).

Definition TokenServerFetcher_fetch_token (self : TokenServerFetcher) : ST W ErrorKind TokenFetchResult :=
  req ← st_lift (from_viaduct (Request.header AUTHORIZATION ("Bearer " +:+ fx_access_token self)
                                 (Request.get (fx_server_url self))));
  req ← st_lift (from_viaduct (Request.header X_KEYID (fx_key_id self) req));
  resp ← st_map_err (λ e, RequestError (viaduct_display e)) (send req);
  if negb (Response.is_success resp) then
    match Headers.get_as parse_f64 RETRY_AFTER (rs_headers resp) with
    | Some r =>
        let ms := match r with
                  | Ok f => f64_as_uint 64 (f64_mul f (f64_of_Z 1000))
                  | _ => RETRY_AFTER_DEFAULT_MS
                  end in
        t ← st_ask system_now;
        when ← st_lift (time_add t (ms * 1000000));
        st_err (BackoffError when)
    | None => st_err (TokenserverHttpError (rs_status resp))
    end
  else
    token ← st_lift (map_err JsonError (token_from_slice (rs_body resp)));
    server_timestamp ← st_lift (ok_or MissingServerTimestamp
      (mkServerTimestamp <$> Headers.try_get parse_f64 X_TIMESTAMP (rs_headers resp)));
    mret (mkTokenFetchResult token server_timestamp).

Definition server_fetcher (self : TokenServerFetcher) : TokenFetcher W := {|
  fetch_token := TokenServerFetcher_fetch_token self;
  now := system_now;
|}.
End fetcher.

(** ** TokenProviderImpl *)
Module TokenProviderImpl.
Section provider.
Context `{!Hawk} {W : Type} `{!TokenFetcher W, !Clock W}.

Definition new : TokenState := NoToken.

Definition fetch_context : ST W ErrorKind TokenContext :=
  result ← fetch_token;
  let token := tf_token result in
  t ← st_ask system_now;
  valid_until ← st_lift (time_add t (tk_duration token * NANOS));
  key ← st_lift (map_err HawkError (hawk_key_new (as_bytes (tk_key token))));
  mret (mkTokenContext token (tk_id token, key) (tf_server_timestamp result) valid_until).

(** The state after an attempt to fetch a token. *)
Definition fetch_token (previous_endpoint : option string) : ST W ErrorKind TokenState :=
  λ w, let '(r, w) := fetch_context w in
    match r with
    | Panic m => (Panic m, w)
    | Ok tc =>
        match previous_endpoint with
        | Some prev =>
            if String.eqb prev (tk_api_endpoint (tc_token tc))
            then (Ok (Token tc), w) else (Ok NodeReassigned, w)
        | None => (Ok (Token tc), w)
        end
    | Err (BackoffError be) => (Ok (Backoff be previous_endpoint), w)
    | Err e => (Ok (Failed (Some e) previous_endpoint), w)
    end.

Definition advance_state (state : TokenState) : ST W ErrorKind (option TokenState) :=
  match state with
  | NoToken => s ← fetch_token None; mret (Some s)
  | Failed _ existing_endpoint => s ← fetch_token existing_endpoint; mret (Some s)
  | Token existing_context =>
      t ← st_ask now;
      if TokenContext.is_valid existing_context t then mret None
      else s ← fetch_token (Some (tk_api_endpoint (tc_token existing_context))); mret (Some s)
  | Backoff until existing_endpoint =>
      t ← st_ask now;
      if t <=? until then mret None
      else s ← fetch_token existing_endpoint; mret (Some s)
  | NodeReassigned => mret None
  end.

Definition with_token {A} (func : TokenContext → ST W ErrorKind A) : ST (TokenState * W) ErrorKind A :=
  λ '(state, w),
    match advance_state state w with
    | (Err e, w) => (Err e, (state, w))
    | (Panic m, w) => (Panic m, (state, w))
    | (Ok new_state, w) =>
        let state := default state new_state in
        match state with
        | NoToken => (Panic "Can't be in NoToken state after advancing", (state, w))
        | Token token_context => let '(r, w) := func token_context w in (r, (state, w))
        | Failed (Some e) ep => (Err e, (Failed None ep, w))
        | Failed None ep => (Panic "called `Option::unwrap()` on a `None` value", (state, w))
        | NodeReassigned => (Err StorageResetError, (state, w))
        | Backoff remaining _ => (Err (BackoffError remaining), (state, w))
        end
    end.

Definition hashed_uid : ST (TokenState * W) ErrorKind string :=
  with_token (λ ctx, mret (tk_hashed_fxa_uid (tc_token ctx))).

Definition authorization `{!UrlLib, !HawkClient W} (req : Request) : ST (TokenState * W) ErrorKind string :=
  with_token (λ ctx, TokenContext.authorization ctx req).

Definition api_endpoint : ST (TokenState * W) ErrorKind string :=
  with_token (λ ctx, mret (tk_api_endpoint (tc_token ctx))).
End provider.
End TokenProviderImpl.

(** ** Counting the requests to the token server *)
Section counted.
Context {W : Type}.

Definition counted_fetcher (F : TokenFetcher W) : TokenFetcher (W * nat) := {|
  fetch_token := λ '(w, n), let '(r, w) := fetch_token w in (r, (w, S n));
  now := λ '(w, n), let '(t, w) := now w in (t, (w, n));
|}.
Definition counted_clock (C : Clock W) : Clock (W * nat) :=
  λ '(w, n), let '(t, w) := system_now w in (t, (w, n)).
End counted.

Section provider_lemmas.
Context `{!Hawk} {W : Type} `{!TokenFetcher W, !Clock W}.
Implicit Types (s : TokenState).

(** Whether a call has to ask the token server, at the time [t]. *)
Definition needs_fetch (s : TokenState) (t : Z) : bool :=
  match s with
  | NoToken | Failed _ _ => true
  | Token tc => negb (TokenContext.is_valid tc t)
  | Backoff until _ => negb (t <=? until)
  | NodeReassigned => false
  end.

(** The endpoint the provider has seen. *)
Definition endpoint_of (s : TokenState) : option string :=
  match s with
  | NoToken | NodeReassigned => None
  | Token tc => Some (tk_api_endpoint (tc_token tc))
  | Failed _ ep | Backoff _ ep => ep
  end.

(** The clock is read in the states that depend on it. *)
Definition read_clock (s : TokenState) (w : W) : Z * W :=
  match s with Token _ | Backoff _ _ => now w | _ => (0, w) end.

Lemma advance_state_spec s w :
  let '(t, w1) := read_clock s w in
  TokenProviderImpl.advance_state s w =
  if needs_fetch s t then (s' ← TokenProviderImpl.fetch_token (endpoint_of s); mret (Some s')) w1
  else (Ok None, w1).
Proof.
  destruct s; cbn [read_clock TokenProviderImpl.advance_state needs_fetch endpoint_of]; try done.
  all: unfold mbind, ST_bind, st_ask; destruct (now w) as [t w1].
  - by destruct (TokenContext.is_valid tc t).
  - by destruct (t <=? until).
Qed.

(** The states an attempt to fetch a token can end in. *)
Lemma fetch_token_states ep w s w' :
  TokenProviderImpl.fetch_token ep w = (Ok s, w') →
  (∃ tc, s = Token tc ∧ ∀ e, ep = Some e → tk_api_endpoint (tc_token tc) = e) ∨
  (s = NodeReassigned ∧ is_Some ep) ∨ (∃ e, s = Failed (Some e) ep) ∨ (∃ t, s = Backoff t ep).
Proof.
  unfold TokenProviderImpl.fetch_token. destruct (TokenProviderImpl.fetch_context w) as [[tc|e|m] w1]; [| |done].
  - destruct ep as [prev|]; [|intros [= <- _]; left; by exists tc].
    destruct (String.eqb_spec prev (tk_api_endpoint (tc_token tc))) as [->|Hne]; intros [= <- _].
    + left. exists tc. split; [done|]. by intros e [= <-].
    + right; left. by eauto.
  - intros Heq. right; right. destruct e; injection Heq as <- _; eauto.
Qed.

(** What a call leaves behind and what it used. *)
Lemma with_token_spec {A} (f : TokenContext → ST W ErrorKind A) s w r s' w' :
  TokenProviderImpl.with_token f (s, w) = (r, (s', w')) →
  (∀ e, endpoint_of s = Some e → s' = NodeReassigned ∨ endpoint_of s' = Some e) ∧
  (s = NodeReassigned → s' = NodeReassigned ∧ r = Err StorageResetError ∧ w' = w) ∧
  (is_ok r = true → ∃ tc w0 a, s' = Token tc ∧ f tc w0 = (Ok a, w') ∧ r = Ok a).
Proof.
  unfold TokenProviderImpl.with_token. pose proof (advance_state_spec s w) as Hadv.
  destruct (read_clock s w) as [t w1] eqn:Hclock. rewrite Hadv.
  destruct (needs_fetch s t) eqn:Hneed.
  - unfold mbind, ST_bind.
    destruct (TokenProviderImpl.fetch_token (endpoint_of s) w1) as [[s1|e|m] w2] eqn:Hf.
    + unfold mret, ST_ret, from_option, id.
      apply fetch_token_states in Hf as
        [(tc & -> & Hep)|[[-> Hsome]|[[e ->]|[u ->]]]].
      * destruct (f tc w2) as [r1 w3] eqn:Hfun. intros [= <- <- <-].
        split; [intros e He; right; cbn; f_equal; by apply Hep|]. split; [by intros ->|].
        destruct r1 as [a|e|m]; try done. intros _. by exists tc, w2, a.
      * intros [= <- <- <-]. split; [auto|]. split; [by intros ->|done].
      * intros [= <- <- <-]. split; [auto|]. split; [by intros ->|done].
      * intros [= <- <- <-]. split; [auto|]. split; [by intros ->|done].
    + intros [= <- <- <-]. split; [auto|]. split; [by intros ->|done].
    + intros [= <- <- <-]. split; [auto|]. split; [by intros ->|done].
  - destruct s as [|tc|e ep|u ep|]; cbn in Hneed, Hclock; try done.
    + cbn. destruct (f tc w1) as [r1 w3] eqn:Hfun. intros [= <- <- <-]. split; [auto|]. split; [done|].
      destruct r1 as [a|e|m]; try done. intros _. by exists tc, w1, a.
    + intros [= <- <- <-]. split; [auto|]. split; [done|done].
    + injection Hclock as _ <-. intros [= <- <- <-]. by split_and!.
Qed.

(** The token a call may use: the one the provider has, if the clock says that it is still valid,
    or one that is fetched now. *)
Definition current (s : TokenState) (tc : TokenContext) : Prop :=
  (s = Token tc ∧ ∃ w : W, TokenContext.is_valid tc (fst (now w)) = true) ∨
  ∃ w w' : W, TokenProviderImpl.fetch_context w = (Ok tc, w').
Lemma current_trans s tc tc' : current s tc → current (Token tc) tc' → current s tc'.
Proof. intros H1 [[[= <-] _]|H2]; [done|by right]. Qed.

Lemma fetch_token_context ep w tc w' :
  TokenProviderImpl.fetch_token ep w = (Ok (Token tc), w') → TokenProviderImpl.fetch_context w = (Ok tc, w').
Proof.
  unfold TokenProviderImpl.fetch_token. destruct (TokenProviderImpl.fetch_context w) as [[tc1|e|m] w1]; [|by destruct e|done].
  destruct ep as [prev|]; [destruct (String.eqb _ _)|]; congruence.
Qed.
Lemma with_token_current {A} (f : TokenContext → ST W ErrorKind A) s w a s' w' :
  TokenProviderImpl.with_token f (s, w) = (Ok a, (s', w')) →
  ∃ tc w0, s' = Token tc ∧ current s tc ∧ f tc w0 = (Ok a, w').
Proof.
  unfold TokenProviderImpl.with_token. pose proof (advance_state_spec s w) as Hadv.
  destruct (read_clock s w) as [t w1] eqn:Hclock. rewrite Hadv. destruct (needs_fetch s t) eqn:Hneed.
  - unfold mbind, ST_bind. destruct (TokenProviderImpl.fetch_token (endpoint_of s) w1) as [[s1|e|m] w2] eqn:Hf; [|done..].
    unfold mret, ST_ret, from_option, id. destruct s1 as [|tc|[e|] ep|u ep|]; try done.
    destruct (f tc w2) as [r1 w3] eqn:Hfun. intros [= -> <- <-]. exists tc, w2. split; [done|]. split; [|done].
    right. exists w1, w2. by eapply fetch_token_context.
  - unfold from_option. destruct s as [|tc|[e|] ep|u ep|]; try done.
    destruct (f tc w1) as [r1 w3] eqn:Hfun. intros [= -> <- <-]. exists tc, w1. split; [done|]. split; [|done].
    left. split; [done|]. exists w. cbn in Hclock, Hneed. rewrite Hclock. by apply negb_false_iff in Hneed.
Qed.

(** A sequence of calls, with the token context each successful one used. *)
Fixpoint run_calls {A} (fs : list (TokenContext → ST W ErrorKind A)) (st : TokenState * W)
    : list (res ErrorKind (TokenContext * A)) * (TokenState * W) :=
  match fs with
  | [] => ([], st)
  | f :: fs =>
      let '(r, st) := TokenProviderImpl.with_token (λ ctx, a ← f ctx; mret (ctx, a)) st in
      let '(rs, st) := run_calls fs st in
      (r :: rs, st)
  end.

(** The successful calls all used tokens of the endpoint [e]. *)
Definition uses_endpoint {A} (e : string) (rs : list (res ErrorKind (TokenContext * A))) : Prop :=
  ∀ ctx a, Ok (ctx, a) ∈ rs → tk_api_endpoint (tc_token ctx) = e.

Lemma with_token_ctx {A} (f : TokenContext → ST W ErrorKind A) s w ctx a s' w' :
  TokenProviderImpl.with_token (λ ctx, a ← f ctx; mret (ctx, a)) (s, w) = (Ok (ctx, a), (s', w')) →
  s' = Token ctx.
Proof.
  intros (_ & _ & Hok)%with_token_spec. destruct (Hok eq_refl) as (tc & w0 & p & -> & Hf & Heq).
  unfold mbind, ST_bind, mret, ST_ret in Hf. destruct (f tc w0) as [[x|x|x] w1]; by simplify_eq/=.
Qed.

Lemma run_calls_endpoint {A} (fs : list (TokenContext → ST W ErrorKind A)) s w e :
  endpoint_of s = Some e ∨ s = NodeReassigned → uses_endpoint e (run_calls fs (s, w)).1.
Proof.
  revert s w. induction fs as [|f fs IH]; intros s w Hs; [intros ? ?; set_solver|]. cbn [run_calls].
  destruct (TokenProviderImpl.with_token _ (s, w)) as [r [s' w']] eqn:Hw.
  pose proof (with_token_spec _ _ _ _ _ _ Hw) as (Hep & Hdead & _).
  assert (Hs' : endpoint_of s' = Some e ∨ s' = NodeReassigned).
  { destruct Hs as [Hs|Hs]; [destruct (Hep e Hs); by auto|]. right. by apply Hdead. }
  specialize (IH s' w' Hs'). destruct (run_calls fs (s', w')) as [rs st]. cbn in *.
  intros ctx a [<-|Hin]%elem_of_cons; [|by eapply IH].
  apply with_token_ctx in Hw as ->. destruct Hs' as [[= ?]|?]; done.
Qed.
End provider_lemmas.

(** ** Theorems *)
Section theorems.
Context `{!Hawk} {W : Type} {F : TokenFetcher W} {C : Clock W}.

(** The server's tokens and the clock stay clear of the end of time. *)
Definition fetcher_sane : Prop :=
  (∀ w m, (fetch_token w).1 ≠ Panic m) ∧
  (∀ w r w', fetch_token w = (Ok r, w') → tk_duration (tf_token r) < 2 ^ 62) ∧
  (∀ w, (system_now w).1 < 2 ^ 62 * NANOS) ∧
  (∀ k m, hawk_key_new k ≠ Panic m).

Lemma fetch_context_total w m : fetcher_sane → (TokenProviderImpl.fetch_context w).1 ≠ Panic m.
Proof.
  intros (Hf & Hd & Hc & Hk). unfold TokenProviderImpl.fetch_context, mbind, ST_bind, st_ask, st_lift.
  specialize (Hf w). specialize (Hd w). destruct (fetch_token w) as [[r|e|m'] w1]; [|done|by destruct (Hf m')].
  specialize (Hc w1). destruct (system_now w1) as [t w2]. cbn in Hc.
  unfold time_add. specialize (Hd r w1 eq_refl).
  destruct (Z.leb_spec (2 ^ 63 * NANOS) (t + tk_duration (tf_token r) * NANOS)); [unfold NANOS in *; lia|].
  specialize (Hk (as_bytes (tk_key (tf_token r)))).
  destruct (hawk_key_new _) as [k|e|m']; cbn; [done..|by destruct (Hk m')].
Qed.

(** Whatever state it is in, the token provider does not panic: after advancing it is
    never without a token and without a reason, and the error of a failed fetch is there to
    be returned. *)
Theorem token_provider_never_panics {A} (f : TokenContext → ST W ErrorKind A) s (w : W) m :
  fetcher_sane → (∀ tc w m, (f tc w).1 ≠ Panic m) →
  (TokenProviderImpl.with_token f (s, w)).1 ≠ Panic m.
Proof.
  intros Hsane Hf. unfold TokenProviderImpl.with_token. pose proof (advance_state_spec s w) as Hadv.
  destruct (read_clock s w) as [t w1] eqn:Hclock. rewrite Hadv.
  destruct (needs_fetch s t) eqn:Hneed.
  - unfold mbind, ST_bind.
    destruct (TokenProviderImpl.fetch_token (endpoint_of s) w1) as [[s1|e|m'] w2] eqn:Hft.
    + unfold mret, ST_ret, from_option, id.
      apply fetch_token_states in Hft as [(tc & -> & _)|[[-> _]|[[e ->]|[u ->]]]]; try done.
      specialize (Hf tc w2 m). by destruct (f tc w2).
    + done.
    + exfalso. unfold TokenProviderImpl.fetch_token in Hft.
      pose proof (fetch_context_total w1 m' Hsane) as Hp.
      destruct (TokenProviderImpl.fetch_context w1) as [[tc|e|m2] w3]; cbn in Hp.
      * by repeat case_match.
      * by destruct e.
      * by injection Hft as -> ->.
  - destruct s as [|tc|e ep|u ep|]; try done. cbn. specialize (Hf tc w1 m). by destruct (f tc w1).
Qed.


Local Existing Instances counted_fetcher counted_clock.

Lemma fetch_token_counts ep w n :
  (TokenProviderImpl.fetch_token ep (w, n)).2.2 = S n.
Proof.
  unfold TokenProviderImpl.fetch_token, TokenProviderImpl.fetch_context, mbind, ST_bind, st_ask, st_lift.
  cbn [fetch_token counted_fetcher]. destruct (fetch_token w) as [[r|e|m] w1]; [|by destruct e|done].
  unfold system_now, counted_clock. destruct (system_now w1) as [t w2].
  destruct (time_add _ _) as [u|e|m]; [|by destruct e|done].
  destruct (hawk_key_new _) as [k|e|m]; cbn; [by repeat case_match|done|done].
Qed.

(** A call asks the token server exactly once if there is no token, the last attempt
    failed, the token has expired or a back-off period is over, and otherwise not at all: a
    back-off is enforced up to and including its end, with the error that announced it, and
    a token that is used without asking has not expired. *)
Theorem token_fetched_only_when_needed {A} (f : TokenContext → ST (W * nat) ErrorKind A) s w n r s' w' n' :
  (∀ tc w n, (f tc (w, n)).2.2 = n) →
  TokenProviderImpl.with_token f (s, (w, n)) = (r, (s', (w', n'))) →
  let t := (read_clock s (w, n)).1 in
  n' = (if needs_fetch s t then S n else n) ∧
  (needs_fetch s t = false →
     s' = s ∧
     match s with
     | Token tc => t < tc_valid_until tc
     | Backoff until _ => r = Err (BackoffError until) ∧ t ≤ until
     | _ => r = Err StorageResetError
     end).
Proof.
  intros Hf. unfold TokenProviderImpl.with_token. pose proof (advance_state_spec s (w, n)) as Hadv.
  destruct (read_clock s (w, n)) as [t [w1 n1]] eqn:Hclock. rewrite Hadv. cbn [fst].
  assert (n1 = n) as ->.
  { destruct s; cbn in Hclock; try (by injection Hclock as _ _ <-).
    all: by destruct (now w); injection Hclock as _ _ <-. }
  destruct (needs_fetch s t) eqn:Hneed.
  - unfold mbind, ST_bind. pose proof (fetch_token_counts (endpoint_of s) w1 n) as Hcnt.
    destruct (TokenProviderImpl.fetch_token (endpoint_of s) (w1, n)) as [[s1|e|m] [w2 n2]]; cbn in Hcnt; subst n2.
    + unfold mret, ST_ret, from_option, id. intros Heq. split; [|done].
      destruct s1 as [|tc|[e|] ep|u ep|]; try (by injection Heq as _ _ _ <-).
      specialize (Hf tc w2 (S n)). destruct (f tc (w2, S n)) as [r1 [w3 n3]]. by injection Heq as _ _ _ <-.
    + by intros [= _ _ _ <-].
    + by intros [= _ _ _ <-].
  - unfold from_option. destruct s as [|tc|e ep|u ep|]; try done.
    + specialize (Hf tc w1 n). destruct (f tc (w1, n)) as [r1 [w3 n3]]. cbn in Hf. subst n3.
      intros [= _ <- _ <-]. split; [done|]. intros _. split; [done|].
      cbn in Hneed. unfold TokenContext.is_valid in Hneed. apply negb_false_iff, Z.ltb_lt in Hneed. done.
    + intros [= <- <- _ <-]. split; [done|]. intros _. split; [done|]. split; [done|].
      cbn in Hneed. by apply negb_false_iff, Z.leb_le in Hneed.
    + intros [= <- <- _ <-]. by split.
Qed.
End theorems.

Section overflow.
Context `{!Hawk} {W : Type} {F : TokenFetcher W} {C : Clock W}.

(** A token whose duration runs past the last representable time makes the client panic
    instead of failing: the server's number is added to the current time unchecked. *)
Theorem huge_token_duration_panics {A} (f : TokenContext → ST W ErrorKind A) w r w1 t w2 :
  fetch_token w = (Ok r, w1) → system_now w1 = (t, w2) →
  2 ^ 63 * NANOS ≤ t + tk_duration (tf_token r) * NANOS →
  ∃ m, (TokenProviderImpl.with_token f (TokenProviderImpl.new, w)).1 = Panic m.
Proof.
  intros Hf Hc Hd. unfold TokenProviderImpl.with_token, TokenProviderImpl.advance_state, TokenProviderImpl.new,
    TokenProviderImpl.fetch_token, TokenProviderImpl.fetch_context, mbind, ST_bind, st_ask, st_lift.
  rewrite Hf, Hc. unfold time_add. rewrite (proj2 (Z.leb_le _ _)) by done. by eexists.
Qed.
End overflow.

(** ** Witnesses: a token server that moves the account after the first token *)
Module ToyToken.
#[export] Instance toy_hawk : Hawk := {| HawkKey := bytes; hawk_key_new := Ok |}.

Definition token (ep : string) (duration : Z) : TokenserverToken := mkTokenserverToken "id" "key" ep 1 duration "uid".

(** The world is the time in seconds; each look at the clock or the server takes a while. *)
#[export] Instance toy_fetcher : TokenFetcher nat := {|
  fetch_token w := (Ok (mkTokenFetchResult (token (if Nat.leb w 10 then "node1" else "node2") 300) ts_default), (w + 1)%nat);
  now w := (Z.of_nat w * NANOS, (w + 200)%nat);
|}.
#[export] Instance toy_clock : Clock nat := λ w, (Z.of_nat (w `mod` 1000)%nat * NANOS, w).

Definition ret_endpoint {W} (tc : TokenContext) : ST W ErrorKind string := mret (tk_api_endpoint (tc_token tc)).

Lemma toy_sane : fetcher_sane.
Proof.
  split; [done|]. split; [by intros w r w' [= <- _]|]. split; [|done].
  intros w. cbn. pose proof (Nat.mod_upper_bound w 1000). unfold NANOS. lia.
Qed.

Lemma token_provider_never_panics_witness :
  (TokenProviderImpl.with_token ret_endpoint (Failed None None, 0%nat)).1 = Ok "node1"%string ∧
  ∀ m, (TokenProviderImpl.with_token ret_endpoint (Failed None None, 0%nat)).1 ≠ Panic m.
Proof. split; [vm_compute; reflexivity|]. intros m. apply (token_provider_never_panics ret_endpoint); [apply toy_sane|discriminate]. Defined.

(** Three calls with the first token; when it has expired the server names another node. *)
Definition calls : list (TokenContext → ST nat ErrorKind string) := replicate 5 ret_endpoint.
Lemma toy_run :
  (λ r, match r with Ok (_, e) => inl e | Err e => inr e | Panic _ => inl ""%string end)
    <$> (run_calls calls (TokenProviderImpl.new, 0%nat)).1 = [inl "node1"%string; inl "node1"%string; inl "node1"%string; inr StorageResetError; inr StorageResetError].
Proof. vm_compute. reflexivity. Qed.

Local Existing Instances counted_fetcher counted_clock.

Lemma token_fetched_only_when_needed_witness :
  TokenProviderImpl.with_token ret_endpoint (Backoff (5 * NANOS) None, (4%nat, 0%nat)) =
  (Err (BackoffError (5 * NANOS)), (Backoff (5 * NANOS) None, (204%nat, 0%nat))).
Proof.
  destruct (TokenProviderImpl.with_token ret_endpoint (Backoff (5 * NANOS) None, (4%nat, 0%nat)))
    as [r [s' [w' n']]] eqn:Hrun.
  destruct (token_fetched_only_when_needed ret_endpoint _ _ _ _ _ _ _ ltac:(reflexivity) Hrun) as [-> Hnot].
  destruct (Hnot eq_refl) as [-> [-> _]].
  vm_compute in Hrun. injection Hrun as <-. reflexivity.
Defined.

Definition huge_fetcher : TokenFetcher nat := {|
  fetch_token w := (Ok (mkTokenFetchResult (token "node1" (2 ^ 64 - 1)) ts_default), w);
  now w := (0, w);
|}.

Lemma huge_token_duration_panics_witness :
  ∃ m, (TokenProviderImpl.with_token (TokenFetcher0:=huge_fetcher) ret_endpoint (TokenProviderImpl.new, 0%nat)).1 = Panic m.
Proof.
  eapply (huge_token_duration_panics (F:=huge_fetcher) ret_endpoint 0%nat); [reflexivity|reflexivity|vm_compute; discriminate].
Defined.
End ToyToken.
