(* ===== verification/Client.v ===== *)
(** * The storage client

    Model of [components/sync15/src/client.rs] and of the URL building and response parsing
    of [components/sync15/src/request.rs]: how the operations that the state machines and the
    upload queue rely on (the classes [SetupStorageClient] of [State.v] and [StorageClient] of
    [Changeset.v]) are made of authorised HTTP requests. *)

From S2P Require Import Prelude Sync15Types KeyBundle Bso PostQueue State CollState Changeset Viaduct Token.
From stdpp Require Import pretty.
Local Open Scope Z_scope.
Local Open Scope list_scope.

(** ** Code outside the repository *)

(** [serde_json::from_slice] and [serde_json::to_vec] at a type. *)
Class FromSlice (T : Type) := from_slice : bytes → res string T.
Class ToVec (T : Type) := to_vec : T → res string bytes.

(** [Display] of an [f64]. *)
Class FmtF64 := fmt_f64 : Util.f64 → string.
Definition fmt_ts `{!FmtF64} (t : ServerTimestamp) : string := fmt_f64 (ts t).

(** ** request.rs: URLs and responses *)
Section urls.
Context `{!UrlLib, !FmtF64, !ParseF64}.

Definition opt_pair {A} (o : option A) (f : A → string * string) : list (string * string) :=
  match o with Some a => [f a] | None => [] end.

(** The pairs that [build_query] appends, in order. *)
Definition build_query (self : CollectionRequest) : list (string * string) :=
  (if cr_full self then [("full", "1")] else [])%string
  ++ (if 0 <? cr_limit self then [("limit"%string, pretty (cr_limit self))] else [])
  ++ opt_pair (cr_ids self) (λ ids, ("ids", String.concat "," ids))%string
  ++ opt_pair (cr_batch self) (λ batch, ("batch"%string, batch))
  ++ (if cr_commit self then [("commit", "true")] else [])%string
  ++ opt_pair (cr_older self) (λ t, ("older"%string, fmt_ts t))
  ++ opt_pair (cr_newer self) (λ t, ("newer"%string, fmt_ts t))
  ++ opt_pair (cr_order self) (λ o, ("sort"%string, order_to_string o)).

Definition build_url (self : CollectionRequest) (base_url : Url) : res ErrorKind Url :=
  base_url ← ok_or (UnacceptableUrl "Storage server URL is not a base")
               (url_extend_segments base_url ["storage"%string; cr_collection self]);
  let base_url := url_append_pairs base_url (build_query self) in
  Ok (if bool_decide (url_query base_url = Some ""%string) then url_clear_query base_url else base_url).

Context `{!FromSlice UploadResult}.

Definition from_response (r : Response) : res ErrorKind PostResponse :=
  result ← map_err JsonError (from_slice (rs_body r));
  last_modified ← ok_or MissingServerTimestamp
                    (mkServerTimestamp <$> Headers.try_get parse_f64 X_LAST_MODIFIED (rs_headers r));
  Ok (mkPostResponse (rs_status r) result last_modified).
End urls.

Section init.
Context `{!UrlLib}.

Record Sync15StorageClientInit := mkSync15StorageClientInit {
  si_key_id : string;
  si_access_token : string;
  si_tokenserver_url : Url;
}.

(** The derived [PartialEq]. *)
Definition init_eqb (a b : Sync15StorageClientInit) : bool :=
  String.eqb (si_key_id a) (si_key_id b) && String.eqb (si_access_token a) (si_access_token b)
  && url_eqb (si_tokenserver_url a) (si_tokenserver_url b).
End init.

(** ** The client

    The token provider of the struct is the first component of the state; [W] is the rest of
    the world. *)
Module Sync15StorageClient.
Section client.
Context `{!UrlLib, !Hawk, !FmtF64, !ParseF64}.
Context {W : Type} `{!Http W, !TokenFetcher W, !Clock W, !HawkClient W}.

(** A call that does not involve the token. *)
Definition outside {A} (c : ST W ErrorKind A) : ST (TokenState * W) ErrorKind A :=
  λ '(s, w), let '(r, w) := c w in (r, (s, w)).

Definition authorized (req : Request) : ST (TokenState * W) ErrorKind Request :=
  hawk_header_value ← TokenProviderImpl.authorization req;
  st_lift (from_viaduct (Request.header AUTHORIZATION hawk_header_value req)).

Definition build_request (method : Method) (url : Url) : ST (TokenState * W) ErrorKind Request :=
  req ← st_lift (from_viaduct (Request.header ACCEPT "application/json" (Request.new method url)));
  authorized req.

Definition exec_request (req : Request) (require_success : bool) : ST (TokenState * W) ErrorKind Response :=
  resp ← outside (st_map_err (λ e, RequestError (viaduct_display e)) (send req));
  if require_success && negb (Response.is_success resp)
  then st_err (StorageHttpError (rs_status resp) (url_path (rs_url resp)))
  else mret resp.

Definition make_storage_request {T} `{!FromSlice T} (method : Method) (url : Url)
    : ST (TokenState * W) ErrorKind (Sync15ClientResponse T) :=
  req ← build_request method url;
  resp ← exec_request req false;
  let route := url_path (rs_url resp) in
  if Response.is_success resp then
    record ← st_lift (map_err JsonError (from_slice (rs_body resp)));
    last_modified ← st_lift (ok_or MissingServerTimestamp
      (Headers.get X_LAST_MODIFIED (rs_headers resp) ≫= λ s,
         match parse_f64 s with Ok f => Some (mkServerTimestamp f) | _ => None end));
    mret (Success record last_modified route)
  else
    let status := rs_status resp in
    mret (if status =? 404 then NotFound route
          else if status =? 401 then Unauthorized route
          else if (500 <=? status) && (status <=? 600) then ServerError route status
          else RequestFailed route status).

Definition relative_storage_request {T} `{!FromSlice T} (method : Method) (relative_path : string)
    : ST (TokenState * W) ErrorKind (Sync15ClientResponse T) :=
  endpoint ← TokenProviderImpl.api_endpoint;
  base ← st_lift (map_err MalformedUrl (url_parse (endpoint +:+ "/")));
  url ← st_lift (map_err MalformedUrl (url_join base relative_path));
  make_storage_request method url.

Definition collection_request {T} `{!FromSlice T} (method : Method) (r : CollectionRequest)
    : ST (TokenState * W) ErrorKind (Sync15ClientResponse T) :=
  endpoint ← TokenProviderImpl.api_endpoint;
  base ← st_lift (map_err MalformedUrl (url_parse endpoint));
  url ← st_lift (build_url r base);
  make_storage_request method url.

(** [put]: the bytes are those of [serde_json::to_vec] on the body. *)
Definition put (relative_path : string) (xius : ServerTimestamp) (body : res string bytes)
    : ST (TokenState * W) ErrorKind unit :=
  endpoint ← TokenProviderImpl.api_endpoint;
  base ← st_lift (map_err MalformedUrl (url_parse (endpoint +:+ "/")));
  url ← st_lift (map_err MalformedUrl (url_join base relative_path));
  req ← build_request Method.Put url;
  req ← st_lift (Request.json body req);
  req ← st_lift (from_viaduct (Request.header X_IF_UNMODIFIED_SINCE (fmt_ts xius) req));
  _ ← exec_request req true;
  mret tt.

Definition wipe_all_remote : ST (TokenState * W) ErrorKind unit :=
  s ← TokenProviderImpl.api_endpoint;
  url ← st_lift (map_err MalformedUrl (url_parse s));
  req ← build_request Method.Delete url;
  st_match (exec_request req true) (λ r,
    match r with
    | Ok _ => Ok tt
    | Err e => if is_not_found e then Ok tt else Err e
    | Panic m => Panic m
    end).

Context `{!FromSlice InfoConfiguration, !FromSlice InfoCollections, !FromSlice (BsoRecord MetaGlobalRecord)}.
Context `{!FromSlice EncryptedBso, !FromSlice (list EncryptedBso), !FromSlice UploadResult}.
Context `{!ToVec (BsoRecord MetaGlobalRecord), !ToVec EncryptedBso}.

Definition fetch_meta_global : ST (TokenState * W) ErrorKind (Sync15ClientResponse MetaGlobalRecord) :=
  got ← relative_storage_request (T:=BsoRecord MetaGlobalRecord) Method.Get "storage/meta/global";
  mret (match got with
        | Success record last_modified route => Success (bso_payload record) last_modified route
        | NotFound route => NotFound route
        | Unauthorized route => Unauthorized route
        | ServerError route status => ServerError route status
        | RequestFailed route status => RequestFailed route status
        end).

#[export] Instance setup_client : SetupStorageClient (TokenState * W) := {|
  fetch_info_configuration := relative_storage_request Method.Get "info/configuration";
  fetch_info_collections := relative_storage_request Method.Get "info/collections";
  State.fetch_meta_global := fetch_meta_global;
  fetch_crypto_keys := relative_storage_request Method.Get "storage/crypto/keys";
  put_meta_global xius global :=
    let bso := BsoRecord.new_record "global" "meta" global in
    put "storage/meta/global" xius (to_vec bso);
  put_crypto_keys xius keys := put "storage/crypto/keys" xius (to_vec keys);
  State.wipe_all_remote := wipe_all_remote;
|}.

Definition get_encrypted_records (r : CollectionRequest)
    : ST (TokenState * W) ErrorKind (Sync15ClientResponse (list EncryptedBso)) :=
  collection_request Method.Get r.

(** [PostWrapper::post]. *)
Definition post_wrapper (coll : string) : BatchPoster (TokenState * W) :=
  λ body xius batch commit,
    endpoint ← TokenProviderImpl.api_endpoint;
    base ← st_lift (map_err MalformedUrl (url_parse endpoint));
    url ← st_lift (build_url (CollectionRequest.commit commit
                     (CollectionRequest.batch batch (CollectionRequest.new coll))) base);
    req ← build_request Method.Post url;
    req ← st_lift (from_viaduct (Request.header CONTENT_TYPE "application/json" req));
    req ← st_lift (from_viaduct (Request.header X_IF_UNMODIFIED_SINCE (fmt_ts xius) req));
    let req := Request.body body req in
    resp ← exec_request req false;
    st_lift (from_response resp).

#[export] Instance storage_client : StorageClient (TokenState * W) := {|
  Changeset.get_encrypted_records := get_encrypted_records;
  post_to := post_wrapper;
|}.

Definition hashed_uid : ST (TokenState * W) ErrorKind string := TokenProviderImpl.hashed_uid.
End client.
End Sync15StorageClient.

(** ** Observing the requests *)
Section logged.
Context `{!UrlLib, !Hawk} {W : Type}.

Definition logged_http (S : Http W) : Http (W * list Request) :=
  λ req '(w, log), let '(r, w) := send req w in (r, (w, log ++ [req])).
Definition quiet_fetcher (F : TokenFetcher W) : TokenFetcher (W * list Request) := {|
  fetch_token := λ '(w, log), let '(r, w) := fetch_token w in (r, (w, log));
  now := λ '(w, log), let '(t, w) := now w in (t, (w, log));
|}.
Definition quiet_clock (C : Clock W) : Clock (W * list Request) :=
  λ '(w, log), let '(t, w) := system_now w in (t, (w, log)).
Definition quiet_hawk (C : HawkClient W) : HawkClient (W * list Request) :=
  λ m h p q c '(w, log), let '(r, w) := make_header m h p q c w in (r, (w, log)).
End logged.

Section built.
Context `{!UrlLib, !Hawk, !FmtF64, !ParseF64}.
Context {W : Type} `{!Http W, !TokenFetcher W, !Clock W, !HawkClient W}.

(** The request [build_request] makes with the token of the state [s]: its credentials are
    for this request. *)
Definition built (s : TokenState) (method : Method) (url : Url) (req : Request) : Prop :=
  ∃ tc (w1 : W) v w2, s = Token tc ∧ TokenContext.authorization tc req w1 = (Ok v, w2) ∧
    req = mkRequest method url
      [mkHeader (mkHeaderName "accept") "application/json"; mkHeader (mkHeaderName "authorization") (trim v)] None.

Lemma build_request_built method url st req st' :
  Sync15StorageClient.build_request method url st = (Ok req, st') →
  built st'.1 method url req ∧ ∃ tc, st'.1 = Token tc ∧ current (W:=W) st.1 tc.
Proof.
  unfold Sync15StorageClient.build_request, Sync15StorageClient.authorized, mbind, ST_bind.
  unfold st_lift at 1.
  assert (Hacc : from_viaduct (Request.header ACCEPT "application/json" (Request.new method url)) =
    Ok (mkRequest method url [mkHeader (mkHeaderName "accept") "application/json"] None)) by done.
  rewrite Hacc. destruct st as [s w].
  destruct (TokenProviderImpl.authorization _ (s, w)) as [[v|e|m] [s1 w1]] eqn:Hauth; [|done..].
  apply with_token_current in Hauth as (tc & w0 & -> & Hcur & Hv).
  unfold st_lift, Request.header, Headers.insert. cbn [rq_headers Headers.upsert].
  change (arg_eq AUTHORIZATION _) with false.
  unfold Header.new, arg_into, AUTHORIZATION. cbn [mbind res_bind].
  destruct (is_valid_header_value (trim v)); [|done]. intros [= <- <-]. cbn. split; [|by exists tc].
  by exists tc, w0, v, w1.
Qed.
End built.

Section sends.
Context `{!UrlLib, !Hawk, !FmtF64, !ParseF64}.
Context {W : Type} {S : Http W} {F : TokenFetcher W} {C : Clock W} {HC : HawkClient W}.
Local Existing Instances logged_http quiet_fetcher quiet_clock quiet_hawk.
Abbreviation World := (TokenState * (W * list Request))%type.

(** [c] makes no storage request; it also leaves the token alone; run from [st] it makes no request,
    or one that satisfies [Q] with the state of the token at the end. *)
Definition quiet {A} (c : ST World ErrorKind A) : Prop :=
  ∀ s w log, (c (s, (w, log))).2.2.2 = log.
Definition still {A} (c : ST World ErrorKind A) : Prop :=
  ∀ s w log, (c (s, (w, log))).2.1 = s ∧ (c (s, (w, log))).2.2.2 = log.
Definition sends (Q : TokenState → Request → Prop) {A} (c : ST World ErrorKind A) (st : World) : Prop :=
  (c st).2.2.2 = st.2.2 ∨ ∃ req, (c st).2.2.2 = st.2.2 ++ [req] ∧ Q (c st).2.1 req.

Lemma still_lift {A} (r : res ErrorKind A) : still (st_lift r).
Proof. done. Qed.
Lemma still_ret {A} (a : A) : still (mret a).
Proof. done. Qed.
Lemma still_bind {A B} (c : ST World ErrorKind A) (k : A → ST World ErrorKind B) :
  still c → (∀ a, still (k a)) → still (c ≫= k).
Proof.
  intros Hc Hk s w log. specialize (Hc s w log). unfold mbind, ST_bind.
  destruct (c (s, (w, log))) as [[a|e|m] [s1 [w1 log1]]]; cbn in *; destruct Hc as [-> ->]; [apply Hk|done..].
Qed.

Lemma quiet_lift {A} (r : res ErrorKind A) : quiet (st_lift r).
Proof. done. Qed.
Lemma quiet_ret {A} (a : A) : quiet (mret a).
Proof. done. Qed.
Lemma quiet_err {A} e : quiet (st_err (A:=A) e).
Proof. done. Qed.
Lemma quiet_bind {A B} (c : ST World ErrorKind A) (k : A → ST World ErrorKind B) :
  quiet c → (∀ a, quiet (k a)) → quiet (c ≫= k).
Proof.
  intros Hc Hk s w log. specialize (Hc s w log). unfold mbind, ST_bind.
  destruct (c (s, (w, log))) as [[a|e|m] [s1 [w1 log1]]]; cbn in *; subst; [apply Hk|done..].
Qed.

Lemma quiet_with_token {A} (f : TokenContext → ST (W * list Request) ErrorKind A) :
  (∀ tc w log, (f tc (w, log)).2.2 = log) → quiet (TokenProviderImpl.with_token f).
Proof.
  intros Hf s w log. unfold TokenProviderImpl.with_token.
  assert (Hft : ∀ ep w, (TokenProviderImpl.fetch_token ep (w, log)).2.2 = log).
  { intros ep w0. unfold TokenProviderImpl.fetch_token, TokenProviderImpl.fetch_context, mbind, ST_bind, st_ask, st_lift.
    cbn [fetch_token quiet_fetcher]. destruct (fetch_token w0) as [[r|e|m] w1]; [|by destruct e|done].
    unfold system_now, quiet_clock. destruct (system_now w1) as [t w2].
    destruct (time_add _ _) as [u|e|m]; [|by destruct e|done].
    destruct (hawk_key_new _) as [k|e|m]; cbn; [by repeat case_match|done|done]. }
  pose proof (advance_state_spec s (w, log)) as Hadv.
  destruct (read_clock s (w, log)) as [t [w1 log1]] eqn:Hclock. rewrite Hadv.
  assert (log1 = log) as ->.
  { destruct s; cbn in Hclock; try (by injection Hclock as _ _ <-).
    all: by destruct (now w); injection Hclock as _ _ <-. }
  destruct (needs_fetch s t).
  - unfold mbind, ST_bind. specialize (Hft (endpoint_of s) w1).
    destruct (TokenProviderImpl.fetch_token (endpoint_of s) (w1, log)) as [[s1|e|m] [w2 log2]]; cbn in Hft; subst log2; [|done..].
    unfold mret, ST_ret, from_option, id. destruct s1 as [|tc|[e|] ep|u ep|]; try done.
    specialize (Hf tc w2 log). by destruct (f tc (w2, log)) as [? [? ?]].
  - unfold from_option. destruct s as [|tc|[e|] ep|u ep|]; try done.
    specialize (Hf tc w1 log). by destruct (f tc (w1, log)) as [? [? ?]].
Qed.

Lemma quiet_endpoint : quiet TokenProviderImpl.api_endpoint.
Proof. by apply quiet_with_token. Qed.

Lemma quiet_authorization req : quiet (TokenProviderImpl.authorization req).
Proof.
  apply quiet_with_token. intros tc w log.
  unfold TokenContext.authorization, mbind, ST_bind, st_lift, st_map_err, make_header, quiet_hawk.
  destruct (ok_or _ (url_host_str _)); [|done..]. destruct (ok_or _ (url_port_or_known_default _)); [|done..].
  destruct (make_header _ _ _ _ _ w) as [[]  ?]; done.
Qed.

Lemma sends_quiet_bind Q {A B} (c : ST World ErrorKind A) (k : A → ST World ErrorKind B) st :
  quiet c → (∀ a st', c st = (Ok a, st') → sends Q (k a) st') → sends Q (c ≫= k) st.
Proof.
  destruct st as [s [w log]]. intros Hc Hk. specialize (Hc s w log). unfold sends, mbind, ST_bind.
  destruct (c (s, (w, log))) as [[a|e|m] [s1 [w1 log1]]] eqn:Heq; cbn in *; subst; [|by left..]. by apply (Hk a _ eq_refl).
Qed.
Lemma sends_lift_bind Q {A B} (r : res ErrorKind A) (k : A → ST World ErrorKind B) st :
  (∀ a, r = Ok a → sends Q (k a) st) → sends Q (st_lift r ≫= k) st.
Proof. intros Hk. destruct r as [a|e|m]; [by apply Hk|by left..]. Qed.

Lemma sends_bind_still Q {A B} (c : ST World ErrorKind A) (k : A → ST World ErrorKind B) st :
  sends Q c st → (∀ a, still (k a)) → sends Q (c ≫= k) st.
Proof.
  intros Hc Hk. unfold sends, mbind, ST_bind in *.
  destruct (c st) as [[a|e|m] [s1 [w1 log1]]]; cbn in *; [|done..].
  destruct (Hk a s1 w1 log1) as [Hs Hl]. destruct (k a (s1, (w1, log1))) as [r [s2 [w2 log2]]]. cbn in *. by subst.
Qed.

Lemma sends_exec (Q : TokenState → Request → Prop) req b st :
  Q st.1 req → sends Q (Sync15StorageClient.exec_request req b) st.
Proof.
  intros HQ. apply sends_bind_still.
  - destruct st as [s [w log]]. unfold sends, Sync15StorageClient.outside, st_map_err, send, logged_http.
    destruct (send req w) as [r w1]. right. by exists req.
  - intros resp. by destruct (b && _).
Qed.

Lemma quiet_build_request method url : quiet (Sync15StorageClient.build_request method url).
Proof.
  apply quiet_bind; [apply quiet_lift|intros req].
  apply quiet_bind; [apply quiet_authorization|intros v; apply quiet_lift].
Qed.
End sends.

(** ** Theorems *)
Section theorems.
Context `{!UrlLib, !Hawk, !FmtF64, !ParseF64}.
Context {W : Type} {S : Http W} {F : TokenFetcher W} {C : Clock W} {HC : HawkClient W}.
Context {T : Type} `{!FromSlice T, !FromSlice (list EncryptedBso), !FromSlice UploadResult}.
Local Existing Instances logged_http quiet_fetcher quiet_clock quiet_hawk.

(** The calls of the client that make storage requests. *)
Inductive storage_call :=
| CGet (path : string)
| CRecords (r : CollectionRequest)
| CPut (path : string) (xius : ServerTimestamp) (body : res string bytes)
| CWipe
| CPost (coll : string) (body : bytes) (xius : ServerTimestamp) (batch : option string) (commit : bool).

Definition run_call (k : storage_call) : ST (TokenState * (W * list Request)) ErrorKind unit :=
  match k with
  | CGet path => _ ← Sync15StorageClient.relative_storage_request (T:=T) Method.Get path; mret tt
  | CRecords r => _ ← Sync15StorageClient.get_encrypted_records r; mret tt
  | CPut path xius body => Sync15StorageClient.put path xius body
  | CWipe => Sync15StorageClient.wipe_all_remote
  | CPost coll body xius batch commit =>
      _ ← Sync15StorageClient.post_wrapper coll body xius batch commit; mret tt
  end.

(** The request carries the credentials that the token of the state [s'] gives for it, and that
    token is current: the one of the state [s] before the call, still valid, or a new one. *)
Definition authorised (s s' : TokenState) (req : Request) : Prop :=
  Headers.get ACCEPT (rq_headers req) = Some "application/json"%string ∧
  ∃ tc (w1 : W * list Request) v w2, s' = Token tc ∧ current (W:=W * list Request) s tc ∧
    TokenContext.authorization tc req w1 = (Ok v, w2) ∧ Headers.get AUTHORIZATION (rq_headers req) = Some (trim v).

(** The request carries a JSON body on the condition that the resource has not changed
    since [xius]. *)
Definition conditional (xius : ServerTimestamp) (body : bytes) (req : Request) : Prop :=
  rq_body req = Some body ∧
  Headers.get CONTENT_TYPE (rq_headers req) = Some "application/json"%string ∧
  Headers.get X_IF_UNMODIFIED_SINCE (rq_headers req) = Some (trim (fmt_ts xius)).

Definition expected (k : storage_call) (req : Request) : Prop :=
  match k with
  | CGet _ | CRecords _ => rq_method req = Method.Get ∧ rq_body req = None
  | CWipe => rq_method req = Method.Delete ∧ rq_body req = None
  | CPut _ xius body => rq_method req = Method.Put ∧ ∃ b, body = Ok b ∧ conditional xius b req
  | CPost coll body xius batch commit =>
      rq_method req = Method.Post ∧ conditional xius body req ∧
      ∃ base, build_url (mkCollectionRequest coll false None 0 None None None commit batch) base = Ok (rq_url req)
  end.

(** The state of the provider after a call that got a token. *)
Definition has_current (s s' : TokenState) : Prop := ∃ tc, s' = Token tc ∧ current (W:=W * list Request) s tc.
Lemma endpoint_current (st st' : TokenState * (W * list Request)) ep : TokenProviderImpl.api_endpoint st = (Ok ep, st') → has_current st.1 st'.1.
Proof.
  destruct st as [s w], st' as [s' w']. intros (tc & w0 & -> & Hcur & _)%with_token_current. by exists tc.
Qed.
Lemma current_built s (st st' : TokenState * (W * list Request)) method url req :
  has_current s st.1 → Sync15StorageClient.build_request method url st = (Ok req, st') →
  built (W:=W * list Request) st'.1 method url req ∧ has_current s st'.1.
Proof.
  intros (tc & Htc & Hcur) [Hb (tc' & Htc' & Hcur')]%build_request_built. split; [done|]. exists tc'. split; [done|].
  rewrite Htc in Hcur'. by eapply current_trans.
Qed.
(** Headers are added to a request that was built; its credentials are still for it. *)
Lemma built_authorised s s' method url req hs b :
  built (W:=W * list Request) s' method url req → has_current s s' →
  authorised s s' (mkRequest method url (rq_headers req ++ hs) b).
Proof.
  intros (tc & w1 & v & w2 & -> & Hv & ->) (tc' & [= <-] & Hcur). split; [done|]. exists tc, w1, v, w2. split_and!; [done..|exact Hv|done].
Qed.
Lemma built_authorised_as_is s s' method url req :
  built (W:=W * list Request) s' method url req → has_current s s' → authorised s s' req.
Proof.
  intros Hb Hcur. pose proof (built_authorised s s' method url req [] (rq_body req) Hb Hcur) as Ha.
  by destruct Hb as (? & ? & ? & ? & _ & _ & ->).
Qed.

Lemma make_storage_request_sends {T'} `{!FromSlice T'} s method url (st : TokenState * (W * list Request)) (Q : TokenState → Request → Prop) :
  has_current s st.1 →
  (∀ s' req, built (W:=W * list Request) s' method url req → has_current s s' → Q s' req) →
  sends Q (Sync15StorageClient.make_storage_request (T:=T') method url) st.
Proof.
  intros Hst HQ. apply sends_quiet_bind; [apply quiet_build_request|intros req st' [Hb Hst']%(current_built s); [|done]].
  apply sends_bind_still; [apply sends_exec; by apply HQ|intros resp].
  destruct (Response.is_success resp); [|apply still_ret].
  apply still_bind; [apply still_lift|intros rec]. apply still_bind; [apply still_lift|intros lm; apply still_ret].
Qed.

(** Adding the content type and the timestamp to a request. *)
Lemma conditional_headers method url v xius b req' :
  let req := mkRequest method url
    [mkHeader (mkHeaderName "accept") "application/json"; mkHeader (mkHeaderName "authorization") v;
     mkHeader (mkHeaderName "content-type") "application/json"] b in
  Request.header X_IF_UNMODIFIED_SINCE (fmt_ts xius) req = Ok req' →
  req' = mkRequest method url (rq_headers req ++ [mkHeader (mkHeaderName "x-if-unmodified-since") (trim (fmt_ts xius))]) b.
Proof.
  cbn zeta. unfold Request.header, Headers.insert. cbn [rq_headers Headers.upsert].
  change (arg_eq X_IF_UNMODIFIED_SINCE _) with false.
  unfold Header.new, arg_into, X_IF_UNMODIFIED_SINCE. cbn [mbind res_bind].
  destruct (is_valid_header_value (trim (fmt_ts xius))); [|done]. by intros [= <-].
Qed.

Lemma put_sends path xius body st :
  sends (λ s' req, authorised st.1 s' req ∧ expected (CPut path xius body) req) (Sync15StorageClient.put path xius body) st.
Proof.
  apply sends_quiet_bind; [apply quiet_endpoint|intros ep st1 Hst%endpoint_current].
  do 2 (apply sends_lift_bind; intros ? _).
  apply sends_quiet_bind; [apply quiet_build_request|intros req st2 [Hb Hst2]%(current_built st.1); [|done]].
  pose proof Hb as (tc & w1 & v & w2 & _ & _ & ->).
  apply sends_lift_bind. intros req1 Hj. destruct body as [b|e|m]; [|done..]. injection Hj as <-.
  apply sends_lift_bind. intros req2 Hx.
  unfold from_viaduct in Hx. destruct (Request.header _ _ _) as [req3|e|m] eqn:Hh; [|done..].
  injection Hx as <-. apply conditional_headers in Hh as ->.
  apply sends_bind_still; [|intros; apply still_ret]. apply sends_exec. split.
  - exact (built_authorised _ _ _ _ _
      [mkHeader (mkHeaderName "content-type") "application/json"; mkHeader (mkHeaderName "x-if-unmodified-since") (trim (fmt_ts xius))] _ Hb Hst2).
  - split; [done|]. by exists b.
Qed.

Lemma post_sends coll body xius batch commit st :
  sends (λ s' req, authorised st.1 s' req ∧ expected (CPost coll body xius batch commit) req)
    (Sync15StorageClient.post_wrapper coll body xius batch commit) st.
Proof.
  apply sends_quiet_bind; [apply quiet_endpoint|intros ep st1 Hst%endpoint_current].
  apply sends_lift_bind. intros base _. apply sends_lift_bind. intros url Hurl.
  apply sends_quiet_bind; [apply quiet_build_request|intros req st2 [Hb Hst2]%(current_built st.1); [|done]].
  pose proof Hb as (tc & w1 & v & w2 & _ & _ & ->).
  apply sends_lift_bind. intros req1 Hj. injection Hj as <-. apply sends_lift_bind. intros req2 Hx.
  unfold from_viaduct in Hx. destruct (Request.header _ _ _) as [req3|e|m] eqn:Hh; [|done..].
  injection Hx as <-. apply conditional_headers in Hh as ->.
  apply sends_bind_still; [|intros; apply still_lift]. apply sends_exec. split.
  - exact (built_authorised _ _ _ _ _
      [mkHeader (mkHeaderName "content-type") "application/json"; mkHeader (mkHeaderName "x-if-unmodified-since") (trim (fmt_ts xius))] _ Hb Hst2).
  - split; [done|]. split; [done|]. by exists base.
Qed.

Lemma run_call_sends k st : sends (λ s' req, authorised st.1 s' req ∧ expected k req) (run_call k) st.
Proof.
  assert (Hplain : ∀ s s' method url req, built (W:=W * list Request) s' method url req → has_current s s' →
    authorised s s' req ∧ rq_method req = method ∧ rq_body req = None).
  { intros s s' method url req Hb Hcur. split; [by eapply built_authorised_as_is|]. by destruct Hb as (? & ? & ? & ? & _ & _ & ->). }
  destruct k as [path|r|path xius body| |coll body xius batch commit]; cbn [run_call].
  - apply sends_bind_still; [|intros; apply still_ret].
    apply sends_quiet_bind; [apply quiet_endpoint|intros ep st1 Hst%endpoint_current].
    do 2 (apply sends_lift_bind; intros ? _).
    eapply make_storage_request_sends; [done|]. intros s' req Hb Hcur. exact (Hplain _ _ _ _ _ Hb Hcur).
  - apply sends_bind_still; [|intros; apply still_ret].
    apply sends_quiet_bind; [apply quiet_endpoint|intros ep st1 Hst%endpoint_current].
    do 2 (apply sends_lift_bind; intros ? _).
    eapply make_storage_request_sends; [done|]. intros s' req Hb Hcur. exact (Hplain _ _ _ _ _ Hb Hcur).
  - apply put_sends.
  - apply sends_quiet_bind; [apply quiet_endpoint|intros ep st1 Hst%endpoint_current].
    apply sends_lift_bind. intros ? _.
    apply sends_quiet_bind; [apply quiet_build_request|intros req st2 [Hb Hst2]%(current_built st.1); [|done]].
    assert (Hs : sends (λ s' req, authorised st.1 s' req ∧ expected CWipe req) (Sync15StorageClient.exec_request req true) st2)
      by (apply sends_exec; by eapply Hplain).
    unfold sends, st_match in *. by destruct (Sync15StorageClient.exec_request req true st2).
  - apply sends_bind_still; [apply post_sends|intros; apply still_ret].
Qed.

(** C32: Every call of the storage client makes at most one storage request.  The request carries
    the Hawk header made for its own method, host, port and path with the credentials of the current token: the one
    the provider holds at the end of the call, which it held before and the clock found valid, or fetched during
    the call.  Only [wipe_all_remote] sends a DELETE;
    whatever is written (PUT or POST) is JSON sent on the condition that the server's copy
    has not changed since the caller's timestamp; and a batch upload names the batch and the
    commit in its URL. *)
Theorem storage_requests_are_authorised k s (w : W) r s' w' log' :
  run_call k (s, (w, [])) = (r, (s', (w', log'))) →
  (length log' ≤ 1)%nat ∧ Forall (λ req, authorised s s' req ∧ expected k req) log'.
Proof.
  intros Hrun. pose proof (run_call_sends k (s, (w, []))) as Hs. unfold sends in Hs. rewrite Hrun in Hs. cbn in Hs.
  destruct Hs as [->|(req & -> & Hq)]; split; try (cbn; lia); repeat constructor; apply Hq.
Qed.
End theorems.

(** ** Witness *)
Module ToyClient.
Import ToyToken.

#[export] Instance toy_url : UrlLib := {|
  Url := string;
  url_parse := Ok;
  url_join u p := Ok (u +:+ p);
  url_as_str u := u;
  url_eqb := String.eqb;
  url_path u := u;
  url_query _ := None;
  url_host_str _ := Some "host"%string;
  url_port_or_known_default _ := Some 443;
  url_pop_segment _ := None;
  url_extend_segments u l := Some (foldl (λ u p, u +:+ "/" +:+ p) u l);
  url_append_pairs u l := foldl (λ u '(k, v), u +:+ "&" +:+ k +:+ "=" +:+ v) u l;
  url_clear_query u := u;
|}.
#[export] Instance toy_http : Http nat :=
  λ req w, (Ok (mkResponse (rq_method req) (rq_url req) 200 [mkHeader (mkHeaderName "x-last-modified") "0"] []), w).
#[export] Instance toy_hawk_client : HawkClient nat := λ _ _ _ _ _ w, (Ok "mac"%string, w).
#[export] Instance toy_fmt : FmtF64 := λ _, "12.34"%string.
#[export] Instance toy_parse : ParseF64 := λ _, Ok (Util.f64_of_Z 0).
#[export] Instance toy_upload_result : FromSlice UploadResult := λ _, Ok (mkUploadResult None ∅ []).
#[export] Instance toy_records : FromSlice (list EncryptedBso) := λ _, Ok [].
#[export] Instance toy_unit : FromSlice unit := λ _, Ok tt.
Local Existing Instances logged_http quiet_fetcher quiet_clock quiet_hawk.

Definition call : storage_call := CPost "bookmarks" (as_bytes "[]") ts_default (Some "true"%string) true.
Definition posted : Request :=
  mkRequest Method.Post ("node1/storage/bookmarks&batch=true&commit=true"%string : Url)
    [mkHeader (mkHeaderName "accept") "application/json"; mkHeader (mkHeaderName "authorization") "Hawk mac";
     mkHeader (mkHeaderName "content-type") "application/json";
     mkHeader (mkHeaderName "x-if-unmodified-since") "12.34"] (Some (as_bytes "[]")).

Lemma storage_requests_are_authorised_witness :
  ∃ s', (run_call (T:=unit) call (NoToken, (0%nat, []))).2.1 = s' ∧
    (run_call (T:=unit) call (NoToken, (0%nat, []))).2.2.2 = [posted] ∧ authorised NoToken s' posted ∧ expected call posted.
Proof.
  assert (Hlog : (run_call (T:=unit) call (NoToken, (0%nat, []))).2.2.2 = [posted]) by (vm_compute; reflexivity).
  destruct (run_call (T:=unit) call (NoToken, (0%nat, []))) as [r [s' [w' log']]] eqn:Hrun. cbn in Hlog. subst log'.
  destruct (storage_requests_are_authorised (T:=unit) call _ _ _ _ _ _ Hrun) as [_ Hall].
  exists s'. split; [reflexivity|]. split; [reflexivity|]. by inversion Hall.
Defined.
End ToyClient.
