(* ===== verification/Sync.v ===== *)
(** * Synchronising stores

    Model of [synchronize] ([components/sync15/src/sync.rs]) and of [sync_multiple]
    ([components/sync15/src/sync_multiple.rs]), which put the state machines, the changesets
    and the stores together.  Telemetry, which only counts, is left out. *)

From S2P Require Import Prelude Sync15Types KeyBundle Bso PostQueue State CollState Changeset Viaduct Token Client.
Local Open Scope Z_scope.
Local Open Scope list_scope.

(** ** sync.rs *)
Section synchronize.
Context {W : Type} `{!StorageClient W, !Interruptee W, !Rand W}.
Context `{!SerdeJson, !Crypto, !Serde Payload, !Serde EncryptedPayload, !RecordWriter}.
Context `{!Store W}.
Context (debug : bool).

(** [IncomingChangeset::fetch] on the local [coll_state]. *)
Definition fetch_into (coll_state : CollState) (r : CollectionRequest)
    : ST W ErrorKind (IncomingChangeset * CollState) :=
  λ w, let '(o, (coll_state, w)) := IncomingChangeset_fetch collection_name r (coll_state, w) in
       ((λ c, (c, coll_state)) <$> o, w).

Definition synchronize (global_state : GlobalState) (fully_atomic : bool) : ST W ErrorKind unit :=
  coll_state ← LocalCollStateMachine.get_state global_state;
  match coll_state with
  | None => mret tt
  | Some coll_state =>
      collection_request ← store_call get_collection_request;
      _ ← err_if_interrupted;
      '(incoming_changes, coll_state) ← fetch_into coll_state collection_request;
      _ ← st_lift (rassert (ts_eqb (rc_timestamp incoming_changes) (cl_last_modified coll_state))
                     "assertion failed: `(left == right)`");
      let new_timestamp := rc_timestamp incoming_changes in
      outgoing ← store_call (apply_incoming incoming_changes);
      _ ← err_if_interrupted;
      let outgoing := mkRecordChangeset (rc_changes outgoing) new_timestamp (rc_collection outgoing) in
      let coll_state := mkCollState (cl_config coll_state) new_timestamp (cl_key coll_state) in
      update ← CollectionUpdate.new_from_changeset coll_state outgoing fully_atomic;
      upload_info ← CollectionUpdate.upload debug update;
      store_call (sync_finished (ui_modified_timestamp upload_info) (ui_successful_ids upload_info))
  end.
End synchronize.

(** ** sync_multiple.rs *)

(** [serde_json] on the persisted state. *)
Class PgsSerde := {
  pgs_to_string : PersistedGlobalState → res string string;
  pgs_from_str : string → res string PersistedGlobalState;
}.

Section multiple.
Context `{!UrlLib}.
(** The client ([Sync15StorageClient], with its token state) and its operations. *)
Context {Cl W : Type}.
Context `{!SetupStorageClient (Cl * W), !StorageClient (Cl * W), !Interruptee (Cl * W), !Rand (Cl * W)}.
Context `{!Interruptee W}.
Context (client_new : Sync15StorageClientInit → res ErrorKind Cl).
Context (hashed_uid : ST (Cl * W) ErrorKind string).
Context `{!UrlSafeBase64, !SerdeJson, !Crypto, !Serde Payload, !Serde CryptoKeysRecord}.
Context `{!Serde EncryptedPayload, !RecordWriter, !PgsSerde}.
Context (debug : bool).

Record ClientInfo := mkClientInfo {
  ci_client_init : Sync15StorageClientInit;
  ci_client : Cl;
}.

Record MemoryCachedState := mkMemoryCachedState {
  last_client_info : option ClientInfo;
  last_global_state : option GlobalState;
}.

(** What the function updates: the caller's two variables and the world. *)
Record SyncState := mkSyncState {
  ss_persisted : option string;
  ss_mem : MemoryCachedState;
  ss_world : W;
}.

(** The loop over the stores; the accumulator holds the failures. *)
Fixpoint sync_stores (global_state : GlobalState) (stores : list (Store (Cl * W)))
    (failures : gmap string ErrorKind) : ST (Cl * W) ErrorKind (gmap string ErrorKind) :=
  match stores with
  | [] => mret failures
  | store :: stores =>
      failures ← st_match (synchronize (Store0:=store) debug global_state true) (λ result,
        match result with
        | Ok _ => Ok failures
        | Err e => Ok (<[collection_name (Store:=store) := e]> failures)
        | Panic m => Panic m
        end);
      _ ← err_if_interrupted;
      sync_stores global_state stores failures
  end.

Definition parse_persisted (persisted : option string) : PersistedGlobalState :=
  match persisted with
  | Some s => match pgs_from_str s with Ok state => state | _ => PersistedGlobalState_default end
  | None => PersistedGlobalState_default
  end.

(** The client to use: the cached one unless the parameters changed. *)
Definition pick_client (cached : option ClientInfo) (storage_init : Sync15StorageClientInit)
    : res ErrorKind ClientInfo :=
  match cached with
  | Some client_info =>
      if negb (init_eqb (ci_client_init client_info) storage_init) then
        client ← client_new storage_init; Ok (mkClientInfo storage_init client)
      else Ok client_info
  | None => client ← client_new storage_init; Ok (mkClientInfo storage_init client)
  end.

(** From the setup of the global state on; the cached state has been taken out already, and
    is put back by the last lines only. *)
Definition sync_with_client (stores : list (Store (Cl * W))) (root_sync_key : KeyBundle)
    (persisted : option string) (pgs0 : PersistedGlobalState) (last_state : option GlobalState)
    (init : Sync15StorageClientInit) (client : Cl) (w : W)
    : res ErrorKind (gmap string ErrorKind) * SyncState :=
  let none := mkMemoryCachedState None None in
  match SetupStateMachine.run_to_ready root_sync_key last_state
          (SetupStateMachine.for_full_sync pgs0, (client, w)) with
  | None => (Panic "run_to_ready: out of fuel", mkSyncState persisted none w)
  | Some (Err e, (_, (_, w))) => (Err e, mkSyncState persisted none w)
  | Some (Panic m, (_, (_, w))) => (Panic m, mkSyncState persisted none w)
  | Some (Ok state, (machine, (client, w))) =>
      match pgs_to_string (pgs machine) with
      | Err e => (Err (JsonError e), mkSyncState persisted none w)
      | Panic m => (Panic m, mkSyncState persisted none w)
      | Ok s =>
          let persisted := Some s in
          let '(r, (client, w)) :=
            (_ ← hashed_uid; sync_stores state stores ∅) (client, w) in
          match r with
          | Err e => (Err e, mkSyncState persisted none w)
          | Panic m => (Panic m, mkSyncState persisted none w)
          | Ok failures =>
              let mem :=
                if negb (bool_decide (failures = ∅))
                then mkMemoryCachedState (Some (mkClientInfo init client)) (Some state)
                else none in
              (Ok failures, mkSyncState persisted mem w)
          end
      end
  end.

Definition sync_multiple (stores : list (Store (Cl * W))) (storage_init : Sync15StorageClientInit)
    (root_sync_key : KeyBundle) (st : SyncState)
    : res ErrorKind (gmap string ErrorKind) * SyncState :=
  let '(r, w) := err_if_interrupted (ss_world st) in
  match r with
  | Err e => (Err e, mkSyncState (ss_persisted st) (ss_mem st) w)
  | Panic m => (Panic m, mkSyncState (ss_persisted st) (ss_mem st) w)
  | Ok _ =>
      let pgs := parse_persisted (ss_persisted st) in
      let mem := mkMemoryCachedState None (last_global_state (ss_mem st)) in
      match pick_client (last_client_info (ss_mem st)) storage_init with
      | Err e => (Err e, mkSyncState (ss_persisted st) mem w)
      | Panic m => (Panic m, mkSyncState (ss_persisted st) mem w)
      | Ok client_info =>
          let '(r, w) := err_if_interrupted w in
          match r with
          | Err e => (Err e, mkSyncState (ss_persisted st) mem w)
          | Panic m => (Panic m, mkSyncState (ss_persisted st) mem w)
          | Ok _ =>
              sync_with_client stores root_sync_key (ss_persisted st) pgs
                (last_global_state mem) (ci_client_init client_info) (ci_client client_info) w
          end
      end
  end.
End multiple.

(** ** What a synchronisation does

    The calls a store receives and, between them, the records posted to the server; the
    incoming changes are logged with their timestamp and the answer of the store. *)
Inductive StoreEvent `{!SerdeJson} :=
| SAssoc
| SReset (a : StoreSyncAssociation)
| SRequest
| SApply (timestamp : ServerTimestamp) (answer : res string OutgoingChangeset)
| SPost (collection : string) (p : Post)
| SFinished (timestamp : ServerTimestamp) (ids : list string).

Section logged_store.
Context {W : Type} `{!SerdeJson}.
Abbreviation L := (list StoreEvent).

Definition log_call {A} (ev : res string A → StoreEvent) (c : ST W string A) : ST (W * L) string A :=
  λ '(w, log), let '(r, w) := c w in (r, (w, log ++ [ev r])).
Definition no_log {E A} (c : ST W E A) : ST (W * L) E A :=
  λ '(w, log), let '(r, w) := c w in (r, (w, log)).

Definition logged_store (S : Store W) : Store (W * L) := {|
  collection_name := collection_name (Store:=S);
  apply_incoming inc := log_call (SApply (rc_timestamp inc)) (apply_incoming inc);
  sync_finished t ids := log_call (λ _, SFinished t ids) (sync_finished t ids);
  get_collection_request := log_call (λ _, SRequest) get_collection_request;
  get_sync_assoc := log_call (λ _, SAssoc) get_sync_assoc;
  reset a := log_call (λ _, SReset a) (reset a);
  wipe := no_log wipe;
|}.
Definition logged_client (C : StorageClient W) : StorageClient (W * L) := {|
  get_encrypted_records r := no_log (get_encrypted_records r);
  post_to coll := λ body xius batch commit '(w, log),
    let '(r, w) := post_to coll body xius batch commit w in
    (r, (w, log ++ [SPost coll (mkPost body xius batch commit r)]));
|}.
Definition store_interruptee (I : Interruptee W) : Interruptee (W * L) :=
  λ '(w, log), let '(b, w) := was_interrupted w in (b, (w, log)).
Definition store_rand (R : Rand W) : Rand (W * L) := λ n, no_log (rand_fill n).
End logged_store.

Section store_trace.
Context {W : Type} {C : StorageClient W} {I : Interruptee W} {R : Rand W}.
Context `{!SerdeJson, !Crypto, !Serde Payload, !Serde EncryptedPayload, !RecordWriter}.
Context {S : Store W}.
Context (debug : bool).
Local Existing Instances logged_store logged_client store_interruptee store_rand.
Abbreviation World := (W * list StoreEvent)%type.

(** The events and the outcome of [c] satisfy [X]. *)
Definition traces {E B} (X : list StoreEvent → res E B → Prop) (c : ST World E B) : Prop :=
  ∀ w log, ∃ evs, (c (w, log)).2.2 = log ++ evs ∧ X evs (c (w, log)).1.
(** [c] causes exactly the events [evs]. *)
Definition emits (evs : list StoreEvent) {E A} (c : ST World E A) : Prop :=
  traces (λ evs' _, evs' = evs) c.

Lemma traces_bind {E A B} Y X (c : ST World E A) (k : A → ST World E B) :
  traces Y c → (∀ evs o o', Y evs o → is_ok o = false → is_ok o' = false → X evs o') →
  (∀ evs a, Y evs (Ok a) → traces (λ evs' o, X (evs ++ evs') o) (k a)) → traces X (c ≫= k).
Proof.
  intros Hc Hfail Hk w log. destruct (Hc w log) as (evs & Hlog & HY). unfold mbind, ST_bind.
  destruct (c (w, log)) as [[a|e|m] [w1 log1]]; cbn in *; subst.
  - destruct (Hk evs a HY w1 (log ++ evs)) as (evs' & Heq & HX). exists (evs ++ evs'). by rewrite Heq, <-app_assoc.
  - exists evs. split; [done|]. by eapply Hfail.
  - exists evs. split; [done|]. by eapply Hfail.
Qed.
Lemma traces_weaken {E A} Y X (c : ST World E A) : traces Y c → (∀ evs o, Y evs o → X evs o) → traces X c.
Proof. intros Hc HX w log. destruct (Hc w log) as (evs & ? & ?). eauto. Qed.
(** What is known of a run may be used in the description of its outcome. *)
Lemma traces_run {E A} Y (c : ST World E A) :
  traces Y c → traces (λ evs o, Y evs o ∧ ∃ wl wl', c wl = (o, wl')) c.
Proof.
  intros Hc w log. destruct (Hc w log) as (evs & Hlog & HY). exists evs. split; [done|]. split; [done|].
  destruct (c (w, log)) as [o wl'] eqn:Hrun. by eexists _, _.
Qed.

Lemma emits_no_log {E A} (c : ST W E A) : emits [] (no_log c).
Proof. intros w log. exists []. unfold no_log. destruct (c w). cbn. by rewrite app_nil_r. Qed.
Lemma emits_ret {E A} (a : A) : emits [] (mret (M:=ST World E) a).
Proof. intros w log. exists []. cbn. by rewrite app_nil_r. Qed.
Lemma emits_lift {E A} (r : res E A) : emits [] (st_lift r).
Proof. intros w log. exists []. cbn. by rewrite app_nil_r. Qed.
Lemma emits_err {E A} (e : E) : emits [] (st_err (A:=A) e).
Proof. intros w log. exists []. cbn. by rewrite app_nil_r. Qed.
Lemma emits_bind {E A B} (c : ST World E A) (k : A → ST World E B) :
  emits [] c → (∀ a, emits [] (k a)) → emits [] (c ≫= k).
Proof.
  intros Hc Hk. eapply traces_bind; [exact Hc|by intros ? ? ? ->|]. cbn. intros ? a ->. apply Hk.
Qed.
Lemma traces_store_call {A} ev (c : ST W string A) :
  traces (λ evs o, ∃ r, evs = [ev r] ∧ ∀ a, o = Ok a → r = Ok a) (store_call (log_call ev c)).
Proof.
  intros w log. unfold store_call, st_map_err, log_call. destruct (c w) as [r w1]. exists [ev r].
  split; [done|]. exists r. split; [done|]. destruct r; cbn; naive_solver.
Qed.
Lemma emits_store_call ev {A} (c : ST W string A) : emits [ev] (store_call (log_call (λ _, ev) c)).
Proof. eapply traces_weaken; [apply traces_store_call|]. by intros ? ? (? & -> & _). Qed.
Lemma emits_interrupted : emits [] err_if_interrupted.
Proof.
  intros w log. exists []. unfold err_if_interrupted, was_interrupted, store_interruptee.
  destruct (was_interrupted w) as [b w1]. cbn. by rewrite app_nil_r.
Qed.

Lemma emits_fetch cs r : emits [] (fetch_into cs r).
Proof.
  intros w log. exists []. unfold fetch_into, IncomingChangeset_fetch. cbn [get_encrypted_records logged_client]. unfold no_log.
  destruct (get_encrypted_records r w) as [[[]|e|m] w1]; cbn; by rewrite app_nil_r.
Qed.

Lemma emits_encrypt coll key ps : emits [] (encrypt_changes (W:=World) coll key ps).
Proof.
  induction ps as [|p ps IH]; cbn [encrypt_changes]; [apply emits_ret|].
  apply emits_bind; [|intros r; apply emits_bind; [apply IH|intros rs; apply emits_ret]].
  apply emits_bind; [|intros; apply emits_ret].
  apply emits_bind; [apply emits_lift|intros ct].
  apply emits_bind; [|intros [enc iv]; apply emits_bind; [apply emits_lift|intros; apply emits_ret]].
  intros w log. exists []. unfold KeyBundle.encrypt_bytes_rand_iv, rand_fill, store_rand, no_log.
  destruct (rand_fill 16 w) as [[] ?]; cbn; by rewrite app_nil_r.
Qed.

Lemma emits_new_from_changeset cs out atomic :
  emits [] (CollectionUpdate.new_from_changeset (W:=World) cs out atomic).
Proof.
  unfold CollectionUpdate.new_from_changeset. destruct (ts_ltb _ _); [apply emits_err|].
  apply emits_bind; [apply emits_encrypt|intros; apply emits_ret].
Qed.

Lemma new_from_changeset_inv cs out atomic wl u wl' :
  CollectionUpdate.new_from_changeset (W:=World) cs out atomic wl = (Ok u, wl') →
  ∃ rs, u = CollectionUpdate.new cs (rc_collection out) (rc_timestamp out) rs atomic ∧
    OutgoingChangeset_encrypt out (cl_key cs) wl = (Ok rs, wl').
Proof.
  unfold CollectionUpdate.new_from_changeset. destruct (ts_ltb _ _); [done|].
  unfold mbind, ST_bind. destruct (OutgoingChangeset_encrypt _ _ wl) as [[rs| |] ?]; [|done..].
  intros [= <- <-]. by exists rs.
Qed.

(** The requests [posts], conditional on the timestamp [t], carry the records [rs] within the
    limits (an atomic upload all of them, any other those that are not too large); [ts] is the
    timestamp of the last reply and [ids] are the ids the replies acknowledge. *)
Definition uploaded (cfg : InfoConfiguration) (atomic : bool) (t : ServerTimestamp) (rs : list EncryptedBso)
    (posts : list Post) (ts : ServerTimestamp) (ids : list string) : Prop :=
  (∃ groups, Forall2 (post_ok cfg) posts groups ∧ List.concat groups = if atomic then rs else sendable cfg rs) ∧
  (∃ b, conversation t posts ts b) ∧ ids = posts ≫= reply_success ∧
  (atomic = true → posts ≫= reply_failed = []).

(** The requests of an upload are the events it causes. *)
Lemma traces_upload u :
  traces (λ evs o, ∃ posts, evs = SPost (cu_collection u) <$> posts ∧
    ∃ w w', CollectionUpdate.upload_with debug (BP:=logged (post_to (cu_collection u))) u (w, []) = (o, (w', posts)))
    (CollectionUpdate.upload debug u).
Proof.
  intros w log.
  destruct (upload_with_sims (P1:=post_to (cu_collection u)) (P2:=logged (post_to (cu_collection u)))
    (λ (wl : World) (wp : W * list Post), wl.1 = wp.1 ∧ wl.2 = log ++ (SPost (cu_collection u) <$> wp.2)) debug)
    with (u := u) (w1 := (w, log)) (w2 := (w, @nil Post)) as [Hr [Hw Hl]].
  - intros body xius b c [w1 l] [w2 posts] [Hw Hl]. cbn in Hw, Hl. subst. unfold logged. cbn [post_to logged_client fst snd].
    destruct (post_to _ _ _ _ _ w2) as [r w3]. cbn. by rewrite fmap_app, app_assoc.
  - split; [done|]. cbn. by rewrite app_nil_r.
  - unfold CollectionUpdate.upload. rewrite Hr, Hl. eexists. split; [done|]. eexists. split; [done|].
    eexists _, _. by rewrite <-!surjective_pairing.
Qed.

Lemma uploaded_intro u w info w' posts :
  poster_total (post_to (cu_collection u)) → cfg_ok (cl_config (cu_state u)) →
  CollectionUpdate.upload_with debug (BP:=logged (post_to (cu_collection u))) u (w, []) = (Ok info, (w', posts)) →
  sane_records debug (cu_to_update u) →
  uploaded (cl_config (cu_state u)) (cu_fully_atomic u) (cu_xius u) (cu_to_update u) posts
    (ui_modified_timestamp info) (ui_successful_ids info).
Proof.
  intros HP Hcfg Hup Hsane. destruct (upload_with_spec debug u w _ _ _ HP Hcfg Hsane Hup) as (_ & _ & Hok).
  destruct (Hok info eq_refl) as (Hgs & Hids & Hfail & Hconv & Hat). split_and!; [done..|]. by rewrite <-Hfail.
Qed.

(** The calls of the collection state machine: a reset is with the sync ids of the server. *)
Definition setup_calls (gs : GlobalState) (evs : list StoreEvent) : Prop :=
  evs = [SAssoc] ∨ ∃ ids, wanted_ids gs collection_name = Some ids ∧ evs = [SAssoc; SReset (Connected ids)].

(** What one synchronisation does, and its outcome. *)
Inductive store_trace (gs : GlobalState) (atomic : bool) : list StoreEvent → res ErrorKind unit → Prop :=
| trace_setup setup o : setup_calls gs setup → is_ok o = false → store_trace gs atomic setup o
| trace_skipped : wanted_ids gs collection_name = None → store_trace gs atomic [SAssoc] (Ok tt)
| trace_requested setup o :
    setup_calls gs setup → is_ok o = false → store_trace gs atomic (setup ++ [SRequest]) o
| trace_applied setup t r o :
    setup_calls gs setup → is_ok o = false → store_trace gs atomic (setup ++ [SRequest; SApply t r]) o
| trace_posted setup t out posts o :
    setup_calls gs setup → is_ok o = false →
    store_trace gs atomic (setup ++ [SRequest; SApply t (Ok out)] ++ (SPost (rc_collection out) <$> posts)) o
| trace_finished setup t out rs (wl wl' : World) posts ts ids o :
    setup_calls gs setup →
    OutgoingChangeset_encrypt (mkRecordChangeset (rc_changes out) t (rc_collection out))
      (ck_default (gs_keys gs)) wl = (Ok rs, wl') →
    (sane_records debug rs → uploaded (gs_config gs) atomic t rs posts ts ids) →
    store_trace gs atomic
      (setup ++ [SRequest; SApply t (Ok out)] ++ (SPost (rc_collection out) <$> posts) ++ [SFinished ts ids]) o.

Lemma get_state_trace gs :
  traces (λ evs o, setup_calls gs evs ∧
    (o = Ok None → evs = [SAssoc] ∧ wanted_ids gs collection_name = None) ∧
    (∀ cs, o = Ok (Some cs) → cs = ready_state gs collection_name)) (LocalCollStateMachine.get_state (W:=World) gs).
Proof.
  match goal with |- traces ?X _ => enough (Hs : traces X (coll_state_spec (W:=World) gs))
    by (intros w log; rewrite get_state_spec; apply Hs) end.
  unfold coll_state_spec.
  eapply traces_bind; [apply emits_store_call| |].
  { cbn. intros ? ? o' -> _ Ho. split; [by left|]. by destruct o'. }
  cbn. intros ? assoc ->. destruct (wanted_ids gs _) as [ids|] eqn:Hids.
  2:{ intros w log. exists []. cbn. rewrite app_nil_r. split; [done|]. split; [by left|done]. }
  case_bool_decide.
  { intros w log. exists []. cbn. rewrite app_nil_r. split; [done|]. split; [by left|]. split; [done|]. by intros cs [= <-]. }
  assert (Hset : setup_calls gs [SAssoc; SReset (Connected ids)]) by (right; eauto).
  eapply traces_bind; [apply emits_store_call| |]; cbn.
  - intros ? ? o' -> _ Ho. split; [done|]. by destruct o'.
  - intros ? [] -> w log. exists []. cbn. rewrite app_nil_r. split; [done|]. split; [done|]. split; [done|]. by intros cs [= <-].
Qed.

Lemma fetch_into_config cs r inc cs' (wl wl' : World) :
  fetch_into cs r wl = (Ok (inc, cs'), wl') → cl_config cs' = cl_config cs ∧ cl_key cs' = cl_key cs.
Proof.
  unfold fetch_into, IncomingChangeset_fetch. destruct (get_encrypted_records r wl) as [[resp|e|m] w1]; cbn;
    [|done..]. destruct resp as [records t rt| | | |]; cbn; [|done..]. destruct (decrypt_records _ records); cbn; [|done..]. by intros [= <- <- <-].
Qed.

(** The end of a synchronisation, from the answer of the store on. *)
Lemma traces_upload_and_finish gs atomic setup t out cs :
  (∀ coll, poster_total (post_to (StorageClient:=C) coll)) → cfg_ok (gs_config gs) → setup_calls gs setup →
  cl_config cs = gs_config gs → cl_key cs = ck_default (gs_keys gs) →
  traces (λ evs o, store_trace gs atomic (setup ++ [SRequest; SApply t (Ok out)] ++ evs) o)
    (update ← CollectionUpdate.new_from_changeset cs (mkRecordChangeset (rc_changes out) t (rc_collection out)) atomic;
     upload_info ← CollectionUpdate.upload debug update;
     store_call (sync_finished (ui_modified_timestamp upload_info) (ui_successful_ids upload_info))).
Proof.
  intros HP Hcfg Hset Hc Hk.
  eapply traces_bind; [apply traces_run, emits_new_from_changeset| |].
  { intros ? ? o' [-> _] _ Ho. rewrite app_nil_r. by apply trace_applied. }
  intros ? u [-> (wl & wl' & (rs & -> & Henc)%new_from_changeset_inv)]. cbn [app].
  eapply traces_bind; [apply traces_upload| |].
  { intros ? ? o' (posts & -> & _) _ Ho. by apply trace_posted. }
  intros ? info (posts & -> & w & w' & Hup).
  eapply traces_weaken; [apply emits_store_call|]. cbn. intros ? o ->. rewrite Hk in Henc.
  eapply (trace_finished gs atomic setup t out rs wl wl'); [done|exact Henc|].
  rewrite <-Hc. apply (uploaded_intro (CollectionUpdate.new cs (rc_collection out) t rs atomic) w info w' posts);
    [apply HP|cbn; by rewrite Hc|exact Hup].
Qed.

(** C6: A synchronisation calls its store in a fixed order: the association, a reset to the
    server's sync ids if they differ, the request, the incoming changes, and at the very end,
    only after an upload that succeeded, [sync_finished].  The upload is what lies between
    those two calls in the log of the run: its requests, to the collection of the changes
    the store returned, are conditional on the timestamp [t] of the incoming changes and carry exactly
    the store's outgoing changes, encrypted with the default key, in requests within the
    limits; [sync_finished] gets the timestamp of the last reply ([t] when nothing had to be sent) and the
    ids the server acknowledged.  A synchronisation that did not get to [sync_finished]
    succeeds only if the collection is declined or unknown.  The server's limits must allow one record,
    the client must not panic, and the statement on the records is for records whose lengths are
    sane ([sane_records]: they can be serialised, their sum does not overflow, and in a debug build no payload is
    longer than its record). *)
Theorem sync_store_call_order gs atomic w o w' log' :
  (∀ coll, poster_total (post_to (StorageClient:=C) coll)) → cfg_ok (gs_config gs) →
  synchronize debug gs atomic (w, []) = (o, (w', log')) → store_trace gs atomic log' o.
Proof.
  intros HP Hcfg Heq.
  assert (Htr : traces (store_trace gs atomic) (synchronize (W:=World) debug gs atomic)).
  - unfold synchronize. eapply traces_bind; [apply get_state_trace| |].
    { intros ? ? o' [? _] _ Ho. by apply trace_setup. }
    intros setup [cs|] (Hset & Hnone & Hcs).
    2:{ destruct (Hnone eq_refl) as [-> Hw]. intros w1 log. exists []. cbn. rewrite app_nil_r. split; [done|by apply trace_skipped]. }
    specialize (Hcs cs eq_refl).
    eapply traces_bind; [apply emits_store_call|intros ? ? o' -> _ Ho; by apply trace_requested|intros ? req ->].
    eapply traces_bind; [apply emits_interrupted|intros ? ? o' -> _ Ho; by apply trace_requested|intros ? [] ->].
    eapply traces_bind; [apply traces_run, emits_fetch|intros ? ? o' [-> _] _ Ho; by apply trace_requested|].
    intros ? [inc cs1] [-> (wl & wl' & [Hc Hk]%fetch_into_config)].
    eapply traces_bind; [apply emits_lift|intros ? ? o' -> _ Ho; by apply trace_requested|intros ? [] ->].
    eapply traces_bind; [apply traces_store_call| |].
    { intros ? ? o' (r & -> & _) _ Ho. by apply trace_applied. }
    intros ? out (r & -> & Hr). rewrite (Hr _ eq_refl).
    eapply traces_bind; [apply emits_interrupted|intros ? ? o' -> _ Ho; by apply trace_applied|intros ? [] ->].
    eapply traces_weaken; [apply traces_upload_and_finish; subst; cbn; eauto; congruence|].
    intros evs o1 Hst. exact Hst.
  - destruct (Htr w []) as (evs & Hlog & HX). rewrite Heq in Hlog, HX. cbn in Hlog, HX. by subst.
Qed.
End store_trace.

(** ** Many stores *)
Section multiple_stores.
Context `{!UrlLib}.
Context {Cl W : Type}.
Context `{!SetupStorageClient (Cl * W), !StorageClient (Cl * W), !Interruptee (Cl * W), !Rand (Cl * W)}.
Context `{!Interruptee W}.
Context (client_new : Sync15StorageClientInit → res ErrorKind Cl).
Context (hashed_uid : ST (Cl * W) ErrorKind string).
Context `{!UrlSafeBase64, !SerdeJson, !Crypto, !Serde Payload, !Serde CryptoKeysRecord}.
Context `{!Serde EncryptedPayload, !RecordWriter, !PgsSerde}.
Context (debug : bool).

(** The stores run one after the other, each on the world the previous one left; the
    results are paired with the names of the collections. *)
Inductive stores_ran (gs : GlobalState)
    : list (Store (Cl * W)) → list (string * res ErrorKind unit) → Cl * W → Cl * W → Prop :=
| ran_nil cw : stores_ran gs [] [] cw cw
| ran_cons store stores r results cw1 cw2 cw3 cw4 :
    synchronize (Store0:=store) debug gs true cw1 = (r, cw2) → is_panic r = false →
    err_if_interrupted cw2 = (Ok tt, cw3) → stores_ran gs stores results cw3 cw4 →
    stores_ran gs (store :: stores) ((collection_name (Store:=store), r) :: results) cw1 cw4.

(** The map of failures describes the results. *)
Definition failures_of (results : list (string * res ErrorKind unit)) (failures : gmap string ErrorKind) : Prop :=
  (∀ n, failures !! n = None ↔ ∀ r, (n, r) ∈ results → r = Ok tt) ∧
  (∀ n e, failures !! n = Some e → (n, Err e) ∈ results).

(** The loop's invariant: [done] are the results so far. *)
Lemma failures_of_app_ok done failures n :
  failures_of done failures → failures_of (done ++ [(n, Ok tt)]) failures.
Proof.
  intros [Hnone Hsome]. split.
  - intros k. rewrite Hnone. split; [|set_solver].
    intros Hr r [?|[= -> ->]%list_elem_of_singleton]%elem_of_app; [by apply Hr|done].
  - set_solver.
Qed.
Lemma failures_of_app_err done failures n e :
  failures_of done failures → failures_of (done ++ [(n, Err e)]) (<[n := e]> failures).
Proof.
  intros [Hnone Hsome]. split.
  - intros k. rewrite lookup_insert_None, Hnone. split.
    + intros [Hr Hne] r [?|[= -> ->]%list_elem_of_singleton]%elem_of_app; [by apply Hr|done].
    + intros Hr. split; [set_solver|]. intros ->. by specialize (Hr (Err e) ltac:(set_solver)).
  - intros k e'. rewrite lookup_insert_Some. set_solver.
Qed.

Lemma sync_stores_spec gs stores : ∀ past failures cw out cw',
  failures_of past failures →
  sync_stores debug gs stores failures cw = (Ok out, cw') →
  ∃ results, stores_ran gs stores results cw cw' ∧ failures_of (past ++ results) out.
Proof.
  induction stores as [|store stores IH]; intros past failures cw out cw' Hpast; cbn [sync_stores].
  { intros [= <- <-]. exists []. rewrite app_nil_r. split; [constructor|done]. }
  unfold mbind at 1, ST_bind at 1, st_match.
  destruct (synchronize (Store0:=store) debug gs true cw) as [r cw1] eqn:Hsync.
  assert (Hnext : ∀ failures', is_panic r = false →
    failures_of (past ++ [(collection_name (Store:=store), r)]) failures' →
    (_ ← err_if_interrupted; sync_stores debug gs stores failures') cw1 = (Ok out, cw') →
    ∃ results, stores_ran gs (store :: stores) results cw cw' ∧ failures_of (past ++ results) out).
  { intros failures' Hp Hfail. unfold mbind, ST_bind.
    destruct (err_if_interrupted cw1) as [[[]|e|m] cw2] eqn:Hint; [|done..].
    intros Hrest. destruct (IH _ _ _ _ _ Hfail Hrest) as (results & Hran & Hfail').
    exists ((collection_name (Store:=store), r) :: results). split; [by econstructor|].
    by rewrite <-app_assoc in Hfail'. }
  destruct r as [[]|e|m]; [| |done]; apply Hnext; try done;
    [by apply failures_of_app_ok|by apply failures_of_app_err].
Qed.

(** The run after the setup: its pieces when it succeeds. *)
Lemma sync_with_client_ok stores root persisted pgs0 last init client w failures st' :
  sync_with_client hashed_uid debug stores root persisted pgs0 last init client w = (Ok failures, st') →
  ∃ gs machine cw s results cw1 cw2,
    SetupStateMachine.run_to_ready root last (SetupStateMachine.for_full_sync pgs0, (client, w)) =
      Some (Ok gs, (machine, cw)) ∧
    pgs_to_string (pgs machine) = Ok s ∧
    stores_ran gs stores results cw1 cw2 ∧ failures_of results failures ∧
    st' = mkSyncState (Some s)
            (if bool_decide (failures = ∅) then mkMemoryCachedState None None
             else mkMemoryCachedState (Some (mkClientInfo init cw2.1)) (Some gs)) cw2.2.
Proof.
  unfold sync_with_client.
  destruct (SetupStateMachine.run_to_ready _ _ _) as [[[gs|e|m] [machine [client1 w1]]]|] eqn:Hrun; [|done..].
  destruct (pgs_to_string (pgs machine)) as [s|e|m] eqn:Hpgs; [|done..].
  unfold mbind, ST_bind. destruct (hashed_uid (client1, w1)) as [[uid|e|m] cw1]; [|by destruct cw1..].
  destruct (sync_stores debug gs stores ∅ cw1) as [[fs|e|m] [client2 w2]] eqn:Hstores; [|done..].
  intros [= <- <-].
  destruct (sync_stores_spec gs stores [] ∅ cw1 fs (client2, w2)) as (results & Hran & Hfail); [|done|].
  { split; [|by intros n e; rewrite lookup_empty]. intros n. rewrite lookup_empty. set_solver. }
  exists gs, machine, (client1, w1), s, results, cw1, (client2, w2).
  do 4 (split; [done|]). f_equal. by case_bool_decide.
Qed.

Lemma sync_with_client_fails stores root persisted pgs0 last init client w r st' :
  sync_with_client hashed_uid debug stores root persisted pgs0 last init client w = (r, st') →
  is_ok r = false → ss_mem st' = mkMemoryCachedState None None.
Proof.
  unfold sync_with_client.
  destruct (SetupStateMachine.run_to_ready _ _ _) as [[[gs|e|m] [machine [client1 w1]]]|];
    [|by intros [= <- <-]..].
  destruct (pgs_to_string (pgs machine)) as [s|e|m]; [|by intros [= <- <-]..].
  destruct ((hashed_uid ≫= _) (client1, w1)) as [[fs|e|m] [client2 w2]]; by intros [= <- <-].
Qed.

Lemma pick_client_init cached init ci :
  pick_client client_new cached init = Ok ci → ci_client_init ci = init ∨ init_eqb (ci_client_init ci) init = true.
Proof.
  unfold pick_client. destruct cached as [info|].
  - destruct (init_eqb (ci_client_init info) init) eqn:Heq; cbn; [intros [= <-]; by right|].
    destruct (client_new init); cbn; [intros [= <-]; by left|done..].
  - destruct (client_new init); cbn; [intros [= <-]; by left|done..].
Qed.

Lemma sync_multiple_inv stores init root st r st' :
  sync_multiple client_new hashed_uid debug stores init root st = (r, st') →
  (is_ok r = false ∧ (ss_mem st' = ss_mem st ∨ last_client_info (ss_mem st') = None)) ∨
  ∃ ci w, pick_client client_new (last_client_info (ss_mem st)) init = Ok ci ∧
    sync_with_client hashed_uid debug stores root (ss_persisted st) (parse_persisted (ss_persisted st))
      (last_global_state (ss_mem st)) (ci_client_init ci) (ci_client ci) w = (r, st').
Proof.
  unfold sync_multiple. destruct (err_if_interrupted (ss_world st)) as [[[]|e|m] w1].
  2,3: intros [= <- <-]; left; split; [done|by left].
  destruct (pick_client _ _ init) as [ci|e|m]; [|intros [= <- <-]; left; split; [done|by right]..].
  destruct (err_if_interrupted w1) as [[[]|e|m] w2]; [|intros [= <- <-]; left; split; [done|by right]..].
  intros Hrun. right. by exists ci, w2.
Qed.

(** C30: A successful [sync_multiple] has set the global state up and then synchronised every
    store, in order, whichever of them failed.  The returned map has no entry for a
    collection exactly if all its synchronisations succeeded, and an entry is the error of
    one of them; the string to persist is the final persisted state of the setup. *)
Theorem sync_multiple_runs_every_store stores init root st failures st' :
  sync_multiple client_new hashed_uid debug stores init root st = (Ok failures, st') →
  ∃ client w gs machine cw s results cw1 cw2,
    SetupStateMachine.run_to_ready root (last_global_state (ss_mem st))
      (SetupStateMachine.for_full_sync (parse_persisted (ss_persisted st)), (client, w)) =
      Some (Ok gs, (machine, cw)) ∧
    pgs_to_string (pgs machine) = Ok s ∧ ss_persisted st' = Some s ∧
    stores_ran gs stores results cw1 cw2 ∧ failures_of results failures ∧ ss_world st' = cw2.2.
Proof.
  intros [[[=] _]|(ci & w & _ & Hrun)]%sync_multiple_inv.
  apply sync_with_client_ok in Hrun as (gs & machine & cw & s & results & cw1 & cw2 & Hsetup & Hpgs & Hran & Hfail & ->).
  exists (ci_client ci), w, gs, machine, cw, s, results, cw1, cw2. naive_solver.
Qed.

(** What [sync_multiple] leaves in the memory cache: after an error, no client (unless it
    was interrupted before it did anything, and then the old cache); after a sync in which
    all stores succeeded, nothing at all; the client, for the same parameters, and the global
    state are kept only after a sync in which some store failed. *)
Theorem sync_multiple_caches_failed_syncs stores init root st r st' :
  sync_multiple client_new hashed_uid debug stores init root st = (r, st') →
  match r with
  | Ok failures =>
      if bool_decide (failures = ∅) then ss_mem st' = mkMemoryCachedState None None
      else ∃ ci gs, ss_mem st' = mkMemoryCachedState (Some ci) (Some gs) ∧
             (ci_client_init ci = init ∨ init_eqb (ci_client_init ci) init = true)
  | _ => ss_mem st' = ss_mem st ∨ last_client_info (ss_mem st') = None
  end.
Proof.
  intros [[Hr Hmem]|(ci & w & Hpick & Hrun)]%sync_multiple_inv; [by destruct r|].
  destruct r as [failures|e|m].
  - apply sync_with_client_ok in Hrun as (gs & machine & cw & s & results & cw1 & cw2 & _ & _ & _ & _ & ->).
    case_bool_decide; [done|]. cbn. do 2 eexists. split; [done|]. cbn. by eapply pick_client_init.
  - right. by rewrite (sync_with_client_fails _ _ _ _ _ _ _ _ _ _ Hrun eq_refl).
  - right. by rewrite (sync_with_client_fails _ _ _ _ _ _ _ _ _ _ Hrun eq_refl).
Qed.
End multiple_stores.

(** ** A concrete server, client and stores *)
Module ToySync.
Import ToyCrypto ToySerde ToyPost ToyState ToyClient.

Abbreviation CW := (unit * Server)%type.

Definition on_server {E A} (c : ST Server E A) : ST CW E A :=
  λ '(u, w), let '(r, w) := c w in (r, (u, w)).
#[export] Instance toy_setup : SetupStorageClient CW := {|
  fetch_info_configuration := on_server fetch_info_configuration;
  fetch_info_collections := on_server fetch_info_collections;
  fetch_meta_global := on_server fetch_meta_global;
  fetch_crypto_keys := on_server fetch_crypto_keys;
  put_meta_global x g := on_server (put_meta_global x g);
  put_crypto_keys x k := on_server (put_crypto_keys x k);
  wipe_all_remote := on_server wipe_all_remote;
|}.
#[export] Instance toy_storage : StorageClient CW := {|
  get_encrypted_records _ cw := (Ok (Success [] ts_default "storage/passwords"), cw);
  post_to _ := λ _ _ batch commit cw, (Ok (reply batch commit), cw);
|}.
#[export] Instance toy_interruptee : Interruptee CW := λ cw, (false, cw).
#[export] Instance toy_rand_cw : Rand CW := λ n, on_server (rand_fill n).
#[export] Instance toy_pgs : PgsSerde := {|
  pgs_to_string _ := Ok "pgs"%string;
  pgs_from_str _ := Err "not needed"%string;
|}.

#[export] Instance toy_whole_writer : RecordWriter :=
  λ r, as_bytes (bso_id r) ++ as_bytes (ep_iv (bso_payload r)) ++ as_bytes (ep_hmac (bso_payload r))
         ++ as_bytes (ep_ciphertext (bso_payload r)).

(** A store that has one record to upload, and one that cannot be read. *)
Definition passwords : Store CW := {|
  collection_name := "passwords";
  apply_incoming inc cw := (Ok (mkRecordChangeset [ToyBso.payload] ts_default "passwords"), cw);
  sync_finished _ _ cw := (Ok tt, cw);
  get_collection_request cw := (Ok (CollectionRequest.new "passwords"), cw);
  get_sync_assoc cw := (Ok Disconnected, cw);
  reset _ cw := (Ok tt, cw);
  wipe cw := (Ok tt, cw);
|}.
Definition broken : Store CW := {|
  collection_name := "history";
  apply_incoming inc cw := (Err "broken"%string, cw);
  sync_finished _ _ cw := (Ok tt, cw);
  get_collection_request cw := (Err "broken"%string, cw);
  get_sync_assoc cw := (Err "broken"%string, cw);
  reset _ cw := (Ok tt, cw);
  wipe cw := (Ok tt, cw);
|}.

Definition gs : GlobalState :=
  mkGlobalState InfoConfiguration_default ∅ (mkMetaGlobalRecord "global" 5 {["passwords"%string := mkMetaGlobalEngine 1 "engine"]} [])
    ts_default (mkCollectionKeys ts_default root ∅).

Definition init : Sync15StorageClientInit := mkSync15StorageClientInit "kid" "token" ("url"%string : Url).
Definition st0 : SyncState (Cl:=unit) (W:=Server) := mkSyncState None (mkMemoryCachedState None None) empty_server.
Abbreviation sync_all stores :=
  (sync_multiple (λ _, Ok tt) (λ cw, (Ok "uid"%string, cw)) true stores init root st0).
Local Existing Instances logged_store logged_client store_interruptee store_rand.
Abbreviation one_sync := (synchronize (Store0:=logged_store passwords) true gs true ((tt, empty_server), [])).

Lemma sync_store_call_order_witness :
  ∃ o w log, one_sync = (o, (w, log)) ∧ is_ok o = true ∧ length log = 6%nat ∧
    store_trace (S:=passwords) true gs true log o.
Proof.
  assert (Hsum : (is_ok one_sync.1, length one_sync.2.2) = (true, 6%nat)) by (vm_compute; reflexivity).
  destruct one_sync as [o [w log]] eqn:Hrun. injection Hsum as Ho Hl.
  exists o, w, log. split; [reflexivity|]. split; [exact Ho|]. split; [exact Hl|].
  refine (sync_store_call_order (S:=passwords) true gs true _ o w log _ _ Hrun).
  - intros coll body xius batch commit cw m. discriminate.
  - vm_compute. repeat split; discriminate.
Defined.

Definition failed_name (r : res ErrorKind (gmap string ErrorKind)) : list string :=
  match r with Ok failures => (map_to_list failures).*1 | _ => ["failed"%string] end.

(** The store in the middle fails; the one after it is synchronised all the same. *)
Lemma sync_multiple_runs_every_store_witness :
  ∃ failures st' gs results cw1 cw2, sync_all [passwords; broken; passwords] = (Ok failures, st') ∧
    (map_to_list failures).*1 = ["history"%string] ∧
    stores_ran true gs [passwords; broken; passwords] results cw1 cw2 ∧ failures_of results failures.
Proof.
  assert (Hsum : failed_name (sync_all [passwords; broken; passwords]).1 = ["history"%string]) by (vm_compute; reflexivity).
  destruct (sync_all [passwords; broken; passwords]) as [[failures|e|m] st'] eqn:Hrun; try discriminate Hsum.
  destruct (sync_multiple_runs_every_store (λ _, Ok tt) (λ cw, (Ok "uid"%string, cw)) true _ init root st0 failures st' Hrun)
    as (client & w & gs' & machine & cw & s & results & cw1 & cw2 & _ & _ & _ & Hran & Hfail & _).
  exists failures, st', gs', results, cw1, cw2.
  split; [reflexivity|]. split; [exact Hsum|]. split; [exact Hran|exact Hfail].
Defined.

(** The run in which all stores succeed leaves an empty cache. *)
Lemma sync_multiple_caches_failed_syncs_witness :
  ∃ st', sync_all [passwords] = (Ok ∅, st') ∧ ss_mem st' = mkMemoryCachedState None None.
Proof.
  assert (Hsum : (sync_all [passwords]).1 = Ok ∅) by (vm_compute; reflexivity).
  destruct (sync_all [passwords]) as [r st'] eqn:Hrun. cbn in Hsum. subst r. exists st'. split; [reflexivity|].
  exact (sync_multiple_caches_failed_syncs (λ _, Ok tt) (λ cw, (Ok "uid"%string, cw)) true _ init root st0 (Ok ∅) st' Hrun).
Defined.
End ToySync.
