(* ===== verification/MigrateState.v ===== *)
(** * Migrating the persisted state of version 1

    Model of [components/sync15/src/migrate_state.rs].  The values of [serde_json] are a
    parameter: a type with the accessors of [serde_json::Value] that the function calls. *)

From S2P Require Import Prelude Sync15Types Bso State CollState Sync.
Local Open Scope list_scope.

Class JsonAccess (V : Type) := {
  (** [serde_json::from_str], of which the function only looks at success. *)
  json_from_str : string → option V;
  as_str : V → option string;
  as_array : V → option (list V);
  as_object : V → option (gmap string V);
}.

(** [serde_json::from_str::<MetaGlobalRecord>(..).ok()]. *)
Class MetaGlobalFromStr := meta_global_from_str : string → option MetaGlobalRecord.

(** [Result::ok]. *)
Definition res_ok {E A} (r : res E A) : option A := match r with Ok a => Some a | _ => None end.

Section migrate.
Context {V : Type} `{!JsonAccess V, !MetaGlobalFromStr, !PgsSerde}.

(** [Value::get] with a string: [None] unless the value is an object with the key. *)
Definition get (j : V) (key : string) : option V := ob ← as_object j; ob !! key.

(** The loop over the changes: whether one of them resets the collection. *)
Fixpoint needs_reset (collection : string) (changes : list V) : bool :=
  match changes with
  | [] => false
  | change :: changes =>
      if bool_decide (as_str change = Some "ResetAll"%string) then true
      else
        match as_object change with
        | Some change_ob =>
            if bool_decide ((change_ob !! "Reset"%string) ≫= as_str = Some collection) then true
            else
              match (change_ob !! "ResetAllExcept"%string) ≫= as_array with
              | Some except_array =>
                  if forallb (λ s, negb (String.eqb s collection)) (omap as_str except_array) then true
                  else needs_reset collection changes
              | None => needs_reset collection changes
              end
        | None => needs_reset collection changes
        end
  end.

(** From the parsed payload of [meta/global] on. *)
Definition extract_ids (j : V) (collection : string) (meta_global : MetaGlobalRecord)
    : option CollSyncIds * option string :=
  let pgs := V2 (Some (declined meta_global)) in
  let new_global_state := res_ok (pgs_to_string pgs) in
  if needs_reset collection (default [] (get j "engine_state_changes" ≫= as_array)) then (None, new_global_state)
  else
    let gsid := mg_sync_id meta_global in
    ((λ coll, mkCollSyncIds gsid (engine_sync_id coll)) <$> engines meta_global !! collection, new_global_state).

Definition extract_v1_state (state : option string) (collection : string)
    : res Empty_set (option CollSyncIds * option string) :=
  match state with
  | None => Ok (None, None)
  | Some s =>
      match json_from_str s with
      | None => Ok (None, None)
      | Some j =>
          if negb (bool_decide (get j "schema_version" ≫= as_str = Some "V1"%string)) then Ok (None, None)
          else
            match get j "global" ≫= as_object with
            | None => Ok (None, None)
            | Some global =>
                match global !! "payload"%string with
                | None => Panic "no entry found for key"
                | Some payload =>
                    match as_str payload ≫= meta_global_from_str with
                    | None => Ok (None, None)
                    | Some meta_global => Ok (extract_ids j collection meta_global)
                    end
                end
            end
      end
  end.

(** The three forms of a change that resets the collection. *)
Inductive resets (collection : string) (change : V) : Prop :=
| resets_all : as_str change = Some "ResetAll"%string → resets collection change
| resets_one ob v :
    as_object change = Some ob → ob !! "Reset"%string = Some v → as_str v = Some collection →
    resets collection change
| resets_others ob v excepted :
    as_object change = Some ob → ob !! "ResetAllExcept"%string = Some v → as_array v = Some excepted →
    (∀ x, x ∈ excepted → as_str x ≠ Some collection) → resets collection change.

Lemma all_excepted collection excepted :
  forallb (λ s, negb (String.eqb s collection)) (omap as_str excepted) = true ↔
  ∀ x, x ∈ excepted → as_str x ≠ Some collection.
Proof.
  rewrite forallb_forall. setoid_rewrite <-list_elem_of_In. setoid_rewrite list_elem_of_omap. split.
  - intros Hall x Hx Hstr. specialize (Hall collection ltac:(eauto)). by rewrite String.eqb_refl in Hall.
  - intros Hall s (x & Hx & Hstr). apply negb_true_iff, String.eqb_neq. intros ->. by apply (Hall x).
Qed.

Lemma needs_reset_spec collection changes :
  needs_reset collection changes = true ↔ ∃ change, change ∈ changes ∧ resets collection change.
Proof.
  induction changes as [|change changes IH]; cbn [needs_reset]; [set_solver|].
  assert (Hcons : ∀ P : Prop, (P ↔ resets collection change) →
    (P ∨ (∃ c, c ∈ changes ∧ resets collection c) ↔ ∃ c, c ∈ change :: changes ∧ resets collection c))
    by set_solver.
  case_bool_decide as Hall; [by split; [exists change; split; [left|by apply resets_all]|]|].
  destruct (as_object change) as [ob|] eqn:Hob.
  2:{ rewrite IH, <-(Hcons False); [tauto|]. split; [done|]. intros []; congruence. }
  case_bool_decide as Hone.
  { split; [|done]. intros _. exists change. split; [left|].
    apply bind_Some in Hone as (v & ? & ?). by eapply resets_one. }
  destruct ((ob !! "ResetAllExcept"%string) ≫= as_array) as [excepted|] eqn:Hex.
  2:{ rewrite IH, <-(Hcons False); [tauto|]. split; [done|].
      intros [|? v|? v]; simplify_eq; [destruct Hone|destruct (ob !! _); simplify_eq/=]; by simplify_option_eq. }
  apply bind_Some in Hex as (v & Hv & Hex).
  destruct (forallb _ _) eqn:Hforall.
  { split; [|done]. intros _. exists change. split; [left|]. eapply resets_others; [done..|]. by apply all_excepted. }
  rewrite IH, <-(Hcons False); [tauto|]. split; [done|].
  intros [|? v'|? v' excepted' ? ? ? Hno]; simplify_eq; [destruct Hone; by simplify_option_eq|].
  apply all_excepted in Hno. congruence.
Qed.

(** A persisted string of version 1, with its parsed value and its [global] object; and the
    record in its payload. *)
Definition v1_state (state : option string) (j : V) (global : gmap string V) : Prop :=
  ∃ s, state = Some s ∧ json_from_str s = Some j ∧
    get j "schema_version" ≫= as_str = Some "V1"%string ∧ get j "global" ≫= as_object = Some global.
Definition v1_meta (state : option string) (j : V) (meta : MetaGlobalRecord) : Prop :=
  ∃ global payload, v1_state state j global ∧ global !! "payload"%string = Some payload ∧
    as_str payload ≫= meta_global_from_str = Some meta.
Definition changes_of (j : V) : list V := default [] (get j "engine_state_changes" ≫= as_array).

Lemma v1_state_functional state j j' global global' :
  v1_state state j global → v1_state state j' global' → j = j' ∧ global = global'.
Proof. intros (s & ? & ? & ? & ?) (s' & ? & ? & ? & ?). by simplify_eq. Qed.

Lemma v1_state_dec state :
  (∃ j global, v1_state state j global) ∨
  (∀ j global, ¬ v1_state state j global) ∧ ∀ collection, extract_v1_state state collection = Ok (None, None).
Proof.
  unfold v1_state, extract_v1_state. destruct state as [s|]; [|right; naive_solver].
  destruct (json_from_str s) as [j|] eqn:Hj; [|right; naive_solver].
  case_bool_decide as Hv; [|right; naive_solver].
  destruct (get j "global" ≫= as_object) as [global|] eqn:Hg; [left; naive_solver|right; naive_solver].
Qed.

Lemma extract_v1 state j global collection :
  v1_state state j global →
  extract_v1_state state collection =
    match global !! "payload"%string with
    | None => Panic "no entry found for key"
    | Some payload =>
        match as_str payload ≫= meta_global_from_str with
        | None => Ok (None, None)
        | Some meta => Ok (extract_ids j collection meta)
        end
    end.
Proof.
  intros (s & -> & Hj & Hv & Hg). unfold extract_v1_state. rewrite Hj, bool_decide_true by done. cbn [negb].
  by rewrite Hg.
Qed.

(** Migration of a version 1 state.  It panics exactly on a version 1 object whose
    [global] has no [payload]; it returns neither ids nor state if the string is not a
    version 1 state with a readable payload; otherwise the new state holds the declined
    engines of the payload, and ids are returned exactly if the payload has the engine and no
    recorded change ([ResetAll], [Reset] of it, [ResetAllExcept] without it) resets it. *)
Theorem extract_v1_state_correct state collection :
  (is_panic (extract_v1_state state collection) = true ↔
     ∃ j global, v1_state state j global ∧ global !! "payload"%string = None) ∧
  ∀ ids new_state, extract_v1_state state collection = Ok (ids, new_state) →
    ((∀ j meta, ¬ v1_meta state j meta) ∧ ids = None ∧ new_state = None) ∨
    ∃ j meta, v1_meta state j meta ∧
      new_state = res_ok (pgs_to_string (V2 (Some (declined meta)))) ∧
      ∀ i, ids = Some i ↔
        (∃ e, engines meta !! collection = Some e ∧ i = mkCollSyncIds (mg_sync_id meta) (engine_sync_id e)) ∧
        ¬ ∃ change, change ∈ changes_of j ∧ resets collection change.
Proof.
  destruct (v1_state_dec state) as [(j & global & Hv1)|[Hno Heq]].
  2:{ rewrite Heq. split; [naive_solver|]. intros ids new_state [= <- <-]. left. unfold v1_meta. naive_solver. }
  rewrite (extract_v1 _ _ _ _ Hv1).
  destruct (global !! "payload"%string) as [payload|] eqn:Hp; cycle 1.
  { split; [naive_solver|done]. }
  destruct (as_str payload ≫= meta_global_from_str) as [meta|] eqn:Hm; cycle 1.
  { split; [split; [done|]|].
    - intros (j' & global' & Hv1' & Hnone). destruct (v1_state_functional _ _ _ _ _ Hv1 Hv1'). congruence.
    - intros ids new_state [= <- <-]. left. split; [|done]. intros j' meta (global' & payload' & Hv1' & Hp' & Hm').
      destruct (v1_state_functional _ _ _ _ _ Hv1 Hv1'). congruence. }
  split; [split; [done|]|].
  - intros (j' & global' & Hv1' & Hnone). destruct (v1_state_functional _ _ _ _ _ Hv1 Hv1'). congruence.
  - intros ids new_state Hext. right. exists j, meta. split; [by exists global, payload|].
    pose proof (needs_reset_spec collection (changes_of j)) as Hreset. unfold extract_ids in Hext.
    fold (changes_of j) in Hext.
    destruct (needs_reset collection (changes_of j)); simplify_eq/=; (split; [done|]); intros i; [naive_solver|].
    rewrite fmap_Some. naive_solver.
Qed.
End migrate.
