(* ===== verification/Login.v ===== *)
(** * Logins: the record and its three-way merge

    Model of [components/logins/src/login.rs] and of the errors of
    [components/logins/src/error.rs].  A login that changed both locally and on the server is
    merged field by field: each side's changes relative to the last version both had in common
    are computed ([delta]), combined ([LoginDelta::merge]) and applied ([apply_delta]). *)

From S2P Require Import Prelude Sync15Types Bso.
Local Open Scope Z_scope.
Local Open Scope list_scope.

(** ** error.rs *)
Inductive InvalidLogin := EmptyHostname | EmptyPassword | BothTargets | NoTarget.

Inductive LoginsError :=
| LInvalidLogin (e : InvalidLogin)
| LBadSyncStatus (v : Z)
| LDuplicateGuid (guid : string)
| LNoSuchRecord (guid : string)
| LSyncAdapterError (e : ErrorKind)
| LJsonError (e : string)
| LSqlError (e : string)
| LUrlParseError (e : string)
| LInterrupted.

(** ** login.rs *)
Record Login := mkLogin {
  l_id : string;
  l_hostname : string;
  l_form_submit_url : option string;
  l_http_realm : option string;
  l_username : string;
  l_password : string;
  l_username_field : string;
  l_password_field : string;
  l_time_created : Z;
  l_time_password_changed : Z;
  l_time_last_used : Z;
  l_times_used : Z;
}.

Definition is_empty (s : string) : bool := String.eqb s "".
Definition is_some {A} (o : option A) : bool := match o with Some _ => true | None => false end.

Definition check_valid (self : Login) : res LoginsError unit :=
  if is_empty (l_hostname self) then Err (LInvalidLogin EmptyHostname)
  else if is_empty (l_password self) then Err (LInvalidLogin EmptyPassword)
  else if is_some (l_form_submit_url self) && is_some (l_http_realm self) then Err (LInvalidLogin BothTargets)
  else if negb (is_some (l_form_submit_url self)) && negb (is_some (l_http_realm self)) then Err (LInvalidLogin NoTarget)
  else Ok tt.

Record MirrorLogin := mkMirrorLogin {
  m_login : Login;
  m_is_overridden : bool;
  m_server_modified : ServerTimestamp;
}.

Inductive SyncStatus := Synced | Changed | New.
Global Instance SyncStatus_eq_dec : EqDecision SyncStatus.
Proof. solve_decision. Defined.

Definition SyncStatus_as_u8 (s : SyncStatus) : Z := match s with Synced => 0 | Changed => 1 | New => 2 end.
Definition SyncStatus_from_u8 (v : Z) : res LoginsError SyncStatus :=
  if v =? 0 then Ok Synced else if v =? 1 then Ok Changed else if v =? 2 then Ok New
  else Err (LBadSyncStatus v).

(** [local_modified] is in nanoseconds since the epoch. *)
Record LocalLogin := mkLocalLogin {
  lo_login : Login;
  lo_sync_status : SyncStatus;
  lo_is_deleted : bool;
  lo_local_modified : Z;
}.

Record SyncLoginData := mkSyncLoginData {
  sd_guid : string;
  sd_local : option LocalLogin;
  sd_mirror : option MirrorLogin;
  sd_inbound : option Login * ServerTimestamp;
}.

Module SyncLoginData.
Definition from_payload `{!SerdeJson, !Serde Login} (payload : Payload) (t : ServerTimestamp)
    : res LoginsError SyncLoginData :=
  let guid := p_id payload in
  login ← (if Payload.is_tombstone payload then Ok None
           else record ← map_err LSyncAdapterError (Payload.into_record payload); Ok (Some record));
  Ok (mkSyncLoginData guid None None (login, t)).

Definition set_local (record : LocalLogin) (self : SyncLoginData) : res LoginsError SyncLoginData :=
  if is_some (sd_local self) then Panic "SyncLoginData::set_local called on object that already has local data"
  else if negb (String.eqb (sd_guid self) (l_id (lo_login record))) then Panic "Wrong guid on login in set_local"
  else Ok (mkSyncLoginData (sd_guid self) (Some record) (sd_mirror self) (sd_inbound self)).

Definition set_mirror (record : MirrorLogin) (self : SyncLoginData) : res LoginsError SyncLoginData :=
  if is_some (sd_mirror self) then Panic "SyncLoginData::set_mirror called on object that already has mirror data"
  else if negb (String.eqb (sd_guid self) (l_id (m_login record))) then Panic "Wrong guid on login in set_mirror"
  else Ok (mkSyncLoginData (sd_guid self) (sd_local self) (Some record) (sd_inbound self)).
End SyncLoginData.

Record LoginDelta := mkLoginDelta {
  d_hostname : option string;
  d_password : option string;
  d_username : option string;
  d_http_realm : option string;
  d_form_submit_url : option string;
  d_time_created : option Z;
  d_time_last_used : option Z;
  d_time_password_changed : option Z;
  d_password_field : option string;
  d_username_field : option string;
  d_times_used : Z;
}.

(** The macro [merge_field!]. *)
Definition merge_field {A} (merged b : option A) (prefer_b : bool) : option A :=
  match b with
  | Some field =>
      if is_some merged then if prefer_b then Some field else merged
      else Some field
  | None => merged
  end.

Module LoginDelta.
Definition merge {E} (debug : bool) (self b : LoginDelta) (b_is_newer : bool) : res E LoginDelta :=
  times_used ← iadd debug (d_times_used self) (d_times_used b);
  Ok (mkLoginDelta
    (merge_field (d_hostname self) (d_hostname b) b_is_newer)
    (merge_field (d_password self) (d_password b) b_is_newer)
    (merge_field (d_username self) (d_username b) b_is_newer)
    (merge_field (d_http_realm self) (d_http_realm b) b_is_newer)
    (merge_field (d_form_submit_url self) (d_form_submit_url b) b_is_newer)
    (merge_field (d_time_created self) (d_time_created b) b_is_newer)
    (merge_field (d_time_last_used self) (d_time_last_used b) b_is_newer)
    (merge_field (d_time_password_changed self) (d_time_password_changed b) b_is_newer)
    (merge_field (d_password_field self) (d_password_field b) b_is_newer)
    (merge_field (d_username_field self) (d_username_field b) b_is_newer)
    times_used).
End LoginDelta.

(** The macro [apply_field!], and its variant for the optional fields, in which [Some ""]
    stands for a removal. *)
Definition apply_field {A} (field : A) (delta : option A) : A := default field delta.
Definition apply_optional (field : option string) (delta : option string) : option string :=
  match delta with
  | Some s => if is_empty s then None else Some s
  | None => field
  end.

Definition apply_delta {E} (debug : bool) (self : Login) (delta : LoginDelta) : res E Login :=
  times_used ← iadd debug (l_times_used self) (d_times_used delta);
  Ok (mkLogin
    (l_id self)
    (apply_field (l_hostname self) (d_hostname delta))
    (apply_optional (l_form_submit_url self) (d_form_submit_url delta))
    (apply_optional (l_http_realm self) (d_http_realm delta))
    (apply_field (l_username self) (d_username delta))
    (apply_field (l_password self) (d_password delta))
    (apply_field (l_username_field self) (d_username_field delta))
    (apply_field (l_password_field self) (d_password_field delta))
    (apply_field (l_time_created self) (d_time_created delta))
    (apply_field (l_time_password_changed self) (d_time_password_changed delta))
    (apply_field (l_time_last_used self) (d_time_last_used delta))
    times_used).

(** The three shapes of a comparison in [delta]. *)
Definition delta_string (new old : string) : option string :=
  if negb (String.eqb new old) then Some new else None.
Definition delta_optional (new old : option string) : option string :=
  if negb (bool_decide (new = old)) then Some (default ""%string new) else None.
Definition delta_time (new old : Z) : option Z :=
  if (0 <? new) && negb (new =? old) then Some new else None.

Definition delta {E} (debug : bool) (self older : Login) : res E LoginDelta :=
  times_used ← (if (0 <? l_times_used self) && negb (l_times_used self =? l_times_used older)
                then isub debug (l_times_used self) (l_times_used older) else Ok 0);
  Ok (mkLoginDelta
    (delta_string (l_hostname self) (l_hostname older))
    (delta_string (l_password self) (l_password older))
    (delta_string (l_username self) (l_username older))
    (delta_optional (l_http_realm self) (l_http_realm older))
    (delta_optional (l_form_submit_url self) (l_form_submit_url older))
    (delta_time (l_time_created self) (l_time_created older))
    (delta_time (l_time_last_used self) (l_time_last_used older))
    (delta_time (l_time_password_changed self) (l_time_password_changed older))
    (delta_string (l_password_field self) (l_password_field older))
    (delta_string (l_username_field self) (l_username_field older))
    times_used).

(** The merge as [plan_three_way_merge] of [update_plan.rs] composes it. *)
Definition three_way_merge {E} (debug : bool) (local shared upstream : Login) (upstream_is_newer : bool)
    : res E Login :=
  local_delta ← delta debug local shared;
  upstream_delta ← delta debug upstream shared;
  merged_delta ← LoginDelta.merge debug local_delta upstream_delta upstream_is_newer;
  apply_delta debug shared merged_delta.

(** ** What the merge computes

    A reference definition without deltas: a field that only one side changed has that side's
    value; if both changed it, the newer side wins. *)
Definition pick {A} `{!EqDecision A} (upstream_is_newer : bool) (shared local upstream : A) : A :=
  if decide (upstream = shared) then local
  else if decide (local = shared) then upstream
  else if upstream_is_newer then upstream else local.

(** A timestamp or a counter that is not positive counts as unknown, that is, unchanged. *)
Definition known (shared t : Z) : Z := if 0 <? t then t else shared.
Definition pick_time (newer : bool) (shared local upstream : Z) : Z :=
  pick newer shared (known shared local) (known shared upstream).

(** An optional field that is changed to the empty string is removed. *)
Definition drop_empty (o : option string) : option string :=
  match o with Some s => if is_empty s then None else Some s | None => None end.
Definition pick_optional (newer : bool) (shared local upstream : option string) : option string :=
  if decide (local = shared ∧ upstream = shared) then shared
  else drop_empty (pick newer shared local upstream).

Definition merged_login (newer : bool) (local shared upstream : Login) : Login :=
  let field {A} `{!EqDecision A} (f : Login → A) := pick newer (f shared) (f local) (f upstream) in
  let time f := pick_time newer (f shared) (f local) (f upstream) in
  let optional f := pick_optional newer (f shared) (f local) (f upstream) in
  let uses f := known (f shared) (f local) + (known (f shared) (f upstream) - f shared) in
  mkLogin (l_id shared) (field l_hostname) (optional l_form_submit_url) (optional l_http_realm)
    (field l_username) (field l_password) (field l_username_field) (field l_password_field)
    (time l_time_created) (time l_time_password_changed) (time l_time_last_used) (uses l_times_used).

Lemma merge_string newer s l u :
  apply_field s (merge_field (delta_string l s) (delta_string u s) newer) = pick newer s l u.
Proof.
  unfold pick, delta_string. destruct (String.eqb_spec u s), (String.eqb_spec l s); subst;
    repeat case_decide; try done; by destruct newer.
Qed.

Lemma merge_time newer s l u :
  apply_field s (merge_field (delta_time l s) (delta_time u s) newer) = pick_time newer s l u.
Proof.
  assert (Hdelta : ∀ t, delta_time t s = if decide (known s t = s) then None else Some (known s t)).
  { intros t. unfold delta_time, known. destruct (0 <? t); cbn; [|by rewrite decide_True].
    destruct (Z.eqb_spec t s); by case_decide. }
  rewrite !Hdelta. unfold pick_time, pick. repeat case_decide; cbn; try done; by destruct newer.
Qed.

Lemma apply_removed s o : apply_optional s (Some (default ""%string o)) = drop_empty o.
Proof. by destruct o. Qed.

Lemma merge_optional newer s l u :
  apply_optional s (merge_field (delta_optional l s) (delta_optional u s) newer) = pick_optional newer s l u.
Proof.
  unfold pick_optional, pick, delta_optional.
  destruct (bool_decide_reflect (l = s)) as [->|Hl], (bool_decide_reflect (u = s)) as [->|Hu]; cbn [negb merge_field is_some].
  - by rewrite decide_True.
  - rewrite decide_False by tauto. rewrite decide_False, decide_True by done. apply apply_removed.
  - rewrite decide_False by tauto. rewrite decide_True by done. apply apply_removed.
  - rewrite decide_False by tauto. rewrite !decide_False by done. destruct newer; apply apply_removed.
Qed.

(** Counters far from the limits of their type. *)
Definition uses_small (l : Login) : Prop := - 2 ^ 60 ≤ l_times_used l < 2 ^ 60.

Lemma delta_uses {E} debug l s :
  uses_small l → uses_small s →
  (if (0 <? l_times_used l) && negb (l_times_used l =? l_times_used s)
   then isub debug (l_times_used l) (l_times_used s) else Ok 0) =
  Ok (E:=E) (known (l_times_used s) (l_times_used l) - l_times_used s).
Proof.
  unfold uses_small, known. intros Hl Hs. destruct (0 <? l_times_used l); cbn [andb]; [|f_equal; lia].
  destruct (Z.eqb_spec (l_times_used l) (l_times_used s)); cbn; [f_equal; lia|].
  apply i64_result_small. unfold fits_i64. lia.
Qed.

Local Arguments apply_field : simpl never.
Local Arguments apply_optional : simpl never.
Local Arguments merge_field : simpl never.
Local Arguments delta_string : simpl never.
Local Arguments delta_time : simpl never.
Local Arguments delta_optional : simpl never.

Lemma three_way_merge_spec {E} debug local shared upstream newer :
  uses_small local → uses_small shared → uses_small upstream →
  three_way_merge (E:=E) debug local shared upstream newer = Ok (merged_login newer local shared upstream).
Proof.
  intros Hl Hs Hu. unfold three_way_merge, delta, LoginDelta.merge, apply_delta.
  rewrite !delta_uses by done. cbn.
  unfold iadd. rewrite i64_result_small; cbn; [|unfold fits_i64, uses_small, known in *; repeat case_match; lia].
  rewrite i64_result_small; cbn; [|unfold fits_i64, uses_small, known in *; repeat case_match; lia].
  rewrite !merge_string, !merge_time, !merge_optional. unfold merged_login. do 2 f_equal. lia.
Qed.

(** A login as the applications write it: same id as its shared version, no empty optional
    field, all times and counters known. *)
Definition plain (shared l : Login) : Prop :=
  l_id l = l_id shared ∧ l_form_submit_url l ≠ Some ""%string ∧ l_http_realm l ≠ Some ""%string ∧
  0 < l_time_created l ∧ 0 < l_time_password_changed l ∧ 0 < l_time_last_used l ∧ 0 < l_times_used l.

Lemma pick_left {A} `{!EqDecision A} newer (s l : A) : pick newer s l s = l.
Proof. unfold pick. by rewrite decide_True. Qed.
Lemma pick_right {A} `{!EqDecision A} newer (s u : A) : pick newer s s u = u.
Proof. unfold pick. case_decide; [done|]. by rewrite decide_True. Qed.
Lemma known_pos s t : 0 < t → known s t = t.
Proof. intros. unfold known. by destruct (Z.ltb_spec 0 t); [|lia]. Qed.
Lemma known_same s : known s s = s.
Proof. unfold known. by case_match. Qed.
Lemma pick_optional_left newer s l : l ≠ Some ""%string → pick_optional newer s l s = l.
Proof.
  intros Hl. unfold pick_optional. rewrite pick_left. case_decide; [naive_solver|].
  unfold drop_empty, is_empty. destruct l as [x|]; [|done]. destruct (String.eqb_spec x ""); congruence.
Qed.
Lemma pick_optional_right newer s u : u ≠ Some ""%string → pick_optional newer s s u = u.
Proof.
  intros Hu. unfold pick_optional. rewrite pick_right. case_decide; [naive_solver|].
  unfold drop_empty, is_empty. destruct u as [x|]; [|done]. destruct (String.eqb_spec x ""); congruence.
Qed.

(** C13: The three-way merge of a login.  It never overflows on realistic counters, and a field
    that one side changed has that side's value; if both sides changed it, that of the newer
    side; uses counted on both sides add up; unknown times and counters change nothing.  In
    particular the changes of one side survive in full when the other side changed nothing. *)
Theorem three_way_merge_correct {E} debug local shared upstream newer :
  uses_small local → uses_small shared → uses_small upstream →
  three_way_merge (E:=E) debug local shared upstream newer = Ok (merged_login newer local shared upstream) ∧
  (plain shared local → three_way_merge (E:=E) debug local shared shared newer = Ok local) ∧
  (plain shared upstream → three_way_merge (E:=E) debug shared shared upstream newer = Ok upstream).
Proof.
  intros Hl Hs Hu. split_and!; [by apply three_way_merge_spec|..].
  - intros (Hid & Hurl & Hrealm & ? & ? & ? & ?). rewrite three_way_merge_spec by done.
    f_equal. unfold merged_login, pick_time. rewrite !known_same, !pick_optional_left, !pick_left, !known_pos, <-Hid by done.
    destruct local; cbn. f_equal. lia.
  - intros (Hid & Hurl & Hrealm & ? & ? & ? & ?). rewrite three_way_merge_spec by done.
    f_equal. unfold merged_login, pick_time. rewrite !known_same, !pick_optional_right, !pick_right, !known_pos, <-Hid by done.
    destruct upstream; cbn. f_equal. lia.
Qed.

Lemma pick_either {A} `{!EqDecision A} newer (s l u : A) : pick newer s l u = l ∨ pick newer s l u = u.
Proof. unfold pick. repeat case_decide; destruct newer; auto. Qed.

Lemma check_valid_ok l :
  check_valid l = Ok tt ↔
  l_hostname l ≠ ""%string ∧ l_password l ≠ ""%string ∧
  is_some (l_form_submit_url l) = negb (is_some (l_http_realm l)).
Proof.
  unfold check_valid, is_empty.
  destruct (String.eqb_spec (l_hostname l) ""), (String.eqb_spec (l_password l) ""); try naive_solver.
  destruct (l_form_submit_url l), (l_http_realm l); naive_solver.
Qed.

(** A form login for [f] and an HTTP login for the realm [r]. *)
Definition form_login (f : string) : Login := mkLogin "guid" "host" (Some f) None "user" "secret" "" "" 1 1 1 1.
Definition realm_login (r : string) : Login := mkLogin "guid" "host" None (Some r) "user" "secret" "" "" 1 1 1 1.

(** The merge of three valid logins always has a hostname and a password, but it need not
    be valid: it has both targets if one side moved the login to an HTTP realm and the newer
    side changed the form URL, and no target if one side moved it to a form with an empty
    URL (which [check_valid] accepts). *)
Theorem merge_can_break_validity :
  (∀ newer local shared upstream,
     check_valid local = Ok tt → check_valid upstream = Ok tt →
     l_hostname (merged_login newer local shared upstream) ≠ ""%string ∧
     l_password (merged_login newer local shared upstream) ≠ ""%string) ∧
  (∀ debug f f' r, f ≠ f' → f' ≠ ""%string → r ≠ ""%string →
     Forall (λ l, check_valid l = Ok tt) [form_login f; realm_login r; form_login f'] ∧
     (m ← three_way_merge debug (realm_login r) (form_login f) (form_login f') true; check_valid m) =
       Err (LInvalidLogin BothTargets)) ∧
  (∀ debug r newer,
     check_valid (form_login "") = Ok tt ∧
     (m ← three_way_merge debug (form_login "") (realm_login r) (realm_login r) newer; check_valid m) =
       Err (LInvalidLogin NoTarget)).
Proof.
  split_and!.
  - intros newer local shared upstream (Hh & Hp & _)%check_valid_ok (Hh' & Hp' & _)%check_valid_ok. cbn.
    destruct (pick_either newer (l_hostname shared) (l_hostname local) (l_hostname upstream)) as [-> | ->];
      destruct (pick_either newer (l_password shared) (l_password local) (l_password upstream)) as [-> | ->]; done.
  - intros debug f f' r Hf Hf' Hr. split; [by repeat constructor|].
    rewrite three_way_merge_spec by (by split). cbn [mbind res_bind].
    assert (Hform : l_form_submit_url (merged_login true (realm_login r) (form_login f) (form_login f')) = Some f').
    { cbn. unfold pick_optional, pick, drop_empty, is_empty. rewrite decide_False by naive_solver.
      rewrite !decide_False by congruence. by destruct (String.eqb_spec f' ""). }
    assert (Hrealm : l_http_realm (merged_login true (realm_login r) (form_login f) (form_login f')) = Some r).
    { cbn. rewrite pick_optional_left by congruence. done. }
    unfold check_valid. by rewrite Hform, Hrealm.
  - intros debug r newer. split; [done|].
    rewrite three_way_merge_spec by (by split). cbn [mbind res_bind].
    assert (Hform : l_form_submit_url (merged_login newer (form_login "") (realm_login r) (realm_login r)) = None).
    { cbn. unfold pick_optional. rewrite pick_left, decide_False by naive_solver. done. }
    assert (Hrealm : l_http_realm (merged_login newer (form_login "") (realm_login r) (realm_login r)) = None).
    { cbn. by rewrite pick_optional_left. }
    unfold check_valid. rewrite Hform, Hrealm. cbn. by rewrite !pick_left.
Qed.

(** A login whose password was changed here and that was used four times elsewhere. *)
Definition changed_here : Login := mkLogin "guid" "host" (Some "f"%string) None "user" "other" "" "" 1 5 5 2.
Definition used_there : Login := mkLogin "guid" "host" (Some "f"%string) None "user" "secret" "" "" 1 1 9 5.

Lemma three_way_merge_correct_witness :
  three_way_merge (E:=unit) true changed_here (form_login "f") used_there true =
    Ok (mkLogin "guid" "host" (Some "f"%string) None "user" "other" "" "" 1 5 9 6) ∧
  three_way_merge (E:=unit) true changed_here (form_login "f") (form_login "f") true = Ok changed_here.
Proof.
  destruct (three_way_merge_correct (E:=unit) true changed_here (form_login "f") used_there true) as (Hm & Hl & _);
    [by split..|].
  split; [rewrite Hm; vm_compute; reflexivity|]. apply Hl. by repeat split.
Defined.
