(* ===== verification/LoginsDb.v ===== *)
(** * Logins: the database

    Model of [components/logins/src/db.rs] and [update_plan.rs], with [util.rs], the chunking
    of [components/support/sql/src/each_chunk.rs], and the implementation of the trait [Store]
    for logins.  A table is a finite map from guids to rows (the column [guid] is UNIQUE in both
    tables) and an SQL statement the function it computes on the map; statements themselves do
    not fail in the model.  Columns that may be NULL but that every query reads with a default
    ([username], [usernameField], [passwordField], [timeLastUsed]) hold that default.  The order
    in which a query without ORDER BY returns its rows is that of [map_to_list]; [find_dupe],
    which takes the first one, gets it from a parameter. *)

From S2P Require Import Prelude Database Sync15Types KeyBundle Bso State CollState Viaduct Token Sync MigrateState Login.
From Stdlib Require SpecFloat.
From stdpp Require Import pretty.
Local Open Scope Z_scope.
Local Open Scope list_scope.

(** ** Tables *)
Record LocalRow := mkLocalRow {
  lr_login : Login;
  lr_local_modified : option Z;
  lr_is_deleted : bool;
  lr_sync_status : SyncStatus;
}.
Record MirrorRow := mkMirrorRow {
  mr_login : Login;
  mr_server_modified : Z;
  mr_is_overridden : bool;
}.
Inductive MetaValue := MText (s : string) | MInteger (z : Z).

Record LoginDb := mkLoginDb {
  loginsL : gmap string LocalRow;
  loginsM : gmap string MirrorRow;
  loginsSyncMeta : gmap string MetaValue;
}.

Definition LAST_SYNC_META_KEY : string := "last_sync_time".
Definition GLOBAL_STATE_META_KEY : string := "global_state_v2".
Definition GLOBAL_SYNCID_META_KEY : string := "global_sync_id".
Definition COLLECTION_SYNCID_META_KEY : string := "passwords_sync_id".

(** ** util.rs *)
Definition url_host_port `{!UrlLib} (url_port : Url → option Z) (url_str : string) : option string :=
  match url_parse url_str with
  | Ok url =>
      host ← url_host_str url;
      Some (match url_port url with Some p => host +:+ ":" +:+ pretty p | None => host end)
  | _ => None
  end.

(** Times are in nanoseconds since the epoch. *)
Definition system_time_millis_from_row (ms : option Z) : Z := wrap 64 (default 0 ms) * 1000000.
Definition duration_ms_i64 (d : Z) : Z := d / NANOS * 1000 + d mod NANOS / 1000000.
Definition system_time_ms_i64 (t : Z) : Z := duration_ms_i64 (Z.max 0 t).

(** ** login.rs: rows *)
Definition MirrorLogin_from_row (row : MirrorRow) : MirrorLogin :=
  mkMirrorLogin (mr_login row) (mr_is_overridden row) (timestamp_of_millis (mr_server_modified row)).
Definition LocalLogin_from_row (row : LocalRow) : LocalLogin :=
  mkLocalLogin (lr_login row) (lr_sync_status row) (lr_is_deleted row)
    (system_time_millis_from_row (lr_local_modified row)).

(** ** The database as a state *)
Section db.
Context {W : Type}.
Abbreviation DB := (ST (LoginDb * W) LoginsError).

Definition on_local (f : gmap string LocalRow → gmap string LocalRow) : DB unit :=
  db_modify (λ d, mkLoginDb (f (loginsL d)) (loginsM d) (loginsSyncMeta d)).
Definition on_mirror (f : gmap string MirrorRow → gmap string MirrorRow) : DB unit :=
  db_modify (λ d, mkLoginDb (loginsL d) (f (loginsM d)) (loginsSyncMeta d)).
Definition on_meta (f : gmap string MetaValue → gmap string MetaValue) : DB unit :=
  db_modify (λ d, mkLoginDb (loginsL d) (loginsM d) (f (loginsSyncMeta d))).

Context `{!Interruptee W, !Clock W}.

Definition check_scope : DB unit := λ '(d, w),
  let '(r, w) := err_if_interrupted w in (map_err (λ _, LInterrupted) r, (d, w)).
Definition now_ns : DB Z := λ '(d, w), let '(t, w) := system_now w in (Ok t, (d, w)).
Definition now_ms : DB Z := t ← now_ns; mret (system_time_ms_i64 t).

(** ** Metadata *)
Definition put_meta (key : string) (value : MetaValue) : DB unit := on_meta <[key := value]>.
Definition get_meta (key : string) : DB (option MetaValue) := d ← db_get; mret (loginsSyncMeta d !! key).
Definition delete_meta (key : string) : DB unit := on_meta (delete key).

(** [row.get(0)?] at the type of the caller. *)
Definition as_text (v : option MetaValue) : res LoginsError (option string) :=
  match v with
  | None => Ok None
  | Some (MText s) => Ok (Some s)
  | Some (MInteger _) => Err (LSqlError "Invalid column type")
  end.
Definition as_integer (v : option MetaValue) : res LoginsError (option Z) :=
  match v with
  | None => Ok None
  | Some (MInteger z) => Ok (Some z)
  | Some (MText _) => Err (LSqlError "Invalid column type")
  end.
Definition get_meta_text (key : string) : DB (option string) := v ← get_meta key; st_lift (as_text v).

Definition set_last_sync (last_sync : ServerTimestamp) : DB unit :=
  put_meta LAST_SYNC_META_KEY (MInteger (millis_i64 last_sync)).
Definition get_last_sync : DB (option ServerTimestamp) :=
  v ← get_meta LAST_SYNC_META_KEY;
  millis ← st_lift (as_integer v);
  mret (timestamp_of_millis <$> millis).
Definition set_global_state (state : option string) : DB unit :=
  put_meta GLOBAL_STATE_META_KEY (MText (default ""%string state)).
Definition get_global_state : DB (option string) := get_meta_text GLOBAL_STATE_META_KEY.

Definition migrate_global_state {V} `{!JsonAccess V, !MetaGlobalFromStr, !PgsSerde} : DB unit :=
  transaction (
    old_state ← get_meta_text "global_state";
    match old_state with
    | None => mret tt
    | Some old_state =>
        '(new_sync_ids, new_global_state) ←
          st_lift (match extract_v1_state (V:=V) (Some old_state) "passwords" with
                   | Ok r => Ok r | Err e => match e with end | Panic m => Panic m end);
        _ ← match new_sync_ids with
            | Some sync_ids =>
                _ ← put_meta GLOBAL_SYNCID_META_KEY (MText (cs_global sync_ids));
                put_meta COLLECTION_SYNCID_META_KEY (MText (cs_coll sync_ids))
            | None => mret tt
            end;
        _ ← match new_global_state with
            | Some new_global_state => set_global_state (Some new_global_state)
            | None => mret tt
            end;
        delete_meta "global_state"
    end).

(** ** Reading *)
Definition visible_local (r : LocalRow) : option Login := if lr_is_deleted r then None else Some (lr_login r).
Definition visible_mirror (r : MirrorRow) : option Login := if mr_is_overridden r then None else Some (mr_login r).

Definition get_all : DB (list Login) :=
  d ← db_get;
  mret (omap (λ '(_, r), visible_local r) (map_to_list (loginsL d)) ++
        omap (λ '(_, r), visible_mirror r) (map_to_list (loginsM d))).

(** UNION ALL, ordered by host name, first row. *)
Definition get_by_id (id : string) : DB (option Login) :=
  d ← db_get;
  mret (match loginsL d !! id ≫= visible_local, loginsM d !! id ≫= visible_mirror with
        | Some l, Some m => Some (if String.leb (l_hostname l) (l_hostname m) then l else m)
        | Some l, None => Some l
        | None, m => m
        end).

Definition exists_ (id : string) : DB bool :=
  d ← db_get;
  mret (is_some (loginsL d !! id ≫= visible_local) || is_some (loginsM d !! id ≫= visible_mirror)).

(** ** Changing single logins *)
Definition overridden (r : MirrorRow) : MirrorRow := mkMirrorRow (mr_login r) (mr_server_modified r) true.
Definition mark_mirror_overridden (guid : string) : DB unit := on_mirror (alter overridden guid).

(** The row that [CLONE_ENTIRE_MIRROR_SQL] makes of a mirror row. *)
Definition cloned (r : MirrorRow) : LocalRow := mkLocalRow (mr_login r) None false Synced.

(** INSERT OR IGNORE; returns the number of rows inserted. *)
Definition clone_mirror_to_overlay (guid : string) : DB Z :=
  d ← db_get;
  match loginsM d !! guid with
  | Some r => _ ← on_local (λ l, l ∪ {[guid := cloned r]}); mret (if is_some (loginsL d !! guid) then 0 else 1)
  | None => mret 0
  end.

Definition ensure_local_overlay_exists (guid : string) : DB unit :=
  d ← db_get;
  if is_some (loginsL d !! guid) then mret tt
  else
    changed ← clone_mirror_to_overlay guid;
    if changed =? 0 then st_err (LNoSuchRecord guid) else mret tt.

Definition touched_login (now : Z) (l : Login) : Login :=
  mkLogin (l_id l) (l_hostname l) (l_form_submit_url l) (l_http_realm l) (l_username l)
    (l_password l) (l_username_field l) (l_password_field l) (l_time_created l)
    (l_time_password_changed l) now (l_times_used l + 1).
Definition touched (now : Z) (r : LocalRow) : LocalRow :=
  if lr_is_deleted r then r
  else mkLocalRow (touched_login now (lr_login r)) (Some now) (lr_is_deleted r) (lr_sync_status r).

Definition touch (id : string) : DB unit :=
  transaction (
    _ ← ensure_local_overlay_exists id;
    _ ← mark_mirror_overridden id;
    now ← now_ms;
    on_local (alter (touched now) id)).

Context `{!Rand W, !UrlSafeBase64}.

(** [random_guid().expect(..)]. *)
Definition new_guid : DB string := λ '(d, w),
  let '(r, w) := random_guid w in
  match r with
  | Ok g => (Ok g, (d, w))
  | _ => (Panic "Failed to generate failed to generate random bytes for GUID", (d, w))
  end.

Definition add (login : Login) : DB Login :=
  _ ← st_lift (check_valid login);
  transaction (
    now ← now_ms;
    id ← (if is_empty (l_id login) then new_guid else mret (l_id login));
    let login := mkLogin id (l_hostname login) (l_form_submit_url login) (l_http_realm login)
                   (l_username login) (l_password login) (l_username_field login) (l_password_field login)
                   now now now 1 in
    d ← db_get;
    if is_some (loginsL d !! id) then st_err (LDuplicateGuid id)
    else
      _ ← on_local <[id := mkLocalRow login (Some now) false New]>;
      mret login).

Definition status_max (a b : SyncStatus) : SyncStatus := if SyncStatus_as_u8 a <? SyncStatus_as_u8 b then b else a.

Definition updated_login (login : Login) (now : Z) (l : Login) : Login :=
  mkLogin (l_id l) (l_hostname login) (l_form_submit_url login) (l_http_realm login)
    (l_username login) (l_password login) (l_username_field login) (l_password_field login)
    (l_time_created l)
    (if String.eqb (l_password l) (l_password login) then l_time_password_changed l else now)
    now (l_times_used l + 1).
Definition updated (login : Login) (now : Z) (r : LocalRow) : LocalRow :=
  mkLocalRow (updated_login login now (lr_login r)) (Some now) (lr_is_deleted r) (status_max (lr_sync_status r) Changed).

Definition update (login : Login) : DB unit :=
  _ ← st_lift (check_valid login);
  transaction (
    _ ← ensure_local_overlay_exists (l_id login);
    _ ← mark_mirror_overridden (l_id login);
    now ← now_ms;
    on_local (alter (updated login now) (l_id login))).

(** A local row turned into a tombstone, and the tombstone made for a mirror row. *)
Definition buried (now : Z) (r : LocalRow) : LocalRow :=
  let l := lr_login r in
  mkLocalRow (mkLogin (l_id l) "" (l_form_submit_url l) (l_http_realm l) "" "" (l_username_field l)
                (l_password_field l) (l_time_created l) (l_time_password_changed l) (l_time_last_used l)
                (l_times_used l))
    (Some now) true Changed.
Definition tombstone (now : Z) (r : MirrorRow) : LocalRow :=
  mkLocalRow (mkLogin (l_id (mr_login r)) "" None None "" "" "" "" (l_time_created (mr_login r)) now 0 0)
    (Some now) true Changed.

(** [DELETE FROM loginsL WHERE guid = .. AND sync_status = New]. *)
Definition delete_new (id : string) (l : gmap string LocalRow) : gmap string LocalRow :=
  match l !! id with
  | Some r => if decide (lr_sync_status r = New) then delete id l else l
  | None => l
  end.

Definition delete (id : string) : DB bool :=
  transaction (
    existed ← exists_ id;
    now ← now_ms;
    _ ← on_local (delete_new id);
    _ ← on_local (alter (buried now) id);
    _ ← on_mirror (alter overridden id);
    d ← db_get;
    _ ← match loginsM d !! id with
        | Some r => on_local (λ l, l ∪ {[id := tombstone now r]})
        | None => mret tt
        end;
    mret existed).

(** ** Resetting and wiping *)
Definition as_new (r : LocalRow) : LocalRow :=
  mkLocalRow (lr_login r) (lr_local_modified r) (lr_is_deleted r) New.

Definition reset (assoc : StoreSyncAssociation) : DB unit :=
  transaction (
    d ← db_get;
    _ ← on_local (λ l, l ∪ (cloned <$> loginsM d));
    _ ← on_mirror (λ _, ∅);
    _ ← on_local (λ l, as_new <$> l);
    _ ← set_last_sync SERVER_EPOCH;
    _ ← match assoc with
        | Disconnected => _ ← delete_meta GLOBAL_SYNCID_META_KEY; delete_meta COLLECTION_SYNCID_META_KEY
        | Connected ids =>
            _ ← put_meta GLOBAL_SYNCID_META_KEY (MText (cs_global ids));
            put_meta COLLECTION_SYNCID_META_KEY (MText (cs_coll ids))
        end;
    delete_meta GLOBAL_STATE_META_KEY).

Definition wipe : DB unit :=
  transaction (
    now ← now_ms;
    _ ← on_local (λ l, filter (λ '(_, r), lr_sync_status r ≠ New) l);
    _ ← check_scope;
    _ ← on_local (λ l, (λ r, if lr_is_deleted r then r else buried now r) <$> l);
    _ ← check_scope;
    _ ← on_mirror (λ m, overridden <$> m);
    _ ← check_scope;
    d ← db_get;
    _ ← on_local (λ l, l ∪ (tombstone now <$> loginsM d));
    check_scope).

Definition wipe_local : DB unit :=
  transaction (_ ← on_local (λ _, ∅); _ ← on_mirror (λ _, ∅); on_meta (λ _, ∅)).
End db.

(** ** update_plan.rs *)
Record UpdatePlan := mkUpdatePlan {
  delete_mirror : list string;
  delete_local : list string;
  local_updates : list MirrorLogin;
  mirror_inserts : list (Login * Z * bool);
  mirror_updates : list (Login * Z);
}.

Module UpdatePlan.
Definition default : UpdatePlan := mkUpdatePlan [] [] [] [] [].

Definition plan_two_way_merge (local upstream : Login) (t : ServerTimestamp) (self : UpdatePlan) : UpdatePlan :=
  let is_override := l_time_password_changed upstream <? l_time_password_changed local in
  mkUpdatePlan (delete_mirror self)
    (if negb is_override then delete_local self ++ [l_id local] else delete_local self)
    (local_updates self)
    (mirror_inserts self ++ [(upstream, millis_i64 t, is_override)])
    (mirror_updates self).

Definition plan_delete (id : string) (self : UpdatePlan) : UpdatePlan :=
  mkUpdatePlan (delete_mirror self ++ [id]) (delete_local self ++ [id]) (local_updates self)
    (mirror_inserts self) (mirror_updates self).
Definition plan_mirror_update (login : Login) (time : ServerTimestamp) (self : UpdatePlan) : UpdatePlan :=
  mkUpdatePlan (delete_mirror self) (delete_local self) (local_updates self) (mirror_inserts self)
    (mirror_updates self ++ [(login, millis_i64 time)]).
Definition plan_mirror_insert (login : Login) (time : ServerTimestamp) (is_override : bool) (self : UpdatePlan)
    : UpdatePlan :=
  mkUpdatePlan (delete_mirror self) (delete_local self) (local_updates self)
    (mirror_inserts self ++ [(login, millis_i64 time, is_override)]) (mirror_updates self).

(** The age of the two sides, in nanoseconds; [now] is the local clock. *)
Definition local_age (now : Z) (local : LocalLogin) : Z := Z.max 0 (now - lo_local_modified local).
Definition remote_age (server_now upstream_time : ServerTimestamp) : Z :=
  match duration_since server_now upstream_time with Some (secs, nanos) => secs * NANOS + nanos | None => 0 end.

Definition plan_three_way_merge (debug : bool) (now : Z) (local : LocalLogin) (shared : MirrorLogin)
    (upstream : Login) (upstream_time server_now : ServerTimestamp) (self : UpdatePlan)
    : res LoginsError UpdatePlan :=
  new_login ← three_way_merge debug (lo_login local) (m_login shared) upstream
                (remote_age server_now upstream_time <? local_age now local);
  let new := mkMirrorLogin new_login (m_is_overridden shared) upstream_time in
  Ok (mkUpdatePlan (delete_mirror self) (delete_local self) (local_updates self ++ [new]) (mirror_inserts self)
        (mirror_updates self ++ [(upstream, millis_i64 upstream_time)])).

Section execute.
Context {W : Type} `{!Interruptee W, !Clock W}.
(** [SQLITE_LIMIT_VARIABLE_NUMBER]. *)
Context (max_variable_number : nat).
Abbreviation DB := (ST (LoginDb * W) LoginsError).

(** [DELETE .. WHERE guid IN (..)]. *)
Definition delete_in {A} (guids : list string) (t : gmap string A) : gmap string A :=
  filter (λ '(g, _), g ∉ guids) t.

Definition perform_deletes (self : UpdatePlan) : DB unit :=
  _ ← each_sized_chunk (delete_local self) max_variable_number (λ chunk _,
        _ ← on_local (delete_in chunk); check_scope);
  each_sized_chunk (delete_mirror self) max_variable_number (λ chunk _, on_mirror (delete_in chunk)).

(** [coalesce(nullif(new, 0), old)]. *)
Definition unless_zero (new old : Z) : Z := if new =? 0 then old else new.
Definition mirror_updated (login : Login) (timestamp : Z) (r : MirrorRow) : MirrorRow :=
  let l := mr_login r in
  mkMirrorRow (mkLogin (l_id l) (l_hostname login) (l_form_submit_url login) (l_http_realm login)
                 (l_username login) (l_password login) (l_username_field login) (l_password_field login)
                 (unless_zero (l_time_created login) (l_time_created l))
                 (unless_zero (l_time_password_changed login) (l_time_password_changed l))
                 (unless_zero (l_time_last_used login) (l_time_last_used l))
                 (unless_zero (l_times_used login) (l_times_used l)))
    timestamp (mr_is_overridden r).

Fixpoint perform_mirror_updates (updates : list (Login * Z)) : DB unit :=
  match updates with
  | [] => mret tt
  | (login, timestamp) :: updates =>
      _ ← on_mirror (alter (mirror_updated login timestamp) (l_id login));
      _ ← check_scope;
      perform_mirror_updates updates
  end.

(** INSERT OR IGNORE. *)
Fixpoint perform_mirror_inserts (inserts : list (Login * Z * bool)) : DB unit :=
  match inserts with
  | [] => mret tt
  | (login, timestamp, is_overridden) :: inserts =>
      _ ← on_mirror (λ m, m ∪ {[l_id login := mkMirrorRow login timestamp is_overridden]});
      _ ← check_scope;
      perform_mirror_inserts inserts
  end.

(** All columns but the creation time and the deletion flag. *)
Definition local_updated (login : Login) (local_ms : Z) (r : LocalRow) : LocalRow :=
  let l := lr_login r in
  mkLocalRow (mkLogin (l_id l) (l_hostname login) (l_form_submit_url login) (l_http_realm login)
                (l_username login) (l_password login) (l_username_field login) (l_password_field login)
                (l_time_created l) (l_time_password_changed login) (l_time_last_used login) (l_times_used login))
    (Some local_ms) (lr_is_deleted r) Changed.

Fixpoint update_locals (local_ms : Z) (updates : list MirrorLogin) : DB unit :=
  match updates with
  | [] => mret tt
  | u :: updates =>
      _ ← on_local (alter (local_updated (m_login u) local_ms) (l_id (m_login u)));
      _ ← check_scope;
      update_locals local_ms updates
  end.
Definition perform_local_updates (self : UpdatePlan) : DB unit :=
  local_ms ← now_ms; update_locals local_ms (local_updates self).

Definition execute (self : UpdatePlan) : DB unit :=
  _ ← perform_deletes self;
  _ ← perform_mirror_updates (mirror_updates self);
  _ ← perform_mirror_inserts (mirror_inserts self);
  perform_local_updates self.
End execute.
End UpdatePlan.

(** ** db.rs: synchronising *)
Section sync.
Context {W : Type} `{!Interruptee W, !Clock W, !Rand W, !UrlSafeBase64}.
Context `{!SerdeJson, !Serde Login, !Serde Payload, !UrlLib}.
Context (url_port : Url → option Z).
(** The row that SQLite returns first, of those that match. *)
Context (first_row : list (string * LocalRow) → option (string * LocalRow)).
Context (max_variable_number : nat).
Context (debug : bool).
Abbreviation DB := (ST (LoginDb * W) LoginsError).

(** The rows of a chunk that are not tombstones, as mirror rows. *)
Definition synced_row (modified : Z) (r : LocalRow) : option MirrorRow :=
  if lr_is_deleted r then None else Some (mkMirrorRow (lr_login r) modified false).

Definition mark_as_synchronized (guids : list string) (t : ServerTimestamp) : DB unit :=
  transaction (
    _ ← each_sized_chunk guids max_variable_number (λ chunk _,
          _ ← on_mirror (UpdatePlan.delete_in chunk);
          _ ← check_scope;
          d ← db_get;
          _ ← on_mirror (λ m, m ∪ omap (synced_row (millis_i64 t)) (filter (λ '(g, _), g ∈ chunk) (loginsL d)));
          _ ← check_scope;
          _ ← on_local (UpdatePlan.delete_in chunk);
          check_scope);
    set_last_sync t).

(** *** fetch_login_data *)
Fixpoint parse_records (seen_ids : gset string) (records : list (Payload * ServerTimestamp))
    : res LoginsError (list SyncLoginData) :=
  match records with
  | [] => Ok []
  | (payload, t) :: records =>
      if bool_decide (p_id payload ∈ seen_ids) then Err (LDuplicateGuid (p_id payload))
      else
        data ← SyncLoginData.from_payload payload t;
        rest ← parse_records ({[p_id payload]} ∪ seen_ids) records;
        Ok (data :: rest)
  end.

(** One half of the query: the rows of a table for the guids of a chunk, each stored at the
    index of its guid. *)
Fixpoint join_rows {R} (rows : gmap string R) (set : R → SyncLoginData → res LoginsError SyncLoginData)
    (idx : nat) (guids : list string) (sync_data : list SyncLoginData) : DB (list SyncLoginData) :=
  match guids with
  | [] => mret sync_data
  | guid :: guids =>
      match rows !! guid with
      | None => join_rows rows set (S idx) guids sync_data
      | Some row =>
          match sync_data !! idx with
          | None => st_lift (Panic "index out of bounds")
          | Some data =>
              data ← st_lift (set row data);
              _ ← check_scope;
              join_rows rows set (S idx) guids (<[idx := data]> sync_data)
          end
      end
  end.

Fixpoint fetch_chunks (offset : nat) (cs : list (list string)) (sync_data : list SyncLoginData)
    : DB (list SyncLoginData) :=
  match cs with
  | [] => mret sync_data
  | chunk :: cs =>
      d ← db_get;
      sync_data ← join_rows (loginsM d) (λ r, SyncLoginData.set_mirror (MirrorLogin_from_row r)) offset chunk sync_data;
      sync_data ← join_rows (loginsL d) (λ r, SyncLoginData.set_local (LocalLogin_from_row r)) offset chunk sync_data;
      fetch_chunks (offset + length chunk)%nat cs sync_data
  end.

Definition fetch_login_data (records : list (Payload * ServerTimestamp)) : DB (list SyncLoginData) :=
  sync_data ← st_lift (parse_records ∅ records);
  _ ← check_scope;
  fetch_chunks 0 (chunks (length records) max_variable_number ((λ r, p_id r.1) <$> records)) sync_data.

(** *** find_dupe *)
Definition dupe_matches (l : Login) (r : LocalRow) : bool :=
  let row := lr_login r in
  String.eqb (l_hostname row) (l_hostname l) && bool_decide (l_http_realm row = l_http_realm l)
  && String.eqb (l_username row) (l_username l)
  && match l_form_submit_url l ≫= url_host_port url_port with
     | Some form_submit =>
         match l_form_submit_url row with
         | Some url => String.eqb url "" || is_some (String.index 0 form_submit url)
         | None => false
         end
     | None => negb (is_some (l_form_submit_url row))
     end.
Definition find_dupe (l : Login) : DB (option Login) :=
  d ← db_get;
  mret ((λ '(_, r), lr_login r) <$> first_row (filter (λ '(_, r), dupe_matches l r = true) (map_to_list (loginsL d)))).

(** *** reconcile *)
Definition reconcile_one (server_now : ServerTimestamp) (record : SyncLoginData) (plan : UpdatePlan) : DB UpdatePlan :=
  let upstream_time := (sd_inbound record).2 in
  match (sd_inbound record).1 with
  | None => mret (UpdatePlan.plan_delete (sd_guid record) plan)
  | Some upstream =>
      match sd_mirror record, sd_local record with
      | Some mirror, Some local =>
          now ← now_ns;
          st_lift (UpdatePlan.plan_three_way_merge debug now local mirror upstream upstream_time server_now plan)
      | Some _, None => mret (UpdatePlan.plan_mirror_update upstream upstream_time plan)
      | None, Some local => mret (UpdatePlan.plan_two_way_merge (lo_login local) upstream upstream_time plan)
      | None, None =>
          dupe ← find_dupe upstream;
          mret (match dupe with
                | Some dupe => UpdatePlan.plan_two_way_merge dupe upstream upstream_time plan
                | None => UpdatePlan.plan_mirror_insert upstream upstream_time false plan
                end)
      end
  end.

Fixpoint reconcile_loop (server_now : ServerTimestamp) (records : list SyncLoginData) (plan : UpdatePlan) : DB UpdatePlan :=
  match records with
  | [] => mret plan
  | record :: records =>
      _ ← check_scope;
      plan ← reconcile_one server_now record plan;
      reconcile_loop server_now records plan
  end.
Definition reconcile (records : list SyncLoginData) (server_now : ServerTimestamp) : DB UpdatePlan :=
  reconcile_loop server_now records UpdatePlan.default.

Definition execute_plan (plan : UpdatePlan) : DB unit := transaction (UpdatePlan.execute max_variable_number plan).

(** *** fetch_outgoing *)
Definition TOMBSTONE_SORTINDEX : Z := 5000000.
Definition DEFAULT_SORTINDEX : Z := 1.

Definition outgoing_payload (guid : string) (r : LocalRow) : res LoginsError Payload :=
  if lr_is_deleted r then Ok (Payload.with_sortindex TOMBSTONE_SORTINDEX (Payload.new_tombstone guid))
  else
    payload ← map_err LSyncAdapterError (Payload.from_record (lr_login r));
    Ok (Payload.with_sortindex DEFAULT_SORTINDEX payload).

Fixpoint outgoing_payloads (rows : list (string * LocalRow)) : DB (list Payload) :=
  match rows with
  | [] => mret []
  | (guid, r) :: rows =>
      _ ← check_scope;
      payload ← st_lift (outgoing_payload guid r);
      payloads ← outgoing_payloads rows;
      mret (payload :: payloads)
  end.

Definition fetch_outgoing (t : ServerTimestamp) : DB OutgoingChangeset :=
  d ← db_get;
  changes ← outgoing_payloads (map_to_list (filter (λ '(_, r), lr_sync_status r ≠ Synced) (loginsL d)));
  mret (mkRecordChangeset changes t "passwords").

Definition do_apply_incoming (inbound : IncomingChangeset) : DB OutgoingChangeset :=
  data ← fetch_login_data (rc_changes inbound);
  plan ← reconcile data (rc_timestamp inbound);
  _ ← execute_plan plan;
  fetch_outgoing (rc_timestamp inbound).

(** ** [Store] for logins

    The [?] of the methods turns an error into a [failure::Error], here its text. *)
Context (display : LoginsError → string).

Definition get_sync_assoc_db : DB StoreSyncAssociation :=
  global ← get_meta_text GLOBAL_SYNCID_META_KEY;
  coll ← get_meta_text COLLECTION_SYNCID_META_KEY;
  mret (match global, coll with
        | Some global, Some coll => Connected (mkCollSyncIds global coll)
        | _, _ => Disconnected
        end).
Definition get_collection_request_db : DB CollectionRequest :=
  since ← get_last_sync;
  mret (CollectionRequest.newer_than (default ts_default since) (CollectionRequest.full (CollectionRequest.new "passwords"))).

Definition login_store : Store (LoginDb * W) := {|
  collection_name := "passwords";
  apply_incoming inbound := st_map_err display (do_apply_incoming inbound);
  sync_finished new_timestamp records_synced := st_map_err display (mark_as_synchronized records_synced new_timestamp);
  get_collection_request := st_map_err display get_collection_request_db;
  get_sync_assoc := st_map_err display get_sync_assoc_db;
  CollState.reset assoc := st_map_err display (reset assoc);
  CollState.wipe := st_map_err display wipe;
|}.
End sync.
