(* ===== verification/LoginsSpec.v ===== *)
(** * Logins: what the operations do to the logins the user sees

    The user sees the local rows that are not deleted and the mirror rows that are not
    overridden.  The invariant of the two tables makes this a map from guids to logins, and the
    operations of [LoginsDb.v] are shown to be the corresponding operations on that map.  The
    proofs use the postconditions of [Database.v], with a rule per statement. *)

From S2P Require Import Prelude Database Sync15Types KeyBundle Bso State CollState Token Login LoginsDb.
Local Open Scope Z_scope.
Local Open Scope list_scope.

(** ** What the user sees *)
Definition vis_row (ol : option LocalRow) (om : option MirrorRow) : option Login :=
  match ol ≫= visible_local with Some l => Some l | None => om ≫= visible_mirror end.
Definition visible (d : LoginDb) : gmap string Login :=
  omap visible_local (loginsL d) ∪ omap visible_mirror (loginsM d).

Lemma lookup_visible d g : visible d !! g = vis_row (loginsL d !! g) (loginsM d !! g).
Proof.
  unfold visible, vis_row. rewrite lookup_union, !lookup_omap.
  destruct (loginsL d !! g ≫= visible_local), (loginsM d !! g ≫= visible_mirror); done.
Qed.

(** Rows are stored under their guid, and a login with a local row is not read from the
    mirror. *)
Definition row_ok (g : string) (ol : option LocalRow) (om : option MirrorRow) : Prop :=
  (∀ r, ol = Some r → l_id (lr_login r) = g) ∧ (∀ r, om = Some r → l_id (mr_login r) = g) ∧
  (∀ r m, ol = Some r → om = Some m → mr_is_overridden m = true).
Definition db_wf (d : LoginDb) : Prop := ∀ g, row_ok g (loginsL d !! g) (loginsM d !! g).

Section operations.
Context {W : Type} `{!Interruptee W, !Clock W, !Rand W, !UrlSafeBase64}.
Context (max_variable_number : nat).
Abbreviation DB := (ST (LoginDb * W) LoginsError).

(** The operations of the application and of the end of a sync. *)
Inductive login_op :=
| OAdd (l : Login)
| OUpdate (l : Login)
| ODelete (id : string)
| OTouch (id : string)
| OWipe
| OWipeLocal
| OReset (assoc : StoreSyncAssociation)
| OSynced (guids : list string) (t : ServerTimestamp).
Inductive op_out := OutDone | OutLogin (l : Login) | OutBool (b : bool).

Definition run_op (o : login_op) : DB op_out :=
  match o with
  | OAdd l => l ← add l; mret (OutLogin l)
  | OUpdate l => _ ← update l; mret OutDone
  | ODelete id => b ← delete id; mret (OutBool b)
  | OTouch id => _ ← touch id; mret OutDone
  | OWipe => _ ← wipe; mret OutDone
  | OWipeLocal => _ ← wipe_local; mret OutDone
  | OReset assoc => _ ← reset assoc; mret OutDone
  | OSynced guids t => _ ← mark_as_synchronized max_variable_number guids t; mret OutDone
  end.

(** A sync acknowledges each local row at most once, and no others. *)
Definition op_pre (o : login_op) (d : LoginDb) : Prop :=
  match o with
  | OSynced guids _ => NoDup guids ∧ Forall (λ g, is_Some (loginsL d !! g)) guids
  | _ => True
  end.

(** The login that a change of [id] starts from: the local one, or else that of the mirror. *)
Definition source (d : LoginDb) (id : string) : option Login :=
  match loginsL d !! id with
  | Some r => visible_local r
  | None => mr_login <$> loginsM d !! id
  end.
(** The map in which the login [id] is [h] of what it was. *)
Definition changed (h : Login → Login) (id : string) (d : LoginDb) (v : gmap string Login) : gmap string Login :=
  match source d id with Some l => <[id := h l]> v | None => v end.

Definition same_entry (a b : Login) : Prop :=
  l_hostname a = l_hostname b ∧ l_form_submit_url a = l_form_submit_url b ∧ l_http_realm a = l_http_realm b ∧
  l_username a = l_username b ∧ l_password a = l_password b.

(** The operations on the map of visible logins; [d] are the tables before. *)
Definition op_spec (o : login_op) (out : op_out) (d : LoginDb) (v' : gmap string Login) : Prop :=
  let v := visible d in
  match o, out with
  | OAdd l, OutLogin l' =>
      check_valid l' = Ok tt ∧ same_entry l l' ∧ (l_id l ≠ ""%string → l_id l' = l_id l) ∧
      loginsL d !! l_id l' = None ∧ v' = <[l_id l' := l']> v
  | OUpdate l, OutDone => check_valid l = Ok tt ∧ ∃ now, v' = changed (updated_login l now) (l_id l) d v
  | ODelete id, OutBool b => b = is_some (v !! id) ∧ v' = base.delete id v
  | OTouch id, OutDone => ∃ now, v' = changed (touched_login now) id d v
  | OWipe, OutDone | OWipeLocal, OutDone => v' = ∅
  | OReset _, OutDone => v ⊆ v'
  | OSynced _ _, OutDone => v' = v
  | _, _ => False
  end.

(** The invariant afterwards: an addition keeps it if, and only if, no login with the id of the
    new one was visible. *)
Definition op_wf (o : login_op) (out : op_out) (d d' : LoginDb) : Prop :=
  match o, out with
  | OAdd _, OutLogin l' => db_wf d' ↔ visible d !! l_id l' = None
  | _, _ => db_wf d'
  end.

(** *** Rules for the calls of [LoginsDb.v] *)
Lemma ok_post_scope d Q : Q tt d → ok_post check_scope d Q.
Proof.
  intros HQ w a d' w'. unfold check_scope. destruct (err_if_interrupted w) as [[[]|e|m] w1]; [|done..].
  by intros [= <- <- <-].
Qed.
Lemma ok_post_now_ns d Q : (∀ t, Q t d) → ok_post now_ns d Q.
Proof. intros HQ w a d' w'. unfold now_ns. destruct (system_now w). intros [= <- <- <-]. apply HQ. Qed.
Lemma ok_post_now_ms d Q : (∀ t, Q t d) → ok_post now_ms d Q.
Proof. intros HQ. apply ok_post_bind, ok_post_now_ns. intros t. by apply ok_post_ret. Qed.
Lemma ok_post_guid d Q : (∀ g, Q g d) → ok_post new_guid d Q.
Proof.
  intros HQ w a d' w'. unfold new_guid. destruct (random_guid w) as [[g|e|m] w1]; [|done..]. intros [= <- <- <-]. apply HQ.
Qed.
End operations.

Ltac db_step :=
  cbn beta;
  lazymatch goal with
  | |- ok_post (on_local _) _ _ => apply ok_post_modify
  | |- ok_post (on_mirror _) _ _ => apply ok_post_modify
  | |- ok_post (on_meta _) _ _ => apply ok_post_modify
  | |- ok_post check_scope _ _ => apply ok_post_scope
  | |- ok_post now_ns _ _ => apply ok_post_now_ns; intros ?
  | |- ok_post now_ms _ _ => apply ok_post_now_ms; intros ?
  | |- ok_post new_guid _ _ => apply ok_post_guid; intros ?
  | _ => ok_step
  end; cbn beta.
Ltac db_steps := repeat db_step.

Section refinement.
Context {W : Type} `{!Interruptee W, !Clock W, !Rand W, !UrlSafeBase64}.
Context (max_variable_number : nat).

(** Both claims about a call, row by row. *)
Lemma wf_visible_intro (d d' : LoginDb) (v' : gmap string Login) :
  (∀ g, row_ok g (loginsL d' !! g) (loginsM d' !! g) ∧ vis_row (loginsL d' !! g) (loginsM d' !! g) = v' !! g) →
  db_wf d' ∧ visible d' = v'.
Proof.
  intros Hall. split; [intros g; apply Hall|]. apply map_eq. intros g. rewrite lookup_visible. apply Hall.
Qed.

Lemma row_ok_local g r om :
  l_id (lr_login r) = g → (∀ m, om = Some m → l_id (mr_login m) = g ∧ mr_is_overridden m = true) →
  row_ok g (Some r) om.
Proof. unfold row_ok. naive_solver. Qed.
Lemma row_ok_mirror g om : (∀ m, om = Some m → l_id (mr_login m) = g) → row_ok g None om.
Proof. intros Hm. unfold row_ok. naive_solver. Qed.

(** With a local row the mirror row is hidden. *)
Lemma vis_row_local g r om : row_ok g (Some r) om → vis_row (Some r) om = visible_local r.
Proof.
  intros (_ & _ & Hov). unfold vis_row. cbn. destruct (visible_local r); [done|].
  destruct om as [m|]; [|done]. cbn. unfold visible_mirror. by rewrite (Hov r m).
Qed.

Lemma add_rows d l' now :
  db_wf d → loginsL d !! l_id l' = None →
  let d' := mkLoginDb (<[l_id l' := mkLocalRow l' (Some now) false New]> (loginsL d)) (loginsM d) (loginsSyncMeta d) in
  (db_wf d' ↔ visible d !! l_id l' = None) ∧ visible d' = <[l_id l' := l']> (visible d).
Proof.
  intros Hwf Hl. cbn. rewrite lookup_visible, Hl. destruct (Hwf (l_id l')) as (_ & Hm & _). split; [split|].
  - intros Hwf'. destruct (Hwf' (l_id l')) as (_ & _ & Hov). cbn in Hov. rewrite lookup_insert_eq in Hov.
    unfold vis_row, visible_mirror. cbn. destruct (loginsM d !! l_id l') as [m|]; [|done]. cbn. by rewrite (Hov _ m eq_refl eq_refl).
  - intros Hvis g. cbn. destruct (decide (g = l_id l')) as [->|Hne]; [|rewrite lookup_insert_ne by done; apply Hwf].
    rewrite lookup_insert_eq. apply row_ok_local; [done|]. intros m Hgm. split; [by apply Hm|].
    revert Hvis. rewrite Hgm. unfold vis_row, visible_mirror. cbn. by destruct (mr_is_overridden m).
  - apply map_eq. intros g. rewrite lookup_visible. cbn. destruct (decide (g = l_id l')) as [->|Hne].
    + by rewrite !lookup_insert_eq.
    + by rewrite !lookup_insert_ne, lookup_visible.
Qed.

Lemma add_ok (l : Login) d :
  db_wf d →
  ok_post (W:=W) (add l) d (λ l' d', op_wf (OAdd l) (OutLogin l') d d' ∧ op_spec (OAdd l) (OutLogin l') d (visible d')).
Proof.
  intros Hwf. unfold add. db_step. apply ok_post_lift. intros [] Hvalid. db_step. db_step.
  apply ok_post_now_ms. intros now. db_step.
  assert (Hid : ok_post (W:=W) (if is_empty (l_id l) then new_guid else mret (l_id l)) d
    (λ id d1, d1 = d ∧ (l_id l ≠ ""%string → id = l_id l))).
  { unfold is_empty. destruct (String.eqb_spec (l_id l) ""); by db_steps. }
  eapply ok_post_weaken; [exact Hid|]. intros id d1 (-> & Hsame). db_steps.
  destruct (loginsL d !! id) as [r|] eqn:Hl; cbn [is_some]; db_steps.
  match goal with |- _ ∧ op_spec _ (OutLogin ?l1) _ _ => set (l' := l1) end.
  destruct (add_rows d l' now Hwf Hl) as [Hwf' Hvis]. split; [exact Hwf'|]. cbn. by split_and!.
Qed.

(** The local row that an update works on: the one that is there, or a clone of the mirror. *)
Definition overlay (d : LoginDb) (id : string) (r : LocalRow) : Prop :=
  loginsL d !! id = Some r ∨ loginsL d !! id = None ∧ ∃ m, loginsM d !! id = Some m ∧ r = cloned m.

Lemma ensure_overlay_ok id d :
  ok_post (W:=W) (ensure_local_overlay_exists id) d (λ _ d1,
    ∃ r, overlay d id r ∧ d1 = mkLoginDb (<[id := r]> (loginsL d)) (loginsM d) (loginsSyncMeta d)).
Proof.
  unfold ensure_local_overlay_exists. db_steps.
  destruct (loginsL d !! id) as [r|] eqn:Hl; cbn [is_some].
  - db_steps. exists r. split; [by left|]. rewrite insert_id by done. by destruct d.
  - unfold clone_mirror_to_overlay. db_steps. rewrite Hl. destruct (loginsM d !! id) as [m|] eqn:Hm; db_steps; cbn; db_steps.
    exists (cloned m). split; [right; eauto|].
    f_equal. by rewrite insert_union_singleton_r.
Qed.

Lemma overlay_visible d id r :
  db_wf d → overlay d id r →
  l_id (lr_login r) = id ∧ source d id = visible_local r ∧ (visible_local r = None → visible d !! id = None) ∧
  (∀ m, alter overridden id (loginsM d) !! id = Some m → l_id (mr_login m) = id ∧ mr_is_overridden m = true).
Proof.
  intros Hwf Hov. specialize (Hwf id). unfold source. rewrite lookup_visible, lookup_alter_eq. split_and!.
  - destruct Hov as [Hl|(Hl & m & Hm & ->)]; [by apply Hwf|]. cbn. by apply Hwf.
  - destruct Hov as [Hl|(Hl & m & Hm & ->)]; rewrite Hl; [done|]. by rewrite Hm.
  - destruct Hov as [Hl|(Hl & m & Hm & ->)]; [|done]. rewrite Hl in *. by rewrite (vis_row_local id).
  - intros m (m0 & Hm0 & ->)%fmap_Some. split; [|done]. destruct Hwf as (_ & Hid & _). exact (Hid m0 Hm0).
Qed.

(** Updating the overlay of a login updates it in the visible map. *)
Lemma overlay_alter_ok id d r (f : LocalRow → LocalRow) (h : Login → Login) :
  db_wf d → overlay d id r →
  l_id (lr_login (f r)) = l_id (lr_login r) → visible_local (f r) = h <$> visible_local r →
  let d' := mkLoginDb (alter f id (<[id := r]> (loginsL d))) (alter overridden id (loginsM d)) (loginsSyncMeta d) in
  db_wf d' ∧ visible d' = changed h id d (visible d).
Proof.
  intros Hwf Hov Hid Hvis. apply (wf_visible_intro d). intros g. cbn.
  destruct (overlay_visible d id r Hwf Hov) as (Hrid & Hsrc & Hnone & Hm). unfold changed. rewrite Hsrc.
  destruct (decide (g = id)) as [->|Hne].
  - assert (Hrow : row_ok id (Some (f r)) (alter overridden id (loginsM d) !! id)).
    { apply row_ok_local; [congruence|exact Hm]. }
    rewrite !lookup_alter_eq, lookup_insert_eq in *. cbn. split; [done|].
    rewrite (vis_row_local id), Hvis by done. destruct (visible_local r); cbn; [by rewrite lookup_insert_eq|by rewrite Hnone].
  - rewrite !lookup_alter_ne, lookup_insert_ne by done. split; [apply Hwf|].
    destruct (visible_local r); rewrite ?lookup_insert_ne by done; by rewrite lookup_visible.
Qed.

Lemma update_ok (l : Login) d :
  db_wf d →
  ok_post (W:=W) (update l) d (λ _ d', db_wf d' ∧ op_spec (OUpdate l) OutDone d (visible d')).
Proof.
  intros Hwf. unfold update, mark_mirror_overridden. db_step. apply ok_post_lift. intros [] Hvalid. do 2 db_step.
  eapply ok_post_weaken; [apply ensure_overlay_ok|]. intros _ d1 (r & Hov & ->).
  db_step. db_step. db_step. apply ok_post_now_ms. intros now. db_step. cbn.
  destruct (overlay_alter_ok (l_id l) d r (updated l now) (updated_login l now)) as [Hwf' ->]; try done.
  { unfold visible_local, updated. cbn. by destruct (lr_is_deleted r). }
  split; [done|]. split; [done|]. by exists now.
Qed.

Lemma touch_ok id d :
  db_wf d →
  ok_post (W:=W) (touch id) d (λ _ d', db_wf d' ∧ op_spec (OTouch id) OutDone d (visible d')).
Proof.
  intros Hwf. unfold touch, mark_mirror_overridden. do 2 db_step.
  eapply ok_post_weaken; [apply ensure_overlay_ok|]. intros _ d1 (r & Hov & ->).
  db_step. db_step. db_step. apply ok_post_now_ms. intros now. db_step. cbn.
  destruct (overlay_alter_ok id d r (touched now) (touched_login now)) as [Hwf' ->]; try done.
  - unfold touched. by destruct (lr_is_deleted r).
  - unfold visible_local, touched. destruct (lr_is_deleted r) eqn:Hd; cbn; by rewrite ?Hd.
  - split; [done|]. by exists now.
Qed.

(** *** Deleting and wiping *)
Definition dead (g : string) (r : LocalRow) : Prop := l_id (lr_login r) = g ∧ lr_is_deleted r = true.

(** Rows of a login nobody sees. *)
Lemma gone_row g ol om :
  (∀ r, ol = Some r → dead g r) → (∀ m, om = Some m → l_id (mr_login m) = g ∧ mr_is_overridden m = true) →
  row_ok g ol om ∧ vis_row ol om = None.
Proof.
  intros Hl Hm. split.
  - destruct ol as [r|]; [apply row_ok_local; [by apply Hl|done]|apply row_ok_mirror; intros m Hom; by apply Hm].
  - unfold vis_row, visible_local, visible_mirror. destruct ol as [r|]; cbn.
    + destruct (Hl r eq_refl) as [_ ->]. destruct om as [m|]; cbn; [|done]. by destruct (Hm m eq_refl) as [_ ->].
    + destruct om as [m|]; cbn; [|done]. by destruct (Hm m eq_refl) as [_ ->].
Qed.

Lemma dead_union g ol om now :
  (∀ r, ol = Some r → dead g r) → (∀ m, om = Some m → l_id (mr_login m) = g) →
  ∀ r, ol ∪ (tombstone now <$> om) = Some r → dead g r.
Proof.
  intros Hl Hm r. destruct ol as [r0|], om as [m|]; cbn; intros [= <-]; try (by apply Hl). split; [by apply Hm|done].
Qed.

Lemma delete_new_lookup id l g : delete_new id l !! g = if decide (g = id) then
    (r ← l !! g; if decide (lr_sync_status r = New) then None else Some r) else l !! g.
Proof.
  unfold delete_new. destruct (l !! id) as [r|] eqn:Hr.
  - destruct (decide (g = id)) as [->|Hne]; [rewrite Hr; cbn|]; case_decide.
    + by rewrite lookup_delete_eq.
    + done.
    + by rewrite lookup_delete_ne.
    + done.
  - destruct (decide (g = id)) as [->|]; by rewrite ?Hr.
Qed.

Lemma delete_ok id d :
  db_wf d →
  ok_post (W:=W) (delete id) d (λ b d', db_wf d' ∧ op_spec (ODelete id) (OutBool b) d (visible d')).
Proof.
  intros Hwf. unfold delete, exists_. do 4 db_step. db_step. db_step. apply ok_post_now_ms. intros now. db_steps.
  cbn [loginsM loginsL].
  set (L' := alter (buried now) id (delete_new id (loginsL d))).
  set (M' := alter overridden id (loginsM d)).
  assert (Hrows : ∀ L3, (∀ g, L3 !! g = if decide (g = id) then L' !! g ∪ (tombstone now <$> M' !! g) else loginsL d !! g) →
    let d' := mkLoginDb L3 M' (loginsSyncMeta d) in
    db_wf d' ∧ visible d' = base.delete id (visible d)).
  { intros L3 HL3. apply (wf_visible_intro d). intros g. cbn. rewrite HL3. subst L' M'.
    destruct (decide (g = id)) as [->|Hne].
    - rewrite !lookup_alter_eq, lookup_delete_eq, delete_new_lookup, decide_True by done.
      destruct (Hwf id) as (Hlid & Hmid & _).
      assert (Hm : ∀ m, overridden <$> loginsM d !! id = Some m → l_id (mr_login m) = id ∧ mr_is_overridden m = true).
      { intros m (m0 & Hm0 & ->)%fmap_Some. split; [by apply (Hmid m0)|done]. }
      apply gone_row; [|done]. apply dead_union; [|intros m Hm'; by apply Hm].
      intros r (r0 & (r1 & Hr1 & Hr0)%bind_Some & ->)%fmap_Some. split; [|done]. cbn.
      case_decide; simplify_eq. by apply Hlid.
    - rewrite lookup_alter_ne, lookup_delete_ne, lookup_visible by done. split; [apply Hwf|done]. }
  assert (Hexists : is_some (loginsL d !! id ≫= visible_local) || is_some (loginsM d !! id ≫= visible_mirror) =
    is_some (visible d !! id)).
  { rewrite lookup_visible. unfold vis_row. by destruct (_ ≫= visible_local). }
  rewrite Hexists.
  destruct (M' !! id) as [m|] eqn:Hm'; db_steps; cbn [loginsM loginsL loginsSyncMeta].
  - destruct (Hrows (L' ∪ {[id := tombstone now m]})) as [Hwf' Hvis]; [|by split].
    intros g. rewrite lookup_union. destruct (decide (g = id)) as [->|Hne].
    + by rewrite lookup_singleton_eq, Hm'.
    + rewrite lookup_singleton_ne by done. subst L'. rewrite lookup_alter_ne, delete_new_lookup, decide_False by done.
      by destruct (loginsL d !! g).
  - destruct (Hrows L') as [Hwf' Hvis]; [|by split].
    intros g. destruct (decide (g = id)) as [->|Hne]; [rewrite Hm'; by destruct (L' !! id)|].
    subst L'. by rewrite lookup_alter_ne, delete_new_lookup, decide_False.
Qed.

Lemma wipe_ok d :
  db_wf d → ok_post (W:=W) wipe d (λ _ d', db_wf d' ∧ op_spec OWipe OutDone d (visible d')).
Proof.
  intros Hwf. unfold wipe. do 2 db_step. apply ok_post_now_ms. intros now. db_steps. cbn [loginsL loginsM op_spec].
  apply (wf_visible_intro d). intros g. cbn.
  rewrite lookup_union, !lookup_fmap, lookup_empty. destruct (Hwf g) as (Hl & Hm & _).
  assert (Hm' : ∀ m, overridden <$> loginsM d !! g = Some m → l_id (mr_login m) = g ∧ mr_is_overridden m = true).
  { intros m (m0 & Hm0 & ->)%fmap_Some. split; [by apply (Hm m0)|done]. }
  apply gone_row; [|done]. apply dead_union; [|intros m ?; by apply Hm'].
  intros r (r0 & [Hr0 _]%map_lookup_filter_Some & ->)%fmap_Some.
  destruct (lr_is_deleted r0) eqn:Hd; (split; [by apply (Hl r0)|done]).
Qed.

Lemma wipe_local_ok d :
  ok_post (W:=W) wipe_local d (λ _ d', db_wf d' ∧ op_spec OWipeLocal OutDone d (visible d')).
Proof.
  unfold wipe_local. db_steps. cbn [loginsL loginsM op_spec].
  apply (wf_visible_intro d). intros g. cbn. rewrite !lookup_empty. by apply gone_row.
Qed.

Lemma reset_rows g ol om :
  row_ok g ol om →
  row_ok g (as_new <$> ol ∪ (cloned <$> om)) None ∧
  (∀ l, vis_row ol om = Some l → vis_row (as_new <$> ol ∪ (cloned <$> om)) None = Some l).
Proof.
  intros Hrow. pose proof Hrow as (Hl & Hm & _). destruct ol as [r|].
  - split; [destruct om; cbn; (apply row_ok_local; [exact (Hl r eq_refl)|done])|].
    intros l. rewrite (vis_row_local g) by done. unfold vis_row.
    destruct om; cbn; unfold visible_local; cbn; by destruct (lr_is_deleted r).
  - destruct om as [m|]; cbn; [|by split; [apply row_ok_mirror|]].
    split; [apply row_ok_local; [by apply (Hm m)|done]|].
    intros l. unfold vis_row, visible_mirror, visible_local. cbn. by destruct (mr_is_overridden m).
Qed.

Lemma meta_irrelevant d meta : db_wf d → db_wf (mkLoginDb (loginsL d) (loginsM d) meta) ∧
  visible (mkLoginDb (loginsL d) (loginsM d) meta) = visible d.
Proof. by split. Qed.

Lemma reset_ok assoc d :
  db_wf d → ok_post (W:=W) (reset assoc) d (λ _ d', db_wf d' ∧ op_spec (OReset assoc) OutDone d (visible d')).
Proof.
  intros Hwf. unfold reset, set_last_sync, put_meta, delete_meta. db_steps. cbn [loginsL loginsM loginsSyncMeta].
  destruct assoc; db_steps; cbn [loginsL loginsM loginsSyncMeta op_spec].
  all: split; [intros g; cbn; rewrite lookup_fmap, lookup_union, lookup_fmap, lookup_empty; by apply reset_rows|].
  all: apply map_subseteq_spec; intros g l; rewrite !lookup_visible; cbn.
  all: rewrite lookup_fmap, lookup_union, lookup_fmap, lookup_empty; exact (proj2 (reset_rows g _ _ (Hwf g)) l).
Qed.

(** *** The end of a sync *)
Lemma delete_in_lookup {A} guids (t : gmap string A) g :
  UpdatePlan.delete_in guids t !! g = if decide (g ∈ guids) then None else t !! g.
Proof.
  unfold UpdatePlan.delete_in. case_decide.
  - apply map_lookup_filter_None. right. naive_solver.
  - destruct (t !! g) eqn:Hg; [by apply map_lookup_filter_Some|apply map_lookup_filter_None; by left].
Qed.

Definition synced_rows (modified : Z) (chunk : list string) (d : LoginDb) : gmap string MirrorRow :=
  omap (synced_row modified) (filter (λ '(g, _), g ∈ chunk) (loginsL d)).

Lemma synced_rows_lookup modified chunk d g :
  synced_rows modified chunk d !! g = if decide (g ∈ chunk) then loginsL d !! g ≫= synced_row modified else None.
Proof.
  unfold synced_rows. rewrite lookup_omap, map_lookup_filter.
  destruct (loginsL d !! g) as [r|]; cbn; [|by case_decide]. repeat case_guard; repeat case_decide; naive_solver.
Qed.

Lemma synced_chunk_rows g ol om modified :
  row_ok g ol om → is_Some ol →
  row_ok g None (None ∪ (ol ≫= synced_row modified)) ∧
  vis_row None (None ∪ (ol ≫= synced_row modified)) = vis_row ol om.
Proof.
  intros Hrow [r ->]. pose proof Hrow as (Hl & _). rewrite (vis_row_local g) by done.
  unfold vis_row, synced_row, visible_local. cbn. destruct (lr_is_deleted r); cbn; (split; [|done]).
  - by apply row_ok_mirror.
  - apply row_ok_mirror. intros m [= <-]. by apply Hl.
Qed.

Lemma mark_chunk_ok modified chunk d :
  db_wf d → Forall (λ g, is_Some (loginsL d !! g)) chunk →
  let d' := mkLoginDb (UpdatePlan.delete_in chunk (loginsL d))
              (UpdatePlan.delete_in chunk (loginsM d) ∪ synced_rows modified chunk d) (loginsSyncMeta d) in
  db_wf d' ∧ visible d' = visible d.
Proof.
  intros Hwf Hin. apply (wf_visible_intro d). intros g. cbn.
  rewrite lookup_union, synced_rows_lookup, !delete_in_lookup, lookup_visible.
  destruct (decide (g ∈ chunk)) as [Hg|Hg].
  - apply synced_chunk_rows; [apply Hwf|]. rewrite Forall_forall in Hin. by apply Hin.
  - specialize (Hwf g). by destruct (loginsM d !! g).
Qed.

Lemma mark_ok guids t d :
  db_wf d → op_pre (OSynced guids t) d →
  ok_post (W:=W) (mark_as_synchronized max_variable_number guids t) d (λ _ d',
    db_wf d' ∧ op_spec (OSynced guids t) OutDone d (visible d')).
Proof.
  intros Hwf [Hnd Hin]. unfold mark_as_synchronized, each_sized_chunk, set_last_sync, put_meta. do 2 db_step.
  set (cs := chunks _ _ _). pose proof (chunks_sublist (length guids) max_variable_number guids : concat cs `sublist_of` guids) as Hsub.
  eapply ok_post_weaken.
  - apply (ok_post_do_chunks _ (λ cs d', db_wf d' ∧ visible d' = visible d ∧ NoDup (concat cs) ∧
      Forall (λ g, is_Some (loginsL d' !! g)) (concat cs))).
    + intros off c rest d1 (Hwf1 & Hvis1 & [Hndc [Hdisj Hndr]]%NoDup_app & [Hc Hr]%Forall_app). db_steps.
      cbn [loginsL loginsM loginsSyncMeta].
      destruct (mark_chunk_ok (millis_i64 t) c d1 Hwf1 Hc) as [Hwf2 Hvis2].
      split_and!; [exact Hwf2|by rewrite <-Hvis1|done|].
      apply Forall_forall. intros g Hg. rewrite delete_in_lookup, decide_False; [|intros Hgc; by apply (Hdisj g)].
      rewrite Forall_forall in Hr. by apply Hr.
    + split_and!; [done..| |]; [by eapply sublist_NoDup|].
      rewrite Forall_forall in *. intros g Hg. apply Hin. by eapply elem_of_submseteq, sublist_submseteq.
  - intros u d1 (Hwf1 & Hvis1 & _). db_steps. by split.
Qed.

(** C11: The operations on the login database are operations on the map of visible logins.  From
    any state of the tables that satisfies their invariant, an operation that succeeds
    adds, updates, removes or touches exactly the login it is about (with the
    new content and metadata; a removal reports whether it was there), a wipe leaves nothing, a
    reset hides nothing, and the end of a sync, which must acknowledge distinct ids of local
    rows, changes nothing that is visible.  An update or a touch starts from the local row, or
    from the mirror row where there is none; one of a deleted login changes nothing.  Every success keeps the
    invariant, except an addition under an id that is visible in the mirror, by the caller or by a
    generated id that collides: it makes a second login with that id, and breaks the
    invariant.  An operation that fails, is interrupted or panics leaves the tables as they were. *)
Theorem logins_refine_map (o : login_op) d (w : W) r d' w' :
  db_wf d → op_pre o d → run_op max_variable_number o (d, w) = (r, (d', w')) →
  match r with
  | Ok out => op_wf o out d d' ∧ op_spec o out d (visible d')
  | _ => d' = d
  end.
Proof.
  intros Hwf Hpre Hrun.
  assert (Hback : rolls_back (run_op max_variable_number o)).
  { destruct o; apply rolls_back_ret; try apply rolls_back_transaction;
      apply rolls_back_lift; intros; apply rolls_back_transaction. }
  destruct r as [out|e|m]; [|by apply (Hback _ _ _ _ _ Hrun)..].
  revert Hrun. apply (λ H : ok_post (run_op max_variable_number o) d
    (λ out d', op_wf o out d d' ∧ op_spec o out d (visible d')), H w out d' w').
  destruct o; cbn [run_op]; db_step;
    (eapply ok_post_weaken;
      [first [by apply add_ok|by apply update_ok|by apply delete_ok|by apply touch_ok|by apply wipe_ok
             |apply wipe_local_ok|by apply reset_ok|by apply mark_ok]
      |intros ? ? ?; by db_steps]).
Qed.
End refinement.
