(* ===== verification/LoginsSync.v ===== *)
(** * Logins: applying incoming changes

    What a sync does to the tables of [LoginsDb.v]: the rows for the incoming guids are fetched
    ([fetch_login_data]), each record is reconciled with them ([reconcile]), and the resulting
    plan is executed in a transaction. *)

From S2P Require Import Prelude Database Sync15Types KeyBundle Bso State CollState Viaduct Token Client Login LoginsDb LoginsSpec.
Local Open Scope Z_scope.
Local Open Scope list_scope.

(** [serde]: the field [id] of the record is the entry [id] of the JSON object, which
    [JsonValue::from(Payload)] sets to the id of the payload. *)
Class LoginSerdeLaws `{!SerdeJson} (L : Serde Login) : Prop :=
  login_id_law : ∀ p l, Payload.into_record (T:=Login) p = Ok l → l_id l = p_id p.

(** ** Chunks *)

Section fetch.
Context {W : Type} `{!Interruptee W, !Clock W, !Rand W, !UrlSafeBase64}.
Context `{!SerdeJson, !Serde Login, !Serde Payload, !UrlLib}.
Context (max_variable_number : nat).
Abbreviation DB := (ST (LoginDb * W) LoginsError).

(** What one half of the query does to the data of a guid. *)
Definition filled {R} (rows : gmap string R) (set : R → SyncLoginData → res LoginsError SyncLoginData)
    (g : string) (x x' : SyncLoginData) : Prop :=
  match rows !! g with None => x' = x | Some row => set row x = Ok x' end.

Lemma join_rows_ok {R} (rows : gmap string R) set guids d : ∀ idx pre mid post,
  length pre = idx → length mid = length guids →
  ok_post (W:=W) (join_rows rows set idx guids (pre ++ mid ++ post)) d (λ data d',
    d' = d ∧ ∃ mid', data = pre ++ mid' ++ post ∧ Forall3 (filled rows set) guids mid mid').
Proof.
  induction guids as [|g guids IH]; intros idx pre mid post Hpre Hmid; cbn [join_rows].
  { destruct mid; [|done]. db_steps. split; [done|]. exists []. split; [done|constructor]. }
  destruct mid as [|x mid]; [done|]. injection Hmid as Hmid. cbn [app].
  assert (Hnext : ∀ x', filled rows set g x x' →
    ok_post (W:=W) (join_rows rows set (S idx) guids (pre ++ x' :: mid ++ post)) d (λ data d',
      d' = d ∧ ∃ mid', data = pre ++ mid' ++ post ∧ Forall3 (filled rows set) (g :: guids) (x :: mid) mid')).
  { intros x' Hx'. rewrite (cons_middle x'), app_assoc.
    eapply ok_post_weaken; [apply IH; [rewrite length_app; cbn; lia|done]|].
    intros data d' (-> & mid' & -> & Hmid'). split; [done|]. exists (x' :: mid').
    rewrite <-app_assoc. split; [done|by constructor]. }
  unfold filled in Hnext. destruct (rows !! g) as [row|] eqn:Hrow.
  - rewrite list_lookup_middle by done. db_step. apply ok_post_lift. intros x' Hx'. db_steps.
    rewrite insert_app_r_alt, Hpre, Nat.sub_diag by lia. cbn. by apply Hnext.
  - by apply Hnext.
Qed.

(** Both halves. *)
Definition joined (d : LoginDb) (g : string) (x x' : SyncLoginData) : Prop :=
  ∃ x1, filled (loginsM d) (λ r, SyncLoginData.set_mirror (MirrorLogin_from_row r)) g x x1 ∧
        filled (loginsL d) (λ r, SyncLoginData.set_local (LocalLogin_from_row r)) g x1 x'.

Lemma Forall3_compose {A B} (P Q : A → B → B → Prop) l m n o :
  Forall3 P l m n → Forall3 Q l n o → Forall3 (λ g x z, ∃ y, P g x y ∧ Q g y z) l m o.
Proof. intros HP. revert o. induction HP; intros o HQ; inversion HQ; subst; constructor; eauto. Qed.

Lemma fetch_chunks_ok d cs : ∀ offset pre mid,
  length pre = offset → length mid = length (concat cs) →
  ok_post (W:=W) (fetch_chunks offset cs (pre ++ mid)) d (λ data d',
    d' = d ∧ ∃ mid', data = pre ++ mid' ∧ Forall3 (joined d) (concat cs) mid mid').
Proof.
  induction cs as [|chunk cs IH]; intros offset pre mid Hpre Hmid; cbn [fetch_chunks].
  { destruct mid; [|done]. db_steps. split; [done|]. exists []. split; [done|constructor]. }
  cbn [concat] in Hmid. rewrite length_app in Hmid.
  destruct (decide (length mid < length chunk)%nat) as [|Hlong]; [lia|].
  rewrite <-(take_drop (length chunk) mid). set (a := take _ mid). set (b := drop _ mid).
  assert (Ha : length a = length chunk) by (subst a; rewrite length_take; lia).
  assert (Hb : length b = length (concat cs)) by (subst b; rewrite length_drop; lia). clearbody a b.
  do 3 db_step. eapply ok_post_weaken; [by apply join_rows_ok|].
  intros data d1 (-> & a1 & -> & Ha1). db_step.
  eapply ok_post_weaken; [apply join_rows_ok; [done|symmetry; apply (Forall3_length_lr _ _ _ _ Ha1)]|].
  intros data d1 (-> & a2 & -> & Ha2). rewrite app_assoc.
  assert (Hlen : length a2 = length chunk) by (symmetry; apply (Forall3_length_lr _ _ _ _ Ha2)).
  eapply ok_post_weaken; [apply IH; [rewrite length_app; lia|done]|].
  intros data d1 (-> & b' & -> & Hb'). split; [done|]. exists (a2 ++ b'). rewrite app_assoc. split; [done|].
  cbn [concat]. apply Forall3_app; [|done]. eapply Forall3_compose; [exact Ha1|exact Ha2].
Qed.

(** The data of a record before and after the query. *)
Definition parsed (rec : Payload * ServerTimestamp) (x : SyncLoginData) : Prop :=
  sd_guid x = p_id rec.1 ∧ (sd_inbound x).2 = rec.2 ∧
  (if Payload.is_tombstone rec.1 then (sd_inbound x).1 = None
   else ∃ l, Payload.into_record rec.1 = Ok l ∧ (sd_inbound x).1 = Some l).
Definition fetched (d : LoginDb) (rec : Payload * ServerTimestamp) (x : SyncLoginData) : Prop :=
  parsed rec x ∧
  sd_mirror x = MirrorLogin_from_row <$> loginsM d !! p_id rec.1 ∧
  sd_local x = LocalLogin_from_row <$> loginsL d !! p_id rec.1.
Definition ids_of (records : list (Payload * ServerTimestamp)) : list string := (λ r, p_id r.1) <$> records.

Lemma from_payload_ok p t x :
  SyncLoginData.from_payload p t = Ok x → parsed (p, t) x ∧ sd_local x = None ∧ sd_mirror x = None.
Proof.
  unfold SyncLoginData.from_payload, parsed. cbn [fst]. destruct (Payload.is_tombstone p); [by intros [= <-]|].
  destruct (Payload.into_record p) as [l|e|m] eqn:Hl; cbn; [intros [= <-]|done..]. split; [|done]. cbn. eauto.
Qed.

Lemma parse_records_ok records : ∀ seen data,
  parse_records seen records = Ok data →
  Forall2 (λ rec x, parsed rec x ∧ sd_local x = None ∧ sd_mirror x = None) records data ∧
  NoDup (ids_of records) ∧ ∀ g, g ∈ ids_of records → g ∉ seen.
Proof.
  induction records as [|[p t] records IH]; intros seen data; cbn [parse_records].
  { intros [= <-]. split_and!; [constructor|constructor|set_solver]. }
  case_bool_decide as Hseen; [done|].
  intros (x & Hx & (rest & Hrest & [= <-])%res_bind_Ok_inv)%res_bind_Ok_inv.
  apply from_payload_ok in Hx. apply IH in Hrest as (Hall & Hnd & Hdisj).
  split_and!; [by constructor| |].
  - cbn. apply NoDup_cons. split; [|done]. intros Hin%Hdisj. set_solver.
  - intros g [-> |Hin]%elem_of_cons; [done|]. apply Hdisj in Hin. set_solver.
Qed.

Lemma joined_fetched d rec x x' :
  parsed rec x → sd_local x = None → sd_mirror x = None → joined d (p_id rec.1) x x' → fetched d rec x'.
Proof.
  intros (Hg & Ht & Hin) Hl Hm (x1 & Hf1 & Hf2).
  assert (parsed rec x1 ∧ sd_local x1 = None ∧ sd_mirror x1 = MirrorLogin_from_row <$> loginsM d !! p_id rec.1) as (Hp1 & Hl1 & Hm1).
  { unfold filled in Hf1. destruct (loginsM d !! p_id rec.1) as [row|]; [|by subst].
    unfold SyncLoginData.set_mirror in Hf1. rewrite Hm in Hf1. cbn in Hf1. destruct (String.eqb _ _); [|done].
    injection Hf1 as <-. done. }
  unfold filled in Hf2. split_and!.
  all: destruct (loginsL d !! p_id rec.1) as [row|]; [|by subst].
  all: unfold SyncLoginData.set_local in Hf2; rewrite Hl1 in Hf2; cbn in Hf2; destruct (String.eqb _ _); [|done].
  all: by injection Hf2 as <-.
Qed.

Lemma fetch_login_data_ok records d :
  (0 < max_variable_number)%nat →
  ok_post (W:=W) (fetch_login_data max_variable_number records) d (λ data d',
    d' = d ∧ NoDup (ids_of records) ∧ Forall2 (fetched d) records data).
Proof.
  intros Hmax. unfold fetch_login_data. db_step. apply ok_post_lift. intros data Hparse. do 2 db_step.
  apply parse_records_ok in Hparse as (Hall & Hnd & _).
  assert (Hcat : concat (chunks (length records) max_variable_number (ids_of records)) = ids_of records).
  { apply chunks_concat; [done|]. unfold ids_of. by rewrite length_fmap. }
  eapply ok_post_weaken; [apply (fetch_chunks_ok d _ 0 [] data); [done|]|].
  { fold (ids_of records). rewrite Hcat. unfold ids_of. rewrite length_fmap. symmetry. by eapply Forall2_length. }
  fold (ids_of records). rewrite Hcat. intros data' d' (-> & mid' & -> & Hjoin). split_and!; [done..|]. cbn [app].
  clear Hcat Hnd. unfold ids_of in Hjoin. revert mid' Hjoin.
  induction Hall as [|rec x records data (Hp & Hl & Hm) _ IH]; intros mid' Hjoin; cbn in Hjoin;
    inversion Hjoin; subst; constructor; [by eapply joined_fetched|by apply IH].
Qed.
End fetch.

(** ** The plan *)
Section plan.
Context {W : Type} `{!Interruptee W, !Clock W, !Rand W, !UrlSafeBase64}.
Context `{!SerdeJson, !Serde Login, !Serde Payload, !UrlLib}.
Context (url_port : Url → option Z).
Context (first_row : list (string * LocalRow) → option (string * LocalRow)).
(** A query returns one of the rows that match. *)
Context (first_row_in : ∀ l x, first_row l = Some x → x ∈ l).
Context (debug : bool) (d : LoginDb) (Hwf : db_wf d).
(** The guids of the incoming logins and of the incoming tombstones. *)
Context (live tombs : list string).

(** A login that is read from the mirror when the plan is executed has no local row. *)
Definition insert_ok (deleted : list string) (e : Login * Z * bool) : Prop :=
  l_id e.1.1 ∈ live ∧ (e.2 = false → loginsL d !! l_id e.1.1 = None ∨ l_id e.1.1 ∈ deleted).

(** A local row that is deleted: one that an incoming record replaces or deletes, or one that
    an incoming login duplicates. *)
Definition delete_ok (g : string) : Prop :=
  g ∈ live ∨ g ∈ tombs ∨ ∃ row upstream, loginsL d !! g = Some row ∧ l_id upstream ∈ live ∧ dupe_matches url_port upstream row = true.

Record plan_ok (plan : UpdatePlan) : Prop := {
  po_inserts : Forall (insert_ok (delete_local plan)) (mirror_inserts plan);
  po_updates : Forall (λ e, l_id e.1 ∈ live) (mirror_updates plan);
  po_locals : Forall (λ u, l_id (m_login u) ∈ live) (local_updates plan);
  po_delete_mirror : Forall (λ g, g ∈ tombs) (delete_mirror plan);
  po_delete_local : Forall delete_ok (delete_local plan);
}.

(** The data of a record, as fetched. *)
Record record_ok (x : SyncLoginData) : Prop := {
  ro_local : sd_local x = LocalLogin_from_row <$> loginsL d !! sd_guid x;
  ro_mirror : sd_mirror x = MirrorLogin_from_row <$> loginsM d !! sd_guid x;
  ro_live : ∀ l, (sd_inbound x).1 = Some l → l_id l = sd_guid x ∧ sd_guid x ∈ live;
  ro_tomb : (sd_inbound x).1 = None → sd_guid x ∈ tombs;
}.

Lemma insert_ok_mono deleted deleted' e :
  (∀ g, g ∈ deleted → g ∈ deleted') → insert_ok deleted e → insert_ok deleted' e.
Proof. unfold insert_ok. naive_solver. Qed.

Lemma plan_ok_default : plan_ok UpdatePlan.default.
Proof. split; constructor. Qed.

Lemma plan_delete_ok g plan : g ∈ tombs → plan_ok plan → plan_ok (UpdatePlan.plan_delete g plan).
Proof.
  intros Hg [Hi Hu Hl Hdm Hdl]. split; cbn; [|done..| |].
  - eapply Forall_impl; [exact Hi|]. intros e. apply insert_ok_mono. set_solver.
  - apply Forall_app. split; [done|by constructor].
  - apply Forall_app. split; [done|]. constructor; [by right; left|constructor].
Qed.

Lemma two_way_ok local upstream t plan :
  l_id upstream ∈ live →
  (l_id local = l_id upstream ∨ loginsL d !! l_id upstream = None ∧ delete_ok (l_id local)) →
  plan_ok plan → plan_ok (UpdatePlan.plan_two_way_merge local upstream t plan).
Proof.
  intros Hup Hlocal [Hi Hu Hl Hdm Hdl]. unfold UpdatePlan.plan_two_way_merge.
  destruct (_ <? _) eqn:Hov; cbn [negb]; split; cbn; try done.
  - apply Forall_app. split; [done|]. by repeat constructor.
  - apply Forall_app. split; [eapply Forall_impl; [exact Hi|]; intros e; apply insert_ok_mono; set_solver|].
    constructor; [split; [done|]|constructor]. cbn. intros _. destruct Hlocal as [->|[Hn _]]; [right; set_solver|by left].
  - apply Forall_app. split; [done|]. constructor; [|constructor]. destruct Hlocal as [->|[_ ?]]; [by left|done].
Qed.

Lemma two_way_deletes local upstream t plan g :
  (g ∈ delete_local plan → g ∈ delete_local (UpdatePlan.plan_two_way_merge local upstream t plan)) ∧
  delete_mirror (UpdatePlan.plan_two_way_merge local upstream t plan) = delete_mirror plan.
Proof. unfold UpdatePlan.plan_two_way_merge. destruct (_ <? _); cbn; set_solver. Qed.

Lemma three_way_merge_id {E} local shared upstream newer l :
  three_way_merge (E:=E) debug local shared upstream newer = Ok l → l_id l = l_id shared.
Proof.
  unfold three_way_merge. intros (a & _ & (b & _ & (c & _ & Ha)%res_bind_Ok_inv)%res_bind_Ok_inv)%res_bind_Ok_inv.
  unfold apply_delta in Ha. by apply res_bind_Ok_inv in Ha as (n & _ & [= <-]).
Qed.

Lemma find_dupe_ok upstream :
  ok_post (W:=W) (find_dupe url_port first_row upstream) d (λ o d', d' = d ∧ ∀ dupe, o = Some dupe →
    ∃ row, loginsL d !! l_id dupe = Some row ∧ dupe_matches url_port upstream row = true).
Proof.
  unfold find_dupe. db_steps. split; [done|]. intros dupe ([g r] & Hr & ->)%fmap_Some.
  apply first_row_in, list_elem_of_filter in Hr as [Hmatch Hr]. apply elem_of_map_to_list in Hr.
  destruct (Hwf g) as (Hid & _). rewrite (Hid r Hr). by exists r.
Qed.

(** A login that is new here: no rows, and no local login it duplicates. *)
Definition brand_new (x : SyncLoginData) (upstream : Login) : Prop :=
  (sd_inbound x).1 = Some upstream ∧ loginsM d !! sd_guid x = None ∧ loginsL d !! sd_guid x = None ∧
  map_Forall (λ _ row, dupe_matches url_port upstream row = false) (loginsL d).

Lemma find_dupe_none upstream :
  map_Forall (λ _ row, dupe_matches url_port upstream row = false) (loginsL d) →
  ok_post (W:=W) (find_dupe url_port first_row upstream) d (λ o d', d' = d ∧ o = None).
Proof.
  intros Hnone. unfold find_dupe. db_steps. split; [done|].
  destruct (first_row _) as [[g r]|] eqn:Hr; [|done].
  apply first_row_in, list_elem_of_filter in Hr as [Hmatch Hr%elem_of_map_to_list].
  by rewrite (Hnone g r Hr) in Hmatch.
Qed.

Lemma reconcile_new now x plan upstream :
  record_ok x → brand_new x upstream →
  ok_post (W:=W) (reconcile_one url_port first_row debug now x plan) d (λ plan' d',
    mirror_inserts plan' = mirror_inserts plan ++ [(upstream, millis_i64 (sd_inbound x).2, false)]).
Proof.
  intros [Hlocal Hmirror _ _] (Hin & Hm & Hl & Hnone). unfold reconcile_one. rewrite Hin, Hmirror, Hlocal, Hm, Hl. cbn.
  db_step. eapply ok_post_weaken; [by apply find_dupe_none|]. intros o d' [-> ->]. by db_steps.
Qed.

Abbreviation keys plan := ((λ e : Login * Z * bool, l_id e.1.1) <$> mirror_inserts plan).

(** A record adds at most one row to the mirror, under its own guid. *)
Lemma reconcile_keys now x plan :
  record_ok x →
  ok_post (W:=W) (reconcile_one url_port first_row debug now x plan) d (λ plan' _,
    ∃ ins, mirror_inserts plan' = mirror_inserts plan ++ ins ∧
      ((λ e : Login * Z * bool, l_id e.1.1) <$> ins) `sublist_of` [sd_guid x]).
Proof.
  intros [Hlocal Hmirror Hlive _]. unfold reconcile_one.
  assert (Hnil : ∀ plan : UpdatePlan, ∃ ins, mirror_inserts plan = mirror_inserts plan ++ ins ∧
      ((λ e : Login * Z * bool, l_id e.1.1) <$> ins) `sublist_of` [sd_guid x]).
  { intros p. exists []. rewrite app_nil_r. split; [done|apply sublist_nil_l]. }
  destruct ((sd_inbound x).1) as [upstream|]; [|db_steps; apply (Hnil plan)].
  destruct (Hlive upstream eq_refl) as [Hup _].
  destruct (sd_mirror x) as [m|], (sd_local x) as [r|].
  - db_step. apply ok_post_now_ns. intros t. apply ok_post_lift. intros plan' Hplan'.
    unfold UpdatePlan.plan_three_way_merge in Hplan'. apply res_bind_Ok_inv in Hplan' as (l & Hl & [= <-]). apply (Hnil plan).
  - db_steps. apply (Hnil plan).
  - db_steps. eexists [_]. split; [done|]. cbn. by rewrite Hup.
  - db_step. intros w dupe d1 w1 _. db_steps. destruct dupe; eexists [_]; (split; [done|]); cbn; by rewrite Hup.
Qed.

Lemma reconcile_one_ok now x plan :
  record_ok x → plan_ok plan →
  ok_post (W:=W) (reconcile_one url_port first_row debug now x plan) d (λ plan' d',
    d' = d ∧ plan_ok plan' ∧ (∀ g, g ∈ delete_local plan → g ∈ delete_local plan') ∧
    (∀ g, g ∈ delete_mirror plan → g ∈ delete_mirror plan') ∧
    ((sd_inbound x).1 = None → sd_guid x ∈ delete_local plan' ∧ sd_guid x ∈ delete_mirror plan')).
Proof.
  intros [Hlocal Hmirror Hlive Htomb] Hplan. unfold reconcile_one.
  destruct ((sd_inbound x).1) as [upstream|]; cycle 1.
  { db_steps. split_and!; [done|by apply plan_delete_ok, Hplan; apply Htomb|cbn; set_solver..]. }
  destruct (Hlive upstream eq_refl) as [Hup Hin]. rewrite <-Hup in Hin.
  destruct (Hwf (sd_guid x)) as (Hlid & Hmid & _).
  rewrite Hmirror, Hlocal. destruct (loginsM d !! sd_guid x) as [m|] eqn:Hm, (loginsL d !! sd_guid x) as [r|] eqn:Hr; cbn.
  - db_step. apply ok_post_now_ns. intros t. apply ok_post_lift. intros plan' Hplan'.
    unfold UpdatePlan.plan_three_way_merge in Hplan'. apply res_bind_Ok_inv in Hplan' as (l & Hl & [= <-]).
    apply three_way_merge_id in Hl. cbn in Hl. destruct Hplan as [Hi Hu Hls Hdm Hdl].
    split_and!; [done| |done..]. split; cbn; try done; (apply Forall_app; split; [done|]; constructor; [cbn|constructor]).
    + done.
    + by rewrite Hl, (Hmid m), <-Hup.
  - db_steps. destruct Hplan as [Hi Hu Hls Hdm Hdl]. split_and!; [done| |done..]. split; cbn; try done.
    apply Forall_app. split; [done|]. by repeat constructor.
  - db_steps. split_and!; [done| |intros g; apply two_way_deletes|intros g; by rewrite (proj2 (two_way_deletes _ _ _ _ g))|done].
    apply two_way_ok; [done| |done]. left. cbn. by rewrite (Hlid r), Hup.
  - db_step. eapply ok_post_weaken; [apply find_dupe_ok|]. intros dupe d' (-> & Hdupe). db_steps.
    rewrite <-Hup in Hr. destruct dupe as [dupe|].
    + destruct (Hdupe dupe eq_refl) as (row & Hrow & Hmatch).
      split_and!; [done| |intros g; apply two_way_deletes|intros g; by rewrite (proj2 (two_way_deletes _ _ _ _ g))|done].
      apply two_way_ok; [done| |done]. right. split; [done|]. right. right. by exists row, upstream.
    + destruct Hplan as [Hi Hu Hls Hdm Hdl]. split_and!; [done| |done..]. split; cbn; try done.
      apply Forall_app. split; [done|]. constructor; [split; [done|by left]|constructor].
Qed.

Lemma reconcile_loop_ok now records : ∀ plan,
  Forall record_ok records → plan_ok plan →
  ok_post (W:=W) (reconcile_loop url_port first_row debug now records plan) d (λ plan' d',
    d' = d ∧ plan_ok plan' ∧ (∀ g, g ∈ delete_local plan → g ∈ delete_local plan') ∧
    (∀ g, g ∈ delete_mirror plan → g ∈ delete_mirror plan') ∧
    Forall (λ x, (sd_inbound x).1 = None → sd_guid x ∈ delete_local plan' ∧ sd_guid x ∈ delete_mirror plan') records ∧
    (∃ ins, mirror_inserts plan' = mirror_inserts plan ++ ins ∧
      ((λ e : Login * Z * bool, l_id e.1.1) <$> ins) `sublist_of` (sd_guid <$> records) ∧
      Forall (λ x, ∀ upstream, brand_new x upstream → (upstream, millis_i64 (sd_inbound x).2, false) ∈ ins) records)).
Proof.
  induction records as [|x records IH]; intros plan Hrec Hplan; cbn [reconcile_loop].
  { db_steps. split_and!; [done..|constructor|]. exists []. rewrite app_nil_r. split_and!; [done|done|constructor]. }
  apply Forall_cons in Hrec as [Hx Hrec]. do 3 db_step.
  intros w plan1 d1 w1 Hrun.
  destruct (reconcile_one_ok now x plan Hx Hplan w plan1 d1 w1 Hrun) as (-> & Hplan1 & Hdl1 & Hdm1 & Hx1).
  destruct (reconcile_keys now x plan Hx w plan1 d w1 Hrun) as (ins1 & Hins1 & Hsub1).
  pose proof (λ up Hnew, reconcile_new now x plan up Hx Hnew w plan1 d w1 Hrun) as Hnew1. clear Hrun.
  eapply ok_post_weaken; [by apply IH|].
  intros plan2 d2 (-> & Hplan2 & Hdl2 & Hdm2 & Hrest & ins2 & Hins2 & Hsub2 & Hnew2).
  split_and!; [done|done|intros g Hg; by apply Hdl2, Hdl1|intros g Hg; by apply Hdm2, Hdm1| |].
  - constructor; [|done]. intros Hn. destruct (Hx1 Hn). split; [by apply Hdl2|by apply Hdm2].
  - exists (ins1 ++ ins2). split_and!.
    + by rewrite Hins2, Hins1, app_assoc.
    + rewrite fmap_app. by apply (sublist_app _ [sd_guid x]).
    + constructor.
      * intros up Hnew. apply Hnew1 in Hnew. rewrite Hins1 in Hnew. apply app_inv_head in Hnew. subst ins1.
        apply elem_of_app. left. by apply list_elem_of_singleton.
      * eapply Forall_impl; [exact Hnew2|]. intros y Hy up Hn. apply elem_of_app. right. by apply Hy.
Qed.
End plan.

(** ** Executing the plan *)
Section execute.
Context {W : Type} `{!Interruptee W, !Clock W, !Rand W, !UrlSafeBase64}.
Context (max_variable_number : nat) (Hmax : (0 < max_variable_number)%nat).
Context (live : list string).

Lemma delete_in_app {A} a b (t : gmap string A) :
  UpdatePlan.delete_in b (UpdatePlan.delete_in a t) = UpdatePlan.delete_in (a ++ b) t.
Proof.
  apply map_eq. intros g. rewrite !delete_in_lookup.
  destruct (decide (g ∈ b)), (decide (g ∈ a)), (decide (g ∈ a ++ b)); set_solver.
Qed.
Lemma delete_in_nil {A} (t : gmap string A) : UpdatePlan.delete_in [] t = t.
Proof. apply map_eq. intros g. rewrite delete_in_lookup, decide_False; [done|set_solver]. Qed.

Lemma perform_deletes_ok plan d :
  ok_post (W:=W) (UpdatePlan.perform_deletes max_variable_number plan) d (λ _ d1,
    loginsL d1 = UpdatePlan.delete_in (delete_local plan) (loginsL d) ∧
    loginsM d1 = UpdatePlan.delete_in (delete_mirror plan) (loginsM d)).
Proof.
  unfold UpdatePlan.perform_deletes, each_sized_chunk. db_step.
  eapply ok_post_weaken; [apply (ok_post_do_chunks _ (λ cs d1,
      UpdatePlan.delete_in (concat cs) (loginsL d1) = UpdatePlan.delete_in (delete_local plan) (loginsL d) ∧
      loginsM d1 = loginsM d))|].
  - intros off c cs d1 [Hl Hm]. db_steps. cbn. by rewrite delete_in_app.
  - by rewrite chunks_concat.
  - intros u d1 [Hl Hm]. cbn in Hl. rewrite delete_in_nil in Hl.
    eapply ok_post_weaken; [apply (ok_post_do_chunks _ (λ cs d2,
        UpdatePlan.delete_in (concat cs) (loginsM d2) = UpdatePlan.delete_in (delete_mirror plan) (loginsM d) ∧
        loginsL d2 = loginsL d1))|].
    + intros off c cs d2 [Hl2 Hm2]. db_steps. cbn. by rewrite delete_in_app.
    + by rewrite chunks_concat, Hm.
    + intros u2 d2 [Hm2 Hl2]. cbn in Hm2. rewrite delete_in_nil in Hm2. by rewrite Hl2.
Qed.

(** What the three loops keep; [same] compares the rows of the other logins. *)
Definition same {A} (t t' : gmap string A) : Prop := ∀ g, g ∉ live → t' !! g = t !! g.

Lemma same_alter {A} (f : A → A) g (t t' : gmap string A) : g ∈ live → same t t' → same t (alter f g t').
Proof. intros Hg Hs h Hh. rewrite lookup_alter_ne; [by apply Hs|]. by intros ->. Qed.

Lemma mirror_updates_ok updates : ∀ d,
  db_wf d → Forall (λ e, l_id e.1 ∈ live) updates →
  ok_post (W:=W) (UpdatePlan.perform_mirror_updates updates) d (λ _ d1,
    db_wf d1 ∧ loginsL d1 = loginsL d ∧ same (loginsM d) (loginsM d1) ∧
    ∀ g, loginsM d !! g = None → loginsM d1 !! g = None).
Proof.
  induction updates as [|[l t] updates IH]; intros d Hwf Hall; cbn [UpdatePlan.perform_mirror_updates]; db_steps; [done|].
  apply Forall_cons in Hall as [Hl Hall]. cbn [loginsL loginsM].
  set (d1 := mkLoginDb _ _ _).
  assert (Hwf1 : db_wf d1).
  { intros g. cbn. destruct (Hwf g) as (Hlid & Hmid & Hov).
    destruct (decide (g = l_id l)) as [->|Hne]; [rewrite lookup_alter_eq|by rewrite lookup_alter_ne].
    split_and!; [done| |].
    - intros m (m0 & Hm0 & ->)%fmap_Some. exact (Hmid m0 Hm0).
    - intros r m Hr (m0 & Hm0 & ->)%fmap_Some. exact (Hov r m0 Hr Hm0). }
  eapply ok_post_weaken; [by apply IH|]. intros u d2 (Hwf2 & Hl2 & Hs & Hn). split_and!; [done|by rewrite Hl2| |].
  - intros g Hg. rewrite (Hs g Hg). by apply same_alter.
  - intros g Hg. apply Hn. by apply lookup_alter_None.
Qed.

Lemma mirror_inserts_ok inserts : ∀ d,
  db_wf d → Forall (λ e, l_id e.1.1 ∈ live ∧ (e.2 = false → loginsL d !! l_id e.1.1 = None)) inserts →
  ok_post (W:=W) (UpdatePlan.perform_mirror_inserts inserts) d (λ _ d1,
    db_wf d1 ∧ loginsL d1 = loginsL d ∧ same (loginsM d) (loginsM d1)).
Proof.
  induction inserts as [|[[l t] ov] inserts IH]; intros d Hwf Hall; cbn [UpdatePlan.perform_mirror_inserts]; db_steps; [done|].
  apply Forall_cons in Hall as [[Hl Hov] Hall]. cbn [loginsL loginsM] in *. cbn [fst snd] in Hl, Hov.
  set (d1 := mkLoginDb _ _ _).
  assert (Hwf1 : db_wf d1).
  { intros g. cbn. rewrite lookup_union. destruct (Hwf g) as (Hlid & Hmid & Hrow).
    destruct (decide (g = l_id l)) as [->|Hne]; [rewrite lookup_singleton_eq|by rewrite lookup_singleton_ne; [destruct (loginsM d !! g)|]].
    destruct (loginsM d !! l_id l) as [m|] eqn:Hm; cbn; [done|].
    split_and!; [done|by intros m [= <-]|]. intros r m Hr [= <-]. cbn. destruct ov; [done|]. rewrite Hov in Hr by done. done. }
  eapply ok_post_weaken; [by apply IH|]. intros u d2 (Hwf2 & Hl2 & Hs). split_and!; [done|by rewrite Hl2|].
  intros g Hg. rewrite (Hs g Hg). cbn. rewrite lookup_union, lookup_singleton_ne by (intros Heq; apply Hg; by rewrite <-Heq).
  by destruct (loginsM d !! g).
Qed.

(** Rows that are there stay, and a row that is inserted is there afterwards. *)
Lemma mirror_inserts_keep inserts g m : ∀ d,
  loginsM d !! g = Some m →
  ok_post (W:=W) (UpdatePlan.perform_mirror_inserts inserts) d (λ _ d1, loginsM d1 !! g = Some m).
Proof.
  induction inserts as [|[[l t] ov] inserts IH]; intros d Hm; cbn [UpdatePlan.perform_mirror_inserts]; db_steps; [done|].
  apply IH. cbn. by apply lookup_union_Some_l.
Qed.
Lemma mirror_inserts_in inserts l t ov : ∀ d,
  NoDup ((λ e, l_id e.1.1) <$> inserts) → (l, t, ov) ∈ inserts → loginsM d !! l_id l = None →
  ok_post (W:=W) (UpdatePlan.perform_mirror_inserts inserts) d (λ _ d1,
    loginsM d1 !! l_id l = Some (mkMirrorRow l t ov)).
Proof.
  induction inserts as [|[[l' t'] ov'] inserts IH]; intros d Hnd Hin Hm; [by apply not_elem_of_nil in Hin|].
  cbn [UpdatePlan.perform_mirror_inserts]. cbn in Hnd. apply NoDup_cons in Hnd as [Hnot Hnd].
  apply elem_of_cons in Hin as [[= <- <- <-]|Hin]; db_steps.
  - apply mirror_inserts_keep. cbn. rewrite lookup_union_r by done. apply lookup_singleton_eq.
  - apply IH; [done..|]. cbn. rewrite lookup_union_r by done. apply lookup_singleton_ne.
    intros Heq. apply Hnot. rewrite Heq. apply list_elem_of_fmap. by exists (l, t, ov).
Qed.

Lemma update_locals_ok ms updates : ∀ d,
  db_wf d → Forall (λ u, l_id (m_login u) ∈ live) updates →
  ok_post (W:=W) (UpdatePlan.update_locals ms updates) d (λ _ d1,
    db_wf d1 ∧ loginsM d1 = loginsM d ∧ same (loginsL d) (loginsL d1) ∧
    ∀ g, loginsL d !! g = None → loginsL d1 !! g = None).
Proof.
  induction updates as [|u updates IH]; intros d Hwf Hall; cbn [UpdatePlan.update_locals]; db_steps; [done|].
  apply Forall_cons in Hall as [Hl Hall]. cbn [loginsL loginsM].
  set (d1 := mkLoginDb _ _ _).
  assert (Hwf1 : db_wf d1).
  { intros g. cbn. destruct (Hwf g) as (Hlid & Hmid & Hov).
    destruct (decide (g = l_id (m_login u))) as [->|Hne]; [rewrite lookup_alter_eq|by rewrite lookup_alter_ne].
    split_and!; [|done|].
    - intros r (r0 & Hr0 & ->)%fmap_Some. exact (Hlid r0 Hr0).
    - intros r m (r0 & Hr0 & ->)%fmap_Some Hm. exact (Hov r0 m Hr0 Hm). }
  eapply ok_post_weaken; [by apply IH|]. intros v d2 (Hwf2 & Hm2 & Hs & Hn). split_and!; [done|by rewrite Hm2| |].
  - intros g Hg. rewrite (Hs g Hg). by apply same_alter.
  - intros g Hg. apply Hn. by apply lookup_alter_None.
Qed.

Lemma delete_in_wf d a b m :
  db_wf d → db_wf (mkLoginDb (UpdatePlan.delete_in a (loginsL d)) (UpdatePlan.delete_in b (loginsM d)) m).
Proof.
  intros Hwf g. cbn. rewrite !delete_in_lookup. destruct (Hwf g) as (Hl & Hm & Hov).
  repeat case_decide; split_and!; naive_solver.
Qed.

Lemma execute_ok `{!UrlLib} (url_port : Url → option Z) tombs plan d :
  db_wf d → plan_ok url_port d live tombs plan → NoDup ((λ e, l_id e.1.1) <$> mirror_inserts plan) →
  ok_post (W:=W) (UpdatePlan.execute max_variable_number plan) d (λ _ d',
    db_wf d' ∧ same (UpdatePlan.delete_in (delete_local plan) (loginsL d)) (loginsL d') ∧
    same (UpdatePlan.delete_in (delete_mirror plan) (loginsM d)) (loginsM d') ∧
    ∀ l t, (l, t, false) ∈ mirror_inserts plan → loginsL d !! l_id l = None → loginsM d !! l_id l = None →
      visible d' !! l_id l = Some l).
Proof.
  intros Hwf [Hi Hu Hl _ _] Hnd. unfold UpdatePlan.execute, UpdatePlan.perform_local_updates. db_step.
  eapply ok_post_weaken; [apply perform_deletes_ok|]. intros _ d1 [Hl1 Hm1].
  assert (Hwf1 : db_wf d1).
  { destruct d1 as [L1 M1 meta]. cbn in Hl1, Hm1. subst. by apply delete_in_wf. }
  db_step. eapply ok_post_weaken; [by apply mirror_updates_ok|]. intros _ d2 (Hwf2 & Hl2 & Hm2 & Hn2).
  db_step. intros w [] d3 w3 Hrun.
  assert (db_wf d3 ∧ loginsL d3 = loginsL d2 ∧ same (loginsM d2) (loginsM d3)) as (Hwf3 & Hl3 & Hm3).
  { revert Hrun. apply mirror_inserts_ok; [done|].
    eapply Forall_impl; [exact Hi|]. intros e [He Hov]. split; [done|]. intros Hf.
    rewrite Hl2, Hl1, delete_in_lookup. case_decide; [done|]. naive_solver. }
  pose proof (λ l t ov Hin Hm, mirror_inserts_in (mirror_inserts plan) l t ov d2 Hnd Hin Hm w tt d3 w3 Hrun) as Hins.
  clear Hrun. db_step. apply ok_post_now_ms. intros ms.
  eapply ok_post_weaken; [by apply update_locals_ok|]. intros _ d4 (Hwf4 & Hm4 & Hl4 & Hn4).
  split_and!; [done| | |].
  - intros g Hg. by rewrite (Hl4 g Hg), Hl3, Hl2, Hl1.
  - intros g Hg. by rewrite Hm4, (Hm3 g Hg), (Hm2 g Hg), Hm1.
  - intros l t Hin HL HM. rewrite lookup_visible, Hm4, (Hins l t false Hin), Hn4; [done| |].
    + rewrite Hl3, Hl2, Hl1, delete_in_lookup. by case_decide.
    + apply Hn2. rewrite Hm1, delete_in_lookup. by case_decide.
Qed.
End execute.

(** ** Calls that only read *)
Section readers.
Context {W : Type} `{!Interruptee W, !Clock W, !Rand W, !UrlSafeBase64}.
Context `{!SerdeJson, !Serde Login, !Serde Payload, !UrlLib}.
Abbreviation DB := (ST (LoginDb * W) LoginsError).

Lemma reads_scope : reads (D:=LoginDb) (W:=W) check_scope.
Proof. intros d w. unfold check_scope. by destruct (err_if_interrupted w). Qed.
Lemma reads_now : reads (D:=LoginDb) (W:=W) now_ns.
Proof. intros d w. unfold now_ns. by destruct (system_now w). Qed.

Ltac reads_step := first
  [apply reads_bind; [|intros] | apply reads_ret | apply reads_lift | apply reads_get | apply reads_scope | apply reads_now].

Lemma reads_join {R} (rows : gmap string R) set guids : ∀ idx data, reads (join_rows rows set idx guids data).
Proof.
  induction guids as [|g guids IH]; intros idx data; cbn [join_rows]; [apply reads_ret|].
  destruct (rows !! g); [|apply IH]. destruct (data !! idx); [|apply reads_lift]. repeat reads_step. apply IH.
Qed.
Lemma reads_fetch_chunks cs : ∀ offset data, reads (fetch_chunks offset cs data).
Proof.
  induction cs as [|c cs IH]; intros offset data; cbn [fetch_chunks]; [apply reads_ret|].
  repeat reads_step; [apply reads_join|apply reads_join|apply IH].
Qed.
Lemma reads_fetch k records : reads (fetch_login_data k records).
Proof. unfold fetch_login_data. repeat reads_step. apply reads_fetch_chunks. Qed.
Lemma reads_reconcile url_port first_row debug now records : ∀ plan,
  reads (reconcile_loop url_port first_row debug now records plan).
Proof.
  induction records as [|x records IH]; intros plan; cbn [reconcile_loop]; [apply reads_ret|].
  repeat reads_step; [|apply IH]. unfold reconcile_one, find_dupe.
  destruct ((sd_inbound x).1), (sd_mirror x), (sd_local x); repeat reads_step.
Qed.
Lemma reads_outgoing t : reads (fetch_outgoing t).
Proof.
  unfold fetch_outgoing. do 2 reads_step; [|apply reads_ret].
  match goal with |- reads (outgoing_payloads ?l) => induction l as [|[g r] rows IH] end; cbn [outgoing_payloads]; [apply reads_ret|].
  repeat reads_step. apply IH.
Qed.
End readers.

(** ** Applying incoming changes *)
Section incoming.
Context {W : Type} `{!Interruptee W, !Clock W, !Rand W, !UrlSafeBase64}.
Context `{!SerdeJson} {SL : Serde Login} `{!LoginSerdeLaws SL, !Serde Payload, !UrlLib}.
Context (url_port : Url → option Z).
Context (first_row : list (string * LocalRow) → option (string * LocalRow)).
Context (max_variable_number : nat) (debug : bool).

Definition live_ids (records : list (Payload * ServerTimestamp)) : list string :=
  ids_of (filter (λ r, Payload.is_tombstone r.1 = false) records).
Definition tomb_ids (records : list (Payload * ServerTimestamp)) : list string :=
  ids_of (filter (λ r, Payload.is_tombstone r.1 = true) records).

(** What applying [records] to the tables of [d] gives. *)
Record applied (d : LoginDb) (records : list (Payload * ServerTimestamp)) (d' : LoginDb) : Prop := {
  ap_wf : db_wf d';
  ap_tombs : ∀ g, g ∈ tomb_ids records → loginsL d' !! g = None ∧ loginsM d' !! g = None;
  ap_new : ∀ p t l, (p, t) ∈ records → Payload.is_tombstone p = false → Payload.into_record p = Ok l →
    loginsL d !! p_id p = None → loginsM d !! p_id p = None →
    map_Forall (λ _ row, dupe_matches url_port l row = false) (loginsL d) →
    visible d' !! p_id p = Some l;
  ap_others : ∀ g, g ∉ ids_of records →
    loginsM d' !! g = loginsM d !! g ∧
    (loginsL d' !! g = loginsL d !! g ∨
     loginsL d' !! g = None ∧ ∃ row upstream, loginsL d !! g = Some row ∧ l_id upstream ∈ live_ids records ∧
       dupe_matches url_port upstream row = true);
}.

Lemma fetched_record_ok d records data :
  Forall2 (fetched d) records data → Forall (record_ok d (live_ids records) (tomb_ids records)) data.
Proof.
  intros Hall. apply Forall_forall. intros x Hx.
  apply list_elem_of_lookup in Hx as [i Hi]. destruct (Forall2_lookup_r _ _ _ _ _ Hall Hi) as (rec & Hrec & (Hg & Ht & Hin) & Hm & Hl).
  apply list_elem_of_lookup_2 in Hrec. split; [by rewrite Hg|by rewrite Hg| |].
  - intros l Hin'. destruct (Payload.is_tombstone rec.1) eqn:Htomb; [congruence|].
    destruct Hin as (l' & Hl' & Heq). rewrite Heq in Hin'. injection Hin' as ->. rewrite Hg. split; [by apply login_id_law|].
    apply list_elem_of_fmap. exists rec. split; [done|]. by apply list_elem_of_filter.
  - intros Hin'. destruct (Payload.is_tombstone rec.1) eqn:Htomb; [|destruct Hin as (? & _ & ?); congruence].
    rewrite Hg. apply list_elem_of_fmap. exists rec. split; [done|]. by apply list_elem_of_filter.
Qed.

Lemma ids_split records g : g ∈ live_ids records ∨ g ∈ tomb_ids records → g ∈ ids_of records.
Proof.
  unfold live_ids, tomb_ids, ids_of. intros [Hg|Hg]; apply list_elem_of_fmap in Hg as (rec & -> & Hrec);
    apply list_elem_of_filter in Hrec as [_ Hrec]; apply list_elem_of_fmap; eauto.
Qed.

Lemma tomb_not_live records g : NoDup (ids_of records) → g ∈ tomb_ids records → g ∉ live_ids records.
Proof.
  unfold live_ids, tomb_ids, ids_of. intros Hnd Ht Hl.
  apply list_elem_of_fmap in Ht as (rt & -> & [Htomb Hrt]%list_elem_of_filter).
  apply list_elem_of_fmap in Hl as (rl & Heq & [Hlive Hrl]%list_elem_of_filter).
  apply list_elem_of_lookup in Hrt as [i Hi]. apply list_elem_of_lookup in Hrl as [j Hj].
  assert (i = j).
  { eapply NoDup_lookup; [exact Hnd|..]; rewrite list_lookup_fmap; [by rewrite Hi|]. rewrite Hj. cbn. by rewrite Heq. }
  simplify_eq. congruence.
Qed.

Lemma fetched_guids d records data : Forall2 (fetched d) records data → sd_guid <$> data = ids_of records.
Proof.
  intros Hall. unfold ids_of. induction Hall as [|rec x records data ((Hg & _) & _) _ IH]; [done|].
  cbn. by rewrite Hg, IH.
Qed.

Context (first_row_in : ∀ l x, first_row l = Some x → x ∈ l).
Context (Hmax : (0 < max_variable_number)%nat).

(** The plan made for fetched records, executed. *)
Lemma plan_applied d records data plan now w w1 w2 d' :
  db_wf d → NoDup (ids_of records) → Forall2 (fetched d) records data →
  reconcile_loop url_port first_row debug now data UpdatePlan.default (d, w) = (Ok plan, (d, w1)) →
  UpdatePlan.execute (W:=W) max_variable_number plan (d, w1) = (Ok tt, (d', w2)) →
  applied d records d'.
Proof.
  intros Hwf Hnd Hall Hrec Hexec.
  destruct (reconcile_loop_ok url_port first_row first_row_in debug d Hwf (live_ids records) (tomb_ids records)
    now data UpdatePlan.default (fetched_record_ok d records data Hall) (plan_ok_default _ _ _ _) w plan d w1 Hrec)
    as (_ & Hplan & _ & _ & Htombs & ins & Hins & Hkeys & Hnew).
  cbn in Hins. subst ins. rewrite (fetched_guids d records data Hall) in Hkeys.
  destruct (execute_ok max_variable_number Hmax (live_ids records) url_port (tomb_ids records) plan d Hwf Hplan
    (sublist_NoDup _ _ Hnd Hkeys) w1 tt d' w2 Hexec) as (Hwf' & HsL & HsM & Hvis).
  split; [done| | |].
  - intros g Hg. pose proof (tomb_not_live records g Hnd Hg) as Hnl. rewrite (HsL g Hnl), (HsM g Hnl), !delete_in_lookup.
    apply list_elem_of_fmap in Hg as (rec & -> & [Htomb Hin]%list_elem_of_filter).
    apply list_elem_of_lookup in Hin as [i Hi]. destruct (Forall2_lookup_l _ _ _ _ _ Hall Hi) as (x & Hx & (Hg & _ & Hinb) & _).
    rewrite Htomb in Hinb. rewrite Forall_forall in Htombs.
    destruct (Htombs x (list_elem_of_lookup_2 _ _ _ Hx) Hinb) as [Hdl Hdm]. rewrite Hg in Hdl, Hdm.
    by rewrite !decide_True.
  - intros p t l Hin Htomb Hl HL HM Hdupe. pose proof (login_id_law p l Hl) as Hid. rewrite <-Hid in *.
    apply list_elem_of_lookup in Hin as [i Hi].
    destruct (Forall2_lookup_l _ _ _ _ _ Hall Hi) as (x & Hx & (Hg & _ & Hinb) & _).
    cbn [fst] in Hg, Hinb. rewrite Htomb in Hinb. destruct Hinb as (l' & Hl' & Hinb). rewrite Hl in Hl'. injection Hl' as <-.
    eapply Hvis; [|done..]. rewrite Forall_forall in Hnew. eapply (Hnew x (list_elem_of_lookup_2 _ _ _ Hx)).
    split_and!; [done|by rewrite Hg, <-Hid..|done].
  - intros g Hg. assert (Hnl : g ∉ live_ids records) by (intros Hl; apply Hg, ids_split; by left).
    assert (Hnt : g ∉ tomb_ids records) by (intros Hl; apply Hg, ids_split; by right).
    destruct Hplan as [_ _ _ Hdm Hdl]. rewrite Forall_forall in Hdm, Hdl.
    rewrite (HsL g Hnl), (HsM g Hnl), !delete_in_lookup. split.
    + rewrite decide_False; [done|]. intros Hin. by apply Hnt, Hdm.
    + case_decide as Hin; [|by left]. right. split; [done|].
      destruct (Hdl g Hin) as [?|[?|(row & up & Hrow & Hup & Hm)]]; [done..|]. by exists row, up.
Qed.

End incoming.

(** ** A concrete database *)
Module ToyLogins.
Import ToyCrypto ToySerde ToyState ToyClient.

#[export] Instance toy_interruptee : Interruptee nat := λ w, (false, w).
#[export] Instance toy_clock : Clock nat := λ w, (Z.of_nat w, S w).

Definition str (k : string) (v : JsonValue) : string :=
  match field k v with Some (GenLeaf (inr (inl s))) => s | _ => ""%string end.
Definition login_payload (l : Login) : Payload :=
  mkPayload _ (l_id l) false {["hostname" := json_string (l_hostname l); "password" := json_string (l_password l)]}%string.
#[export] Instance toy_login : Serde Login := {|
  to_string l := to_string (login_payload l);
  from_str _ := Err "not needed"%string;
  to_value l := to_value (login_payload l);
  from_value v :=
    match field "id" v with
    | Some (GenLeaf (inr (inl s))) => Ok (mkLogin s (str "hostname" v) None (Some "realm"%string) "user" (str "password" v) "" "" 1 1 1 1)
    | _ => Err "missing field"%string
    end;
|}.
#[export] Instance toy_login_laws : LoginSerdeLaws toy_login.
Proof.
  intros p l. unfold Payload.into_record, Payload.into_json. cbn [from_value toy_login].
  assert (Hid : ∀ m : gmap string JsonValue, m !! "id"%string = Some (json_string (p_id p)) →
    map_err JsonError (match field "id" (json_object m) with
      | Some (GenLeaf (inr (inl s))) => Ok (mkLogin s (str "hostname" (json_object m)) None (Some "realm"%string) "user"
          (str "password" (json_object m)) "" "" 1 1 1 1)
      | _ => Err "missing field"%string end) = Ok l → l_id l = p_id p).
  { intros m Hm. rewrite find_field_lookup, Hm. cbn. by intros [= <-]. }
  apply Hid. destruct (p_deleted p); [rewrite lookup_insert_ne by done|]; apply lookup_insert_eq.
Qed.

Definition first (l : list (string * LocalRow)) : option (string * LocalRow) := head l.
Lemma first_in l x : first l = Some x → x ∈ l.
Proof. destruct l; [done|]. intros [= <-]. left. Qed.

(** Two synced logins; the second one was changed here. *)
Definition login (g host : string) : Login := mkLogin g host None (Some "realm"%string) "user" "secret" "" "" 1 1 1 1.
Definition db : LoginDb :=
  mkLoginDb {["b" := mkLocalRow (login "b" "other") (Some 5) false Changed]}%string
    {["a" := mkMirrorRow (login "a" "host") 7 false; "b" := mkMirrorRow (login "b" "host") 7 true]}%string ∅.

Lemma db_ok : db_wf db.
Proof.
  intros g. unfold db. cbn. destruct (decide (g = "b"%string)) as [->|Hb]; [|destruct (decide (g = "a"%string)) as [->|Ha]].
  - split_and!; vm_compute; naive_solver.
  - split_and!; vm_compute; naive_solver.
  - rewrite lookup_singleton_ne, lookup_insert_ne, lookup_singleton_ne by done. by apply row_ok_mirror.
Qed.

(** Deleting the synced login hides it and leaves the other one. *)
Lemma logins_refine_map_witness :
  ∃ d', run_op 999 (ODelete "a") (db, 0%nat) = (Ok (OutBool true), (d', 1%nat)) ∧ db_wf d' ∧
    visible d' = {["b" := login "b" "other"]}%string.
Proof.
  destruct (run_op 999 (ODelete "a") (db, 0%nat)) as [r [d' w']] eqn:Hrun.
  assert (Hsum : (r, w') = (Ok (OutBool true), 1%nat)).
  { change (r, w') with ((λ x : res LoginsError op_out * (LoginDb * nat), (x.1, x.2.2)) (r, (d', w'))).
    rewrite <-Hrun. vm_compute. reflexivity. }
  injection Hsum as -> ->. exists d'. split; [reflexivity|].
  destruct (logins_refine_map 999 (ODelete "a") db 0%nat _ d' 1%nat db_ok I Hrun) as (Hwf & _ & Hv).
  split; [exact Hwf|]. rewrite Hv. vm_compute. reflexivity.
Defined.

(** Adding a login under the guid of a synced one succeeds, and both are then listed. *)
Theorem synced_guid_is_added_again :
  (l ← run_op 999 (OAdd (login "a" "again")); ls ← get_all; mret (l_id <$> ls)) (db, 0%nat) =
    (Ok ["a"; "b"; "a"]%string, ((run_op 999 (OAdd (login "a" "again")) (db, 0%nat)).2.1, 1%nat)).
Proof. vm_compute. reflexivity. Qed.

(** A new login and the deletion of the one that was changed here. *)
Definition inbound : IncomingChangeset :=
  mkRecordChangeset [(login_payload (login "c" "new"), SERVER_EPOCH); (Payload.new_tombstone "b", SERVER_EPOCH)] SERVER_EPOCH "passwords".
Abbreviation sync_in := (do_apply_incoming (λ _, None) first 999 true inbound (db, 0%nat)).

End ToyLogins.
