(* ===== verification/PlacesTypes.v ===== *)
(** * Places: types, hashes and strings

    Model of the parts of [components/places] that do not touch the database: the error type
    ([error.rs]), visit transitions, bookmark types and sync statuses ([types.rs]), sets of
    transitions ([types/visit_transition_set.rs]), the guids of the bookmark roots
    ([storage/bookmarks/root_guid.rs]), valid guids ([valid_guid.rs]), URL hashes ([hash.rs]),
    truncation ([util.rs]) and the splitting of URLs ([api/matcher.rs]).

    A [str] is the string of its bytes; slicing one at a byte that is not the start of a
    character panics. *)

From S2P Require Import Prelude Sync15Types KeyBundle.
From Stdlib Require Import Ascii String.
From stdpp Require Import strings list.
Local Open Scope Z_scope.
Local Open Scope list_scope.

(** ** root_guid.rs *)
Module BookmarkRootGuid.
Inductive BookmarkRootGuid := Root | Menu | Toolbar | Unfiled | Mobile.

Definition as_str (self : BookmarkRootGuid) : string :=
  match self with
  | Root => "root________"
  | Menu => "menu________"
  | Toolbar => "toolbar_____"
  | Unfiled => "unfiled_____"
  | Mobile => "mobile______"
  end.

Definition GUIDS : list (BookmarkRootGuid * string) :=
  [(Root, as_str Root); (Menu, as_str Menu); (Toolbar, as_str Toolbar);
   (Unfiled, as_str Unfiled); (Mobile, as_str Mobile)].

Definition well_known (guid : string) : option BookmarkRootGuid :=
  fst <$> List.find (λ '(_, sync_guid), String.eqb sync_guid guid) GUIDS.

Definition USER_CONTENT_ROOTS : list BookmarkRootGuid := [Menu; Toolbar; Unfiled; Mobile].
End BookmarkRootGuid.
Export BookmarkRootGuid (BookmarkRootGuid, Root, Menu, Toolbar, Unfiled, Mobile).

(** A [SyncGuid] is a string. *)
Definition is_root (guid : string) : bool :=
  match BookmarkRootGuid.well_known guid with Some _ => true | None => false end.
Definition as_root : string → option BookmarkRootGuid := BookmarkRootGuid.well_known.

(** ** types.rs *)
Inductive BookmarkType := TBookmark | TFolder | TSeparator.
Global Instance BookmarkType_eq_dec : EqDecision BookmarkType.
Proof. solve_decision. Defined.

Module BookmarkType.
Definition as_u8 (t : BookmarkType) : Z := match t with TBookmark => 1 | TFolder => 2 | TSeparator => 3 end.
Definition from_u8 (v : Z) : option BookmarkType :=
  if v =? 1 then Some TBookmark else if v =? 2 then Some TFolder else if v =? 3 then Some TSeparator else None.

Definition from_u8_with_valid_url (v : Z) (has_valid_url : bool) : BookmarkType :=
  match from_u8 v with
  | Some TBookmark | None => if has_valid_url then TBookmark else TFolder
  | Some t => t
  end.

(** [FromSql::column_result]; the error carries the value that is out of range. *)
Definition column_result (v : Z) : res Z BookmarkType :=
  if (v <? 0) || (255 <? v) then Err v else ok_or v (from_u8 v).
End BookmarkType.

Inductive SyncStatus := SUnknown | SNew | SNormal.
Global Instance SyncStatus_eq_dec : EqDecision SyncStatus.
Proof. solve_decision. Defined.
Module SyncStatus.
Definition as_u8 (s : SyncStatus) : Z := match s with SUnknown => 0 | SNew => 1 | SNormal => 2 end.
Definition from_u8 (v : Z) : SyncStatus := if v =? 1 then SNew else if v =? 2 then SNormal else SUnknown.
End SyncStatus.

Inductive VisitTransition :=
| Link | Typed | Bookmark | Embed | RedirectPermanent | RedirectTemporary | Download | FramedLink | Reload.
Global Instance VisitTransition_eq_dec : EqDecision VisitTransition.
Proof. solve_decision. Defined.

Module VisitTransition.
Definition as_u8 (t : VisitTransition) : Z :=
  match t with
  | Link => 1 | Typed => 2 | Bookmark => 3 | Embed => 4 | RedirectPermanent => 5
  | RedirectTemporary => 6 | Download => 7 | FramedLink => 8 | Reload => 9
  end.

Definition from_primitive (p : Z) : option VisitTransition :=
  match p with
  | 1 => Some Link
  | 2 => Some Typed
  | 3 => Some Bookmark
  | 4 => Some Embed
  | 5 => Some RedirectPermanent
  | 6 => Some RedirectTemporary
  | 7 => Some Download
  | 8 => Some FramedLink
  | 9 => Some Reload
  | _ => None
  end.

(** [VisitTransitionSerdeVisitor::visit_u64]. *)
Definition visit_u64 (value : Z) : res string VisitTransition :=
  if 255 <? value then Err "value out of u8 range"%string
  else ok_or "unknown VisitTransition value"%string (from_primitive value).
End VisitTransition.

(** [Timestamp] is a number of milliseconds; times of the clock are in nanoseconds.
    [From<SystemTime>] unwraps the duration since the epoch. *)
Definition Timestamp_from_system_time {E} (t : Z) : res E Z :=
  if t <? 0 then Panic "called `Result::unwrap()` on an `Err` value: SystemTimeError"
  else Ok (t / 1000000000 * 1000 + t mod 1000000000 / 1000000).
Definition Timestamp_from_u64 {E} (ts : Z) : res E Z :=
  if ts =? 0 then Panic "assertion failed: ts != 0" else Ok ts.
(** [duration_since], in nanoseconds. *)
Definition Timestamp_duration_since (self other : Z) : option Z :=
  if other <=? self then Some ((self - other) * 1000000) else None.

(** ** error.rs *)
Inductive InvalidPlaceInfo :=
| NoUrl
| InvalidGuid
| InvalidParent (guid : string)
| NoSuchGuid (guid : string)
| NoSuchUrl
| MismatchedBookmarkType (have want : Z)
| UrlTooLong
| InvalidTag
| IllegalChange (property : string) (ty : BookmarkType)
| CannotUpdateRoot (root : BookmarkRootGuid).

Inductive Corruption :=
| NoParent (guid parent : string)
| InvalidLocalRoots
| InvalidSyncedRoots
| NonRootWithoutParent (guid : string).

(** What the code matches on or builds itself; the errors of other libraries are messages. *)
Inductive PlacesError :=
| PInvalidPlaceInfo (e : InvalidPlaceInfo)
| PCorruption (e : Corruption)
| PSyncAdapterError (e : ErrorKind)
| PMergeError (msg : string)
| PJsonError (msg : string)
| PSqlError (msg : string)
| PUrlParseError (msg : string)
| PConnectionAlreadyOpen
| PInvalidConnectionType
| PIoError (msg : string)
| PInterruptedError
| PWrongApiForClose
| PMissingBookmarkKind
| PUnsupportedIncomingBookmarkType (t : string)
| PUnsupportedSyncedBookmarkKind (k : Z)
| PUnsupportedSyncedBookmarkValidity (v : Z)
| PIllegalDatabasePath (p : string)
| PProtobufDecodeError (msg : string)
| PDatabaseUpgradeError.

(** ** visit_transition_set.rs *)
Module VisitTransitionSet.
Import VisitTransition.

(** The bits of a [u16]. *)
Definition bit (t : VisitTransition) : Z := Z.shiftl 1 (as_u8 t).
Definition ALL_BITS_SET : Z :=
  foldr Z.lor 0 (bit <$> [Link; Typed; Bookmark; Embed; RedirectPermanent; RedirectTemporary; Download; FramedLink; Reload]).
Definition not_u16 (x : Z) : Z := Z.lxor 65535 x.

Definition new : Z := 0.
Definition empty : Z := new.
Definition all : Z := ALL_BITS_SET.
Definition single (ty : VisitTransition) : Z := bit ty.
Definition into_u16 (self : Z) : Z := self.
Definition contains (self : Z) (t : VisitTransition) : bool := negb (Z.land self (bit t) =? 0).
Definition insert (t : VisitTransition) (self : Z) : Z := Z.lor self (bit t).
Definition remove (t : VisitTransition) (self : Z) : Z := Z.land self (not_u16 (bit t)).
Definition complement (self : Z) : Z := Z.land (not_u16 self) ALL_BITS_SET.
(** [u16::count_ones]. *)
Definition count_ones (x : Z) : nat := length (filter (λ i, Z.testbit x (Z.of_nat i) = true) (seq 0 16)).
Definition len (self : Z) : nat := count_ones self.
Definition is_empty (self : Z) : bool := self =? 0.

Definition try_from (bits : Z) : option Z :=
  if bits =? Z.land bits ALL_BITS_SET then Some bits else None.
Definition from_u16 : Z → option Z := try_from.

Definition extend (elems : list VisitTransition) (self : Z) : Z := foldl (λ s t, insert t s) self elems.
Definition from_iter (elems : list VisitTransition) : Z := extend elems new.
Definition for_specific : list VisitTransition → Z := from_iter.

(** The iterator: its remaining bits and position.  The loop that skips zero bits ends because
    the bits are not zero; sixteen steps are enough for a [u16]. *)
Definition iter : Type := Z * Z.
Definition into_iter (self : Z) : iter := (self, 0).
Fixpoint skip_zeros (fuel : nat) (it : iter) : iter :=
  match fuel with
  | O => it
  | S fuel => let '(bits, pos) := it in
              if Z.land bits 1 =? 0 then skip_zeros fuel (Z.shiftr bits 1, pos + 1) else it
  end.
Definition next {E} (it : iter) : res E (option VisitTransition * iter) :=
  if fst it =? 0 then Ok (None, it)
  else
    let '(bits, pos) := skip_zeros 16 it in
    match from_primitive pos with
    | None => Panic "Bug in VisitTransitionSet: InvalidVisitType"
    | Some result => Ok (Some result, (Z.shiftr bits 1, pos + 1))
    end.
Fixpoint collect {E} (fuel : nat) (it : iter) : res E (list VisitTransition) :=
  match fuel with
  | O => Panic "out of fuel"
  | S fuel =>
      '(r, it) ← next it;
      match r with
      | None => mret []
      | Some t => ts ← collect fuel it; mret (t :: ts)
      end
  end.
(** At most sixteen bits, and a last call that returns [None]. *)
Definition elements {E} (self : Z) : res E (list VisitTransition) := collect 17 (into_iter self).
End VisitTransitionSet.

(** ** Strings *)
Definition len_str (s : string) : nat := List.length (as_bytes s).
Definition is_ascii_byte (b : ascii) : bool := Nat.ltb (nat_of_ascii b) 128.

(** [str::is_char_boundary]. *)
Definition is_char_boundary (s : string) (i : nat) : bool :=
  if Nat.eqb i 0 || Nat.eqb i (len_str s) then true
  else match as_bytes s !! i with
       | None => false
       | Some b => negb (Utf8.cont b)
       end.
Definition str_take (n : nat) (s : string) : string := string_of_list_ascii (take n (as_bytes s)).
Definition str_drop (n : nat) (s : string) : string := string_of_list_ascii (drop n (as_bytes s)).
(** [&s[..n]]. *)
Definition slice_to {E} (s : string) (n : nat) : res E string :=
  if is_char_boundary s n then Ok (str_take n s) else Panic "byte index is not a char boundary".

(** [memchr]: the first byte that satisfies a test. *)
Fixpoint position (p : ascii → bool) (bs : bytes) : option nat :=
  match bs with
  | [] => None
  | b :: bs => if p b then Some 0%nat else S <$> position p bs
  end.
Definition find_byte (p : ascii → bool) (s : string) : option nat := position p (as_bytes s).

(** ** util.rs *)
Fixpoint boundary_below (s : string) (idx : nat) : nat :=
  match idx with
  | O => O
  | S idx' => if is_char_boundary s idx then idx else boundary_below s idx'
  end.
Definition slice_up_to {E} (s : string) (max_len : nat) : res E string :=
  if Nat.leb (len_str s) max_len then Ok s else slice_to s (boundary_below s max_len).

(** ** valid_guid.rs

    The table [BASE64URL_BYTES] marks the bytes of the base64url alphabet. *)
Definition in_range (lo hi : nat) (b : ascii) : bool := Utf8.byte_in lo hi b.
Definition is_valid_places_byte (b : ascii) : bool :=
  in_range 48 57 b || in_range 65 90 b || in_range 97 122 b || in_range 45 45 b || in_range 95 95 b.
Definition is_valid_places_guid (s : string) : bool :=
  Nat.eqb (len_str s) 12 && forallb is_valid_places_byte (as_bytes s).

(** ** hash.rs *)
Definition MAX_BYTES_TO_HASH : nat := 1500.
Definition GOLDEN_RATIO : Z := 0x9E3779B9.
Definition rotate_left_u32 (x n : Z) : Z := Z.lor (wrap 32 (Z.shiftl x n)) (Z.shiftr x (32 - n)).
Definition add_u32_to_hash (hash new_value : Z) : Z :=
  wrap 32 (Z.lxor (rotate_left_u32 hash 5) new_value * GOLDEN_RATIO).
Definition hash_string (s : string) : Z :=
  foldl (λ hash cur, add_u32_to_hash hash (Z.of_nat (nat_of_ascii cur))) 0 (as_bytes s).

Definition hash_url {E} (spec : string) : res E Z :=
  head ← slice_to spec (Nat.min (len_str spec) MAX_BYTES_TO_HASH);
  let str_hash := hash_string head in
  str_head ← slice_to spec (Nat.min (len_str spec) 50);
  match find_byte (λ b, Ascii.eqb b ":") str_head with
  | Some pos =>
      prefix ← slice_to spec pos;
      let prefix_hash := Z.land (hash_string prefix) 0xffff in
      Ok (wrap 64 (Z.shiftl prefix_hash 32 + str_hash))
  | None => Ok str_hash
  end.

Inductive PrefixMode := Lo | Hi.
Definition hash_url_prefix {E} (spec_prefix : string) (mode : PrefixMode) : res E Z :=
  to_hash ← slice_to spec_prefix (Nat.min (len_str spec_prefix) MAX_BYTES_TO_HASH);
  let unshifted_hash := Z.land (hash_string to_hash) 0xffff in
  let hash := Z.shiftl unshifted_hash 32 in
  Ok (match mode with Hi => wrap 64 (hash + 0xffffffff) | Lo => hash end).

(** ** api/matcher.rs: splitting a URL *)
Definition split_after_prefix (href : string) : string * string :=
  match find_byte (λ b, Ascii.eqb b ":") href with
  | None => (""%string, href)
  | Some index =>
      let end_ := S index in
      let end_ :=
        if Nat.leb (end_ + 2) (len_str href)
           && bool_decide (as_bytes href !! end_ = Some "/"%char)
           && bool_decide (as_bytes href !! (end_ + 1)%nat = Some "/"%char)
        then (end_ + 2)%nat else end_ in
      (str_take end_ href, str_drop end_ href)
  end.

Definition split_after_host_and_port (href : string) : string * string :=
  let '(_, remainder) := split_after_prefix href in
  let start := match find_byte (λ b, Ascii.eqb b "@") remainder with Some i => S i | None => 0%nat end in
  let remainder := str_drop start remainder in
  let end_ := default (len_str remainder)
                (find_byte (λ b, Ascii.eqb b "/" || Ascii.eqb b "?" || Ascii.eqb b "#") remainder) in
  (str_take end_ remainder, str_drop end_ remainder).

(** [u8::is_ascii_whitespace]. *)
Definition is_ascii_whitespace (b : ascii) : bool :=
  existsb (Nat.eqb (nat_of_ascii b)) [32; 9; 10; 12; 13]%nat.
Definition looks_like_origin (s : string) : bool :=
  negb (String.eqb s "") &&
  negb (existsb (λ c, negb (is_ascii_byte c) || is_ascii_whitespace c
                      || Ascii.eqb c "/" || Ascii.eqb c "?" || Ascii.eqb c "#") (as_bytes s)).

(** ** db/db.rs: SQL functions on strings *)
Definition ascii_to_lower (b : ascii) : ascii :=
  if in_range 65 90 b then ascii_of_nat (nat_of_ascii b + 32) else b.
(** In a debug build a host that is not ASCII panics, and rusqlite turns that into an error of
    the statement; in a release build the reversed bytes are not UTF-8. *)
Definition reverse_host (host : string) : res PlacesError string :=
  if forallb is_ascii_byte (as_bytes host)
  then Ok (string_of_list_ascii (rev (ascii_to_lower <$> as_bytes host)) +:+ ".")%string
  else Err (PSqlError "non-punycode host provided to reverse_host!").
Definition get_prefix (href : string) : string := fst (split_after_prefix href).
Definition get_host_and_port (href : string) : string := fst (split_after_host_and_port href).
Definition strip_prefix_and_userinfo (href : string) : string :=
  let '(host_and_port, remainder) := split_after_host_and_port href in host_and_port +:+ remainder.

(** * Theorems *)

(** ** Sets of transitions *)
Module VtsFacts.
Import VisitTransition VisitTransitionSet.

Definition ALL_TRANSITIONS : list VisitTransition :=
  [Link; Typed; Bookmark; Embed; RedirectPermanent; RedirectTemporary; Download; FramedLink; Reload].
Definition members (s : Z) : list VisitTransition := List.filter (contains s) ALL_TRANSITIONS.

Lemma elem_of_ALL t : t ∈ ALL_TRANSITIONS.
Proof. destruct t; cbn; set_solver. Qed.

Definition valid (s : Z) : Prop := 0 ≤ s ∧ try_from s = Some s.

Lemma valid_range s : valid s → 0 ≤ s < 1024.
Proof.
  unfold valid, try_from. intros [Hs Ht]. split; [done|].
  destruct (Z.eqb_spec s (Z.land s ALL_BITS_SET)) as [Heq|]; [|done]. rewrite Heq.
  change ALL_BITS_SET with 1022. destruct (decide (Z.land s 1022 = 0)) as [->|Hne]; [lia|].
  apply Z.log2_lt_pow2 with (b := 10); [pose proof (proj2 (Z.land_nonneg s 1022)); lia|].
  pose proof (Z.log2_land s 1022 Hs ltac:(lia)) as Hlog. change (Z.log2 1022) with 9 in Hlog. lia.
Qed.

(** A decidable statement about valid sets holds if it holds for the 512 of them. *)
Lemma valid_forall (f : Z → bool) :
  forallb (λ s, match try_from s with Some _ => f s | None => true end) (seqZ 0 1024) = true →
  ∀ s, valid s → f s = true.
Proof.
  intros Hall s Hv. apply forallb_forall with (x := s) in Hall.
  - destruct Hv as [_ Ht]. by rewrite Ht in Hall.
  - apply list_elem_of_In, elem_of_seqZ. pose proof (valid_range s Hv). lia.
Qed.

Definition valid_bool (s : Z) : bool := (0 <=? s) && bool_decide (try_from s = Some s).
Lemma valid_bool_spec s : valid_bool s = true ↔ valid s.
Proof. unfold valid_bool, valid. rewrite andb_true_iff, Z.leb_le, bool_decide_eq_true. done. Qed.

(** The operations compared with those on the list of members. *)
Definition agrees (s : Z) : bool :=
  bool_decide (elements (E:=unit) s = Ok (members s)) &&
  Nat.eqb (len s) (length (members s)) &&
  Bool.eqb (is_empty s) (bool_decide (members s = [])) &&
  bool_decide (from_iter (members s) = s) &&
  valid_bool (complement s) &&
  forallb (λ t,
    Bool.eqb (contains (complement s) t) (negb (contains s t)) &&
    valid_bool (insert t s) && valid_bool (remove t s) &&
    forallb (λ u, Bool.eqb (contains (insert t s) u) (bool_decide (u = t) || contains s u) &&
                  Bool.eqb (contains (remove t s) u) (negb (bool_decide (u = t)) && contains s u))
      ALL_TRANSITIONS) ALL_TRANSITIONS.

Lemma all_agree s : valid s → agrees s = true.
Proof. apply valid_forall. vm_compute. reflexivity. Qed.

Lemma for_all_transitions (f : VisitTransition → bool) t : forallb f ALL_TRANSITIONS = true → f t = true.
Proof. intros Hf. eapply forallb_forall in Hf; [done|]. apply list_elem_of_In, elem_of_ALL. Qed.
End VtsFacts.

(** C40: the sixteen bits of a [VisitTransitionSet] are a set of transitions: every operation
    keeps the bits within those of the nine transitions ([from_u16] accepts them again),
    insertion, removal and complement have their meaning, and the iterator returns exactly the
    members, in order and without panicking, so that collecting them gives the set back. *)
Theorem visit_transition_set_is_a_set (s : Z) :
  VtsFacts.valid s →
  VisitTransitionSet.elements (E:=unit) s = Ok (VtsFacts.members s) ∧
  VisitTransitionSet.from_iter (VtsFacts.members s) = s ∧
  VisitTransitionSet.len s = length (VtsFacts.members s) ∧
  (VisitTransitionSet.is_empty s = true ↔ VtsFacts.members s = []) ∧
  VtsFacts.valid (VisitTransitionSet.complement s) ∧
  ∀ t, VtsFacts.valid (VisitTransitionSet.insert t s) ∧ VtsFacts.valid (VisitTransitionSet.remove t s) ∧
    (VisitTransitionSet.contains s t = true ↔ t ∈ VtsFacts.members s) ∧
    VisitTransitionSet.contains (VisitTransitionSet.complement s) t = negb (VisitTransitionSet.contains s t) ∧
    ∀ u, VisitTransitionSet.contains (VisitTransitionSet.insert t s) u = bool_decide (u = t) || VisitTransitionSet.contains s u ∧
         VisitTransitionSet.contains (VisitTransitionSet.remove t s) u = negb (bool_decide (u = t)) && VisitTransitionSet.contains s u.
Proof.
  intros Hv. pose proof (VtsFacts.all_agree s Hv) as Hall. unfold VtsFacts.agrees in Hall.
  apply andb_true_iff in Hall as [Hall Ht]. bool_to_prop.
  split_and!; try done; [by apply Nat.eqb_eq| |by apply VtsFacts.valid_bool_spec|].
  { match goal with H : Bool.eqb (VisitTransitionSet.is_empty s) _ = true |- _ => apply eqb_prop in H as -> end.
    by rewrite bool_decide_eq_true. }
  intros t. apply (VtsFacts.for_all_transitions _ t) in Ht. apply andb_true_iff in Ht as [Ht Hu].
  bool_to_prop. rewrite <-!VtsFacts.valid_bool_spec. split_and!; try done.
  - unfold VtsFacts.members. rewrite list_elem_of_In, List.filter_In, <-list_elem_of_In.
    pose proof (VtsFacts.elem_of_ALL t). tauto.
  - by apply eqb_prop.
  - intros u. apply (VtsFacts.for_all_transitions _ u) in Hu. apply andb_true_iff in Hu as [Hi Hr].
    by apply eqb_prop in Hi, Hr.
Qed.

Lemma visit_transition_set_is_a_set_witness :
  VisitTransitionSet.from_u16 6 = Some 6 ∧ VisitTransitionSet.elements (E:=unit) 6 = Ok [Link; Typed].
Proof.
  split; [reflexivity|]. refine (proj1 (visit_transition_set_is_a_set 6 _)). split; [lia|reflexivity].
Defined.

(** ** Slices *)
Lemma as_bytes_of_list l : as_bytes (string_of_list_ascii l) = l.
Proof. apply list_ascii_of_string_of_list_ascii. Qed.
Lemma as_bytes_inj s t : as_bytes s = as_bytes t → s = t.
Proof. intros Heq. rewrite <-(string_of_list_ascii_of_string s), <-(string_of_list_ascii_of_string t). by f_equal. Qed.
Lemma as_bytes_app s t : as_bytes (s +:+ t) = as_bytes s ++ as_bytes t.
Proof. induction s as [|b s IH]; [done|]. change (b :: as_bytes (s +:+ t) = b :: as_bytes s ++ as_bytes t). by rewrite IH. Qed.
Lemma as_bytes_take n s : as_bytes (str_take n s) = take n (as_bytes s).
Proof. apply as_bytes_of_list. Qed.
Lemma as_bytes_drop n s : as_bytes (str_drop n s) = drop n (as_bytes s).
Proof. apply as_bytes_of_list. Qed.
Lemma str_take_drop n s : str_take n s +:+ str_drop n s = s.
Proof. apply as_bytes_inj. rewrite as_bytes_app, as_bytes_take, as_bytes_drop. apply take_drop. Qed.
Lemma len_str_take n s : len_str (str_take n s) = Nat.min n (len_str s).
Proof. unfold len_str. by rewrite as_bytes_take, length_take. Qed.

Definition is_ascii (s : string) : bool := forallb is_ascii_byte (as_bytes s).

Lemma ascii_boundary s n : is_ascii s = true → (n ≤ len_str s)%nat → is_char_boundary s n = true.
Proof.
  unfold is_char_boundary, is_ascii, len_str. intros Hs Hn.
  destruct (Nat.eqb_spec n 0), (Nat.eqb_spec n (List.length (as_bytes s))); cbn; [done..|].
  destruct (as_bytes s !! n) as [b|] eqn:Hb; [|apply lookup_ge_None in Hb; lia].
  eapply forallb_forall in Hs; [|by apply list_elem_of_In; eapply list_elem_of_lookup_2].
  unfold is_ascii_byte in Hs. apply Nat.ltb_lt in Hs.
  unfold Utf8.cont, Utf8.byte_in. destruct (Nat.leb_spec 128 (nat_of_ascii b)); [lia|done].
Qed.
Lemma ascii_slice {E} s n : is_ascii s = true → (n ≤ len_str s)%nat → slice_to (E:=E) s n = Ok (str_take n s).
Proof. intros. unfold slice_to. by rewrite ascii_boundary. Qed.

Lemma boundary_below_spec s n :
  is_char_boundary s (boundary_below s n) = true ∧ (boundary_below s n ≤ n)%nat ∧
  ∀ k, (boundary_below s n < k ≤ n)%nat → is_char_boundary s k = false.
Proof.
  induction n as [|n (IH1 & IH2 & IH3)]; cbn [boundary_below]; [split_and!; [done|lia|intros; lia]|].
  destruct (is_char_boundary s (S n)) eqn:Hb; [split_and!; [done|lia|intros; lia]|].
  split_and!; [done|lia|]. intros k Hk. destruct (decide (k = S n)) as [->|]; [done|]. apply IH3. lia.
Qed.

Lemma slice_up_to_any_error {E F} s n r : slice_up_to (E:=E) s n = Ok r → slice_up_to (E:=F) s n = Ok r.
Proof.
  unfold slice_up_to, slice_to. destruct (Nat.leb _ _); [by intros [= <-]|].
  destruct (is_char_boundary _ _); [by intros [= <-]|done].
Qed.

Lemma slice_up_to_total {E} s n : ∃ r, slice_up_to (E:=E) s n = Ok r.
Proof.
  unfold slice_up_to, slice_to. destruct (Nat.leb _ _); [eauto|].
  rewrite (proj1 (boundary_below_spec s n)). eauto.
Qed.

(** [slice_up_to] never panics: for every string and length it returns the longest prefix
    of at most that many bytes that ends at the boundary of a character. *)
Theorem slice_up_to_longest_prefix (s : string) (max_len : nat) :
  ∃ r, slice_up_to (E:=unit) s max_len = Ok r ∧
    (∃ rest, s = r +:+ rest) ∧ (len_str r ≤ max_len)%nat ∧ is_char_boundary s (len_str r) = true ∧
    ∀ k, (len_str r < k ≤ max_len)%nat → (k ≤ len_str s)%nat → is_char_boundary s k = false.
Proof.
  unfold slice_up_to. destruct (Nat.leb_spec (len_str s) max_len) as [Hle|Hgt].
  - exists s. split; [done|]. split; [exists ""%string; apply as_bytes_inj; rewrite as_bytes_app; by rewrite app_nil_r|].
    split; [done|]. split; [|intros; lia]. unfold is_char_boundary. by rewrite Nat.eqb_refl, orb_true_r.
  - destruct (boundary_below_spec s max_len) as (Hb & Hle & Hmax). unfold slice_to. rewrite Hb.
    eexists. split; [done|]. rewrite len_str_take, Nat.min_l by lia.
    split; [eexists; by rewrite str_take_drop|]. split; [done|]. split; [done|].
    intros k Hk _. by apply Hmax.
Qed.

(** ** Hashes *)
Lemma hash_string_range s : 0 ≤ hash_string s < 2 ^ 32.
Proof.
  unfold hash_string. generalize (as_bytes s). intros l.
  assert (Hgen : ∀ h, 0 ≤ h < 2 ^ 32 →
    0 ≤ foldl (λ hash cur, add_u32_to_hash hash (Z.of_nat (nat_of_ascii cur))) h l < 2 ^ 32);
    [|apply Hgen; lia].
  induction l as [|b l IH]; intros h Hh; [done|]. cbn. apply IH. by apply wrap_fits.
Qed.

Lemma land_ffff_range x : 0 ≤ Z.land x 0xffff < 2 ^ 16.
Proof. change 0xffff with (Z.ones 16). rewrite Z.land_ones by lia. apply Z.mod_pos_bound. lia. Qed.

Lemma position_lookup p l i : position p l = Some i → ∃ b, l !! i = Some b ∧ p b = true.
Proof.
  revert i. induction l as [|b l IH]; intros i; [done|]. cbn. destruct (p b) eqn:Hb.
  - intros [= <-]. by exists b.
  - intros (j & Hj & ->)%fmap_Some. by apply IH.
Qed.
Lemma position_take p l i : position p l = Some i → Forall (λ b, p b = false) (take i l).
Proof.
  revert i. induction l as [|c l IH]; intros i; [done|]. cbn. destruct (p c) eqn:Hc.
  - by intros [= <-].
  - intros (k & Hk & ->)%fmap_Some. cbn. constructor; [done|by apply IH].
Qed.
Lemma position_none p l : position p l = None → Forall (λ b, p b = false) l.
Proof.
  induction l as [|c l IH]; [done|]. cbn. destruct (p c) eqn:Hc; [done|].
  rewrite fmap_None. intros Hl. constructor; [done|by apply IH].
Qed.

(** The hash of a URL has 48 bits, and the hashes of all URLs with a given scheme lie
    between the two hashes of the scheme, the range that the queries by prefix search. *)
Theorem hash_url_in_prefix_range (spec : string) (pos : nat) :
  is_ascii spec = true →
  find_byte (λ b, Ascii.eqb b ":") (str_take 50 spec) = Some pos →
  ∃ h lo, hash_url (E:=unit) spec = Ok h ∧
    hash_url_prefix (E:=unit) (str_take pos spec) Lo = Ok lo ∧
    hash_url_prefix (E:=unit) (str_take pos spec) Hi = Ok (lo + 2 ^ 32 - 1) ∧
    lo ≤ h ≤ lo + 2 ^ 32 - 1 ∧ h < 2 ^ 48.
Proof.
  intros Hs Hpos.
  assert (Hlt : (pos < Nat.min 50 (len_str spec))%nat).
  { unfold find_byte in Hpos. apply position_lookup in Hpos as (b & Hb & _).
    rewrite as_bytes_take in Hb. apply lookup_lt_Some in Hb. by rewrite length_take in Hb. }
  assert (Hs' : is_ascii (str_take pos spec) = true).
  { unfold is_ascii in *. rewrite as_bytes_take. rewrite forallb_forall in *. intros b Hb. apply Hs.
    apply list_elem_of_In in Hb. apply list_elem_of_In. apply elem_of_take in Hb as (i & Hb & _).
    by eapply list_elem_of_lookup_2. }
  assert (Hhead : str_take (Nat.min (len_str spec) 50) spec = str_take 50 spec).
  { apply as_bytes_inj. rewrite !as_bytes_take. unfold len_str. destruct (Nat.le_ge_cases (List.length (as_bytes spec)) 50).
    - rewrite Nat.min_l, !take_ge by lia. done.
    - by rewrite Nat.min_r by lia. }
  assert (Hself : str_take pos (str_take pos spec) = str_take pos spec).
  { apply as_bytes_inj. by rewrite !as_bytes_take, take_take, Nat.min_id. }
  unfold hash_url, hash_url_prefix. rewrite !ascii_slice by (done || unfold MAX_BYTES_TO_HASH; lia).
  rewrite !res_bind_ok, Hhead, Hpos.
  rewrite len_str_take, (Nat.min_l pos), (Nat.min_l pos) by (unfold MAX_BYTES_TO_HASH; lia).
  rewrite Hself, !ascii_slice, !res_bind_ok by (done || rewrite ?len_str_take; lia). rewrite ?Hself.
  pose proof (land_ffff_range (hash_string (str_take pos spec))) as Hp.
  pose proof (hash_string_range (str_take (Nat.min (len_str spec) MAX_BYTES_TO_HASH) spec)) as Hh.
  rewrite Z.shiftl_mul_pow2 by lia.
  eexists _, _. split; [done|]. split; [done|].
  rewrite !wrap_small by (unfold fits; lia). split; [f_equal; lia|]. lia.
Qed.

Lemma hash_url_in_prefix_range_witness :
  ∃ h lo, hash_url (E:=unit) "place:transition=7&sort=4" = Ok h ∧
    hash_url_prefix (E:=unit) "place" Lo = Ok lo ∧
    hash_url_prefix (E:=unit) "place" Hi = Ok (lo + 2 ^ 32 - 1) ∧
    lo ≤ h ≤ lo + 2 ^ 32 - 1 ∧ h < 2 ^ 48.
Proof. apply (hash_url_in_prefix_range "place:transition=7&sort=4" 5); reflexivity. Defined.

(** ** Hosts *)
Definition host_end (b : ascii) : bool := Ascii.eqb b "/" || Ascii.eqb b "?" || Ascii.eqb b "#".

Lemma split_after_prefix_app href : fst (split_after_prefix href) +:+ snd (split_after_prefix href) = href.
Proof. unfold split_after_prefix. destruct (find_byte _ href); [apply str_take_drop|done]. Qed.

(** The host and port of a URL are a piece of it without the characters that end an
    authority, preceded by the prefix and the user info.  The user info is taken to end at the
    first [@] of the whole rest of the URL, also one of its path: the host of
    [https://medium.com/@user] is [user]. *)
Theorem host_and_port_of_url (href : string) :
  (∃ userinfo rest, href = get_prefix href +:+ userinfo +:+ get_host_and_port href +:+ rest ∧
     strip_prefix_and_userinfo href = get_host_and_port href +:+ rest ∧
     (userinfo = ""%string ∨ ∃ u, userinfo = u +:+ "@") ∧
     Forall (λ b, host_end b = false) (as_bytes (get_host_and_port href))) ∧
  get_host_and_port "https://medium.com/@user" = "user"%string.
Proof.
  split; [|reflexivity]. unfold strip_prefix_and_userinfo, get_host_and_port, split_after_host_and_port, get_prefix.
  pose proof (split_after_prefix_app href) as Happ. destruct (split_after_prefix href) as [prefix r]. cbn [fst snd] in *.
  set (start := match find_byte _ r with Some i => S i | None => 0%nat end).
  set (r' := str_drop start r).
  set (e := default (len_str r') (find_byte _ r')). cbn [fst snd].
  exists (str_take start r), (str_drop e r'). split_and!.
  - by rewrite str_take_drop, str_take_drop.
  - done.
  - subst start. unfold find_byte. destruct (position _ (as_bytes r)) as [i|] eqn:Hi; [|by left]. right.
    apply position_lookup in Hi as (b & Hb & ->%Ascii.eqb_eq).
    exists (str_take i r). apply as_bytes_inj. rewrite as_bytes_app, !as_bytes_take. by apply take_S_r.
  - rewrite as_bytes_take. subst e. unfold find_byte, len_str.
    destruct (position _ (as_bytes r')) as [i|] eqn:Hi; cbn [default].
    + exact (position_take _ _ _ Hi).
    + rewrite take_ge by done. exact (position_none _ _ Hi).
Qed.
