(* ===== verification/PlacesDb.v ===== *)
(** * Places: the database

    Model of the SQLite database of [components/places]: the tables of
    [sql/create_shared_schema.sql] and [create_shared_temp_tables.sql], the triggers of
    [create_shared_triggers.sql] and [create_main_triggers.sql] on the tables that are modelled,
    and [storage/mod.rs].  The connection is the read-write one.

    A table is a finite map from row ids to rows.  A statement fails, and leaves the database as
    it was, if it violates a constraint of the schema; other failures of SQLite (I/O, locks) are
    not modelled.  A new row gets the id that follows the largest one.  Rows that a query
    returns without ORDER BY are in the order of their ids.  The columns [description] and
    [preview_image_url], which nothing sets, are left out. *)

From S2P Require Import Prelude Database Sync15Types KeyBundle State Viaduct Token PlacesTypes.
From Stdlib Require Import Ascii String.
From stdpp Require Import sorting strings list gmap.
Local Open Scope Z_scope.
Local Open Scope list_scope.

(** ** Tables *)
Record PlaceRow := mkPlaceRow {
  p_url : string;
  p_title : option string;
  p_visit_count_local : Z;
  p_visit_count_remote : Z;
  p_hidden : bool;
  p_typed : Z;
  p_frecency : Z;
  p_last_visit_date_local : Z;
  p_last_visit_date_remote : Z;
  p_guid : string;
  p_foreign_count : Z;
  p_url_hash : Z;
  p_origin_id : option Z;
  p_sync_status : Z;
  p_sync_change_counter : Z;
}.
Record VisitRow := mkVisitRow {
  v_is_local : bool;
  v_from_visit : option Z;
  v_place_id : Z;
  v_visit_date : Z;
  v_visit_type : Z;
}.
Record BookmarkRow := mkBookmarkRow {
  b_fk : option Z;
  b_type : Z;
  b_parent : option Z;
  b_position : Z;
  b_title : option string;
  b_dateAdded : Z;
  b_lastModified : Z;
  b_guid : string;
  b_syncStatus : Z;
  b_syncChangeCounter : Z;
}.
Record OriginRow := mkOriginRow { o_prefix : string; o_host : string; o_rev_host : string; o_frecency : Z }.
Record OriginInsert := mkOriginInsert { oi_prefix : string; oi_host : string; oi_rev_host : string; oi_frecency : Z }.
Record TagRow := mkTagRow { t_tag : string; t_lastModified : Z }.
Inductive MetaValue := MText (s : string) | MInteger (z : Z).

Record PlacesDb := mkPlacesDb {
  moz_places : gmap Z PlaceRow;
  moz_places_tombstones : gset string;
  moz_places_stale_frecencies : gmap Z Z;
  moz_historyvisits : gmap Z VisitRow;
  moz_historyvisit_tombstones : gset (Z * Z);
  moz_bookmarks : gmap Z BookmarkRow;
  moz_bookmarks_deleted : gmap string Z;
  moz_origins : gmap Z OriginRow;
  moz_meta : gmap string MetaValue;
  moz_tags : gmap Z TagRow;
  moz_tags_relation : gset (Z * Z);
  moz_updateoriginsinsert_temp : gmap Z OriginInsert;
  moz_updateoriginsdelete_temp : gmap (string * string) Z;
  moz_updateoriginsupdate_temp : gmap (string * string) Z;
  moz_inputhistory : gmap (Z * string) Z;
  temp_sync_updated_meta : gmap Z Z;
}.

Definition on_places (f : gmap Z PlaceRow → gmap Z PlaceRow) (d : PlacesDb) : PlacesDb :=
  mkPlacesDb (f (moz_places d)) (moz_places_tombstones d) (moz_places_stale_frecencies d)
    (moz_historyvisits d) (moz_historyvisit_tombstones d) (moz_bookmarks d) (moz_bookmarks_deleted d)
    (moz_origins d) (moz_meta d) (moz_tags d) (moz_tags_relation d) (moz_updateoriginsinsert_temp d)
    (moz_updateoriginsdelete_temp d) (moz_updateoriginsupdate_temp d)
    (moz_inputhistory d) (temp_sync_updated_meta d).
Definition on_places_tombstones (f : gset string → gset string) (d : PlacesDb) : PlacesDb :=
  mkPlacesDb (moz_places d) (f (moz_places_tombstones d)) (moz_places_stale_frecencies d)
    (moz_historyvisits d) (moz_historyvisit_tombstones d) (moz_bookmarks d) (moz_bookmarks_deleted d)
    (moz_origins d) (moz_meta d) (moz_tags d) (moz_tags_relation d) (moz_updateoriginsinsert_temp d)
    (moz_updateoriginsdelete_temp d) (moz_updateoriginsupdate_temp d)
    (moz_inputhistory d) (temp_sync_updated_meta d).
Definition on_stale (f : gmap Z Z → gmap Z Z) (d : PlacesDb) : PlacesDb :=
  mkPlacesDb (moz_places d) (moz_places_tombstones d) (f (moz_places_stale_frecencies d))
    (moz_historyvisits d) (moz_historyvisit_tombstones d) (moz_bookmarks d) (moz_bookmarks_deleted d)
    (moz_origins d) (moz_meta d) (moz_tags d) (moz_tags_relation d) (moz_updateoriginsinsert_temp d)
    (moz_updateoriginsdelete_temp d) (moz_updateoriginsupdate_temp d)
    (moz_inputhistory d) (temp_sync_updated_meta d).
Definition on_visits (f : gmap Z VisitRow → gmap Z VisitRow) (d : PlacesDb) : PlacesDb :=
  mkPlacesDb (moz_places d) (moz_places_tombstones d) (moz_places_stale_frecencies d)
    (f (moz_historyvisits d)) (moz_historyvisit_tombstones d) (moz_bookmarks d) (moz_bookmarks_deleted d)
    (moz_origins d) (moz_meta d) (moz_tags d) (moz_tags_relation d) (moz_updateoriginsinsert_temp d)
    (moz_updateoriginsdelete_temp d) (moz_updateoriginsupdate_temp d)
    (moz_inputhistory d) (temp_sync_updated_meta d).
Definition on_visit_tombstones (f : gset (Z * Z) → gset (Z * Z)) (d : PlacesDb) : PlacesDb :=
  mkPlacesDb (moz_places d) (moz_places_tombstones d) (moz_places_stale_frecencies d) (moz_historyvisits d)
    (f (moz_historyvisit_tombstones d)) (moz_bookmarks d) (moz_bookmarks_deleted d) (moz_origins d)
    (moz_meta d) (moz_tags d) (moz_tags_relation d) (moz_updateoriginsinsert_temp d)
    (moz_updateoriginsdelete_temp d) (moz_updateoriginsupdate_temp d)
    (moz_inputhistory d) (temp_sync_updated_meta d).
Definition on_bookmarks (f : gmap Z BookmarkRow → gmap Z BookmarkRow) (d : PlacesDb) : PlacesDb :=
  mkPlacesDb (moz_places d) (moz_places_tombstones d) (moz_places_stale_frecencies d) (moz_historyvisits d)
    (moz_historyvisit_tombstones d) (f (moz_bookmarks d)) (moz_bookmarks_deleted d) (moz_origins d)
    (moz_meta d) (moz_tags d) (moz_tags_relation d) (moz_updateoriginsinsert_temp d)
    (moz_updateoriginsdelete_temp d) (moz_updateoriginsupdate_temp d)
    (moz_inputhistory d) (temp_sync_updated_meta d).
Definition on_bookmarks_deleted (f : gmap string Z → gmap string Z) (d : PlacesDb) : PlacesDb :=
  mkPlacesDb (moz_places d) (moz_places_tombstones d) (moz_places_stale_frecencies d) (moz_historyvisits d)
    (moz_historyvisit_tombstones d) (moz_bookmarks d) (f (moz_bookmarks_deleted d)) (moz_origins d)
    (moz_meta d) (moz_tags d) (moz_tags_relation d) (moz_updateoriginsinsert_temp d)
    (moz_updateoriginsdelete_temp d) (moz_updateoriginsupdate_temp d)
    (moz_inputhistory d) (temp_sync_updated_meta d).
Definition on_origins (f : gmap Z OriginRow → gmap Z OriginRow) (d : PlacesDb) : PlacesDb :=
  mkPlacesDb (moz_places d) (moz_places_tombstones d) (moz_places_stale_frecencies d) (moz_historyvisits d)
    (moz_historyvisit_tombstones d) (moz_bookmarks d) (moz_bookmarks_deleted d) (f (moz_origins d))
    (moz_meta d) (moz_tags d) (moz_tags_relation d) (moz_updateoriginsinsert_temp d)
    (moz_updateoriginsdelete_temp d) (moz_updateoriginsupdate_temp d)
    (moz_inputhistory d) (temp_sync_updated_meta d).
Definition on_meta (f : gmap string MetaValue → gmap string MetaValue) (d : PlacesDb) : PlacesDb :=
  mkPlacesDb (moz_places d) (moz_places_tombstones d) (moz_places_stale_frecencies d) (moz_historyvisits d)
    (moz_historyvisit_tombstones d) (moz_bookmarks d) (moz_bookmarks_deleted d) (moz_origins d)
    (f (moz_meta d)) (moz_tags d) (moz_tags_relation d) (moz_updateoriginsinsert_temp d)
    (moz_updateoriginsdelete_temp d) (moz_updateoriginsupdate_temp d)
    (moz_inputhistory d) (temp_sync_updated_meta d).
Definition on_tags (f : gmap Z TagRow → gmap Z TagRow) (d : PlacesDb) : PlacesDb :=
  mkPlacesDb (moz_places d) (moz_places_tombstones d) (moz_places_stale_frecencies d) (moz_historyvisits d)
    (moz_historyvisit_tombstones d) (moz_bookmarks d) (moz_bookmarks_deleted d) (moz_origins d) (moz_meta d)
    (f (moz_tags d)) (moz_tags_relation d) (moz_updateoriginsinsert_temp d) (moz_updateoriginsdelete_temp d)
    (moz_updateoriginsupdate_temp d)
    (moz_inputhistory d) (temp_sync_updated_meta d).
Definition on_tags_relation (f : gset (Z * Z) → gset (Z * Z)) (d : PlacesDb) : PlacesDb :=
  mkPlacesDb (moz_places d) (moz_places_tombstones d) (moz_places_stale_frecencies d) (moz_historyvisits d)
    (moz_historyvisit_tombstones d) (moz_bookmarks d) (moz_bookmarks_deleted d) (moz_origins d) (moz_meta d)
    (moz_tags d) (f (moz_tags_relation d)) (moz_updateoriginsinsert_temp d) (moz_updateoriginsdelete_temp d)
    (moz_updateoriginsupdate_temp d)
    (moz_inputhistory d) (temp_sync_updated_meta d).
Definition on_insert_temp (f : gmap Z OriginInsert → gmap Z OriginInsert) (d : PlacesDb) : PlacesDb :=
  mkPlacesDb (moz_places d) (moz_places_tombstones d) (moz_places_stale_frecencies d) (moz_historyvisits d)
    (moz_historyvisit_tombstones d) (moz_bookmarks d) (moz_bookmarks_deleted d) (moz_origins d) (moz_meta d)
    (moz_tags d) (moz_tags_relation d) (f (moz_updateoriginsinsert_temp d)) (moz_updateoriginsdelete_temp d)
    (moz_updateoriginsupdate_temp d)
    (moz_inputhistory d) (temp_sync_updated_meta d).
Definition on_delete_temp (f : gmap (string * string) Z → gmap (string * string) Z) (d : PlacesDb) : PlacesDb :=
  mkPlacesDb (moz_places d) (moz_places_tombstones d) (moz_places_stale_frecencies d) (moz_historyvisits d)
    (moz_historyvisit_tombstones d) (moz_bookmarks d) (moz_bookmarks_deleted d) (moz_origins d) (moz_meta d)
    (moz_tags d) (moz_tags_relation d) (moz_updateoriginsinsert_temp d) (f (moz_updateoriginsdelete_temp d))
    (moz_updateoriginsupdate_temp d)
    (moz_inputhistory d) (temp_sync_updated_meta d).
Definition on_update_temp (f : gmap (string * string) Z → gmap (string * string) Z) (d : PlacesDb) : PlacesDb :=
  mkPlacesDb (moz_places d) (moz_places_tombstones d) (moz_places_stale_frecencies d) (moz_historyvisits d)
    (moz_historyvisit_tombstones d) (moz_bookmarks d) (moz_bookmarks_deleted d) (moz_origins d) (moz_meta d)
    (moz_tags d) (moz_tags_relation d) (moz_updateoriginsinsert_temp d) (moz_updateoriginsdelete_temp d)
    (f (moz_updateoriginsupdate_temp d))
    (moz_inputhistory d) (temp_sync_updated_meta d).

Definition on_inputhistory (f : gmap (Z * string) Z → gmap (Z * string) Z) (d : PlacesDb) : PlacesDb :=
  mkPlacesDb (moz_places d) (moz_places_tombstones d) (moz_places_stale_frecencies d) (moz_historyvisits d)
    (moz_historyvisit_tombstones d) (moz_bookmarks d) (moz_bookmarks_deleted d) (moz_origins d) (moz_meta d)
    (moz_tags d) (moz_tags_relation d) (moz_updateoriginsinsert_temp d) (moz_updateoriginsdelete_temp d)
    (moz_updateoriginsupdate_temp d) (f (moz_inputhistory d)) (temp_sync_updated_meta d).
Definition on_sync_meta (f : gmap Z Z → gmap Z Z) (d : PlacesDb) : PlacesDb :=
  mkPlacesDb (moz_places d) (moz_places_tombstones d) (moz_places_stale_frecencies d) (moz_historyvisits d)
    (moz_historyvisit_tombstones d) (moz_bookmarks d) (moz_bookmarks_deleted d) (moz_origins d) (moz_meta d)
    (moz_tags d) (moz_tags_relation d) (moz_updateoriginsinsert_temp d) (moz_updateoriginsdelete_temp d)
    (moz_updateoriginsupdate_temp d) (moz_inputhistory d) (f (temp_sync_updated_meta d)).

Definition p_set_foreign_count (x : Z) (r : PlaceRow) : PlaceRow :=
  mkPlaceRow (p_url r) (p_title r) (p_visit_count_local r) (p_visit_count_remote r) (p_hidden r) (p_typed r) (p_frecency r)
    (p_last_visit_date_local r) (p_last_visit_date_remote r) (p_guid r) x (p_url_hash r) (p_origin_id r) (p_sync_status r) (p_sync_change_counter r).
Definition p_set_origin_id (x : option Z) (r : PlaceRow) : PlaceRow :=
  mkPlaceRow (p_url r) (p_title r) (p_visit_count_local r) (p_visit_count_remote r) (p_hidden r) (p_typed r) (p_frecency r)
    (p_last_visit_date_local r) (p_last_visit_date_remote r) (p_guid r) (p_foreign_count r) (p_url_hash r) x (p_sync_status r) (p_sync_change_counter r).
Definition p_set_frecency (x : Z) (r : PlaceRow) : PlaceRow :=
  mkPlaceRow (p_url r) (p_title r) (p_visit_count_local r) (p_visit_count_remote r) (p_hidden r) (p_typed r) x
    (p_last_visit_date_local r) (p_last_visit_date_remote r) (p_guid r) (p_foreign_count r) (p_url_hash r) (p_origin_id r) (p_sync_status r) (p_sync_change_counter r).
Definition b_set_position (x : Z) (r : BookmarkRow) : BookmarkRow :=
  mkBookmarkRow (b_fk r) (b_type r) (b_parent r) x (b_title r)
    (b_dateAdded r) (b_lastModified r) (b_guid r) (b_syncStatus r) (b_syncChangeCounter r).
Definition b_set_lastModified (x : Z) (r : BookmarkRow) : BookmarkRow :=
  mkBookmarkRow (b_fk r) (b_type r) (b_parent r) (b_position r) (b_title r)
    (b_dateAdded r) x (b_guid r) (b_syncStatus r) (b_syncChangeCounter r).
Definition b_set_syncChangeCounter (x : Z) (r : BookmarkRow) : BookmarkRow :=
  mkBookmarkRow (b_fk r) (b_type r) (b_parent r) (b_position r) (b_title r)
    (b_dateAdded r) (b_lastModified r) (b_guid r) (b_syncStatus r) x.

Definition sql_err {A} (msg : string) : res PlacesError A := Err (PSqlError msg).

(** *** Reading columns and rows *)
Definition get_u32 (z : Z) : res PlacesError Z :=
  if (0 <=? z) && (z <? 2 ^ 32) then Ok z else sql_err "Integer out of range".
Definition get_i32 (z : Z) : res PlacesError Z :=
  if (- 2 ^ 31 <=? z) && (z <? 2 ^ 31) then Ok z else sql_err "Integer out of range".
Definition get_u8 (z : Z) : res PlacesError Z :=
  if (0 <=? z) && (z <? 256) then Ok z else sql_err "Integer out of range".
(** [Timestamp] as a column, and back. *)
Definition ts_to_sql (t : Z) : Z := wrap_i64 t.
Definition ts_of_sql (z : Z) : Z := wrap 64 z.

(** The rows of a table in the order of their ids. *)
Definition id_le {A} (x y : Z * A) : Prop := x.1 ≤ y.1.
Global Instance id_le_dec {A} : RelDecision (@id_le A).
Proof. intros x y. unfold id_le. apply _. Defined.
Definition rows {A} (m : gmap Z A) : list (Z * A) := merge_sort id_le (map_to_list m).
Definition select {A} (p : A → bool) (m : gmap Z A) : list (Z * A) := List.filter (λ '(_, r), p r) (rows m).
Definition select_first {A} (p : A → bool) (m : gmap Z A) : option (Z * A) := head (select p m).

(** The id of a new row. *)
Definition next_rowid {A} (m : gmap Z A) : Z := map_fold (λ id _ n, Z.max (id + 1) n) 1 m.

(** The SQL function [length] counts characters. *)
Definition char_length (s : string) : nat := length (List.filter (λ b, negb (Utf8.cont b)) (as_bytes s)).
(** The SQL function [hash] with one argument; a panic of the function is an error. *)
Definition sql_hash (url : string) : res PlacesError Z :=
  match hash_url url with Ok h => Ok h | Err e => Err e | Panic m => sql_err m end.

(** ** Origins *)
Section db.
Context {W : Type}.
Abbreviation DB := (ST (PlacesDb * W) PlacesError).

Definition is_origin (prefix host : string) (o : OriginRow) : bool :=
  String.eqb (o_prefix o) prefix && String.eqb (o_host o) host.
Definition find_origin (prefix host : string) (d : PlacesDb) : option (Z * OriginRow) :=
  select_first (is_origin prefix host) (moz_origins d).

(** A sum, difference or default of a number in [moz_meta]; the keys below hold integers. *)
Definition meta_int (key : string) (d : PlacesDb) : Z :=
  match moz_meta d !! key with Some (MInteger z) => z | _ => 0 end.
Definition MOZ_META_KEY_ORIGIN_FRECENCY_COUNT : string := "origin_frecency_count".
Definition MOZ_META_KEY_ORIGIN_FRECENCY_SUM : string := "origin_frecency_sum".
Definition MOZ_META_KEY_ORIGIN_FRECENCY_SUM_OF_SQUARES : string := "origin_frecency_sum_of_squares".

Definition update_origin_frecency_stats (op : Z → Z → Z) (prefix host : string) (d : PlacesDb) : PlacesDb :=
  match find_origin prefix host d with
  | None => d
  | Some (_, o) =>
      let f := Z.max (o_frecency o) 0 in
      let put key x := <[key := MInteger (op (meta_int key d) x)]> in
      on_meta (λ m,
        put MOZ_META_KEY_ORIGIN_FRECENCY_COUNT (if 0 <? o_frecency o then 1 else 0)
          (put MOZ_META_KEY_ORIGIN_FRECENCY_SUM f
            (put MOZ_META_KEY_ORIGIN_FRECENCY_SUM_OF_SQUARES (f * f) m))) d
  end.

(** [UPDATE moz_origins SET frecency = frecency + delta WHERE prefix = .. AND host = ..]. *)
Definition add_origin_frecency (prefix host : string) (delta : Z) (d : PlacesDb) : PlacesDb :=
  on_origins (fmap (λ o, if is_origin prefix host o
                         then mkOriginRow (o_prefix o) (o_host o) (o_rev_host o) (o_frecency o + delta) else o)) d.

Definition origin_id_of (prefix host : string) (d : PlacesDb) : option Z := fst <$> find_origin prefix host d.
Definition insert_origin (o : OriginRow) (d : PlacesDb) : PlacesDb :=
  on_origins (λ m, <[next_rowid m := o]> m) d.

(** The triggers that run when the staged changes are deleted. *)
Definition moz_updateoriginsinsert_afterdelete_trigger (place_id : Z) (old : OriginInsert) (d : PlacesDb) : PlacesDb :=
  let d := update_origin_frecency_stats Z.sub (oi_prefix old) (oi_host old) d in
  let d := match find_origin (oi_prefix old) (oi_host old) d with
           | None => insert_origin (mkOriginRow (oi_prefix old) (oi_host old) (oi_rev_host old) (Z.max (oi_frecency old) 0)) d
           | Some _ => if 0 <? oi_frecency old then add_origin_frecency (oi_prefix old) (oi_host old) (oi_frecency old) d else d
           end in
  let d := update_origin_frecency_stats Z.add (oi_prefix old) (oi_host old) d in
  on_places (alter (p_set_origin_id (origin_id_of (oi_prefix old) (oi_host old) d)) place_id) d.

Definition moz_updateoriginsdelete_afterdelete_trigger (key : string * string) (delta : Z) (d : PlacesDb) : PlacesDb :=
  let '(prefix, host) := key in
  let d := update_origin_frecency_stats Z.sub prefix host d in
  let d := add_origin_frecency prefix host delta d in
  let used id := negb (bool_decide (filter (λ '(_, p), p_origin_id p = Some id) (moz_places d) = ∅)) in
  let d := on_origins (filter (λ '(id, o), (is_origin prefix host o && negb (used id)) = false)) d in
  update_origin_frecency_stats Z.add prefix host d.

Definition moz_updateoriginsupdate_afterdelete_trigger (key : string * string) (delta : Z) (d : PlacesDb) : PlacesDb :=
  let '(prefix, host) := key in
  let d := update_origin_frecency_stats Z.sub prefix host d in
  let d := add_origin_frecency prefix host delta d in
  update_origin_frecency_stats Z.add prefix host d.

Definition flush_origins (d : PlacesDb) : PlacesDb :=
  let upd := map_to_list (moz_updateoriginsupdate_temp d) in
  let d := foldl (λ d '(k, x), moz_updateoriginsupdate_afterdelete_trigger k x d) (on_update_temp (λ _, ∅) d) upd in
  let del := map_to_list (moz_updateoriginsdelete_temp d) in
  let d := foldl (λ d '(k, x), moz_updateoriginsdelete_afterdelete_trigger k x d) (on_delete_temp (λ _, ∅) d) del in
  let ins := rows (moz_updateoriginsinsert_temp d) in
  foldl (λ d '(k, x), moz_updateoriginsinsert_afterdelete_trigger k x d) (on_insert_temp (λ _, ∅) d) ins.

Definition delete_pending_temp_tables : DB unit := db_modify flush_origins.

(** ** moz_places *)
Definition staged (url rev_host : string) : OriginInsert := mkOriginInsert (get_prefix url) (get_host_and_port url) rev_host (-1).

(** [INSERT INTO moz_places (guid, url, url_hash)], with the triggers for origins and
    tombstones. *)
Definition insert_place (guid url : string) : DB Z :=
  hash ← st_lift (sql_hash url);
  rev_host ← st_lift (reverse_host (get_host_and_port url));
  d ← db_get;
  if bool_decide (filter (λ '(_, p), p_guid p = guid) (moz_places d) = ∅) then
    let id := next_rowid (moz_places d) in
    let prefix := get_prefix url in
    let host := get_host_and_port url in
    _ ← db_modify (λ d,
      match find_origin prefix host d with
      | Some _ => d
      | None => insert_origin (mkOriginRow prefix host rev_host (-1)) d
      end);
    _ ← db_modify (λ d,
      on_places <[id := mkPlaceRow url None 0 0 false 0 (-1) 0 0 guid 0 hash (origin_id_of prefix host d)
                          (SyncStatus.as_u8 SNew) 0]> d);
    _ ← db_modify (on_places_tombstones (λ s, s ∖ {[guid]}));
    _ ← db_modify (on_insert_temp <[id := staged url rev_host]>);
    mret id
  else st_err (PSqlError "UNIQUE constraint failed: moz_places.guid").

(** ** storage/mod.rs *)
Definition URL_LENGTH_MAX : Z := 65536.
Definition TITLE_LENGTH_MAX : nat := 4096.
Definition TAG_LENGTH_MAX : nat := 100.

Context `{!UrlLib}.

Record PageInfo := mkPageInfo {
  pi_url : Url;
  pi_guid : string;
  pi_row_id : Z;
  pi_title : string;
  pi_hidden : bool;
  pi_typed : Z;
  pi_frecency : Z;
  pi_visit_count_local : Z;
  pi_visit_count_remote : Z;
  pi_last_visit_date_local : Z;
  pi_last_visit_date_remote : Z;
  pi_sync_status : SyncStatus;
  pi_sync_change_counter : Z;
}.

Definition parse_url (s : string) : res PlacesError Url := map_err PUrlParseError (url_parse s).

Definition PageInfo_from_row (id : Z) (r : PlaceRow) : res PlacesError PageInfo :=
  url ← parse_url (p_url r);
  typed ← get_u32 (p_typed r);
  frecency ← get_i32 (p_frecency r);
  visit_count_local ← get_i32 (p_visit_count_local r);
  visit_count_remote ← get_i32 (p_visit_count_remote r);
  sync_status ← get_u8 (p_sync_status r);
  sync_change_counter ← get_u32 (p_sync_change_counter r);
  Ok (mkPageInfo url (p_guid r) id (default ""%string (p_title r)) (p_hidden r) typed frecency
        visit_count_local visit_count_remote (ts_of_sql (p_last_visit_date_local r))
        (ts_of_sql (p_last_visit_date_remote r)) (SyncStatus.from_u8 sync_status) sync_change_counter).

Record FetchedPageInfo := mkFetchedPageInfo { page : PageInfo; last_visit_id : option Z }.

Definition fetch_page_info (url : Url) : DB (option FetchedPageInfo) :=
  hash ← st_lift (sql_hash (url_as_str url));
  d ← db_get;
  match select_first (λ p, (p_url_hash p =? hash) && String.eqb (p_url p) (url_as_str url)) (moz_places d) with
  | None => mret None
  | Some (id, r) =>
      info ← st_lift (PageInfo_from_row id r);
      let last_visit := select_first (λ v, (v_place_id v =? id) &&
        ((v_visit_date v =? p_last_visit_date_local r) || (v_visit_date v =? p_last_visit_date_remote r)))
        (moz_historyvisits d) in
      mret (Some (mkFetchedPageInfo info (fst <$> last_visit)))
  end.

Context `{!Interruptee W, !Clock W, !Rand W, !UrlSafeBase64}.

(** [Timestamp::now()], [SyncGuid::new()] and an interrupt scope. *)
Definition now : DB Z :=
  on_world (λ w, let '(t, w) := system_now w in (Timestamp_from_system_time t, w)).
Definition new_guid : DB string :=
  on_world (λ w, let '(r, w) := random_guid w in
    (match r with Ok g => Ok g | _ => Panic "called `Result::unwrap()` on an `Err` value" end, w)).
Definition check_interrupted : DB unit :=
  on_world (λ w, let '(r, w) := err_if_interrupted w in (map_err (λ _, PInterruptedError) r, w)).

Definition new_page_info (url : Url) (new_guid_opt : option string) : DB PageInfo :=
  guid ← match new_guid_opt with Some guid => mret guid | None => new_guid end;
  let url_str := url_as_str url in
  if URL_LENGTH_MAX <? Z.of_nat (len_str url_str) then st_err (PInvalidPlaceInfo UrlTooLong)
  else
    row_id ← insert_place guid url_str;
    mret (mkPageInfo url guid row_id "" true 0 (-1) 0 0 0 0 SNew 0).

(** The page of a URL, created if there is none. *)
Definition fetch_or_new_page (url : Url) : DB PageInfo :=
  info ← fetch_page_info url;
  match info with
  | Some info => mret (page info)
  | None => new_page_info url None
  end.

Definition put_meta (key : string) (value : MetaValue) : DB unit := db_modify (on_meta <[key := value]>).
Definition get_meta (key : string) : DB (option MetaValue) := d ← db_get; mret (moz_meta d !! key).
Definition delete_meta (key : string) : DB unit := db_modify (on_meta (delete key)).
End db.

(** ** Facts about tables *)
Lemma elem_of_rows {A} (m : gmap Z A) id r : (id, r) ∈ rows m ↔ m !! id = Some r.
Proof. unfold rows. rewrite merge_sort_Permutation. apply elem_of_map_to_list. Qed.

Lemma select_first_Some {A} (p : A → bool) m id r : select_first p m = Some (id, r) → m !! id = Some r ∧ p r = true.
Proof.
  unfold select_first, select. intros Hh. assert (Hin : (id, r) ∈ List.filter (λ '(_, r), p r) (rows m)).
  { destruct (List.filter _ _); [done|]. injection Hh as ->. left. }
  apply list_elem_of_In, filter_In in Hin as [Hin Hp]. split; [|done]. by apply elem_of_rows, list_elem_of_In.
Qed.
Lemma select_first_None {A} (p : A → bool) m id r : select_first p m = None → m !! id = Some r → p r = false.
Proof.
  unfold select_first, select. intros Hh Hr. destruct (List.filter _ _) eqn:Hf; [|done].
  destruct (p r) eqn:Hp; [|done]. exfalso.
  assert (Hin : In (id, r) (List.filter (λ '(_, r), p r) (rows m))); [|by rewrite Hf in Hin].
  apply filter_In. split; [|done]. by apply list_elem_of_In, elem_of_rows.
Qed.

Lemma next_rowid_above {A} (m : gmap Z A) id r : m !! id = Some r → id < next_rowid m.
Proof.
  revert id r. unfold next_rowid. apply (map_fold_weak_ind (λ n m, ∀ id r, m !! id = Some r → id < n)).
  - intros id r. by rewrite lookup_empty.
  - intros i x m' n Hi IH id r Hl. destruct (decide (id = i)) as [->|Hne]; [lia|].
    rewrite lookup_insert_ne in Hl by done. specialize (IH id r Hl). lia.
Qed.
Lemma next_rowid_fresh {A} (m : gmap Z A) : m !! next_rowid m = None.
Proof. destruct (m !! next_rowid m) eqn:H; [|done]. apply next_rowid_above in H. lia. Qed.

Lemma next_rowid_pos {A} (m : gmap Z A) : 0 < next_rowid m.
Proof. unfold next_rowid. apply (map_fold_weak_ind (λ n _, 0 < n)); [done|]. intros i x m' n _ IH. lia. Qed.

(** One step of a proof about a call of this file. *)
Ltac places_step :=
  cbn beta;
  lazymatch goal with
  | |- ok_post now _ _ => apply ok_post_world; intros ?
  | |- ok_post new_guid _ _ => apply ok_post_world; intros ?
  | |- ok_post check_interrupted _ _ => apply ok_post_world; intros ?
  | |- ok_post (match ?x with _ => _ end) _ _ => destruct x eqn:?
  | |- ok_post (let '_ := ?x in _) _ _ => destruct x eqn:?
  | _ => ok_step
  end; cbn beta.
Ltac places_steps := repeat places_step.

(** The tables of bookmarks are not changed by what happens to pages. *)
Definition same_bookmarks (d d' : PlacesDb) : Prop :=
  moz_bookmarks d' = moz_bookmarks d ∧ moz_bookmarks_deleted d' = moz_bookmarks_deleted d.
Global Instance same_bookmarks_preorder : PreOrder same_bookmarks.
Proof. split; [done|]. intros d1 d2 d3 [H1 H2] [H3 H4]. split; congruence. Qed.

Lemma foldl_same_bookmarks {A} (f : PlacesDb → A → PlacesDb) l d :
  (∀ d x, same_bookmarks d (f d x)) → same_bookmarks d (foldl f d l).
Proof. intros Hf. revert d. induction l as [|x l IH]; intros d; [done|]. cbn. etrans; [apply Hf|apply IH]. Qed.

Lemma stats_same_bookmarks op prefix host d : same_bookmarks d (update_origin_frecency_stats op prefix host d).
Proof. unfold update_origin_frecency_stats. by destruct (find_origin _ _ _) as [[]|]. Qed.

Lemma update_trigger_same_bookmarks key delta d :
  same_bookmarks d (moz_updateoriginsupdate_afterdelete_trigger key delta d).
Proof.
  destruct key as [prefix host]. cbn. etrans; [|apply stats_same_bookmarks].
  apply (stats_same_bookmarks Z.sub prefix host d).
Qed.
Lemma delete_trigger_same_bookmarks key delta d :
  same_bookmarks d (moz_updateoriginsdelete_afterdelete_trigger key delta d).
Proof.
  destruct key as [prefix host]. cbn. etrans; [|apply stats_same_bookmarks].
  apply (stats_same_bookmarks Z.sub prefix host d).
Qed.
Lemma insert_trigger_same_bookmarks id old d :
  same_bookmarks d (moz_updateoriginsinsert_afterdelete_trigger id old d).
Proof.
  unfold moz_updateoriginsinsert_afterdelete_trigger. cbn zeta.
  pose proof (stats_same_bookmarks Z.sub (oi_prefix old) (oi_host old) d) as Hs.
  destruct (find_origin _ _ _); [destruct (0 <? _)|]; (etrans; [exact Hs|]);
    match goal with |- same_bookmarks ?x (on_places _ (update_origin_frecency_stats Z.add ?a ?b ?y)) =>
      exact (stats_same_bookmarks Z.add a b y) end.
Qed.

(** The changes to the origins do not touch the bookmarks. *)
Lemma flush_same_bookmarks d : same_bookmarks d (flush_origins d).
Proof.
  unfold flush_origins. cbn zeta. etrans; [|apply foldl_same_bookmarks; intros ? []; apply insert_trigger_same_bookmarks].
  match goal with |- same_bookmarks _ (on_insert_temp _ ?x) => change (same_bookmarks d x) end.
  etrans; [|apply foldl_same_bookmarks; intros ? []; apply delete_trigger_same_bookmarks].
  match goal with |- same_bookmarks _ (on_delete_temp _ ?x) => change (same_bookmarks d x) end.
  etrans; [|apply foldl_same_bookmarks; intros ? []; apply update_trigger_same_bookmarks]. done.
Qed.

(** Pages keep their URLs. *)
Definition urls_kept (d d' : PlacesDb) : Prop :=
  ∀ id u, p_url <$> moz_places d !! id = Some u → p_url <$> moz_places d' !! id = Some u.
Global Instance urls_kept_preorder : PreOrder urls_kept.
Proof. split; [by intros d id u|]. intros d1 d2 d3 H12 H23 id u Hu. by apply H23, H12. Qed.
Lemma urls_kept_same d d' : moz_places d' = moz_places d → urls_kept d d'.
Proof. intros Heq id u. by rewrite Heq. Qed.
Lemma urls_kept_alter f id d : (∀ p, p_url (f p) = p_url p) → urls_kept d (on_places (alter f id) d).
Proof.
  intros Hf i u. cbn. destruct (decide (i = id)) as [->|Hne]; [|by rewrite lookup_alter_ne].
  rewrite lookup_alter_eq. destruct (moz_places d !! id) as [p|]; [|done]. cbn. by rewrite Hf.
Qed.
Lemma foldl_urls_kept {A} (f : PlacesDb → A → PlacesDb) l d :
  (∀ d x, urls_kept d (f d x)) → urls_kept d (foldl f d l).
Proof. intros Hf. revert d. induction l as [|x l IH]; intros d; [done|]. cbn. etrans; [apply Hf|apply IH]. Qed.

Lemma stats_places op prefix host d : moz_places (update_origin_frecency_stats op prefix host d) = moz_places d.
Proof. unfold update_origin_frecency_stats. by destruct (find_origin _ _ _) as [[]|]. Qed.
Lemma flush_urls_kept d : urls_kept d (flush_origins d).
Proof.
  unfold flush_origins. cbn zeta.
  match goal with |- urls_kept d (foldl ?f (on_insert_temp _ ?x) _) =>
    transitivity x; [|transitivity (on_insert_temp (λ _, ∅) x); [by apply urls_kept_same|apply foldl_urls_kept]] end.
  2:{ intros d1 [id old]. unfold moz_updateoriginsinsert_afterdelete_trigger. cbn zeta.
      etrans; [|by apply urls_kept_alter]. apply urls_kept_same. rewrite stats_places.
      destruct (find_origin _ _ _); [destruct (0 <? _)|]; cbn; by rewrite stats_places. }
  match goal with |- urls_kept d (foldl ?f (on_delete_temp _ ?x) _) =>
    transitivity x; [|transitivity (on_delete_temp (λ _, ∅) x); [by apply urls_kept_same|apply foldl_urls_kept]] end.
  - transitivity (on_update_temp (λ _, ∅) d); [by apply urls_kept_same|]. apply foldl_urls_kept. intros d1 [[prefix host] delta].
    apply urls_kept_same. cbn. rewrite stats_places. cbn. by rewrite stats_places.
  - intros d1 [[prefix host] delta]. apply urls_kept_same. cbn. rewrite stats_places. cbn. by rewrite stats_places.
Qed.

Lemma PageInfo_row_id `{!UrlLib} id r info : PageInfo_from_row id r = Ok info → pi_row_id info = id.
Proof. unfold PageInfo_from_row. intros Hi. bind_inv Hi. by injection Hi as <-. Qed.

Section pages.
Context {W : Type} `{!UrlLib, !Interruptee W, !Clock W, !Rand W, !UrlSafeBase64}.

Lemma fetch_page_info_ok (u : Url) d :
  ok_post (W:=W) (fetch_page_info u) d (λ o d', d' = d ∧
    ∀ i, o = Some i → p_url <$> moz_places d !! pi_row_id (page i) = Some (url_as_str u)).
Proof.
  unfold fetch_page_info. places_steps; [|done]. split; [done|]. intros i [= <-]. cbn.
  match goal with H : PageInfo_from_row _ _ = _ |- _ => apply PageInfo_row_id in H as -> end.
  match goal with H : select_first _ _ = Some _ |- _ => apply select_first_Some in H as [Hr Hu] end.
  apply andb_true_iff in Hu as [_ Hu%String.eqb_eq]. rewrite Hr. cbn. by rewrite Hu.
Qed.

Lemma insert_place_ok (g u : string) d :
  ok_post (W:=W) (insert_place g u) d (λ id d', same_bookmarks d d' ∧ moz_places d !! id = None ∧
    ∃ r, moz_places d' = <[id := r]> (moz_places d) ∧ p_url r = u ∧ p_guid r = g ∧ p_foreign_count r = 0).
Proof.
  unfold insert_place. places_steps. destruct (find_origin _ _ d).
  all: split; [done|]; split; [apply next_rowid_fresh|]; by eexists.
Qed.

Lemma fetch_or_new_page_ok (u : Url) d :
  ok_post (W:=W) (fetch_or_new_page u) d (λ info d',
    same_bookmarks d d' ∧ p_url <$> moz_places d' !! pi_row_id info = Some (url_as_str u) ∧ urls_kept d d').
Proof.
  unfold fetch_or_new_page. apply ok_post_bind. eapply ok_post_weaken; [apply fetch_page_info_ok|].
  intros o d1 [-> Ho]. destruct o as [i|].
  { apply ok_post_ret. split; [done|]. split; [by apply Ho|done]. }
  unfold new_page_info. apply ok_post_bind, ok_post_world. intros g.
  destruct (URL_LENGTH_MAX <? _); [apply ok_post_err|]. apply ok_post_bind.
  eapply ok_post_weaken; [apply insert_place_ok|]. intros id d' (Hsame & Hid & r & Hr & Hu & _). apply ok_post_ret. cbn.
  split; [done|]. split; [rewrite Hr, lookup_insert_eq; cbn; by rewrite Hu|].
  intros x v Hx. rewrite Hr. rewrite lookup_insert_ne; [done|]. intros ->. by rewrite Hid in Hx.
Qed.
End pages.
