(* ===== verification/Bookmarks.v ===== *)
(** * Places: bookmarks

    Model of [components/places/src/storage/bookmarks.rs]: the tree of bookmarks, folders and
    separators, kept as rows of [moz_bookmarks] with a parent and a position among its
    siblings.  The statements on the table come with their constraints, the deletion of
    children by the foreign key, and the triggers for foreign counts and tombstones.

    A recursive query over a table in which a row is its own ancestor does not end; the model
    follows the ancestors for as many steps as there are rows and reports a longer chain as a
    panic with the message [NO_END]. *)

From S2P Require Import Prelude Database Sync15Types KeyBundle State Viaduct Token PlacesTypes PlacesDb.
From Stdlib Require Import Ascii String.
From stdpp Require Import sorting strings list gmap.
Local Open Scope Z_scope.
Local Open Scope list_scope.

(** ** Statements on moz_bookmarks *)
Definition root_guid : string := BookmarkRootGuid.as_str Root.

Definition has_guid (guid : string) (r : BookmarkRow) : bool := String.eqb (b_guid r) guid.
Definition has_parent (parent : Z) (r : BookmarkRow) : bool := bool_decide (b_parent r = Some parent).
Definition is_some {A} (o : option A) : bool := match o with Some _ => true | None => false end.
Definition in_table {A} (o : option Z) (m : gmap Z A) : bool :=
  match o with None => true | Some id => is_some (m !! id) end.

(** The CHECK and FOREIGN KEY constraints; [bookmarks] is the table after the statement. *)
Definition row_constraints (d : PlacesDb) (bookmarks : gmap Z BookmarkRow) (r : BookmarkRow) : bool :=
  Nat.eqb (char_length (b_guid r)) 12 &&
  ((b_type r =? 1) && is_some (b_fk r) || (1 <? b_type r) && negb (is_some (b_fk r))) &&
  (String.eqb (b_guid r) root_guid || is_some (b_parent r)) &&
  in_table (b_fk r) (moz_places d) && in_table (b_parent r) bookmarks.

Definition add_foreign_count (delta : Z) (fk : option Z) (d : PlacesDb) : PlacesDb :=
  match fk with
  | None => d
  | Some id => on_places (alter (λ p, p_set_foreign_count (p_foreign_count p + delta) p) id) d
  end.

Section bookmarks.
Context {W : Type} `{!UrlLib, !Interruptee W, !Clock W, !Rand W, !UrlSafeBase64}.
(** The overflow checks of the build. *)
Context (checks : bool).
Abbreviation DB := (ST (PlacesDb * W) PlacesError).

(** INSERT, with [moz_bookmarks_afterinsert_trigger]. *)
Definition insert_row (r : BookmarkRow) : DB Z :=
  d ← db_get;
  let id := next_rowid (moz_bookmarks d) in
  let bookmarks := <[id := r]> (moz_bookmarks d) in
  if is_some (select_first (has_guid (b_guid r)) (moz_bookmarks d))
  then st_err (PSqlError "UNIQUE constraint failed: moz_bookmarks.guid")
  else if negb (row_constraints d bookmarks r) then st_err (PSqlError "CHECK constraint failed: moz_bookmarks")
  else
    _ ← db_modify (on_bookmarks (λ _, bookmarks));
    _ ← db_modify (add_foreign_count 1 (b_fk r));
    _ ← db_modify (on_bookmarks_deleted (delete (b_guid r)));
    mret id.

(** UPDATE of columns without constraints and triggers ([position], [lastModified],
    [syncChangeCounter]) in the rows that satisfy a condition. *)
Definition update_rows (sel : Z → BookmarkRow → bool) (f : BookmarkRow → BookmarkRow) : DB unit :=
  db_modify (on_bookmarks (map_imap (λ id r, Some (if sel id r then f r else r)))).

(** UPDATE of one row by its id, with [moz_bookmarks_foreign_count_afterupdate_trigger]. *)
Definition update_row (id : Z) (f : BookmarkRow → BookmarkRow) : DB unit :=
  d ← db_get;
  match moz_bookmarks d !! id with
  | None => mret tt
  | Some r =>
      let bookmarks := <[id := f r]> (moz_bookmarks d) in
      if negb (row_constraints d bookmarks (f r)) then st_err (PSqlError "CHECK constraint failed: moz_bookmarks")
      else
        _ ← db_modify (on_bookmarks (λ _, bookmarks));
        match b_fk r, b_fk (f r) with
        | Some old, Some new =>
            if old =? new then mret tt
            else
              _ ← db_modify (add_foreign_count 1 (Some new));
              db_modify (add_foreign_count (-1) (Some old))
        | _, _ => mret tt
        end
  end.

(** The ids of the rows that [ON DELETE CASCADE] deletes with some rows. *)
Definition parent_in (ids : gset Z) (r : BookmarkRow) : Prop :=
  match b_parent r with Some p => p ∈ ids | None => False end.
Global Instance parent_in_dec ids r : Decision (parent_in ids r).
Proof. unfold parent_in. destruct (b_parent r); apply _. Defined.
Fixpoint cascade (fuel : nat) (m : gmap Z BookmarkRow) (ids : gset Z) : gset Z :=
  match fuel with
  | O => ids
  | S fuel => cascade fuel m (ids ∪ dom (filter (λ '(_, r), parent_in ids r) m))
  end.
Definition subtree (m : gmap Z BookmarkRow) (id : Z) : gset Z := cascade (size m) m {[id]}.

(** [moz_bookmarks_foreign_count_afterdelete_trigger] and [moz_create_bookmarks_deleted_trigger]. *)
Definition after_delete (r : BookmarkRow) : DB unit :=
  _ ← db_modify (add_foreign_count (-1) (b_fk r));
  if b_syncStatus r =? SyncStatus.as_u8 SNormal then
    t ← now;
    d ← db_get;
    if is_some (moz_bookmarks_deleted d !! b_guid r)
    then st_err (PSqlError "UNIQUE constraint failed: moz_bookmarks_deleted.guid")
    else db_modify (on_bookmarks_deleted <[b_guid r := ts_to_sql t]>)
  else mret tt.
Fixpoint after_deletes (rs : list BookmarkRow) : DB unit :=
  match rs with
  | [] => mret tt
  | r :: rs => _ ← after_delete r; after_deletes rs
  end.
(** [DELETE FROM moz_bookmarks WHERE id = :id]: all or nothing. *)
Definition delete_row (id : Z) : DB unit :=
  d ← db_get;
  match moz_bookmarks d !! id with
  | None => mret tt
  | Some _ =>
      let gone := subtree (moz_bookmarks d) id in
      transaction (
        _ ← db_modify (on_bookmarks (filter (λ '(id, _), id ∉ gone)));
        after_deletes (snd <$> rows (filter (λ '(id, _), id ∈ gone) (moz_bookmarks d))))
  end.

(** ** create_root, create_bookmark_roots *)
Definition create_root (title guid : string) (position when : Z) : DB unit :=
  d ← db_get;
  let parent := fst <$> select_first (has_guid root_guid) (moz_bookmarks d) in
  _ ← insert_row (mkBookmarkRow None (BookmarkType.as_u8 TFolder) parent position (Some title)
                    (ts_to_sql when) (ts_to_sql when) guid (SyncStatus.as_u8 SNew) 1);
  mret tt.

Definition create_bookmark_roots : DB unit :=
  now ← now;
  _ ← create_root "root" (BookmarkRootGuid.as_str Root) 0 now;
  _ ← create_root "menu" (BookmarkRootGuid.as_str Menu) 0 now;
  _ ← create_root "toolbar" (BookmarkRootGuid.as_str Toolbar) 1 now;
  _ ← create_root "unfiled" (BookmarkRootGuid.as_str Unfiled) 2 now;
  create_root "mobile" (BookmarkRootGuid.as_str Mobile) 3 now.

(** ** RawBookmark *)
Record RawBookmark := mkRawBookmark {
  place_id : option Z;
  row_id : Z;
  bookmark_type : BookmarkType;
  parent_id : option Z;
  parent_guid : option string;
  position : Z;
  title : option string;
  url : option Url;
  date_added : Z;
  date_modified : Z;
  guid : string;
  sync_status : SyncStatus;
  sync_change_counter : Z;
  child_count : Z;
  grandparent_id : option Z;
}.

(** [NULLIF(title, '')]. *)
Definition nullif_empty (t : option string) : option string :=
  match t with Some s => if String.eqb s "" then None else Some s | None => None end.
Definition count_children (d : PlacesDb) (id : Z) : Z := Z.of_nat (size (filter (λ '(_, r), has_parent id r = true) (moz_bookmarks d))).
Definition url_of_place (d : PlacesDb) (fk : option Z) : option string := fk ≫= λ id, p_url <$> moz_places d !! id.
Definition parse_opt_url (s : option string) : res PlacesError (option Url) :=
  match s with None => Ok None | Some s => Some <$> parse_url s end.

(** [RAW_BOOKMARK_SQL] and [RawBookmark::from_row]. *)
Definition RawBookmark_from_row (d : PlacesDb) (id : Z) (b : BookmarkRow) : res PlacesError RawBookmark :=
  let p := b_parent b ≫= λ pid, moz_bookmarks d !! pid in
  ty ← get_u8 (b_type b);
  position ← get_u32 (b_position b);
  url ← parse_opt_url (url_of_place d (b_fk b));
  status ← get_u8 (b_syncStatus b);
  counter ← get_u32 (b_syncChangeCounter b);
  child_count ← get_u32 (count_children d id);
  Ok (mkRawBookmark (b_fk b) id (BookmarkType.from_u8_with_valid_url ty (is_some (b_fk b))) (b_parent b)
        (b_guid <$> p) position (nullif_empty (b_title b)) url (ts_of_sql (b_dateAdded b))
        (ts_of_sql (b_lastModified b)) (b_guid b) (SyncStatus.from_u8 status) counter child_count (p ≫= b_parent)).

Definition get_raw_bookmark (guid : string) : DB (option RawBookmark) :=
  d ← db_get;
  match select_first (has_guid guid) (moz_bookmarks d) with
  | None => mret None
  | Some (id, b) => raw ← st_lift (RawBookmark_from_row d id b); mret (Some raw)
  end.

(** ** Positions *)
Inductive BookmarkPosition := Specific (pos : Z) | Append.

Definition resolve_pos_for_insert (pos : BookmarkPosition) (parent : RawBookmark) : DB Z :=
  match pos with
  | Specific specified =>
      let actual := Z.min specified (child_count parent) in
      _ ← update_rows (λ _ r, has_parent (row_id parent) r && (actual <=? b_position r))
            (λ r, b_set_position (b_position r + 1) r);
      mret actual
  | Append => mret (child_count parent)
  end.

Definition update_pos_for_deletion (pos parent_id : Z) : DB unit :=
  update_rows (λ _ r, has_parent parent_id r && (pos <=? b_position r)) (λ r, b_set_position (b_position r - 1) r).

(** [child_count - 1] on [u32]. *)
Definition pred_u32 (n : Z) : res PlacesError Z :=
  if n =? 0 then (if checks then Panic "attempt to subtract with overflow" else Ok (2 ^ 32 - 1)) else Ok (n - 1).

Definition update_pos_for_move (pos : BookmarkPosition) (bm parent : RawBookmark) : DB Z :=
  bm_parent ← st_lift (match parent_id bm with
                       | Some p => Ok p
                       | None => Panic "called `Option::unwrap()` on a `None` value"
                       end);
  _ ← st_lift (rassert (bm_parent =? row_id parent) "assertion failed: (left == right)");
  last ← st_lift (pred_u32 (child_count parent));
  let new_index := match pos with Specific specified => Z.min specified last | Append => last end in
  let cur_index := position bm in
  _ ← update_rows (λ _ r, has_parent (row_id parent) r && (Z.min cur_index new_index <=? b_position r)
                          && (b_position r <=? Z.max cur_index new_index))
        (λ r, b_set_position (if new_index <? cur_index then b_position r + 1 else b_position r - 1) r);
  mret new_index.

(** ** Insertion *)
Record InsertableBookmark := mkInsertableBookmark {
  ib_parent_guid : string; ib_position : BookmarkPosition; ib_date_added : option Z;
  ib_last_modified : option Z; ib_guid : option string; ib_url : Url; ib_title : option string;
}.
Record InsertableSeparator := mkInsertableSeparator {
  is_parent_guid : string; is_position : BookmarkPosition; is_date_added : option Z;
  is_last_modified : option Z; is_guid : option string;
}.
Record InsertableFolder := mkInsertableFolder {
  if_parent_guid : string; if_position : BookmarkPosition; if_date_added : option Z;
  if_last_modified : option Z; if_guid : option string; if_title : option string;
}.
Inductive InsertableItem :=
| IBookmark (b : InsertableBookmark)
| ISeparator (s : InsertableSeparator)
| IFolder (f : InsertableFolder).

Definition ins_bookmark_type (i : InsertableItem) : BookmarkType :=
  match i with IBookmark _ => TBookmark | ISeparator _ => TSeparator | IFolder _ => TFolder end.
Definition ins_parent_guid (i : InsertableItem) : string :=
  match i with IBookmark b => ib_parent_guid b | ISeparator s => is_parent_guid s | IFolder f => if_parent_guid f end.
Definition ins_position (i : InsertableItem) : BookmarkPosition :=
  match i with IBookmark b => ib_position b | ISeparator s => is_position s | IFolder f => if_position f end.
Definition ins_date_added (i : InsertableItem) : option Z :=
  match i with IBookmark b => ib_date_added b | ISeparator s => is_date_added s | IFolder f => if_date_added f end.
Definition ins_last_modified (i : InsertableItem) : option Z :=
  match i with IBookmark b => ib_last_modified b | ISeparator s => is_last_modified s | IFolder f => if_last_modified f end.
Definition ins_guid (i : InsertableItem) : option string :=
  match i with IBookmark b => ib_guid b | ISeparator s => is_guid s | IFolder f => if_guid f end.

Definition maybe_truncate_title {E} (t : option string) : res E (option string) :=
  match t with None => Ok None | Some title => Some <$> slice_up_to title TITLE_LENGTH_MAX end.

(** [UPDATE moz_bookmarks SET syncChangeCounter = syncChangeCounter + 1 WHERE id = ..]. *)
Definition bump_change_counter (id : Z) : DB unit :=
  update_rows (λ i _, i =? id) (λ r, b_set_syncChangeCounter (b_syncChangeCounter r + 1) r).

Definition insert_bookmark_in_tx (bm : InsertableItem) : DB string :=
  let pguid := ins_parent_guid bm in
  if String.eqb pguid root_guid then st_err (PInvalidPlaceInfo (CannotUpdateRoot Root))
  else
    parent ← get_raw_bookmark pguid;
    parent ← st_lift (ok_or (PInvalidPlaceInfo (NoSuchGuid pguid)) parent);
    if negb (bool_decide (bookmark_type parent = TFolder)) then st_err (PInvalidPlaceInfo (InvalidParent pguid))
    else
      position ← resolve_pos_for_insert (ins_position bm) parent;
      fk ← match bm with
           | IBookmark b => info ← fetch_or_new_page (ib_url b); mret (Some (pi_row_id info))
           | _ => mret None
           end;
      guid ← match ins_guid bm with Some g => mret g | None => new_guid end;
      date_added ← match ins_date_added bm with Some t => mret t | None => now end;
      modified ← match ins_last_modified bm with Some t => mret t | None => now end;
      let last_modified := Z.max modified date_added in
      title ← st_lift (maybe_truncate_title
                (match bm with IBookmark b => ib_title b | ISeparator _ => None | IFolder f => if_title f end));
      _ ← insert_row (mkBookmarkRow fk (BookmarkType.as_u8 (ins_bookmark_type bm)) (Some (row_id parent))
                        position title (ts_to_sql date_added) (ts_to_sql last_modified) guid
                        (SyncStatus.as_u8 SNew) 1);
      _ ← bump_change_counter (row_id parent);
      mret guid.

(** [insert_bookmark]: the staged origins are written in the transaction; it is committed if
    the insertion succeeded and rolled back otherwise. *)
Definition insert_bookmark (bm : InsertableItem) : DB string :=
  transaction (guid ← insert_bookmark_in_tx bm; _ ← delete_pending_temp_tables; mret guid).

(** ** Deletion *)
Definition delete_bookmark_in_tx (guid : string) : DB bool :=
  match as_root guid with
  | Some root => st_err (PInvalidPlaceInfo (CannotUpdateRoot root))
  | None =>
      record ← get_raw_bookmark guid;
      match record with
      | None => mret false
      | Some record =>
          record_parent_id ← st_lift (ok_or (PCorruption (NonRootWithoutParent guid)) (parent_id record));
          _ ← update_pos_for_deletion (position record) record_parent_id;
          _ ← delete_row (row_id record);
          _ ← delete_pending_temp_tables;
          mret true
      end
  end.
Definition delete_bookmark (guid : string) : DB bool := transaction (delete_bookmark_in_tx guid).

(** ** Updates *)
Inductive UpdateTreeLocation :=
| LocNone
| LocPosition (pos : BookmarkPosition)
| LocParent (parent : string) (pos : BookmarkPosition).

Record UpdatableBookmark := mkUpdatableBookmark {
  ub_location : UpdateTreeLocation; ub_url : option Url; ub_title : option string }.
Record UpdatableSeparator := mkUpdatableSeparator { us_location : UpdateTreeLocation }.
Record UpdatableFolder := mkUpdatableFolder { uf_location : UpdateTreeLocation; uf_title : option string }.
Inductive UpdatableItem :=
| UBookmark (b : UpdatableBookmark)
| USeparator (s : UpdatableSeparator)
| UFolder (f : UpdatableFolder).

Definition upd_bookmark_type (i : UpdatableItem) : BookmarkType :=
  match i with UBookmark _ => TBookmark | USeparator _ => TSeparator | UFolder _ => TFolder end.
Definition upd_location (i : UpdatableItem) : UpdateTreeLocation :=
  match i with UBookmark b => ub_location b | USeparator s => us_location s | UFolder f => uf_location f end.

Definition NO_END : string := "the recursive query does not end".

(** The rows of the query [ancestors]: an id, and the parent of each folder among them. *)
Fixpoint ancestors (fuel : nat) (m : gmap Z BookmarkRow) (aid : option Z) : option (list Z) :=
  match aid with
  | None => Some []
  | Some id =>
      match fuel with
      | O => None
      | S fuel =>
          match m !! id with
          | Some r => if b_type r =? BookmarkType.as_u8 TFolder
                      then cons id <$> ancestors fuel m (b_parent r) else Some [id]
          | None => Some [id]
          end
      end
  end.

Definition set_ancestors_last_modified (parent_id time : Z) : DB unit :=
  d ← db_get;
  match ancestors (S (size (moz_bookmarks d))) (moz_bookmarks d) (Some parent_id) with
  | None => st_lift (Panic NO_END)
  | Some ids => update_rows (λ id _, bool_decide (id ∈ ids)) (b_set_lastModified (ts_to_sql time))
  end.

Definition update_bookmark_in_tx (guid : string) (item : UpdatableItem) : DB unit :=
  if is_root guid then st_err (PInvalidPlaceInfo (CannotUpdateRoot Root))
  else
    existing ← get_raw_bookmark guid;
    existing ← st_lift (ok_or (PInvalidPlaceInfo (NoSuchGuid guid)) existing);
    existing_parent_guid ← st_lift (ok_or (PCorruption (NonRootWithoutParent guid)) (parent_guid existing));
    existing_parent_id ← st_lift (ok_or (PCorruption (NoParent guid existing_parent_guid)) (parent_id existing));
    if negb (bool_decide (bookmark_type existing = upd_bookmark_type item))
    then st_err (PInvalidPlaceInfo (MismatchedBookmarkType (BookmarkType.as_u8 (bookmark_type existing))
                                      (BookmarkType.as_u8 (upd_bookmark_type item))))
    else
      location ←
        match upd_location item with
        | LocNone => mret (existing_parent_id, position existing, false, false)
        | LocPosition pos =>
            parent ← get_raw_bookmark existing_parent_guid;
            parent ← st_lift (ok_or (PCorruption (NoParent guid existing_parent_guid)) parent);
            position ← update_pos_for_move pos existing parent;
            mret (existing_parent_id, position, true, false)
        | LocParent new_parent_guid pos =>
            if String.eqb new_parent_guid root_guid then st_err (PInvalidPlaceInfo (CannotUpdateRoot Root))
            else
              new_parent ← get_raw_bookmark new_parent_guid;
              new_parent ← st_lift (ok_or (PInvalidPlaceInfo (NoSuchGuid new_parent_guid)) new_parent);
              if negb (bool_decide (bookmark_type new_parent = TFolder))
              then st_err (PInvalidPlaceInfo (InvalidParent new_parent_guid))
              else
                existing_parent ← get_raw_bookmark existing_parent_guid;
                existing_parent ← st_lift (ok_or (PCorruption (NoParent guid existing_parent_guid)) existing_parent);
                _ ← update_pos_for_deletion (position existing) (row_id existing_parent);
                position ← resolve_pos_for_insert pos new_parent;
                mret (row_id new_parent, position, true, true)
        end;
      let '(parent_id, position, update_old_parent_status, update_new_parent_status) := (location : Z * Z * bool * bool) in
      place_id' ← match item with
                  | UBookmark b =>
                      match ub_url b with
                      | None => mret (place_id existing)
                      | Some url => info ← fetch_or_new_page url; mret (Some (pi_row_id info))
                      end
                  | _ =>
                      _ ← st_lift (rassert (negb (is_some (place_id existing))) "assertion failed: (left == right)");
                      mret None
                  end;
      let update_title := match item with UBookmark b => ub_title b | UFolder f => uf_title f | USeparator _ => None end in
      let title' := match update_title with None => title existing | Some val => nullif_empty (Some val) end in
      let change_incr := negb (bool_decide (title' = title existing)) || negb (bool_decide (place_id' = place_id existing)) in
      now ← now;
      stored_title ← st_lift (maybe_truncate_title title');
      _ ← update_row (row_id existing) (λ r,
            mkBookmarkRow place_id' (b_type r) (Some parent_id) position stored_title (b_dateAdded r)
              (ts_to_sql now) (b_guid r) (b_syncStatus r)
              (b_syncChangeCounter r + (if change_incr then 1 else 0)));
      _ ← set_ancestors_last_modified existing_parent_id now;
      _ ← (if update_old_parent_status then bump_change_counter existing_parent_id else mret tt);
      if update_new_parent_status then
        _ ← set_ancestors_last_modified parent_id now;
        bump_change_counter parent_id
      else mret tt.

(** [let result = ..; tx.commit()?; result]: the transaction is committed also when the result
    is an error; it is rolled back when the call panics. *)
Definition commit_always {A} (c : DB A) : DB A := λ '(d, w),
  match c (d, w) with
  | (Panic m, (_, w)) => (Panic m, (d, w))
  | r => r
  end.
Definition update_bookmark (guid : string) (item : UpdatableItem) : DB unit :=
  commit_always (update_bookmark_in_tx guid item).
End bookmarks.

(** A world to run the operations in: a counter that serves as clock, as source of guids and
    as interrupt flag, and URLs that are their strings. *)
Module ToyPlaces.
#[export] Instance toy_interruptee : Interruptee nat := λ w, (false, w).
#[export] Instance toy_clock : Clock nat := λ w, (Z.of_nat w * 1000000, S w).
#[export] Instance toy_rand : Rand nat := λ n w, (Ok (repeat (ascii_of_nat (65 + w)) n), S w).
#[export] Instance toy_base64 : UrlSafeBase64 := λ b, string_of_list_ascii (take 12 (b ++ b)).
#[export] Instance toy_url : UrlLib := {|
  Url := string;
  url_parse := Ok;
  url_join u p := Ok (u +:+ p);
  url_as_str u := u;
  url_eqb := String.eqb;
  url_path u := u;
  url_query _ := None;
  url_host_str _ := None;
  url_port_or_known_default _ := None;
  url_pop_segment _ := None;
  url_extend_segments _ _ := None;
  url_append_pairs u _ := u;
  url_clear_query u := u;
|}.

Definition empty_db : PlacesDb := mkPlacesDb ∅ ∅ ∅ ∅ ∅ ∅ ∅ ∅ ∅ ∅ ∅ ∅ ∅ ∅ ∅ ∅.
Definition separator (parent guid : string) (pos : BookmarkPosition) : InsertableItem :=
  ISeparator (mkInsertableSeparator parent pos (Some 1) (Some 1) (Some guid)).
Definition folder (parent guid : string) (pos : BookmarkPosition) : InsertableItem :=
  IFolder (mkInsertableFolder parent pos (Some 1) (Some 1) (Some guid) None).
Definition bookmark (parent guid url : string) (pos : BookmarkPosition) : InsertableItem :=
  IBookmark (mkInsertableBookmark parent pos (Some 1) (Some 1) (Some guid) (url : Url) (Some "title"%string)).
Definition setup : ST (PlacesDb * nat) PlacesError unit :=
  _ ← create_bookmark_roots;
  _ ← insert_bookmark (bookmark "menu________" "aaaaaaaaaaaa" "http://a.com/" Append);
  _ ← insert_bookmark (separator "menu________" "bbbbbbbbbbbb" Append);
  _ ← insert_bookmark (folder "menu________" "cccccccccccc" (Specific 1));
  mret tt.
Definition toy_db : PlacesDb := fst (snd (setup (empty_db, 0%nat))).
(** The rows of a table as guid, parent and position. *)
Definition summary (d : PlacesDb) : list (string * option Z * Z) :=
  (λ '(_, r), (b_guid r, b_parent r, b_position r)) <$> rows (moz_bookmarks d).
End ToyPlaces.
