(* ===== verification/BookmarksSpec.v ===== *)
(** * Places: what the operations do to the tree of bookmarks

    The abstract state is a function from folders to the ordered lists of their children.  The
    relation [kids m p l] says that the rows of the table [m] whose parent is [p] are exactly
    the items of [l], each with its index as position; that every folder has such a list is the
    invariant of the positions.  Insertion, deletion and updates are shown to be the insertion,
    removal and move of list elements. *)

From S2P Require Import Prelude Database Sync15Types KeyBundle State Viaduct Token PlacesTypes PlacesDb Bookmarks.
From Stdlib Require Import Ascii String.
From stdpp Require Import sorting strings list gmap fin_sets.
Local Open Scope Z_scope.
Local Open Scope list_scope.

(** ** Lists *)
Definition insert_at {A} (n : nat) (x : A) (l : list A) : list A := take n l ++ x :: drop n l.

Lemma lookup_insert_at {A} n (x : A) l i :
  (n ≤ length l)%nat →
  insert_at n x l !! i = if decide (i < n)%nat then l !! i else if decide (i = n) then Some x else l !! pred i.
Proof.
  intros Hn. unfold insert_at. repeat case_decide.
  - rewrite lookup_app_l by (rewrite length_take; lia). by apply lookup_take_lt.
  - subst. rewrite lookup_app_r by (rewrite length_take; lia). rewrite length_take, Nat.min_l, Nat.sub_diag by lia. done.
  - rewrite lookup_app_r by (rewrite length_take; lia). rewrite length_take, Nat.min_l by lia.
    replace (i - n)%nat with (S (pred i - n)) by lia.
    transitivity (drop n l !! (pred i - n)%nat); [done|]. rewrite lookup_drop. f_equal. lia.
Qed.

Lemma lookup_list_delete {A} c (l : list A) i :
  delete c l !! i = if decide (i < c)%nat then l !! i else l !! S i.
Proof.
  case_decide; [by apply list_lookup_delete_lt|]. apply list_lookup_delete_ge. lia.
Qed.

(** ** Children of a folder *)
Definition place_of (r : BookmarkRow) : option Z * Z := (b_parent r, b_position r).
(** Where an item is: its parent and position. *)
Definition place (m : gmap Z BookmarkRow) (id : Z) : option (option Z * Z) := place_of <$> m !! id.
Definition kids (m : gmap Z BookmarkRow) (p : Z) (l : list Z) : Prop :=
  ∀ id z, place m id = Some (Some p, z) ↔ ∃ i : nat, z = Z.of_nat i ∧ l !! i = Some id.

Lemma place_Some m id o z : place m id = Some (o, z) ↔ ∃ r, m !! id = Some r ∧ b_parent r = o ∧ b_position r = z.
Proof. unfold place, place_of. rewrite fmap_Some. split; [intros (r & ? & [= -> ->]); eauto|intros (r & ? & <- & <-); eauto]. Qed.

Lemma kids_ext m m' p l : (∀ id, place m' id = place m id) → kids m p l → kids m' p l.
Proof. intros Hm Hk id z. rewrite Hm. apply Hk. Qed.

Lemma kids_lookup m p l i id : kids m p l → l !! i = Some id → place m id = Some (Some p, Z.of_nat i).
Proof. intros Hk Hi. apply Hk. eauto. Qed.

Lemma kids_NoDup m p l : kids m p l → NoDup l.
Proof.
  intros Hk. apply NoDup_alt. intros i j id Hi Hj.
  apply (kids_lookup _ _ _ _ _ Hk) in Hi, Hj. rewrite Hi in Hj. injection Hj. lia.
Qed.

Lemma kids_unique m p l l' : kids m p l → kids m p l' → l = l'.
Proof.
  assert (Hsub : ∀ l l', kids m p l → kids m p l' → ∀ i id, l !! i = Some id → l' !! i = Some id).
  { intros l1 l2 H1 H2 i id Hi. apply (kids_lookup _ _ _ _ _ H1), H2 in Hi as (j & Hij & Hj).
    by replace i with j by lia. }
  intros Hl Hl'. apply list_eq. intros i. apply option_eq. intros id. split; by apply Hsub.
Qed.

Lemma has_parent_spec p r : has_parent p r = true ↔ b_parent r = Some p.
Proof. apply bool_decide_eq_true. Qed.

Lemma kids_count m p l : kids m p l → size (filter (λ '(_, r), has_parent p r = true) m) = length l.
Proof.
  intros Hk. rewrite <-size_dom.
  replace (dom (filter (λ '(_, r), has_parent p r = true) m)) with (list_to_set (C:=gset Z) l).
  { apply size_list_to_set. by eapply kids_NoDup. }
  apply set_eq. intros id. rewrite elem_of_list_to_set, elem_of_dom. split.
  - intros (i & Hi)%list_elem_of_lookup. apply (kids_lookup _ _ _ _ _ Hk), place_Some in Hi as (r & Hr & Hp & _).
    exists r. apply map_lookup_filter_Some. split; [done|]. by apply has_parent_spec.
  - intros (r & (Hr & Hp)%map_lookup_filter_Some). apply has_parent_spec in Hp.
    destruct (Hk id (b_position r)) as [(i & _ & Hi) _]; [apply place_Some; eauto|]. by eapply list_elem_of_lookup_2.
Qed.

(** ** Statements as functions on the table *)
Definition upd (sel : Z → BookmarkRow → bool) (f : BookmarkRow → BookmarkRow) (m : gmap Z BookmarkRow) : gmap Z BookmarkRow :=
  map_imap (λ id r, Some (if sel id r then f r else r)) m.
Lemma lookup_upd sel f m id : upd sel f m !! id = (λ r, if sel id r then f r else r) <$> m !! id.
Proof. unfold upd. rewrite map_lookup_imap. by destruct (m !! id). Qed.

(** Positions of the children of [p] from [k] on, moved by [delta]. *)
Definition shift (p k delta : Z) : gmap Z BookmarkRow → gmap Z BookmarkRow :=
  upd (λ _ r, has_parent p r && (k <=? b_position r)) (λ r, b_set_position (b_position r + delta) r).

Lemma place_shift p k delta m id o z :
  place (shift p k delta m) id = Some (o, z) ↔
  ∃ z0, place m id = Some (o, z0) ∧ z = if bool_decide (o = Some p) && (k <=? z0) then z0 + delta else z0.
Proof.
  unfold place, shift. rewrite lookup_upd. destruct (m !! id) as [r|]; cbn; [|naive_solver].
  unfold place_of, has_parent. split.
  - intros [= <- <-]. exists (b_position r). destruct (bool_decide _ && _) eqn:E; split; (done || cbn; by rewrite E).
  - intros (z0 & [= <- <-] & ->). by destruct (bool_decide _ && _) eqn:E; cbn.
Qed.

Lemma place_insert m id r x : place (<[id := r]> m) x = if decide (x = id) then Some (place_of r) else place m x.
Proof. unfold place. case_decide; subst; [by rewrite lookup_insert_eq|by rewrite lookup_insert_ne]. Qed.

(** Shifting the children of [p] leaves the other folders alone. *)
Lemma kids_shift_other m p q k delta l : p ≠ q → kids m q l → kids (shift p k delta m) q l.
Proof.
  intros Hne Hk id z. rewrite place_shift, bool_decide_eq_false_2 by congruence. rewrite <-(Hk id z). naive_solver.
Qed.

(** The new item of a folder. *)
Lemma kids_insert m p l id r (k : nat) :
  kids m p l → (k ≤ length l)%nat → m !! id = None → place_of r = (Some p, Z.of_nat k) →
  kids (<[id := r]> (shift p (Z.of_nat k) 1 m)) p (insert_at k id l).
Proof.
  intros Hk Hle Hid Hr x z. rewrite place_insert. setoid_rewrite lookup_insert_at; [|done]. case_decide as Hx.
  - subst x. rewrite Hr. split.
    + intros [= <-]. exists k. by repeat case_decide; try lia.
    + intros (i & -> & Hi). repeat case_decide; try congruence; exfalso;
        apply (kids_lookup _ _ _ _ _ Hk), place_Some in Hi as (? & ? & _); congruence.
  - rewrite place_shift, bool_decide_eq_true_2 by done. cbn. split.
    + intros (z0 & (i & -> & Hi)%Hk & ->). destruct (Z.leb_spec (Z.of_nat k) (Z.of_nat i)).
      * exists (S i). split; [lia|]. repeat case_decide; try lia. done.
      * exists i. split; [done|]. by case_decide; [|lia].
    + intros (i & -> & Hi). repeat case_decide.
      * exists (Z.of_nat i). split; [by apply kids_lookup with l|]. destruct (Z.leb_spec (Z.of_nat k) (Z.of_nat i)); lia.
      * congruence.
      * exists (Z.of_nat (pred i)). split; [by apply kids_lookup with l|].
        destruct (Z.leb_spec (Z.of_nat k) (Z.of_nat (pred i))); lia.
Qed.

Lemma kids_append m p l id r :
  kids m p l → m !! id = None → place_of r = (Some p, Z.of_nat (length l)) →
  kids (<[id := r]> m) p (insert_at (length l) id l).
Proof.
  intros Hk Hid Hr. eapply kids_ext; [|by apply kids_insert with (r := r)]. intros x.
  rewrite !place_insert. case_decide; [done|].
  destruct (place m x) as [[o z]|] eqn:Hx.
  - symmetry. apply place_shift. exists z. split; [done|].
    destruct (bool_decide_reflect (o = Some p)) as [->|]; [|done]. cbn.
    apply Hk in Hx as (i & -> & Hi%lookup_lt_Some). destruct (Z.leb_spec (Z.of_nat (length l)) (Z.of_nat i)); lia.
  - destruct (place (shift p (Z.of_nat (length l)) 1 m) x) as [[o z]|] eqn:Hs; [|done].
    apply place_shift in Hs as (z0 & Hz0 & _). congruence.
Qed.

(** An item of another folder, and the folder of an item nobody is in. *)
Lemma kids_insert_other m p q l id r :
  q ≠ p → b_parent r = Some p → place m id = None → kids m q l → kids (<[id := r]> m) q l.
Proof.
  intros Hne Hr Hid Hk x z. rewrite place_insert, <-(Hk x z). case_decide; [subst|done].
  rewrite Hid. unfold place_of. split; [|done]. intros [= E _]. congruence.
Qed.
Lemma kids_nil m id : (∀ x r, m !! x = Some r → b_parent r ≠ Some id) → kids m id [].
Proof.
  intros Hno x z. split; [|by intros (i & _ & Hi)]. intros (r & Hr & Hp & _)%place_Some. by destruct (Hno x r Hr).
Qed.

Lemma place_delete m id x : place (delete id m) x = if decide (x = id) then None else place m x.
Proof. unfold place. case_decide; subst; [by rewrite lookup_delete_eq|by rewrite lookup_delete_ne]. Qed.

(** An item taken out of its folder. *)
Lemma kids_delete m p l id (c : nat) :
  kids m p l → l !! c = Some id → kids (shift p (Z.of_nat c) (-1) (delete id m)) p (delete c l).
Proof.
  intros Hk Hc x z. pose proof (lookup_lt_Some _ _ _ Hc) as Hlt.
  rewrite place_shift, bool_decide_eq_true_2 by done. cbn. setoid_rewrite place_delete. setoid_rewrite lookup_list_delete. split.
  - intros (z0 & Hz0 & ->). case_decide as Hx; [done|]. apply Hk in Hz0 as (i & -> & Hi).
    assert (i ≠ c) by congruence. destruct (Z.leb_spec (Z.of_nat c) (Z.of_nat i)).
    + exists (pred i). split; [lia|]. case_decide; [lia|]. by replace (S (pred i)) with i by lia.
    + exists i. split; [done|]. by case_decide; [|lia].
  - intros (i & -> & Hi).
    assert (Hne : x ≠ id).
    { intros ->. pose proof (kids_NoDup _ _ _ Hk) as Hnd. rewrite NoDup_alt in Hnd.
      case_decide; pose proof (Hnd _ _ _ Hi Hc); lia. }
    case_decide.
    + exists (Z.of_nat i). split; [case_decide; [done|]; by apply kids_lookup with l|].
      destruct (Z.leb_spec (Z.of_nat c) (Z.of_nat i)); lia.
    + exists (Z.of_nat (S i)). split; [case_decide; [done|]; by apply kids_lookup with l|].
      destruct (Z.leb_spec (Z.of_nat c) (Z.of_nat (S i))); lia.
Qed.

Lemma kids_delete_other m p q l id z :
  q ≠ p → place m id = Some (Some p, z) → kids m q l → kids (delete id m) q l.
Proof.
  intros Hne Hid Hk x z'. rewrite place_delete, <-(Hk x z'). case_decide; [subst|done].
  rewrite Hid. split; [done|]. congruence.
Qed.

(** Items that are deleted with another one are in folders that are deleted. *)
Lemma kids_filter m p l (S : gset Z) :
  kids m p l → (∀ x z, x ∈ S → place m x ≠ Some (Some p, z)) → kids (filter (λ '(id, _), id ∉ S) m) p l.
Proof.
  intros Hk HS x z. rewrite <-(Hk x z), !place_Some. setoid_rewrite map_lookup_filter_Some. split; [naive_solver|].
  intros (r & Hr & Hp & Hz). exists r. split_and!; try done. intros Hin.
  destruct (HS x z Hin). apply place_Some. eauto.
Qed.

(** ** The rows deleted with a row *)
Definition below (m : gmap Z BookmarkRow) (S : gset Z) : gset Z := dom (filter (λ '(_, r), parent_in S r) m).
Definition closed (m : gmap Z BookmarkRow) (S : gset Z) : Prop :=
  ∀ x r q, m !! x = Some r → b_parent r = Some q → q ∈ S → x ∈ S.

Lemma elem_of_below m S x : x ∈ below m S ↔ ∃ r q, m !! x = Some r ∧ b_parent r = Some q ∧ q ∈ S.
Proof.
  unfold below. rewrite elem_of_dom. unfold is_Some. setoid_rewrite map_lookup_filter_Some. unfold parent_in. split.
  - intros (r & Hr & Hp). destruct (b_parent r) as [q|] eqn:E; [|done]. eauto.
  - intros (r & q & Hr & Hp & Hq). exists r. by rewrite Hp.
Qed.

Lemma cascade_fix fuel m S : below m S ⊆ S → cascade fuel m S = S.
Proof.
  intros Hsub. induction fuel as [|fuel IH]; [done|]. cbn. fold (below m S).
  replace (S ∪ below m S) with S by set_solver. done.
Qed.

Lemma cascade_closed fuel m S :
  S ⊆ dom m → (size m ≤ fuel + size S)%nat → closed m (cascade fuel m S).
Proof.
  revert S. induction fuel as [|fuel IH]; intros S HS Hfuel.
  - assert (S = dom m) as -> by (apply set_subseteq_size_eq; [done|rewrite size_dom; lia]).
    intros x r q Hx _ _. apply elem_of_dom. eauto.
  - cbn. fold (below m S). destruct (decide (below m S ⊆ S)) as [Hsub|Hsub].
    + replace (S ∪ below m S) with S by set_solver. rewrite cascade_fix by done.
      intros x r q Hx Hp Hq. apply Hsub, elem_of_below. eauto.
    + apply IH.
      * intros x [Hx|Hx]%elem_of_union; [by apply HS|]. apply elem_of_below in Hx as (r & _ & Hr & _). apply elem_of_dom. eauto.
      * assert (size S < size (S ∪ below m S))%nat; [|lia]. apply subset_size. set_solver.
Qed.

Lemma cascade_incl fuel m S : S ⊆ cascade fuel m S.
Proof.
  revert S. induction fuel as [|fuel IH]; intros S; [done|]. cbn. specialize (IH (S ∪ below m S)).
  fold (below m S). set_solver.
Qed.

Lemma cascade_from fuel m S x :
  x ∈ cascade fuel m S → x ∈ S ∨ ∃ r q, m !! x = Some r ∧ b_parent r = Some q ∧ q ∈ cascade fuel m S.
Proof.
  revert S. induction fuel as [|fuel IH]; intros S; [by left|]. cbn. fold (below m S). intros Hx.
  destruct (IH _ Hx) as [[HS|Hb]%elem_of_union|?]; [by left| |by right].
  right. apply elem_of_below in Hb as (r & q & Hr & Hp & Hq). exists r, q. split_and!; try done.
  apply cascade_incl. set_solver.
Qed.

(** The row, and the items whose folder is deleted. *)
Lemma subtree_spec m id :
  is_Some (m !! id) →
  id ∈ subtree m id ∧ closed m (subtree m id) ∧
  ∀ x, x ∈ subtree m id → x ≠ id → ∃ r q, m !! x = Some r ∧ b_parent r = Some q ∧ q ∈ subtree m id.
Proof.
  intros Hid. split_and!.
  - apply cascade_incl. set_solver.
  - apply cascade_closed; [|rewrite size_singleton; lia].
    intros x ->%elem_of_singleton. by apply elem_of_dom.
  - intros x Hx Hne. destruct (cascade_from _ _ _ _ Hx) as [?%elem_of_singleton|?]; done.
Qed.

Lemma cascade_ext m m' S fuel :
  (∀ x, b_parent <$> m' !! x = b_parent <$> m !! x) → cascade fuel m' S = cascade fuel m S.
Proof.
  intros Heq. revert S. induction fuel as [|fuel IH]; intros S; [done|]. cbn. rewrite IH. do 2 f_equal.
  fold (below m' S) (below m S). apply set_eq. intros x. rewrite !elem_of_below. specialize (Heq x).
  destruct (m' !! x) as [r'|], (m !! x) as [r|]; try done. injection Heq as Heq.
  split; intros (? & q & [= <-] & Hp & Hq); eexists _, q; (split_and!; [done|congruence|done]).
Qed.
Lemma subtree_shift m p k delta id : subtree (shift p k delta m) id = subtree m id.
Proof.
  unfold subtree. replace (size (shift p k delta m)) with (size m).
  - apply cascade_ext. intros x. unfold shift. rewrite lookup_upd. destruct (m !! x); [|done]. cbn. by destruct (_ && _).
  - rewrite <-!size_dom. f_equal. apply set_eq. intros x. rewrite !elem_of_dom. unfold shift. rewrite lookup_upd.
    by rewrite fmap_is_Some.
Qed.

(** An update that moves nothing. *)
Lemma place_upd sel f m x : (∀ r, place_of (f r) = place_of r) → place (upd sel f m) x = place m x.
Proof.
  intros Hf. unfold place. rewrite lookup_upd. destruct (m !! x) as [r|]; [|done]. cbn. destruct (sel x r); [by rewrite Hf|done].
Qed.

(** ** The ordered children of a folder *)
Definition pos_le (x y : Z * BookmarkRow) : Prop := b_position x.2 ≤ b_position y.2.
Global Instance pos_le_dec : RelDecision pos_le.
Proof. intros x y. unfold pos_le. apply _. Defined.
Global Instance pos_le_trans : Transitive pos_le.
Proof. intros x y z. unfold pos_le. lia. Qed.
Global Instance pos_le_total : Total pos_le.
Proof. intros x y. unfold pos_le. lia. Qed.
Definition children (m : gmap Z BookmarkRow) (p : Z) : list Z :=
  fst <$> merge_sort pos_le (select (has_parent p) m).

Lemma NoDup_rows {A} (m : gmap Z A) : NoDup (rows m).
Proof. unfold rows. rewrite merge_sort_Permutation. apply NoDup_map_to_list. Qed.
Lemma elem_of_select {A} (p : A → bool) m id r : (id, r) ∈ select p m ↔ m !! id = Some r ∧ p r = true.
Proof. unfold select. rewrite list_elem_of_In, filter_In, <-list_elem_of_In. by rewrite elem_of_rows. Qed.

Lemma Sorted_positions (k : nat) (L : list (Z * BookmarkRow)) :
  (∀ i x, L !! i = Some x → b_position x.2 = Z.of_nat (k + i)) → Sorted pos_le L.
Proof.
  revert k. induction L as [|x L IH]; intros k HL; [constructor|]. constructor.
  - apply (IH (S k)). intros i y Hy. rewrite (HL (S i) y Hy). f_equal. lia.
  - destruct L as [|y L]; constructor. unfold pos_le. rewrite (HL 0%nat x eq_refl), (HL 1%nat y eq_refl). lia.
Qed.

(** The children in the order of their positions are the list, if there is one. *)
Lemma kids_children m p l : kids m p l → children m p = l.
Proof.
  intros Hk. pose proof (kids_NoDup _ _ _ Hk) as Hnd.
  set (f id := (id, default (mkBookmarkRow None 0 None 0 None 0 0 "" 0 0) (m !! id))).
  assert (HL : ∀ i x, (f <$> l) !! i = Some x → m !! x.1 = Some x.2 ∧ b_parent x.2 = Some p ∧ b_position x.2 = Z.of_nat i).
  { intros i x. rewrite list_lookup_fmap. intros (id & Hi & ->)%fmap_Some.
    apply (kids_lookup _ _ _ _ _ Hk), place_Some in Hi as (r & Hr & Hp & Hz). subst f. cbn. by rewrite Hr. }
  assert (Hperm : merge_sort pos_le (select (has_parent p) m) ≡ₚ f <$> l).
  { rewrite merge_sort_Permutation. apply NoDup_Permutation.
    - unfold select. apply NoDup_ListNoDup, List.NoDup_filter, NoDup_ListNoDup, NoDup_rows.
    - apply (NoDup_fmap_1 fst). rewrite <-list_fmap_compose. by rewrite list_fmap_id.
    - intros [id r]. rewrite elem_of_select, has_parent_spec. split.
      + intros [Hr Hp]. destruct (Hk id (b_position r)) as [(i & _ & Hi) _]; [apply place_Some; eauto|].
        apply list_elem_of_fmap. exists id. split; [subst f; cbn; by rewrite Hr|]. by eapply list_elem_of_lookup_2.
      + intros (i & Hi)%list_elem_of_lookup. apply HL in Hi as (? & ? & _). done. }
  unfold children. assert (merge_sort pos_le (select (has_parent p) m) = f <$> l) as ->.
  { apply (Sorted_unique_strong pos_le); [|apply (Sorted_merge_sort _)|apply (Sorted_positions 0)|done].
    - intros x y Hx Hy Hxy Hyx. rewrite Hperm in Hx. apply list_elem_of_lookup in Hx as (i & Hi), Hy as (j & Hj).
      pose proof (HL _ _ Hi) as (_ & _ & E1). pose proof (HL _ _ Hj) as (_ & _ & E2). unfold pos_le in *.
      assert (i = j) as -> by lia. congruence.
    - intros i x Hi. by apply HL in Hi as (_ & _ & ->). }
  rewrite <-list_fmap_compose. apply list_fmap_id.
Qed.

(** The positions of the children of [p] are those of a list. *)
Definition contiguous (m : gmap Z BookmarkRow) (p : Z) : Prop := kids m p (children m p).
Lemma contiguous_kids m p l : kids m p l → contiguous m p ∧ children m p = l.
Proof. intros Hk. unfold contiguous. by rewrite (kids_children _ _ _ Hk). Qed.

(** ** The invariant *)
Definition row_type (r : BookmarkRow) : BookmarkType := BookmarkType.from_u8_with_valid_url (b_type r) (is_some (b_fk r)).

(** What a row says about the structure of the tree, positions apart. *)
Definition node_of (r : BookmarkRow) : string * option Z * BookmarkType := (b_guid r, b_parent r, row_type r).
Definition node (m : gmap Z BookmarkRow) (x : Z) : option (string * option Z * BookmarkType) := node_of <$> m !! x.

Record nodes_ok (m : gmap Z BookmarkRow) (tombstones : gmap string Z) : Prop := {
  (** The guids of the items are distinct. *)
  ok_guids : ∀ x y g p p' t t', node m x = Some (g, p, t) → node m y = Some (g, p', t') → x = y;
  (** Only the root has no parent, and parents are folders. *)
  ok_root : ∀ x g t, node m x = Some (g, None, t) → g = root_guid;
  ok_parents : ∀ x g p t, node m x = Some (g, Some p, t) → ∃ g' p', node m p = Some (g', p', TFolder);
  (** An item has no tombstone. *)
  ok_tombstones : ∀ x g p t, node m x = Some (g, p, t) → tombstones !! g = None;
}.

(** The invariant: the structure is sound, and positions count the children of every folder. *)
Definition tree_ok (d : PlacesDb) : Prop :=
  nodes_ok (moz_bookmarks d) (moz_bookmarks_deleted d) ∧ ∀ p, contiguous (moz_bookmarks d) p.

Lemma node_Some m x g p t : node m x = Some (g, p, t) ↔ ∃ r, m !! x = Some r ∧ b_guid r = g ∧ b_parent r = p ∧ row_type r = t.
Proof.
  unfold node, node_of. rewrite fmap_Some. split; [intros (r & ? & [= -> -> ->]); eauto|intros (r & ? & <- & <- & <-); eauto].
Qed.
Lemma node_row m x r : m !! x = Some r → node m x = Some (node_of r).
Proof. unfold node. by intros ->. Qed.
Lemma node_insert m id r x : node (<[id := r]> m) x = if decide (x = id) then Some (node_of r) else node m x.
Proof. unfold node. case_decide; subst; [by rewrite lookup_insert_eq|by rewrite lookup_insert_ne]. Qed.
Lemma node_upd sel f m x : (∀ r, node_of (f r) = node_of r) → node (upd sel f m) x = node m x.
Proof.
  intros Hf. unfold node. rewrite lookup_upd. destruct (m !! x) as [r|]; [|done]. cbn. destruct (sel x r); [by rewrite Hf|done].
Qed.
Lemma node_shift p k delta m x : node (shift p k delta m) x = node m x.
Proof. by apply node_upd. Qed.

Lemma nodes_ok_ext m m' t : (∀ x, node m' x = node m x) → nodes_ok m t → nodes_ok m' t.
Proof.
  intros Hn [H1 H2 H3 H4]. split; intros *; rewrite ?Hn; eauto.
Qed.

(** A new item with a new guid in a folder. *)
Lemma nodes_ok_insert m t id r p pr :
  nodes_ok m t → m !! id = None → (∀ x rx, m !! x = Some rx → b_guid rx ≠ b_guid r) →
  b_parent r = Some p → m !! p = Some pr → row_type pr = TFolder →
  nodes_ok (<[id := r]> m) (delete (b_guid r) t).
Proof.
  intros [H1 H2 H3 H4] Hid Hfresh Hp Hpr Hty.
  assert (Hold : ∀ x g o ty, node m x = Some (g, o, ty) → x ≠ id ∧ g ≠ b_guid r).
  { intros x g o ty (rx & Hrx & <- & _)%node_Some. split; [congruence|by apply Hfresh with x]. }
  split; intros *; rewrite ?node_insert.
  - repeat case_decide; subst; try done; [| |by apply H1].
    + intros Hx Hy. unfold node_of in *. simplify_eq. by destruct (Hold _ _ _ _ Hy).
    + intros Hx Hy. unfold node_of in *. simplify_eq. by destruct (Hold _ _ _ _ Hx).
  - case_decide; [|apply H2]. intros [= _ E _]. congruence.
  - case_decide as Hx; intros Hn.
    + injection Hn as _ E _. assert (p = p0) as <- by congruence. exists (b_guid pr), (b_parent pr).
      case_decide; [congruence|]. by rewrite (node_row _ _ _ Hpr), <-Hty.
    + destruct (H3 _ _ _ _ Hn) as (g' & p' & Hp'). exists g', p'. case_decide; [|done].
      by destruct (Hold _ _ _ _ Hp').
  - case_decide as Hx; intros Hn.
    + unfold node_of in Hn. simplify_eq. apply lookup_delete_eq.
    + destruct (Hold _ _ _ _ Hn) as [_ Hg]. rewrite lookup_delete_ne by done. by apply H4 in Hn.
Qed.

(** What an update of other items leaves as it is. *)
Definition content (r : BookmarkRow) : string * Z * option Z * option string * Z * Z :=
  (b_guid r, b_type r, b_fk r, b_title r, b_dateAdded r, b_syncStatus r).
Definition same_content (m m' : gmap Z BookmarkRow) (x : Z) : Prop := content <$> m' !! x = content <$> m !! x.

Lemma content_upd sel f m x : (∀ r, content (f r) = content r) → same_content m (upd sel f m) x.
Proof.
  intros Hf. unfold same_content. rewrite lookup_upd. destruct (m !! x) as [r|]; [|done]. cbn.
  destruct (sel x r); [by rewrite Hf|done].
Qed.
Lemma content_shift p k delta m x : same_content m (shift p k delta m) x.
Proof. by apply content_upd. Qed.
Lemma content_trans m m1 m2 x : same_content m m1 x → same_content m1 m2 x → same_content m m2 x.
Proof. unfold same_content. congruence. Qed.
Lemma content_lookup m m' x r' :
  same_content m m' x → m' !! x = Some r' → ∃ r, m !! x = Some r ∧ content r' = content r.
Proof. unfold same_content. intros Hc Hr. rewrite Hr in Hc. symmetry in Hc. by apply fmap_Some in Hc. Qed.

Lemma get_u32_Ok z y : get_u32 z = Ok y → y = z.
Proof. unfold get_u32, sql_err. destruct (_ && _); by intros [= <-]. Qed.
Lemma get_u8_Ok z y : get_u8 z = Ok y → y = z.
Proof. unfold get_u8, sql_err. destruct (_ && _); by intros [= <-]. Qed.

Section calls.
Context {W : Type} `{!UrlLib, !Interruptee W, !Clock W, !Rand W, !UrlSafeBase64}.
Context (checks : bool).

(** A raw bookmark describes its row. *)
Record raw_matches (d : PlacesDb) (id : Z) (r : BookmarkRow) (raw : RawBookmark) : Prop := {
  raw_row : moz_bookmarks d !! id = Some r;
  raw_row_id : row_id raw = id;
  raw_parent_id : parent_id raw = b_parent r;
  raw_position : position raw = b_position r;
  raw_place_id : place_id raw = b_fk r;
  raw_guid : guid raw = b_guid r;
  raw_type : bookmark_type raw = row_type r;
  raw_title : title raw = nullif_empty (b_title r);
  raw_child_count : child_count raw = count_children d id;
  raw_parent_guid : parent_guid raw = b_guid <$> (b_parent r ≫= λ p, moz_bookmarks d !! p);
  raw_url : parse_opt_url (url_of_place d (b_fk r)) = Ok (url raw);
  raw_dates : date_added raw = ts_of_sql (b_dateAdded r) ∧ date_modified raw = ts_of_sql (b_lastModified r);
}.

Lemma raw_from_row d id r raw :
  moz_bookmarks d !! id = Some r → RawBookmark_from_row d id r = Ok raw → raw_matches d id r raw.
Proof.
  unfold RawBookmark_from_row. intros Hr Hraw. bind_inv Hraw. injection Hraw as <-.
  repeat match goal with
  | Hu : get_u32 _ = Ok _ |- _ => apply get_u32_Ok in Hu
  | Hu : get_u8 _ = Ok _ |- _ => apply get_u8_Ok in Hu
  end. subst. by split.
Qed.

Lemma get_raw_bookmark_ok g d :
  ok_post (W:=W) (get_raw_bookmark g) d (λ o d', d' = d ∧
    match o with
    | None => ∀ id r, moz_bookmarks d !! id = Some r → b_guid r ≠ g
    | Some raw => ∃ id r, b_guid r = g ∧ raw_matches d id r raw
    end).
Proof.
  unfold get_raw_bookmark. places_steps; (split; [done|]).
  - match goal with Hs : select_first _ _ = Some _ |- _ => apply select_first_Some in Hs as [Hr Hg%String.eqb_eq] end.
    eexists _, _. split; [done|]. by apply raw_from_row.
  - intros id r Hr Hg.
    match goal with Hs : select_first _ _ = None |- _ => apply (select_first_None _ _ _ _ Hs) in Hr end.
    unfold has_guid in *. rewrite Hg, String.eqb_refl in *. done.
Qed.

(** A row that must be there. *)
Lemma get_raw_or_ok {A} g e (k : RawBookmark → ST (PlacesDb * W) PlacesError A) d Q :
  (∀ id r raw, b_guid r = g → raw_matches d id r raw → ok_post (k raw) d Q) →
  ok_post (o ← get_raw_bookmark g; raw ← st_lift (ok_or e o); k raw) d Q.
Proof.
  intros Hk. apply ok_post_bind. eapply ok_post_weaken; [apply get_raw_bookmark_ok|]. intros o d' [-> Ho].
  apply ok_post_bind, ok_post_lift. intros raw Hraw. destruct o as [raw'|]; [|done]. injection Hraw as ->.
  destruct Ho as (id & r & Hg & Hm). by eapply Hk.
Qed.

Lemma insert_row_ok r d :
  ok_post (W:=W) (insert_row r) d (λ id d',
    id = next_rowid (moz_bookmarks d) ∧
    moz_bookmarks d' = <[id := r]> (moz_bookmarks d) ∧
    moz_bookmarks_deleted d' = delete (b_guid r) (moz_bookmarks_deleted d) ∧
    row_constraints d (<[id := r]> (moz_bookmarks d)) r = true ∧ urls_kept d d' ∧
    ∀ x rx, moz_bookmarks d !! x = Some rx → b_guid rx ≠ b_guid r).
Proof.
  unfold insert_row. apply ok_post_bind, ok_post_get.
  destruct (select_first (has_guid (b_guid r)) (moz_bookmarks d)) eqn:Hs; cbn [is_some]; [apply ok_post_err|].
  destruct (row_constraints d _ r) eqn:Hc; cbn [negb]; [|apply ok_post_err]. places_steps.
  split_and!; try done; try (unfold add_foreign_count; by destruct (b_fk r)).
  { unfold add_foreign_count. destruct (b_fk r); [|by apply urls_kept_same]. by apply (urls_kept_alter (λ p, p_set_foreign_count (p_foreign_count p + 1) p) _ d). }
  intros x rx Hx Hg. apply (select_first_None _ _ _ _ Hs) in Hx. unfold has_guid in Hx. by rewrite Hg, String.eqb_refl in Hx.
Qed.

Lemma resolve_pos_ok pos parent p l d :
  kids (moz_bookmarks d) p l → row_id parent = p → child_count parent = Z.of_nat (length l) →
  (∀ z, pos = Specific z → 0 ≤ z) →
  ok_post (W:=W) (resolve_pos_for_insert pos parent) d (λ k d',
    ∃ n : nat, k = Z.of_nat n ∧ (n ≤ length l)%nat ∧
      n = match pos with Specific z => Nat.min (Z.to_nat z) (length l) | Append => length l end ∧
      moz_bookmarks_deleted d' = moz_bookmarks_deleted d ∧ moz_places d' = moz_places d ∧
      (moz_bookmarks d' = shift p k 1 (moz_bookmarks d) ∨ n = length l ∧ moz_bookmarks d' = moz_bookmarks d)).
Proof.
  intros Hk Hp Hc Hpos. unfold resolve_pos_for_insert, update_rows. destruct pos as [z|]; places_steps.
  - specialize (Hpos z eq_refl). exists (Nat.min (Z.to_nat z) (length l)). split_and!; try done; try lia.
    left. cbn. by rewrite Hp.
  - exists (length l). split_and!; auto.
Qed.
End calls.

(** ** Insertion *)

(** The index at which an item is inserted into [l]. *)
Definition resolved (pos : BookmarkPosition) (l : list Z) : nat :=
  match pos with Specific z => Nat.min (Z.to_nat z) (length l) | Append => length l end.
Definition valid_pos (pos : BookmarkPosition) : Prop := ∀ z, pos = Specific z → 0 ≤ z < 2 ^ 32.

(** A table with a new item in the folder [p]. *)
Lemma kids_new_item m m1 m' p id r (k : nat) :
  (∀ q, contiguous m q) → m !! id = None → (k ≤ length (children m p))%nat →
  place_of r = (Some p, Z.of_nat k) → (m1 = shift p (Z.of_nat k) 1 m ∨ k = length (children m p) ∧ m1 = m) →
  (∀ x, place m' x = place (<[id := r]> m1) x) →
  ∀ q, contiguous m' q ∧ children m' q = if decide (q = p) then insert_at k id (children m p) else children m q.
Proof.
  intros Hc Hid Hle Hr Hm1 Hm' q. apply contiguous_kids. apply kids_ext with (1 := Hm').
  case_decide as Hq; [subst q|].
  - destruct Hm1 as [->|[-> ->]]; [apply kids_insert|apply kids_append]; (apply Hc || done).
  - assert (Hpl : place m1 id = None).
    { unfold place. destruct Hm1 as [->|[_ ->]]; [|by rewrite Hid]. unfold shift. by rewrite lookup_upd, Hid. }
    eapply kids_insert_other; [done| |done|]; [unfold place_of in Hr; congruence|].
    destruct Hm1 as [->|[_ ->]]; [apply kids_shift_other; [congruence|apply Hc]|apply Hc].
Qed.

(** What an insertion does: a new item with the given data at its place in the folder, and
    nothing else but a bumped change counter and positions. *)
Section insertion.
Context {W : Type} `{!UrlLib, !Interruptee W, !Clock W, !Rand W, !UrlSafeBase64}.

Definition item_title (bm : InsertableItem) : option string :=
  match bm with IBookmark b => ib_title b | ISeparator _ => None | IFolder f => if_title f end.

Definition page_url (d : PlacesDb) (fk : option Z) : option string := id ← fk; p_url <$> moz_places d !! id.
Lemma page_url_kept d d' fk u : urls_kept d d' → page_url d fk = Some u → page_url d' fk = Some u.
Proof. intros Hk. destruct fk as [id|]; [apply Hk|done]. Qed.
Definition item_page (bm : InsertableItem) (d : PlacesDb) (fk : option Z) : Prop :=
  match bm with IBookmark b => page_url d fk = Some (url_as_str (ib_url b)) | _ => fk = None end.
Lemma item_page_kept bm d d' fk : urls_kept d d' → item_page bm d fk → item_page bm d' fk.
Proof. intros Hk. destruct bm; [by apply page_url_kept|done..]. Qed.
Definition inserted (bm : InsertableItem) (g : string) (d d' : PlacesDb) : Prop :=
  ∃ p pr id r,
    moz_bookmarks d !! p = Some pr ∧ b_guid pr = ins_parent_guid bm ∧ row_type pr = TFolder ∧
    moz_bookmarks d !! id = None ∧ moz_bookmarks d' !! id = Some r ∧
    b_guid r = g ∧ (∀ g', ins_guid bm = Some g' → g = g') ∧ row_type r = ins_bookmark_type bm ∧
    maybe_truncate_title (E:=unit) (item_title bm) = Ok (b_title r) ∧ b_parent r = Some p ∧
    item_page bm d' (b_fk r) ∧ urls_kept d d' ∧
    (∀ x, x ≠ id → same_content (moz_bookmarks d) (moz_bookmarks d') x) ∧
    ∀ q, children (moz_bookmarks d') q =
      if decide (q = p) then insert_at (resolved (ins_position bm) (children (moz_bookmarks d) p)) id (children (moz_bookmarks d) p)
      else children (moz_bookmarks d) q.

Lemma row_type_new bm fk parent pos t a m g :
  (match bm with IBookmark _ => is_some fk | _ => negb (is_some fk) end) = true →
  row_type (mkBookmarkRow fk (BookmarkType.as_u8 (ins_bookmark_type bm)) parent pos t a m g 1 1) = ins_bookmark_type bm.
Proof. destruct bm; cbn; destruct fk; done. Qed.

Lemma maybe_truncate_any_error {E F} t o : maybe_truncate_title (E:=E) t = Ok o → maybe_truncate_title (E:=F) t = Ok o.
Proof.
  unfold maybe_truncate_title. destruct t as [s|]; [|by intros [= <-]].
  destruct (slice_up_to (E:=E) s TITLE_LENGTH_MAX) as [r|e|msg] eqn:Hs; [|done..].
  apply (slice_up_to_any_error (F:=F)) in Hs. intros [= <-]. by rewrite Hs.
Qed.

Lemma raw_child_count_kids d p pr raw :
  raw_matches d p pr raw → contiguous (moz_bookmarks d) p →
  child_count raw = Z.of_nat (length (children (moz_bookmarks d) p)).
Proof. intros Hraw Hc. rewrite (raw_child_count _ _ _ _ Hraw). unfold count_children. by rewrite (kids_count _ _ _ Hc). Qed.

(** The place of a bookmark, created if needed; other items have none. *)
Lemma item_fk_ok (bm : InsertableItem) d :
  ok_post (W:=W) (match bm with
                  | IBookmark b => info ← fetch_or_new_page (ib_url b); mret (Some (pi_row_id info))
                  | _ => mret None
                  end) d (λ fk d', same_bookmarks d d' ∧
    match bm with IBookmark _ => is_some fk | _ => negb (is_some fk) end = true ∧ item_page bm d' fk ∧ urls_kept d d').
Proof.
  destruct bm as [b| |]; [|by apply ok_post_ret..]. apply ok_post_bind.
  eapply ok_post_weaken; [apply fetch_or_new_page_ok|]. intros info d' (Hs & Hu & Hk). apply ok_post_ret. by split_and!.
Qed.

(** The tables after an insertion. *)
Lemma inserted_intro bm p pr id r (n : nat) m1 d d' :
  tree_ok d → moz_bookmarks d !! p = Some pr → b_guid pr = ins_parent_guid bm → row_type pr = TFolder →
  moz_bookmarks d !! id = None → (∀ x rx, moz_bookmarks d !! x = Some rx → b_guid rx ≠ b_guid r) →
  place_of r = (Some p, Z.of_nat n) → n = resolved (ins_position bm) (children (moz_bookmarks d) p) →
  row_type r = ins_bookmark_type bm → (∀ g', ins_guid bm = Some g' → b_guid r = g') →
  maybe_truncate_title (E:=unit) (item_title bm) = Ok (b_title r) → item_page bm d' (b_fk r) → urls_kept d d' →
  m1 = shift p (Z.of_nat n) 1 (moz_bookmarks d) ∨ n = length (children (moz_bookmarks d) p) ∧ m1 = moz_bookmarks d →
  moz_bookmarks d' = upd (λ i _, i =? p) (λ r, b_set_syncChangeCounter (b_syncChangeCounter r + 1) r) (<[id := r]> m1) →
  moz_bookmarks_deleted d' = delete (b_guid r) (moz_bookmarks_deleted d) →
  tree_ok d' ∧ inserted bm (b_guid r) d d'.
Proof.
  intros [Hn Hc] Hpr Hpg Hty Hid Hfresh Hr Hres Hrty Hguid Htitle Hpage Hurls Hm1 Hm' Ht'.
  assert (Hle : (n ≤ length (children (moz_bookmarks d) p))%nat) by (subst n; destruct (ins_position bm); cbn; lia).
  assert (Hkids : ∀ q, contiguous (moz_bookmarks d') q ∧ children (moz_bookmarks d') q =
    if decide (q = p) then insert_at n id (children (moz_bookmarks d) p) else children (moz_bookmarks d) q).
  { apply kids_new_item with (m1 := m1) (r := r); try done. intros x. rewrite Hm'. by apply place_upd. }
  injection Hr as Hp _. split; [split; [|intros q; apply Hkids]|].
  - rewrite Ht'. apply (nodes_ok_ext (<[id := r]> (moz_bookmarks d))); [|by apply (nodes_ok_insert _ _ id r p pr)]. intros x.
    rewrite Hm', node_upd, !node_insert by done. case_decide; [done|].
    destruct Hm1 as [->|[_ ->]]; [apply node_shift|done].
  - exists p, pr, id, r. split_and!; try done.
    + rewrite Hm', lookup_upd, lookup_insert_eq. cbn. destruct (Z.eqb_spec id p); [congruence|done].
    + intros x Hx. rewrite Hm'. eapply content_trans; [|by apply content_upd]. unfold same_content.
      rewrite lookup_insert_ne by done. destruct Hm1 as [->|[_ ->]]; [by apply content_upd|done].
    + intros q. rewrite <-Hres. apply Hkids.
Qed.

Lemma insert_in_tx_ok bm d :
  tree_ok d → valid_pos (ins_position bm) →
  ok_post (W:=W) (insert_bookmark_in_tx bm) d (λ g d', tree_ok d' ∧ inserted bm g d d').
Proof.
  intros [Hn Hc] Hpos. unfold insert_bookmark_in_tx. destruct (String.eqb _ root_guid); [apply ok_post_err|].
  apply get_raw_or_ok. intros p pr parent Hpg Hraw.
  destruct (bool_decide_reflect (bookmark_type parent = TFolder)) as [Hty|]; cbn [negb]; [|apply ok_post_err].
  rewrite (raw_type _ _ _ _ Hraw) in Hty. pose proof (raw_row _ _ _ _ Hraw) as Hpr.
  apply ok_post_bind. eapply ok_post_weaken.
  { apply resolve_pos_ok with (p := p) (l := children (moz_bookmarks d) p); [apply Hc|apply Hraw| |].
    - by eapply raw_child_count_kids.
    - intros z Hz. apply Hpos in Hz. lia. }
  intros k d1 (n & -> & Hle & Hres & Ht1 & Hp1 & Hm1).
  apply ok_post_bind. eapply ok_post_weaken; [apply item_fk_ok|]. intros fk d2 ([Em2 Et2] & Hfk & Hpage & Hk2).
  apply ok_post_bind. eapply ok_post_weaken with (Q := λ g d', d' = d2 ∧ ∀ g', ins_guid bm = Some g' → g = g').
  { destruct (ins_guid bm); [apply ok_post_ret; naive_solver|]. apply ok_post_world. naive_solver. }
  intros g ? [-> Hguid].
  assert (Htime : ∀ (o : option Z) dd, ok_post (W:=W) (match o with Some t => mret t | None => now end) dd (λ _ d', d' = dd)).
  { intros [t|] dd; [by apply ok_post_ret|by apply ok_post_world]. }
  apply ok_post_bind. eapply ok_post_weaken; [apply Htime|]. intros date_added ? ->.
  apply ok_post_bind. eapply ok_post_weaken; [apply Htime|]. intros modified ? ->.
  apply ok_post_bind, ok_post_lift. intros t Htitle.
  apply ok_post_bind. eapply ok_post_weaken; [apply insert_row_ok|]. cbn beta.
  match goal with |- ∀ _ _, _ ∧ _ = <[_ := ?row]> _ ∧ _ → _ => set (r := row) end.
  intros id d3 (-> & Em3 & Et3 & Hcons & Hk3 & Hfresh). apply ok_post_bind, ok_post_modify, ok_post_ret.
  rewrite Em2 in *. set (id := next_rowid (moz_bookmarks d1)) in *.
  assert (Hm1n : ∀ x, node (moz_bookmarks d) x = node (moz_bookmarks d1) x).
  { intros x. destruct Hm1 as [->|[_ ->]]; [by rewrite node_shift|done]. }
  change g with (b_guid r). apply (inserted_intro bm p pr id r n (moz_bookmarks d1)); try done.
  - assert (Hid1 : moz_bookmarks d1 !! id = None) by apply next_rowid_fresh.
    specialize (Hm1n id). unfold node in Hm1n. by rewrite Hid1, fmap_None in Hm1n.
  - intros x rx Hx. apply node_row in Hx as Hx'. rewrite Hm1n in Hx'.
    apply node_Some in Hx' as (rx' & Hrx' & <- & _). by apply Hfresh with x.
  - unfold place_of. cbn. by rewrite (raw_row_id _ _ _ _ Hraw).
  - by apply row_type_new.
  - by apply (maybe_truncate_any_error (F:=unit)) in Htitle.
  - apply (item_page_kept _ d3); [by apply urls_kept_same|]. by apply (item_page_kept _ d2).
  - transitivity d3; [|by apply urls_kept_same]. etrans; [|exact Hk3]. etrans; [|exact Hk2]. by apply urls_kept_same.
  - cbn. rewrite Em3, (raw_row_id _ _ _ _ Hraw). done.
  - cbn. by rewrite Et3, Et2, Ht1.
Qed.
End insertion.

(** ** Deletion *)

(** A table without a set of rows that contains the children of its members. *)
Lemma node_filter (S : gset Z) m x : node (filter (λ '(id, _), id ∉ S) m) x = if decide (x ∈ S) then None else node m x.
Proof.
  unfold node. case_decide as Hx.
  - rewrite (map_lookup_filter_None_2); [done|]. right. intros r _. by intros Hn.
  - destruct (m !! x) as [r|] eqn:Hr.
    + by rewrite (map_lookup_filter_Some_2 _ _ _ r).
    + rewrite map_lookup_filter_None_2; [done|by left].
Qed.

Lemma nodes_ok_filter m t t' (S : gset Z) :
  nodes_ok m t → closed m S →
  (∀ x r, m !! x = Some r → x ∉ S → t !! b_guid r = None → t' !! b_guid r = None) →
  nodes_ok (filter (λ '(id, _), id ∉ S) m) t'.
Proof.
  intros [H1 H2 H3 H4] HS Ht. split; intros *; rewrite ?node_filter; repeat case_decide; try done; eauto.
  - intros Hx. apply H3 in Hx as Hp. destruct Hp as (g' & p' & Hp). exfalso.
    apply node_Some in Hx as (r & Hr & _ & Hpar & _). eauto.
  - intros Hn. apply H4 in Hn as Hg. apply node_Some in Hn as (r & Hr & <- & _). by eapply Ht.
Qed.

Lemma place_filter (S : gset Z) m x : place (filter (λ '(id, _), id ∉ S) m) x = if decide (x ∈ S) then None else place m x.
Proof.
  unfold place. case_decide as Hx.
  - rewrite (map_lookup_filter_None_2); [done|]. right. intros r _. by intros Hn.
  - destruct (m !! x) as [r|] eqn:Hr.
    + by rewrite (map_lookup_filter_Some_2 _ _ _ r).
    + rewrite map_lookup_filter_None_2; [done|by left].
Qed.
Lemma place_shift_delete p k delta m id x :
  x ≠ id → place (shift p k delta (delete id m)) x = place (shift p k delta m) x.
Proof. intros Hne. unfold place, shift. by rewrite !lookup_upd, lookup_delete_ne. Qed.
Lemma place_shift_parent p k delta m x o z :
  place (shift p k delta m) x = Some (o, z) → ∃ r, m !! x = Some r ∧ b_parent r = o.
Proof. intros (z0 & (r & Hr & Hp & _)%place_Some & _)%place_shift. eauto. Qed.

(** The position of an item among its siblings. *)
Lemma contiguous_index m p id r :
  contiguous m p → m !! id = Some r → b_parent r = Some p →
  ∃ c : nat, b_position r = Z.of_nat c ∧ children m p !! c = Some id.
Proof. intros Hc Hr Hp. apply Hc, place_Some. eauto. Qed.

Lemma kids_after_delete m id r p c :
  (∀ q, contiguous m q) → m !! id = Some r → b_parent r = Some p → children m p !! c = Some id →
  let S := subtree m id in
  let m' := filter (λ '(id, _), id ∉ S) (shift p (Z.of_nat c) (-1) m) in
  ∀ q, contiguous m' q ∧ children m' q =
    if decide (q ∈ S) then [] else if decide (q = p) then delete c (children m p) else children m q.
Proof.
  intros Hc Hr Hp Hidx S m' q. destruct (subtree_spec m id) as (Hself & Hclosed & Hfrom); [eauto|]. fold S in Hself, Hclosed, Hfrom.
  assert (Hpar : ∀ x o z, place (shift p (Z.of_nat c) (-1) m) x = Some (o, z) → x ∈ S → x ≠ id → ∃ q, o = Some q ∧ q ∈ S).
  { intros x o z (rx & Hrx & <-)%place_shift_parent Hx Hne. destruct (Hfrom x Hx Hne) as (rx' & q' & Hrx' & Hq' & Hin).
    exists q'. split; [congruence|done]. }
  apply contiguous_kids. repeat case_decide.
  - intros x z. unfold m'. rewrite place_filter. split; [|by intros (i & _ & Hi)]. case_decide as Hx; [done|].
    intros (rx & Hrx & Hpx)%place_shift_parent. destruct Hx. by eapply Hclosed.
  - subst q. apply (kids_ext (filter (λ '(id, _), id ∉ S) (shift p (Z.of_nat c) (-1) (delete id m)))).
    { intros x. unfold m'. rewrite !place_filter. case_decide; [done|]. rewrite place_shift_delete; [done|]. by intros ->. }
    apply kids_filter; [apply kids_delete; [apply Hc|done]|]. intros x z Hx Hpl.
    assert (x ≠ id) by (intros ->; apply place_shift in Hpl as (z0 & Hpl & _); rewrite place_delete in Hpl; by case_decide).
    rewrite place_shift_delete in Hpl by done. destruct (Hpar _ _ _ Hpl Hx) as (q & [= <-] & Hq); done.
  - apply kids_filter; [apply kids_shift_other; [congruence|apply Hc]|]. intros x z Hx Hpl.
    destruct (decide (x = id)) as [->|Hne].
    + apply place_shift_parent in Hpl as (r' & Hr' & Hq). congruence.
    + destruct (Hpar _ _ _ Hpl Hx Hne) as (q' & [= <-] & Hq'). done.
Qed.

Section deletion.
Context {W : Type} `{!UrlLib, !Interruptee W, !Clock W, !Rand W, !UrlSafeBase64}.

(** The tombstones that a deletion writes. *)
Definition is_normal (r : BookmarkRow) : Prop := b_syncStatus r = SyncStatus.as_u8 SNormal.
Lemma after_deletes_ok rs d :
  ok_post (W:=W) (after_deletes rs) d (λ _ d', moz_bookmarks d' = moz_bookmarks d ∧
    ∀ g, is_Some (moz_bookmarks_deleted d' !! g) ↔
         is_Some (moz_bookmarks_deleted d !! g) ∨ ∃ r, r ∈ rs ∧ is_normal r ∧ b_guid r = g).
Proof.
  revert d. induction rs as [|r rs IH]; intros d; [apply ok_post_ret; split; [done|]; intros g; set_solver|].
  cbn [after_deletes]. apply ok_post_bind. unfold after_delete. apply ok_post_bind, ok_post_modify.
  assert (Hsame : same_bookmarks d (add_foreign_count (-1) (b_fk r) d)) by (unfold add_foreign_count; by destruct (b_fk r)).
  destruct Hsame as [Em Et]. destruct (Z.eqb_spec (b_syncStatus r) (SyncStatus.as_u8 SNormal)) as [Hs|Hs].
  - apply ok_post_bind, ok_post_world. intros t. apply ok_post_bind, ok_post_get.
    destruct (moz_bookmarks_deleted _ !! b_guid r); cbn [is_some]; [apply ok_post_err|]. apply ok_post_modify.
    eapply ok_post_weaken; [apply IH|]. intros _ d' [Hm' Ht']. split; [by rewrite Hm'|]. intros g. rewrite Ht'. cbn.
    rewrite Et, lookup_insert_is_Some'. set_unfold. unfold is_normal. naive_solver.
  - apply ok_post_ret. eapply ok_post_weaken; [apply IH|]. intros _ d' [Hm' Ht']. split; [by rewrite Hm'|].
    intros g. rewrite Ht', Et. set_unfold. unfold is_normal. naive_solver.
Qed.

Definition deleted (g : string) (existed : bool) (d d' : PlacesDb) : Prop :=
  if existed then
    ∃ id r p c, let S := subtree (moz_bookmarks d) id in
      moz_bookmarks d !! id = Some r ∧ b_guid r = g ∧ b_parent r = Some p ∧ children (moz_bookmarks d) p !! c = Some id ∧
      (∀ x, x ∈ S → moz_bookmarks d' !! x = None) ∧
      (∀ x, x ∉ S → same_content (moz_bookmarks d) (moz_bookmarks d') x) ∧
      (∀ q, children (moz_bookmarks d') q =
        if decide (q ∈ S) then [] else if decide (q = p) then delete c (children (moz_bookmarks d) p)
        else children (moz_bookmarks d) q) ∧
      ∀ h, is_Some (moz_bookmarks_deleted d' !! h) ↔ is_Some (moz_bookmarks_deleted d !! h) ∨
        ∃ x rx, x ∈ S ∧ moz_bookmarks d !! x = Some rx ∧ is_normal rx ∧ b_guid rx = h
  else d' = d ∧ ∀ x r, moz_bookmarks d !! x = Some r → b_guid r ≠ g.

Lemma content_filter (S : gset Z) m x : x ∉ S → same_content m (filter (λ '(id, _), id ∉ S) m) x.
Proof.
  intros Hx. unfold same_content. destruct (m !! x) as [r|] eqn:Hr.
  - by rewrite (map_lookup_filter_Some_2 _ _ _ r).
  - rewrite map_lookup_filter_None_2; [done|by left].
Qed.

(** The rows that the triggers see have the guids and statuses of the rows before. *)
Lemma deleted_rows m p k delta (S : gset Z) h :
  (∃ r, r ∈ (rows (filter (λ '(id, _), id ∈ S) (shift p k delta m))).*2 ∧ is_normal r ∧ b_guid r = h) ↔
  ∃ x rx, x ∈ S ∧ m !! x = Some rx ∧ is_normal rx ∧ b_guid rx = h.
Proof.
  split.
  - intros (r & Hr & Hs & Hg). apply list_elem_of_fmap in Hr as ([x r'] & -> & Hr). cbn in *.
    apply elem_of_rows, map_lookup_filter_Some in Hr as [Hr Hx].
    apply (content_lookup m) in Hr as (r0 & Hr0 & Hcon); [|by apply content_upd]. exists x, r0.
    injection Hcon as E1 _ _ _ _ E6. unfold is_normal in *. split_and!; congruence.
  - intros (x & rx & Hx & Hrx & Hs & Hg).
    assert (Hcon : same_content m (shift p k delta m) x) by (by apply content_upd).
    unfold same_content in Hcon. rewrite Hrx in Hcon. apply fmap_Some in Hcon as (r & Hr & Hcon). exists r. split.
    + apply list_elem_of_fmap. exists (x, r). split; [done|]. by apply elem_of_rows, map_lookup_filter_Some.
    + injection Hcon as E1 _ _ _ _ E6. unfold is_normal in *. split; congruence.
Qed.

Lemma delete_in_tx_ok g d :
  tree_ok d →
  ok_post (W:=W) (delete_bookmark_in_tx g) d (λ b d', tree_ok d' ∧ deleted g b d d').
Proof.
  intros Htree. pose proof Htree as [Hn Hc]. unfold delete_bookmark_in_tx. destruct (as_root g); [apply ok_post_err|].
  apply ok_post_bind. eapply ok_post_weaken; [apply get_raw_bookmark_ok|]. intros [raw|] d0 [-> Ho].
  2: { apply ok_post_ret. by split. }
  destruct Ho as (id & r & Hg & Hraw). pose proof (raw_row _ _ _ _ Hraw) as Hr.
  apply ok_post_bind, ok_post_lift. intros p Hp. rewrite (raw_parent_id _ _ _ _ Hraw) in Hp.
  destruct (b_parent r) as [p'|] eqn:Hpar; [|done]. injection Hp as ->.
  destruct (contiguous_index _ _ _ _ (Hc p) Hr Hpar) as (c & Hpos & Hidx).
  apply ok_post_bind, ok_post_modify. apply ok_post_bind. unfold delete_row. apply ok_post_bind, ok_post_get.
  rewrite (raw_row_id _ _ _ _ Hraw), (raw_position _ _ _ _ Hraw), Hpos. cbn [moz_bookmarks on_bookmarks].
  change (map_imap _ (moz_bookmarks d)) with (shift p (Z.of_nat c) (-1) (moz_bookmarks d)).
  destruct (shift _ _ _ _ !! id) as [r1|] eqn:Hr1.
  2: { unfold shift in Hr1. by rewrite lookup_upd, Hr in Hr1. }
  rewrite subtree_shift. apply ok_post_transaction, ok_post_bind, ok_post_modify.
  eapply ok_post_weaken; [apply after_deletes_ok|]. intros _ d2 [Em2 Et2]. cbn in Em2, Et2.
  change (map_imap _ (moz_bookmarks d)) with (shift p (Z.of_nat c) (-1) (moz_bookmarks d)) in Em2.
  apply ok_post_bind, ok_post_modify, ok_post_ret.
  destruct (flush_same_bookmarks d2) as [Em3 Et3]. rewrite Em2 in Em3. setoid_rewrite <-Et3 in Et2.
  setoid_rewrite deleted_rows in Et2.
  pose proof (kids_after_delete _ _ _ _ _ Hc Hr Hpar Hidx) as Hkids.
  destruct (subtree_spec (moz_bookmarks d) id) as (Hself & Hclosed & Hfrom); [eauto|].
  split; [split; [|intros q; rewrite Em3; apply Hkids]|].
  - rewrite Em3. eapply nodes_ok_filter with (t := moz_bookmarks_deleted d).
    + apply (nodes_ok_ext (moz_bookmarks d)); [|done]. intros x. apply node_shift.
    + intros x rx q Hrx Hq Hin. apply (node_row _ _ _) in Hrx. rewrite node_shift in Hrx. unfold node_of in Hrx.
      apply node_Some in Hrx as (rx0 & Hrx0 & _ & Hq0 & _). apply (Hclosed x rx0 q); congruence.
    + intros x rx Hrx Hx Hnone. apply eq_None_not_Some. rewrite Et2, Hnone. intros [[? [=]]|(y & ry & Hy & Hry & _ & Hgy)].
      destruct Hx. replace x with y; [done|]. destruct Hn as [Hguids _ _ _].
      apply node_row in Hrx, Hry. rewrite node_shift in Hrx. unfold node_of in *. rewrite Hgy in Hry. by eapply Hguids.
  - exists id, r, p, c. split_and!; try done.
    + intros x Hx. rewrite Em3. apply map_lookup_filter_None_2. right. intros rx _. by intros Hnot.
    + intros x Hx. rewrite Em3. eapply content_trans; [apply content_shift|]. by apply content_filter.
    + intros q. rewrite Em3. apply Hkids.
Qed.
End deletion.

(** ** Updates *)

(** The tree without an item that is about to be put elsewhere. *)
Lemma removed_item m id p c z :
  (∀ q, contiguous m q) → place m id = Some (Some p, z) → children m p !! c = Some id →
  let m2 := shift p (Z.of_nat c) (-1) (delete id m) in
  ∀ q, contiguous m2 q ∧ children m2 q = if decide (q = p) then delete c (children m p) else children m q.
Proof.
  intros Hc Hid Hidx m2 q. apply contiguous_kids. case_decide as Hq; [subst q; apply kids_delete; [apply Hc|done]|].
  apply kids_shift_other; [congruence|]. eapply kids_delete_other; [done|done|apply Hc].
Qed.

(** Positions between two indices, as an item is moved from [cur] to [new]. *)
Definition move_rows (p cur new : Z) : gmap Z BookmarkRow → gmap Z BookmarkRow :=
  upd (λ _ r, has_parent p r && (Z.min cur new <=? b_position r) && (b_position r <=? Z.max cur new))
    (λ r, b_set_position (if new <? cur then b_position r + 1 else b_position r - 1) r).

(** For the other items a move is a removal and an insertion. *)
Lemma place_move p (c n : nat) m id x :
  contiguous m p → children m p !! c = Some id → x ≠ id →
  place (move_rows p (Z.of_nat c) (Z.of_nat n) m) x =
  place (shift p (Z.of_nat n) 1 (shift p (Z.of_nat c) (-1) (delete id m))) x.
Proof.
  intros Hc Hidx Hne. destruct (m !! x) as [r|] eqn:Hr.
  - assert (Hpos : has_parent p r = true → b_position r ≠ Z.of_nat c).
    { intros Hp%has_parent_spec E. apply (kids_lookup _ _ _ _ _ Hc) in Hidx.
      assert (Hx : place m x = Some (Some p, Z.of_nat c)) by (apply place_Some; eauto).
      apply Hc in Hx as (i & Hi & Hx). apply Hc in Hidx as (j & Hj & Hid). replace i with j in Hx by lia. congruence. }
    unfold place, move_rows, shift. rewrite !lookup_upd, lookup_delete_ne, Hr by done. cbn [fmap option_fmap option_map].
    destruct (has_parent p r) eqn:Hp; cbn [andb]; [|by rewrite Hp]. specialize (Hpos eq_refl).
    assert (Hset : ∀ z, has_parent p (b_set_position z r) = true) by done.
    destruct (Z.leb_spec (Z.of_nat c) (b_position r)); rewrite ?Hset, ?Hp; cbn [andb b_position b_set_position];
      repeat match goal with |- context [Z.leb ?a ?b] => destruct (Z.leb_spec a b); cbn [andb] end;
      repeat match goal with |- context [Z.ltb ?a ?b] => destruct (Z.ltb_spec a b) end;
      unfold place_of; cbn; do 2 f_equal; lia.
  - unfold place, move_rows, shift. by rewrite !lookup_upd, lookup_delete_ne, Hr.
Qed.

(** The children of the folders after an item was put at another place. *)
Definition relocated (loc : UpdateTreeLocation) (m : gmap Z BookmarkRow) (id p : Z) (c : nat) (np q : Z) : list Z :=
  match loc with
  | LocNone => children m q
  | LocPosition pos =>
      if decide (q = p)
      then insert_at (resolved pos (delete c (children m p))) id (delete c (children m p)) else children m q
  | LocParent _ pos =>
      if decide (q = np) then insert_at (resolved pos (children m np)) id (children m np)
      else if decide (q = p) then delete c (children m p) else children m q
  end.

(** A table [m1] in which the item [id] of [m] can be put at [k] in the folder [np]. *)
Definition ready_for (m m1 : gmap Z BookmarkRow) (id np k : Z) (new : Z → list Z) : Prop :=
  (∀ x, node m1 x = node m x) ∧ (∀ x, same_content m m1 x) ∧
  ∀ r, place_of r = (Some np, k) → ∀ q, kids (<[id := r]> m1) q (new q).

Lemma ready_none m id p z :
  (∀ q, contiguous m q) → place m id = Some (Some p, z) → ready_for m m id p z (children m).
Proof.
  intros Hc Hid. split_and!; [done..|]. intros r Hr q. eapply kids_ext; [|apply Hc]. intros x.
  rewrite place_insert. case_decide; [subst|done]. by rewrite Hr, Hid.
Qed.

(** The item put into the tree without it. *)
Lemma ready_insert m m1 m2 id np (k : nat) new :
  (∀ x, node m1 x = node m x) → (∀ x, same_content m m1 x) →
  (∀ q, contiguous m2 q) → m2 !! id = None → (k ≤ length (children m2 np))%nat →
  (∀ x, x ≠ id → place m1 x = place (shift np (Z.of_nat k) 1 m2) x) ∨
    k = length (children m2 np) ∧ (∀ x, x ≠ id → place m1 x = place m2 x) →
  (∀ q, new q = if decide (q = np) then insert_at k id (children m2 np) else children m2 q) →
  ready_for m m1 id np (Z.of_nat k) new.
Proof.
  intros Hn Hcon Hc Hid Hle Hm1 Hnew. split_and!; [done..|]. intros r Hr q. rewrite Hnew.
  assert (Hkids : ∃ m1', (m1' = shift np (Z.of_nat k) 1 m2 ∨ k = length (children m2 np) ∧ m1' = m2) ∧
    ∀ x, place (<[id := r]> m1) x = place (<[id := r]> m1') x).
  { destruct Hm1 as [Hm1|[Hk Hm1]]; eexists; (split; [eauto|]); intros x; rewrite !place_insert; case_decide; auto. }
  destruct Hkids as (m1' & Hm1' & Hpl).
  destruct (kids_new_item m2 m1' (<[id := r]> m1) np id r k Hc Hid Hle Hr Hm1' Hpl q) as [Hq <-]. exact Hq.
Qed.

Lemma place_resolved pos l : (resolved pos l ≤ length l)%nat.
Proof. destruct pos; cbn; lia. Qed.

Lemma nodes_ok_update m t id r r' np nr :
  nodes_ok m t → m !! id = Some r → node_of r' = (b_guid r, Some np, row_type r) →
  m !! np = Some nr → row_type nr = TFolder → nodes_ok (<[id := r']> m) t.
Proof.
  intros [H1 H2 H3 H4] Hr Hr' Hnp Hty.
  assert (Hg : ∀ x g o ty, node (<[id := r']> m) x = Some (g, o, ty) → ∃ o', node m x = Some (g, o', ty)).
  { intros x g o ty. rewrite node_insert. case_decide; [subst x|eauto]. rewrite Hr'. intros [= <- _ <-].
    exists (b_parent r). by apply node_row in Hr as ->. }
  assert (Hf : ∀ x g o, node m x = Some (g, o, TFolder) → ∃ g' o', node (<[id := r']> m) x = Some (g', o', TFolder)).
  { intros x g o Hx. rewrite node_insert. case_decide; [subst x|eauto]. apply node_row in Hr as E. rewrite E in Hx.
    rewrite Hr'. injection Hx as _ _ ->. eauto. }
  split.
  - intros * (o & Hx)%Hg (o' & Hy)%Hg. by eapply H1.
  - intros x g ty. rewrite node_insert. case_decide; [by rewrite Hr'|apply H2].
  - intros x g q ty Hx. assert (∃ g' o', node m q = Some (g', o', TFolder)) as (g' & o' & Hq); [|by eapply Hf].
    rewrite node_insert in Hx. case_decide; [|by eapply H3]. rewrite Hr' in Hx. injection Hx as _ <- _.
    apply node_row in Hnp as ->. unfold node_of. rewrite Hty. eauto.
  - intros * (o & Hx)%Hg. by eapply H4.
Qed.

(** Changes of times and counters. *)
Definition cosmetic (m m' : gmap Z BookmarkRow) : Prop :=
  ∀ x, place m' x = place m x ∧ node m' x = node m x ∧ same_content m m' x.
Global Instance cosmetic_preorder : PreOrder cosmetic.
Proof.
  split; [done|]. intros m1 m2 m3 H12 H23 x. destruct (H12 x) as (P1 & N1 & C1), (H23 x) as (P2 & N2 & C2).
  split_and!; [congruence..|by eapply content_trans].
Qed.
Lemma cosmetic_upd sel f m :
  (∀ r, place_of (f r) = place_of r ∧ node_of (f r) = node_of r ∧ content (f r) = content r) → cosmetic m (upd sel f m).
Proof. intros Hf x. split_and!; [apply place_upd|apply node_upd|apply content_upd]; intros r; apply Hf. Qed.

Section updates.
Context {W : Type} `{!UrlLib, !Interruptee W, !Clock W, !Rand W, !UrlSafeBase64}.
Context (checks : bool).

Lemma move_ok pos raw parent id r p pr c d :
  tree_ok d → valid_pos pos → raw_matches d id r raw → raw_matches d p pr parent →
  b_parent r = Some p → b_position r = Z.of_nat c → children (moz_bookmarks d) p !! c = Some id →
  ok_post (W:=W) (update_pos_for_move checks pos raw parent) d (λ k d1,
    moz_bookmarks_deleted d1 = moz_bookmarks_deleted d ∧ moz_places d1 = moz_places d ∧
    ready_for (moz_bookmarks d) (moz_bookmarks d1) id p k (relocated (LocPosition pos) (moz_bookmarks d) id p c p)).
Proof.
  intros [Hn Hc] Hv Hraw Hpraw Hp Hpos Hidx. unfold update_pos_for_move.
  apply ok_post_bind, ok_post_lift. intros p' _. apply ok_post_bind, ok_post_lift. intros _ _.
  apply ok_post_bind, ok_post_lift. intros last Hlast. apply ok_post_bind, ok_post_modify, ok_post_ret.
  rewrite (raw_child_count_kids _ _ _ _ Hpraw (Hc p)) in Hlast. pose proof (lookup_lt_Some _ _ _ Hidx) as Hlt.
  unfold pred_u32 in Hlast. destruct (Z.eqb_spec (Z.of_nat (length (children (moz_bookmarks d) p))) 0); [lia|].
  injection Hlast as <-. split; [done|]. split; [done|].
  assert (Hdel : length (delete c (children (moz_bookmarks d) p)) = pred (length (children (moz_bookmarks d) p))).
  { rewrite length_delete by eauto. lia. }
  set (k := resolved pos (delete c (children (moz_bookmarks d) p))).
  assert (Hk : match pos with Specific z => Z.min z (Z.of_nat (length (children (moz_bookmarks d) p)) - 1)
                            | Append => Z.of_nat (length (children (moz_bookmarks d) p)) - 1 end = Z.of_nat k).
  { subst k. destruct pos as [z|]; cbn; rewrite Hdel; [specialize (Hv z eq_refl)|]; lia. }
  rewrite Hk, (raw_position _ _ _ _ Hraw), Hpos, (raw_row_id _ _ _ _ Hpraw).
  change (moz_bookmarks (on_bookmarks _ d)) with (move_rows p (Z.of_nat c) (Z.of_nat k) (moz_bookmarks d)).
  pose proof (removed_item (moz_bookmarks d) id p c (Z.of_nat c) Hc (kids_lookup _ _ _ _ _ (Hc p) Hidx) Hidx) as Hrem.
  cbn zeta in Hrem. apply ready_insert with (m2 := shift p (Z.of_nat c) (-1) (delete id (moz_bookmarks d))).
  - intros x. by apply node_upd.
  - intros x. by apply content_upd.
  - intros q. apply Hrem.
  - unfold shift. by rewrite lookup_upd, lookup_delete_eq.
  - rewrite (proj2 (Hrem p)). case_decide; [|done]. apply place_resolved.
  - left. intros x Hx. by apply place_move.
  - intros q. cbn. rewrite !(proj2 (Hrem _)). repeat case_decide; done.
Qed.

Lemma reparent_ok pos raw parent new_parent id r p pr np nr c d :
  tree_ok d → valid_pos pos → raw_matches d id r raw → raw_matches d p pr parent → raw_matches d np nr new_parent →
  b_parent r = Some p → b_position r = Z.of_nat c → children (moz_bookmarks d) p !! c = Some id → np ≠ p →
  ok_post (W:=W) (_ ← update_pos_for_deletion (position raw) (row_id parent); resolve_pos_for_insert pos new_parent) d
    (λ k d1, moz_bookmarks_deleted d1 = moz_bookmarks_deleted d ∧ moz_places d1 = moz_places d ∧
       ready_for (moz_bookmarks d) (moz_bookmarks d1) id np k
         (relocated (LocParent (b_guid nr) pos) (moz_bookmarks d) id p c np)).
Proof.
  intros [Hn Hc] Hv Hraw Hpraw Hnraw Hp Hpos Hidx Hne.
  apply ok_post_bind, ok_post_modify. rewrite (raw_position _ _ _ _ Hraw), Hpos, (raw_row_id _ _ _ _ Hpraw).
  set (d1 := on_bookmarks _ d). assert (Em1 : moz_bookmarks d1 = shift p (Z.of_nat c) (-1) (moz_bookmarks d)) by done.
  eapply ok_post_weaken.
  { apply resolve_pos_ok with (p := np) (l := children (moz_bookmarks d) np).
    - rewrite Em1. apply kids_shift_other; [congruence|apply Hc].
    - apply Hnraw.
    - by eapply raw_child_count_kids.
    - intros z Hz. apply Hv in Hz. lia. }
  intros k d2 (n & -> & Hle & Hres & Et & Ep & Hm2). split; [done|]. split; [done|].
  pose proof (removed_item (moz_bookmarks d) id p c (Z.of_nat c) Hc (kids_lookup _ _ _ _ _ (Hc p) Hidx) Hidx) as Hrem.
  cbn zeta in Hrem. rewrite Em1 in Hm2.
  assert (Hnp : children (shift p (Z.of_nat c) (-1) (delete id (moz_bookmarks d))) np = children (moz_bookmarks d) np).
  { rewrite (proj2 (Hrem np)). by case_decide. }
  apply ready_insert with (m2 := shift p (Z.of_nat c) (-1) (delete id (moz_bookmarks d))).
  - intros x. destruct Hm2 as [->|[_ ->]]; by rewrite !node_shift.
  - intros x. destruct Hm2 as [->|[_ ->]]; [eapply content_trans|]; apply content_shift.
  - intros q. apply Hrem.
  - unfold shift. by rewrite lookup_upd, lookup_delete_eq.
  - by rewrite Hnp.
  - rewrite Hnp. destruct Hm2 as [->|[Hk ->]]; [left|right; split; [done|]]; intros x Hx.
    + unfold place, shift. by rewrite !lookup_upd, lookup_delete_ne.
    + by rewrite place_shift_delete.
  - intros q. cbn. rewrite Hnp, (proj2 (Hrem q)). unfold resolved. rewrite <-Hres. repeat case_decide; congruence.
Qed.

Lemma update_row_ok id r f d :
  moz_bookmarks d !! id = Some r →
  ok_post (W:=W) (update_row id f) d (λ _ d', moz_bookmarks d' = <[id := f r]> (moz_bookmarks d) ∧
    moz_bookmarks_deleted d' = moz_bookmarks_deleted d ∧ urls_kept d d').
Proof.
  intros Hr. unfold update_row. apply ok_post_bind, ok_post_get. rewrite Hr.
  destruct (row_constraints _ _ _); cbn [negb]; [|apply ok_post_err]. apply ok_post_bind, ok_post_modify.
  assert (Hsame : urls_kept d (on_bookmarks (λ _, <[id:=f r]> (moz_bookmarks d)) d)) by by apply urls_kept_same.
  destruct (b_fk r) as [old|], (b_fk (f r)) as [new|]; try (by apply ok_post_ret).
  destruct (_ =? _); [by apply ok_post_ret|]. apply ok_post_bind, ok_post_modify, ok_post_modify. split; [done|]. split; [done|].
  etrans; [exact Hsame|]. unfold add_foreign_count.
  etrans; [by apply (urls_kept_alter (λ p, p_set_foreign_count (p_foreign_count p + 1) p) new)|]. by apply urls_kept_alter.
Qed.

Lemma set_ancestors_ok pid t d :
  ok_post (W:=W) (set_ancestors_last_modified pid t) d (λ _ d',
    (∃ sel, moz_bookmarks d' = upd sel (b_set_lastModified (ts_to_sql t)) (moz_bookmarks d)) ∧
    moz_bookmarks_deleted d' = moz_bookmarks_deleted d ∧ moz_places d' = moz_places d).
Proof.
  unfold set_ancestors_last_modified. apply ok_post_bind, ok_post_get.
  destruct (ancestors _ _ _); [|apply ok_post_lift; done]. apply ok_post_modify. split; [by eexists|done].
Qed.

Definition keeps (d d' : PlacesDb) : Prop :=
  cosmetic (moz_bookmarks d) (moz_bookmarks d') ∧ moz_bookmarks_deleted d' = moz_bookmarks_deleted d ∧
  moz_places d' = moz_places d.

Lemma bump_ok id d : ok_post (W:=W) (bump_change_counter id) d (λ _ d', keeps d d').
Proof. apply ok_post_modify. split; [|done]. by apply cosmetic_upd. Qed.
Lemma set_ancestors_keeps pid t d : ok_post (W:=W) (set_ancestors_last_modified pid t) d (λ _ d', keeps d d').
Proof.
  eapply ok_post_weaken; [apply set_ancestors_ok|]. intros _ d' [[sel Hm] Ht]. split; [|done]. rewrite Hm. by apply cosmetic_upd.
Qed.
Lemma keeps_trans d1 d2 d3 : keeps d1 d2 → keeps d2 d3 → keeps d1 d3.
Proof. intros (C1 & T1 & P1) (C2 & T2 & P2). split; [by etrans|split; congruence]. Qed.

(** What follows the update of the row. *)
Lemma update_tail_ok (old new : bool) opid npid t d :
  ok_post (W:=W) (
    _ ← set_ancestors_last_modified opid t;
    _ ← (if old then bump_change_counter opid else mret tt);
    if new then _ ← set_ancestors_last_modified npid t; bump_change_counter npid else mret tt) d (λ _ d', keeps d d').
Proof.
  apply ok_post_bind. eapply ok_post_weaken; [apply set_ancestors_keeps|]. intros [] d1 K1.
  apply ok_post_bind. apply ok_post_weaken with (Q := λ _ d', keeps d1 d').
  { destruct old; [apply bump_ok|by apply ok_post_ret]. }
  intros [] d2 K2. pose proof (keeps_trans _ _ _ K1 K2) as K12. destruct new; [|by apply ok_post_ret].
  apply ok_post_bind. eapply ok_post_weaken; [apply set_ancestors_keeps|]. intros [] d3 K3.
  eapply ok_post_weaken; [apply bump_ok|]. intros [] d4 K4. eapply keeps_trans; [done|]. by eapply keeps_trans.
Qed.

Definition upd_title (item : UpdatableItem) : option string :=
  match item with UBookmark b => ub_title b | UFolder f => uf_title f | USeparator _ => None end.

(** The page of the item after an update: the page of the new URL, or the old one. *)
Definition upd_url (item : UpdatableItem) : option Url := match item with UBookmark b => ub_url b | _ => None end.
Definition upd_page (item : UpdatableItem) (d : PlacesDb) (old fk : option Z) : Prop :=
  match upd_url item with Some u => page_url d fk = Some (url_as_str u) | None => fk = old end.
(** What an update does: the item is put at its new place, with its new title and URL. *)
Definition updated (g : string) (item : UpdatableItem) (d d' : PlacesDb) : Prop :=
  ∃ id r r' p c np nr,
    moz_bookmarks d !! id = Some r ∧ b_guid r = g ∧ row_type r = upd_bookmark_type item ∧ b_parent r = Some p ∧
    children (moz_bookmarks d) p !! c = Some id ∧
    moz_bookmarks d !! np = Some nr ∧ row_type nr = TFolder ∧
    match upd_location item with LocParent ng _ => b_guid nr = ng | _ => np = p end ∧
    moz_bookmarks d' !! id = Some r' ∧ b_guid r' = g ∧ b_parent r' = Some np ∧ row_type r' = row_type r ∧
    maybe_truncate_title (E:=unit) (match upd_title item with None => nullif_empty (b_title r) | t => nullif_empty t end)
      = Ok (b_title r') ∧
    upd_page item d' (b_fk r) (b_fk r') ∧ urls_kept d d' ∧
    (∀ x, x ≠ id → same_content (moz_bookmarks d) (moz_bookmarks d') x) ∧
    ∀ q, children (moz_bookmarks d') q = relocated (upd_location item) (moz_bookmarks d) id p c np q.

(** The new folder of an item is not the one it is in: [LocPosition] moves within a folder. *)
Definition update_pre (g : string) (item : UpdatableItem) (d : PlacesDb) : Prop :=
  match upd_location item with
  | LocNone => True
  | LocPosition pos => valid_pos pos
  | LocParent ng pos => valid_pos pos ∧
      ∀ id r np nr, moz_bookmarks d !! id = Some r → b_guid r = g → moz_bookmarks d !! np = Some nr → b_guid nr = ng →
        b_parent r ≠ Some np
  end.

(** A bookmark keeps its page or gets another one, other items have none. *)
Lemma update_fk_ok item raw id r d d0 :
  raw_matches d0 id r raw → row_type r = upd_bookmark_type item →
  ok_post (W:=W) (match item with
                  | UBookmark b => match ub_url b with
                                   | None => mret (place_id raw)
                                   | Some url => info ← fetch_or_new_page url; mret (Some (pi_row_id info))
                                   end
                  | _ => _ ← st_lift (rassert (negb (is_some (place_id raw))) "assertion failed: (left == right)"); mret None
                  end) d (λ fk d', same_bookmarks d d' ∧ is_some fk = is_some (b_fk r) ∧ upd_page item d' (b_fk r) fk ∧ urls_kept d d').
Proof.
  intros Hraw Hty. pose proof (raw_place_id _ _ _ _ Hraw) as Hfk.
  assert (Hnone : ok_post (W:=W) (E:=PlacesError) (_ ← st_lift (rassert (negb (is_some (place_id raw))) "assertion failed: (left == right)"); mret None)
    d (λ fk d', same_bookmarks d d' ∧ is_some (A:=Z) fk = is_some (b_fk r) ∧ fk = b_fk r ∧ urls_kept d d')).
  { apply ok_post_bind, ok_post_lift. intros [] Ha. apply ok_post_ret. split; [done|]. rewrite <-Hfk.
    by destruct (place_id raw). }
  unfold upd_page. destruct item as [b| |]; [|exact Hnone..]. cbn [upd_url].
  destruct (ub_url b) as [u|]; [|apply ok_post_ret; by rewrite Hfk].
  apply ok_post_bind. eapply ok_post_weaken; [apply fetch_or_new_page_ok|]. intros info d' (Hs & Hu & Hk). apply ok_post_ret.
  split; [done|]. split; [|by split]. cbn. unfold row_type, BookmarkType.from_u8_with_valid_url in Hty.
  destruct (b_fk r); [done|]. cbn in Hty. by destruct (BookmarkType.from_u8 (b_type r)) as [[]|].
Qed.

(** Positions and table after the new place has been chosen. *)
Lemma location_ok g item raw pg id r p c d :
  tree_ok d → update_pre g item d → raw_matches d id r raw → b_guid r = g → parent_guid raw = Some pg →
  b_parent r = Some p → b_position r = Z.of_nat c → children (moz_bookmarks d) p !! c = Some id →
  ok_post (W:=W)
    (match upd_location item with
     | LocNone => mret (p, position raw, false, false)
     | LocPosition pos =>
         parent ← get_raw_bookmark pg;
         parent ← st_lift (ok_or (PCorruption (NoParent g pg)) parent);
         position ← update_pos_for_move checks pos raw parent;
         mret (p, position, true, false)
     | LocParent new_parent_guid pos =>
         if String.eqb new_parent_guid root_guid then st_err (PInvalidPlaceInfo (CannotUpdateRoot Root))
         else
           new_parent ← get_raw_bookmark new_parent_guid;
           new_parent ← st_lift (ok_or (PInvalidPlaceInfo (NoSuchGuid new_parent_guid)) new_parent);
           if negb (bool_decide (bookmark_type new_parent = TFolder))
           then st_err (PInvalidPlaceInfo (InvalidParent new_parent_guid))
           else
             existing_parent ← get_raw_bookmark pg;
             existing_parent ← st_lift (ok_or (PCorruption (NoParent g pg)) existing_parent);
             _ ← update_pos_for_deletion (position raw) (row_id existing_parent);
             position ← resolve_pos_for_insert pos new_parent;
             mret (row_id new_parent, position, true, true)
     end) d (λ loc d1, let '(np, k, _, _) := (loc : Z * Z * bool * bool) in
       moz_bookmarks_deleted d1 = moz_bookmarks_deleted d ∧ moz_places d1 = moz_places d ∧
       ready_for (moz_bookmarks d) (moz_bookmarks d1) id np k (relocated (upd_location item) (moz_bookmarks d) id p c np) ∧
       ∃ nr, moz_bookmarks d !! np = Some nr ∧ row_type nr = TFolder ∧
         match upd_location item with LocParent ng _ => b_guid nr = ng | _ => np = p end).
Proof.
  intros Htree Hpre Hraw Hg Hpg Hp Hpos Hidx. pose proof Htree as [Hn Hc]. pose proof (raw_row _ _ _ _ Hraw) as Hr.
  assert (Hpr : ∃ pr, moz_bookmarks d !! p = Some pr ∧ row_type pr = TFolder ∧ b_guid pr = pg).
  { apply node_row in Hr as Hnode. unfold node_of in Hnode. rewrite Hp in Hnode.
    destruct (ok_parents _ _ Hn _ _ _ _ Hnode) as (g' & p' & (pr & Hpr & _ & _ & Hty)%node_Some). exists pr. split_and!; try done.
    pose proof (raw_parent_guid _ _ _ _ Hraw) as E. rewrite Hp in E. cbn in E. rewrite Hpr, Hpg in E. by injection E. }
  destruct Hpr as (pr & Hpr & Hpty & Hpgr).
  assert (Hsame : ∀ x rx, moz_bookmarks d !! x = Some rx → b_guid rx = pg → x = p).
  { intros x rx Hx Hgx. apply node_row in Hx, Hpr. unfold node_of in *. rewrite Hgx in Hx. rewrite Hpgr in Hpr.
    by eapply (ok_guids _ _ Hn). }
  unfold update_pre in Hpre. destruct (upd_location item) as [|pos|ng pos].
  - apply ok_post_ret. split; [done|]. split; [done|]. split; [|eauto]. apply ready_none; [done|].
    rewrite (raw_position _ _ _ _ Hraw). apply place_Some. by exists r.
  - apply get_raw_or_ok. intros p' pr' parent Hgp Hpraw. assert (p' = p) as ->.
    { eapply Hsame; [apply Hpraw|done]. }
    apply ok_post_bind. eapply ok_post_weaken; [by eapply move_ok|]. intros k d1 (Ht & Hpl & Hready). apply ok_post_ret.
    split; [done|]. split; [done|]. split; [done|]. by exists pr.
  - destruct Hpre as [Hv Hne]. destruct (String.eqb ng root_guid); [apply ok_post_err|].
    apply get_raw_or_ok. intros np nr new_parent Hng Hnraw.
    destruct (bool_decide_reflect (bookmark_type new_parent = TFolder)) as [Hty|]; cbn [negb]; [|apply ok_post_err].
    rewrite (raw_type _ _ _ _ Hnraw) in Hty.
    apply get_raw_or_ok. intros p' pr' parent Hgp Hpraw. assert (p' = p) as ->.
    { eapply Hsame; [apply Hpraw|done]. }
    assert (np ≠ p). { intros ->. by eapply Hne; [exact Hr|exact Hg|apply Hnraw|exact Hng|exact Hp]. }
    apply ok_post_bind_assoc. eapply ok_post_weaken; [by eapply reparent_ok|]. intros k d1 (Ht & Hpl & Hready). apply ok_post_ret.
    rewrite (raw_row_id _ _ _ _ Hnraw). split; [done|]. split; [done|]. split; [by rewrite Hng in Hready|]. exists nr. split; [apply Hnraw|done].
Qed.

Lemma update_in_tx_ok g item d :
  tree_ok d → update_pre g item d →
  ok_post (W:=W) (update_bookmark_in_tx checks g item) d (λ _ d', tree_ok d' ∧ updated g item d d').
Proof.
  intros Htree Hpre. pose proof Htree as [Hn Hc]. unfold update_bookmark_in_tx. destruct (is_root g); [apply ok_post_err|].
  apply get_raw_or_ok. intros id r raw Hg Hraw. pose proof (raw_row _ _ _ _ Hraw) as Hr.
  apply ok_post_bind, ok_post_lift. intros pg Hpg. destruct (parent_guid raw) as [pg'|] eqn:Hpg'; [|done]. injection Hpg as ->.
  apply ok_post_bind, ok_post_lift. intros p Hp. rewrite (raw_parent_id _ _ _ _ Hraw) in Hp.
  destruct (b_parent r) as [p'|] eqn:Hpar; [|done]. injection Hp as ->.
  destruct (bool_decide_reflect (bookmark_type raw = upd_bookmark_type item)) as [Hty|]; cbn [negb]; [|apply ok_post_err].
  rewrite (raw_type _ _ _ _ Hraw) in Hty.
  destruct (contiguous_index _ _ _ _ (Hc p) Hr Hpar) as (c & Hpos & Hidx).
  apply ok_post_bind. eapply ok_post_weaken; [by eapply location_ok|].
  intros [[[np k] old] new] d1 (Et1 & Epl1 & (Hn1 & Hc1 & Hkids) & nr & Hnr & Hnty & Hng).
  apply ok_post_bind. eapply ok_post_weaken; [by eapply update_fk_ok|]. intros fk d2 ([Em2 Et2] & Hfk & Hpage & Hk2).
  apply ok_post_bind, ok_post_world. intros t. apply ok_post_bind, ok_post_lift. intros title Htitle.
  assert (Hr1 : ∃ r1, moz_bookmarks d2 !! id = Some r1 ∧ content r1 = content r).
  { rewrite Em2. specialize (Hc1 id). unfold same_content in Hc1. rewrite Hr in Hc1.
    by apply fmap_Some in Hc1 as (r1 & Hr1 & ->); exists r1. }
  destruct Hr1 as (r1 & Hr1 & Hcon). rewrite (raw_row_id _ _ _ _ Hraw).
  apply ok_post_bind. eapply ok_post_weaken; [by apply (update_row_ok _ r1)|]. cbn beta.
  match goal with |- ∀ _ _, _ = <[_ := ?row]> _ ∧ _ → _ => set (r' := row) end. intros _ d3 (Em3 & Et3 & Hk3).
  eapply ok_post_weaken; [apply update_tail_ok|]. intros _ d4 (Hcos & Et4 & Epl4). rewrite Em3, Em2 in Hcos.
  injection Hcon as E1 E2 E3 E4 E5 E6.
  assert (Hr' : node_of r' = (b_guid r, Some np, row_type r)).
  { unfold node_of, row_type. cbn. by rewrite E1, E2, Hfk. }
  assert (Hkids' : ∀ q, contiguous (moz_bookmarks d4) q ∧
    children (moz_bookmarks d4) q = relocated (upd_location item) (moz_bookmarks d) id p c np q).
  { intros q. apply contiguous_kids. apply (kids_ext (<[id := r']> (moz_bookmarks d1))); [intros x; apply Hcos|].
    by apply Hkids. }
  assert (Hfinal : ∃ r4, moz_bookmarks d4 !! id = Some r4 ∧ node_of r4 = node_of r' ∧ content r4 = content r').
  { destruct (Hcos id) as (_ & Hnode & Hcontent). unfold node, same_content in *. rewrite lookup_insert_eq in *.
    destruct (moz_bookmarks d4 !! id) as [r4|]; [|done]. exists r4.
    apply (inj Some) in Hnode, Hcontent. done. }
  destruct Hfinal as (r4 & Hr4 & Hn4 & Hc4). rewrite Hr' in Hn4. injection Hn4 as Eg Ep Ety. injection Hc4 as _ _ Efk Etitle _ _.
  assert (Hk24 : urls_kept d2 d4) by (etrans; [exact Hk3|by apply urls_kept_same]).
  split; [split; [|apply Hkids']|].
  - rewrite Et4, Et3, Et2, Et1. apply (nodes_ok_ext (<[id := r']> (moz_bookmarks d))).
    + intros x. destruct (Hcos x) as (_ & -> & _). rewrite !node_insert. case_decide; [done|apply Hn1].
    + by eapply nodes_ok_update.
  - exists id, r, r4, p, c, np, nr. split_and!; try done; try congruence.
    + rewrite Etitle. cbn. apply (maybe_truncate_any_error (F:=unit)) in Htitle. rewrite (raw_title _ _ _ _ Hraw) in Htitle.
      unfold upd_title. destruct item as [b| |f]; [destruct (ub_title b)| |destruct (uf_title f)]; exact Htitle.
    + rewrite Efk. cbn [b_fk r']. unfold upd_page in *. destruct (upd_url item); [by eapply page_url_kept|done].
    + transitivity d1; [by apply urls_kept_same|]. by transitivity d2.
    + intros x Hx. destruct (Hcos x) as (_ & _ & Hcon). eapply content_trans; [apply Hc1|]. unfold same_content in *.
      by rewrite lookup_insert_ne in Hcon.
    + apply Hkids'.
Qed.
End updates.
