(* ===== verification/BookmarksOps.v ===== *)
(** * Places: the operations on bookmarks refine an ordered tree

    The theorems about the operations of [Bookmarks.v], proved with the lemmas of
    [BookmarksSpec.v]: the invariant of the tree from the creation of the roots on, and what
    each operation does to the children of the folders.  Three theorems show where the code
    breaks the tree. *)

From S2P Require Import Prelude Database Sync15Types KeyBundle State Viaduct Token PlacesTypes PlacesDb Bookmarks BookmarksSpec.
From Stdlib Require Import Ascii String.
From stdpp Require Import sorting strings list gmap fin_sets relations.
Local Open Scope Z_scope.
Local Open Scope list_scope.

(** ** Operations and their specification *)
Section operations.
Context {W : Type} `{!UrlLib, !Interruptee W, !Clock W, !Rand W, !UrlSafeBase64}.
Context (checks : bool).

Inductive bookmark_op :=
| BInsert (bm : InsertableItem)
| BDelete (g : string)
| BUpdate (g : string) (item : UpdatableItem).
Inductive bookmark_out := OGuid (g : string) | OExisted (b : bool) | ODone.

Definition run_bookmark_op (o : bookmark_op) : ST (PlacesDb * W) PlacesError bookmark_out :=
  match o with
  | BInsert bm => g ← insert_bookmark bm; mret (OGuid g)
  | BDelete g => b ← delete_bookmark g; mret (OExisted b)
  | BUpdate g item => _ ← update_bookmark checks g item; mret ODone
  end.

Definition bookmark_pre (o : bookmark_op) (d : PlacesDb) : Prop :=
  match o with
  | BInsert bm => valid_pos (ins_position bm)
  | BDelete _ => True
  | BUpdate g item => update_pre g item d
  end.

Definition bookmark_spec (o : bookmark_op) (out : bookmark_out) (d d' : PlacesDb) : Prop :=
  match o, out with
  | BInsert bm, OGuid g => inserted bm g d d'
  | BDelete g, OExisted b => deleted g b d d'
  | BUpdate g item, ODone => updated g item d d'
  | _, _ => False
  end.

Lemma tree_ok_same d d' : same_bookmarks d d' → tree_ok d → tree_ok d'.
Proof. intros [Em Et]. unfold tree_ok. by rewrite Em, Et. Qed.
Lemma inserted_same bm g d d' d'' :
  same_bookmarks d' d'' → urls_kept d' d'' → inserted bm g d d' → inserted bm g d d''.
Proof.
  intros [Em Et] Hk (p & pr & id & r & Hins). exists p, pr, id, r. rewrite Em. split_and!; try apply Hins.
  - eapply item_page_kept; [done|]. by apply Hins.
  - etrans; [|exact Hk]. by apply Hins.
Qed.

Lemma insert_bookmark_ok bm d :
  tree_ok d → valid_pos (ins_position bm) →
  ok_post (W:=W) (insert_bookmark bm) d (λ g d', tree_ok d' ∧ inserted bm g d d').
Proof.
  intros Htree Hpos. apply ok_post_transaction, ok_post_bind.
  eapply ok_post_weaken; [by apply insert_in_tx_ok|]. intros g d1 [Htree1 Hins].
  apply ok_post_bind, ok_post_modify, ok_post_ret. pose proof (flush_same_bookmarks d1).
  split; [by eapply tree_ok_same|eapply inserted_same; [done|apply flush_urls_kept|done]].
Qed.

Lemma commit_always_ok {A} (c : ST (PlacesDb * W) PlacesError A) d Q : ok_post c d Q → ok_post (commit_always c) d Q.
Proof.
  intros Hc w a d' w'. unfold commit_always. destruct (c (d, w)) as [[b|e|m] [d1 w1]] eqn:Hrun; [|done..].
  intros [= <- <- <-]. by eapply Hc.
Qed.

Lemma run_bookmark_op_ok o d :
  tree_ok d → bookmark_pre o d →
  ok_post (run_bookmark_op o) d (λ out d', tree_ok d' ∧ bookmark_spec o out d d').
Proof.
  intros Htree Hpre. destruct o as [bm|g|g item]; cbn in Hpre; (apply ok_post_bind; eapply ok_post_weaken).
  - by apply insert_bookmark_ok.
  - intros a d' HQ. by apply ok_post_ret.
  - by apply ok_post_transaction, delete_in_tx_ok.
  - intros a d' HQ. by apply ok_post_ret.
  - by apply commit_always_ok, update_in_tx_ok.
  - intros [] d' HQ. by apply ok_post_ret.
Qed.

Lemma failed_op_rolls_back o d w r d' w' :
  run_bookmark_op o (d, w) = (r, (d', w')) → is_ok r = false →
  match o with BUpdate _ _ => is_panic r = true | _ => True end → d' = d.
Proof.
  destruct o as [bm|g|g item]; intros Hrun Hr Hp.
  - revert Hrun Hr. apply (rolls_back_ret (insert_bookmark bm)), rolls_back_transaction.
  - revert Hrun Hr. apply (rolls_back_ret (delete_bookmark g)), rolls_back_transaction.
  - cbn in Hrun. unfold mbind, ST_bind, update_bookmark, commit_always in Hrun.
    destruct (update_bookmark_in_tx checks g item (d, w)) as [[[]|e|m] [d1 w1]];
      injection Hrun as <- <- <-; (done || by cbn in Hp || by cbn in Hr).
Qed.
End operations.

(** ** The roots *)
Section roots.
Context {W : Type} `{!UrlLib, !Interruptee W, !Clock W, !Rand W, !UrlSafeBase64}.

(** A tree whose root has the id [rid] and [n] children. *)
Definition rooted (rid : Z) (n : nat) (d : PlacesDb) : Prop :=
  tree_ok d ∧ (∃ r, moz_bookmarks d !! rid = Some r ∧ b_guid r = root_guid ∧ row_type r = TFolder) ∧
  length (children (moz_bookmarks d) rid) = n.

Lemma create_first_root_ok t d :
  moz_bookmarks d = ∅ → ok_post (W:=W) (create_root "root" root_guid 0 t) d (λ _ d', ∃ rid, rooted rid 0 d').
Proof.
  intros Hempty. unfold create_root. apply ok_post_bind, ok_post_get. rewrite Hempty. cbn [fmap option_fmap option_map].
  apply ok_post_bind. eapply ok_post_weaken; [apply insert_row_ok|]. intros rid d' (_ & Em & Et & _). apply ok_post_ret.
  exists rid. rewrite Hempty in Em. unfold rooted, tree_ok. rewrite Em, Et. cbn [b_guid].
  set (r := mkBookmarkRow _ _ _ _ _ _ _ _ _ _).
  assert (Hnode : ∀ x g o ty, node (<[rid := r]> ∅) x = Some (g, o, ty) → x = rid ∧ g = root_guid ∧ o = None).
  { intros x g o ty. rewrite node_insert. case_decide; [intros [= <- <- <-]; done|]. unfold node. by rewrite lookup_empty. }
  assert (Hkids : ∀ p, kids (<[rid := r]> ∅) p []).
  { intros p. apply kids_nil. intros x rx Hx. apply node_row in Hx. unfold node_of in Hx.
    apply Hnode in Hx as (_ & _ & ->). done. }
  split_and!.
  - split.
    + intros * (-> & _)%Hnode (-> & _)%Hnode. done.
    + intros * (_ & -> & _)%Hnode. done.
    + intros * (_ & _ & [=])%Hnode.
    + intros * (_ & -> & _)%Hnode. apply lookup_delete_eq.
  - intros p. by apply (contiguous_kids _ _ []).
  - exists r. by rewrite lookup_insert_eq.
  - by rewrite (kids_children _ _ _ (Hkids rid)).
Qed.

Lemma create_root_ok rid n title guid t d :
  rooted rid n d → ok_post (W:=W) (create_root title guid (Z.of_nat n) t) d (λ _ d', rooted rid (S n) d').
Proof.
  intros ([Hn Hc] & (rr & Hrr & Hrg & Hrt) & Hlen). unfold create_root. apply ok_post_bind, ok_post_get.
  destruct (select_first _ _) as [[rid' rr']|] eqn:Hsel.
  2: { apply (select_first_None _ _ _ _ Hsel) in Hrr. unfold has_guid in Hrr. by rewrite Hrg, String.eqb_refl in Hrr. }
  apply select_first_Some in Hsel as [Hrr' Hg'%String.eqb_eq].
  assert (rid' = rid) as ->.
  { apply node_row in Hrr as N1, Hrr' as N2. unfold node_of in *. rewrite Hrg in N1. rewrite Hg' in N2. by eapply (ok_guids _ _ Hn). }
  cbn [fmap option_fmap option_map fst]. apply ok_post_bind. eapply ok_post_weaken; [apply insert_row_ok|].
  set (r := mkBookmarkRow _ _ _ _ _ _ _ _ _ _). intros id d' (Hid & Em & Et & _ & _ & Hfresh). apply ok_post_ret.
  assert (Hnone : moz_bookmarks d !! id = None) by (rewrite Hid; apply next_rowid_fresh).
  assert (Hkids : ∀ q, contiguous (moz_bookmarks d') q ∧ children (moz_bookmarks d') q =
    if decide (q = rid) then insert_at n id (children (moz_bookmarks d) rid) else children (moz_bookmarks d) q).
  { apply kids_new_item with (m1 := moz_bookmarks d) (r := r); try done; [lia|by right|]. intros x. by rewrite Em. }
  split; [split; [|apply Hkids]|split].
  - rewrite Em, Et. by apply (nodes_ok_insert _ _ _ _ rid rr).
  - exists rr. rewrite Em, lookup_insert_ne; [done|]. congruence.
  - rewrite (proj2 (Hkids rid)). case_decide; [|done]. unfold insert_at. rewrite length_app, length_take. cbn [length].
    rewrite length_drop. lia.
Qed.

Lemma create_bookmark_roots_ok d :
  moz_bookmarks d = ∅ → ok_post (W:=W) create_bookmark_roots d (λ _ d', ∃ rid, rooted rid 4 d').
Proof.
  intros Hempty. unfold create_bookmark_roots. apply ok_post_bind, ok_post_world. intros t.
  apply ok_post_bind. eapply ok_post_weaken; [by apply create_first_root_ok|]. intros [] d1 (rid & H1).
  apply ok_post_bind. eapply ok_post_weaken; [by apply (create_root_ok rid 0)|]. intros [] d2 H2.
  apply ok_post_bind. eapply ok_post_weaken; [by apply (create_root_ok rid 1)|]. intros [] d3 H3.
  apply ok_post_bind. eapply ok_post_weaken; [by apply (create_root_ok rid 2)|]. intros [] d4 H4.
  eapply ok_post_weaken; [by apply (create_root_ok rid 3)|]. intros [] d5 H5. by exists rid.
Qed.
End roots.

(** ** The query for the ancestors *)
Lemma ancestors_more fuel fuel' m x l :
  ancestors fuel m x = Some l → (fuel ≤ fuel')%nat → ancestors fuel' m x = Some l.
Proof.
  revert fuel' x l. induction fuel as [|fuel IH]; intros fuel' [id|] l; [done|by destruct fuel'| |by destruct fuel'].
  intros Hl Hle. destruct fuel' as [|fuel']; [lia|]. cbn in *. destruct (m !! id) as [r|]; [|done].
  destruct (b_type r =? _); [|done]. apply fmap_Some in Hl as (l' & Hl' & ->).
  by rewrite (IH fuel' _ _ Hl') by lia.
Qed.

Lemma ancestors_exact fuel m x l : ancestors fuel m x = Some l → ancestors (length l) m x = Some l.
Proof.
  revert x l. induction fuel as [|fuel IH]; intros [id|] l; [done|by intros [= <-]| |by intros [= <-]].
  cbn [ancestors]. destruct (m !! id) as [r|] eqn:Hr; [destruct (b_type r =? BookmarkType.as_u8 TFolder) eqn:Ht|].
  - intros (l' & Hl' & ->)%fmap_Some. cbn. rewrite Hr. cbn in Ht. rewrite Ht. by rewrite (IH _ _ Hl').
  - intros [= <-]. cbn. rewrite Hr. cbn in Ht. by rewrite Ht.
  - intros [= <-]. cbn. by rewrite Hr.
Qed.

(** The ancestors of an ancestor. *)
Lemma ancestors_drop fuel m x l i y :
  ancestors fuel m x = Some l → l !! i = Some y → ∃ fuel', ancestors fuel' m (Some y) = Some (drop i l).
Proof.
  revert x l i. induction fuel as [|fuel IH]; intros [id|] l i; [done|by intros [= <-]| |by intros [= <-]].
  cbn [ancestors]. intros Hl Hi. destruct i as [|i].
  - destruct (m !! id) as [r|] eqn:Hr; [destruct (b_type r =? BookmarkType.as_u8 TFolder) eqn:Ht|].
    + apply fmap_Some in Hl as (l' & Hl' & ->). injection Hi as <-. exists (S fuel). cbn [ancestors]. by rewrite Hr, Ht, Hl'.
    + injection Hl as <-. injection Hi as <-. exists 1%nat. cbn [ancestors]. by rewrite Hr, Ht.
    + injection Hl as <-. injection Hi as <-. exists 1%nat. cbn [ancestors]. by rewrite Hr.
  - destruct (m !! id) as [r|] eqn:Hr; [destruct (b_type r =? BookmarkType.as_u8 TFolder) eqn:Ht|].
    + apply fmap_Some in Hl as (l' & Hl' & ->). by apply (IH _ _ _ Hl').
    + injection Hl as <-. by destruct i.
    + injection Hl as <-. by destruct i.
Qed.

Lemma ancestors_det fuel fuel' m x l l' : ancestors fuel m x = Some l → ancestors fuel' m x = Some l' → l = l'.
Proof.
  intros H1 H2. apply (ancestors_more _ (fuel + fuel')) in H1; [|lia]. apply (ancestors_more _ (fuel + fuel')) in H2; [|lia].
  congruence.
Qed.

Lemma ancestors_NoDup fuel m x l : ancestors fuel m x = Some l → NoDup l.
Proof.
  intros Hl. apply NoDup_alt. intros i j y Hi Hj.
  destruct (ancestors_drop _ _ _ _ _ _ Hl Hi) as (f1 & H1), (ancestors_drop _ _ _ _ _ _ Hl Hj) as (f2 & H2).
  pose proof (ancestors_det _ _ _ _ _ _ H1 H2) as Heq. apply (f_equal length) in Heq. rewrite !length_drop in Heq.
  apply lookup_lt_Some in Hi, Hj. lia.
Qed.

Lemma ancestors_in_table fuel m x l i y :
  ancestors fuel m x = Some l → l !! i = Some y → (S i < length l)%nat → is_Some (m !! y).
Proof.
  revert x l i. induction fuel as [|fuel IH]; intros [id|] l i; [done|by intros [= <-]| |by intros [= <-]].
  cbn [ancestors]. intros Hl Hi Hlt.
  destruct (m !! id) as [r|] eqn:Hr; [destruct (b_type r =? BookmarkType.as_u8 TFolder)|]; [|injection Hl as <-; cbn in Hlt; lia..].
  apply fmap_Some in Hl as (l' & Hl' & ->). destruct i as [|i]; [injection Hi as <-; by rewrite Hr|].
  cbn in Hlt. apply (IH _ _ i Hl'); [done|lia].
Qed.

(** As many steps as there are rows, and one, are enough whenever the query ends. *)
Lemma ancestors_enough fuel m x l : ancestors fuel m x = Some l → ancestors (S (size m)) m x = Some l.
Proof.
  intros Hl. apply ancestors_exact in Hl as Hex. apply (ancestors_more _ _ _ _ _ Hex).
  assert (Hsub : (list_to_set (take (pred (length l)) l) : gset Z) ⊆ dom m).
  { intros y (i & Hy & Hi)%elem_of_list_to_set%elem_of_take. apply elem_of_dom. eapply ancestors_in_table; [done..|lia]. }
  apply subseteq_size in Hsub. rewrite size_list_to_set, length_take, size_dom in Hsub; [lia|].
  eapply sublist_NoDup; [|apply sublist_take]. by eapply ancestors_NoDup.
Qed.

(** A folder that is its own parent has no end of ancestors. *)
Lemma ancestors_cycle m id r fuel :
  m !! id = Some r → b_type r = BookmarkType.as_u8 TFolder → b_parent r = Some id → ancestors fuel m (Some id) = None.
Proof. intros Hr Ht Hp. induction fuel as [|fuel IH]; [done|]. cbn. rewrite Hr, Ht, Z.eqb_refl, Hp, IH. done. Qed.

(** ** Insertions that succeed *)
Section success.
Context {W : Type} `{!UrlLib, !Interruptee W, !Clock W, !Rand W, !UrlSafeBase64}.

Lemma get_raw_run d p pr raw (w : W) :
  tree_ok d → moz_bookmarks d !! p = Some pr → RawBookmark_from_row d p pr = Ok raw →
  get_raw_bookmark (b_guid pr) (d, w) = (Ok (Some raw), (d, w)).
Proof.
  intros [Hn _] Hpr Hraw. unfold get_raw_bookmark, mbind, ST_bind. cbn.
  destruct (select_first _ _) as [[x rx]|] eqn:Hsel.
  - apply select_first_Some in Hsel as [Hx Hg%String.eqb_eq]. assert (x = p) as ->.
    { apply node_row in Hx as N1, Hpr as N2. unfold node_of in *. rewrite Hg in N1. by eapply (ok_guids _ _ Hn). }
    assert (rx = pr) as -> by congruence. unfold st_lift. by rewrite Hraw.
  - apply (select_first_None _ _ _ _ Hsel) in Hpr. unfold has_guid in Hpr. by rewrite String.eqb_refl in Hpr.
Qed.

Lemma resolve_run pos parent d (w : W) :
  ∃ k d1, resolve_pos_for_insert pos parent (d, w) = (Ok k, (d1, w)) ∧ moz_places d1 = moz_places d ∧
    ∀ x, node (moz_bookmarks d1) x = node (moz_bookmarks d) x.
Proof.
  unfold resolve_pos_for_insert. destruct pos as [z|]; [|by eexists _, _].
  eexists _, _. split; [done|]. split; [done|]. intros x. cbn.
  by apply (node_upd (λ _ r, has_parent (row_id parent) r && (Z.min z (child_count parent) <=? b_position r))).
Qed.

Lemma insert_row_run r d (w : W) :
  (∀ x rx, moz_bookmarks d !! x = Some rx → b_guid rx ≠ b_guid r) → char_length (b_guid r) = 12%nat →
  b_fk r = None → 1 < b_type r → (∃ p, b_parent r = Some p ∧ is_Some (moz_bookmarks d !! p)) →
  ∃ id d1, insert_row r (d, w) = (Ok id, (d1, w)).
Proof.
  intros Hfresh Hlen Hfk Hty (p & Hp & Hpr). unfold insert_row, mbind, ST_bind. cbn.
  destruct (select_first _ _) as [[x rx]|] eqn:Hsel.
  { apply select_first_Some in Hsel as [Hx Hg%String.eqb_eq]. by destruct (Hfresh x rx). }
  cbn. replace (row_constraints _ _ r) with true; [by eexists _, _|].
  unfold row_constraints. rewrite Hlen, Hfk, Hp. cbn. rewrite orb_true_r, !andb_true_r.
  destruct (Z.ltb_spec 1 (b_type r)); [|lia]. rewrite orb_true_r. cbn.
  destruct (decide (p = next_rowid (moz_bookmarks d))) as [->|Hne]; [by rewrite lookup_insert_eq|].
  rewrite lookup_insert_ne by done. by destruct Hpr as [? ->].
Qed.
End success.

(** ** Theorems *)
Section theorems.
Context {W : Type} `{!UrlLib, !Interruptee W, !Clock W, !Rand W, !UrlSafeBase64}.
Context (checks : bool).

(** C14: the operations on bookmarks are operations on an ordered tree.  On a sound tree an
    insertion puts one new item at its index among the children of its folder, a deletion
    removes the item with everything below it and leaves tombstones for exactly the items that
    were on the server, and an update moves the item as asked; all other folders keep their
    children, all other items their contents, and the tree stays sound.  An insertion or
    deletion that fails changes nothing.  Excluded is the update that names the folder the item
    is already in as its new parent. *)
Theorem bookmarks_refine_tree o d w r d' w' :
  tree_ok d → bookmark_pre o d → run_bookmark_op (W:=W) checks o (d, w) = (r, (d', w')) →
  match r with
  | Ok out => tree_ok d' ∧ bookmark_spec o out d d'
  | Err _ => match o with BUpdate _ _ => True | _ => d' = d end
  | Panic _ => d' = d
  end.
Proof.
  intros Htree Hpre Hrun. destruct r as [out|e|m].
  - by eapply run_bookmark_op_ok.
  - destruct o; [by eapply failed_op_rolls_back..|done].
  - eapply failed_op_rolls_back; [done..|]. by destruct o.
Qed.

(** A folder or separator with a new guid of twelve characters can always be inserted into
    a folder other than the root, whatever the position asked for. *)
Theorem insertion_succeeds bm g ta tm p pr raw d (w : W) :
  tree_ok d → moz_bookmarks d !! p = Some pr → ins_parent_guid bm = b_guid pr → b_guid pr ≠ root_guid →
  RawBookmark_from_row d p pr = Ok raw → row_type pr = TFolder →
  match bm with IBookmark _ => False | _ => True end →
  ins_guid bm = Some g → char_length g = 12%nat → (∀ x rx, moz_bookmarks d !! x = Some rx → b_guid rx ≠ g) →
  ins_date_added bm = Some ta → ins_last_modified bm = Some tm →
  ∃ d', insert_bookmark bm (d, w) = (Ok g, (d', w)).
Proof.
  intros Htree Hpr Hpg Hroot Hraw Hfolder Hbm Hg Hlen Hfresh Hta Htm.
  pose proof (raw_from_row _ _ _ _ Hpr Hraw) as Hm.
  assert (Ht : ∃ t, maybe_truncate_title (E:=PlacesError)
    (match bm with IBookmark b => ib_title b | ISeparator _ => None | IFolder f => if_title f end) = Ok t).
  { unfold maybe_truncate_title. destruct bm as [b|s|f]; [done|by eexists|]. destruct (if_title f) as [t|]; [|by eexists].
    destruct (slice_up_to_total t TITLE_LENGTH_MAX (E:=PlacesError)) as [r ->]. by eexists. }
  destruct Ht as (t & Ht).
  destruct (resolve_run (ins_position bm) raw d w) as (k & d1 & Hres & _ & Hn1).
  assert (Hin : ∃ d', insert_bookmark_in_tx bm (d, w) = (Ok g, (d', w))).
  { unfold insert_bookmark_in_tx. rewrite Hpg. apply String.eqb_neq in Hroot. rewrite Hroot.
    rewrite (st_bind_run _ _ _ _ _ (get_raw_run d p pr raw w Htree Hpr Hraw)), (st_bind_run _ _ _ raw (d, w)) by done.
    rewrite bool_decide_eq_true_2 by (rewrite (raw_type _ _ _ _ Hm); done). cbn [negb].
    rewrite (st_bind_run _ _ _ _ _ Hres), (st_bind_run _ _ _ None (d1, w)) by by destruct bm.
    rewrite Hg, Hta, Htm, (st_bind_run _ _ _ g (d1, w)), (st_bind_run _ _ _ ta (d1, w)), (st_bind_run _ _ _ tm (d1, w)) by done.
    rewrite (st_bind_run _ _ _ t (d1, w)) by (unfold st_lift; by rewrite Ht).
    match goal with |- ∃ _, (insert_row ?row ≫= _) _ = _ => destruct (insert_row_run (W:=W) row d1 w) as (id & d2 & Hins) end.
    - intros x rx Hx. cbn. apply node_row in Hx. rewrite Hn1 in Hx. apply node_Some in Hx as (rx' & Hx & <- & _). by apply Hfresh with x.
    - done.
    - done.
    - cbn. by destruct bm.
    - exists p. split; [cbn; by rewrite (raw_row_id _ _ _ _ Hm)|]. apply node_row in Hpr. rewrite <-Hn1 in Hpr.
      by apply node_Some in Hpr as (pr' & -> & _).
    - rewrite (st_bind_run _ _ _ _ _ Hins). by eexists. }
  destruct Hin as (d' & Hin). unfold insert_bookmark, transaction. rewrite (st_bind_run _ _ _ _ _ Hin). by eexists.
Qed.

(** A step of the life of the database: an operation within its precondition, with any
    outcome but an update that fails with an error after it has changed something. *)
Inductive bookmark_step : PlacesDb → PlacesDb → Prop :=
| step_op o d w r d' w' :
    bookmark_pre o d → run_bookmark_op (W:=W) checks o (d, w) = (r, (d', w')) →
    (∀ g item e, o = BUpdate g item → r = Err e → d' = d) → bookmark_step d d'.

Lemma bookmark_step_ok d d' : bookmark_step d d' → tree_ok d → tree_ok d'.
Proof.
  intros [o d0 w r d0' w' Hpre Hrun Hne] Htree. destruct r as [out|e|m].
  - by destruct (run_bookmark_op_ok checks o d0 Htree Hpre w out d0' w' Hrun).
  - assert (d0' = d0) as ->; [|done]. destruct o; [by eapply failed_op_rolls_back..|by eapply Hne].
  - erewrite (failed_op_rolls_back checks o d0 w _ d0' w' Hrun); [done..|]. by destruct o.
Qed.

(** C29: from the creation of the roots on, the guids of the
    items are distinct, every item but the root is in a folder, and the positions of the
    children of every folder are 0, 1, 2, ... without gap or repetition, through any sequence of
    insertions, deletions and updates, successful or not, with two exceptions that break
    it: an update that names the folder of the item as its new parent
    ([reparent_to_same_folder_leaves_gap]), and an update that returns an error after it has changed
    something, all of which is committed ([failed_update_is_committed]).  Positions asked for are not negative. *)
Theorem bookmark_positions_contiguous d0 w0 d1 w1 d :
  moz_bookmarks d0 = ∅ → create_bookmark_roots (d0, w0) = (Ok tt, (d1, w1)) → rtc bookmark_step d1 d → tree_ok d.
Proof.
  intros Hempty Hroots Hsteps. destruct (create_bookmark_roots_ok d0 Hempty w0 tt d1 w1 Hroots) as (rid & Htree & _).
  clear Hempty Hroots. induction Hsteps as [|x y z Hstep _ IH]; [done|]. apply IH. by eapply bookmark_step_ok.
Qed.

(** The query for the ancestors of an item, which UNION ALL would let run for ever, is
    decided by as many steps as there are items: if it ends at all it has ended by then, with
    the same result, and it lists every ancestor once. *)
Theorem ancestors_query_ends m (x : option Z) fuel l :
  ancestors fuel m x = Some l → ancestors (S (size m)) m x = Some l ∧ NoDup l ∧ (length l ≤ S (size m))%nat.
Proof.
  intros Hl. apply ancestors_enough in Hl as He. split; [done|]. split; [by eapply ancestors_NoDup|].
  clear -He. revert He. generalize (S (size m)). intros n. revert x l.
  induction n as [|n IH]; intros [id|] l; cbn; [done|intros [= <-]; cbn; lia| |intros [= <-]; cbn; lia].
  destruct (m !! id) as [r|]; [destruct (b_type r =? 2)|]; [|intros [= <-]; cbn; lia..].
  intros (l' & Hl' & ->)%fmap_Some. apply IH in Hl'. cbn. lia.
Qed.
End theorems.

(** ** Concrete runs *)
Module ToyOps.
Import ToyPlaces.

Lemma setup_ok : ok_post (W:=nat) setup empty_db (λ _ d, tree_ok d).
Proof.
  unfold setup. apply ok_post_bind. eapply ok_post_weaken; [by apply create_bookmark_roots_ok|]. intros [] d1 (rid & Ht1 & _).
  apply ok_post_bind. eapply ok_post_weaken; [by apply insert_bookmark_ok|]. intros g2 d2 [Ht2 _].
  apply ok_post_bind. eapply ok_post_weaken; [by apply insert_bookmark_ok|]. intros g3 d3 [Ht3 _].
  apply ok_post_bind. eapply ok_post_weaken; [apply insert_bookmark_ok; [done|]|].
  { intros z [= <-]. lia. }
  intros g4 d4 [Ht4 _]. by apply ok_post_ret.
Qed.
Lemma toy_db_ok : tree_ok toy_db.
Proof.
  unfold toy_db. destruct (setup (empty_db, 0%nat)) as [r [d w]] eqn:Hrun. cbn.
  assert (Hr : fst (setup (empty_db, 0%nat)) = Ok tt) by (vm_compute; reflexivity).
  rewrite Hrun in Hr. cbn in Hr. subst r. exact (setup_ok _ _ _ _ Hrun).
Qed.

Definition move_to (parent : string) (pos : BookmarkPosition) (url : option string) : UpdatableItem :=
  UBookmark (mkUpdatableBookmark (LocParent parent pos) (url : option Url) None).
Definition move_item : UpdatableItem := UBookmark (mkUpdatableBookmark (LocPosition (Specific 1)) None None).
Definition after {A} (c : ST (PlacesDb * nat) PlacesError A) : PlacesDb := fst (snd (c (toy_db, 100%nat))).

Lemma bookmarks_refine_tree_witness :
  children (moz_bookmarks toy_db) 2 = [6; 8; 7] ∧
  tree_ok (after (update_bookmark true "aaaaaaaaaaaa" move_item)) ∧
  children (moz_bookmarks (after (update_bookmark true "aaaaaaaaaaaa" move_item))) 2 = [8; 6; 7].
Proof.
  split; [vm_compute; reflexivity|]. split; [|vm_compute; reflexivity].
  refine (proj1 (bookmarks_refine_tree true (BUpdate "aaaaaaaaaaaa" move_item) toy_db 100%nat (Ok ODone) _ 101%nat toy_db_ok _ _)).
  - intros z [= <-]. lia.
  - vm_compute. reflexivity.
Defined.

Definition c_row : BookmarkRow := mkBookmarkRow None 2 (Some 2) 1 None 1 1 "cccccccccccc" 1 1.
Lemma toy_guids : map_Forall (λ _ r, b_guid r ≠ "dddddddddddd"%string) (moz_bookmarks toy_db).
Proof. apply (bool_decide_unpack _). vm_compute. exact I. Qed.
Lemma insertion_succeeds_witness :
  ∃ d', insert_bookmark (W:=nat) (separator "cccccccccccc" "dddddddddddd" (Specific 7)) (toy_db, 100%nat)
        = (Ok "dddddddddddd"%string, (d', 100%nat)).
Proof.
  destruct (RawBookmark_from_row toy_db 8 c_row) as [raw|e|m] eqn:Hraw; [|vm_compute in Hraw; discriminate..].
  refine (insertion_succeeds (W:=nat) (separator "cccccccccccc" "dddddddddddd" (Specific 7)) "dddddddddddd" 1 1 8 c_row raw
    toy_db 100%nat toy_db_ok _ eq_refl _ Hraw eq_refl I eq_refl eq_refl _ eq_refl eq_refl).
  - vm_compute. reflexivity.
  - discriminate.
  - exact toy_guids.
Defined.

(** A first item in a new database. *)
Definition roots_db : PlacesDb := fst (snd (create_bookmark_roots (empty_db, 0%nat))).
Definition first_db : PlacesDb := fst (snd (insert_bookmark (W:=nat) (separator "menu________" "bbbbbbbbbbbb" Append) (roots_db, 1%nat))).
Lemma bookmark_positions_contiguous_witness : children (moz_bookmarks first_db) 2 = [6] ∧ tree_ok first_db.
Proof.
  split; [vm_compute; reflexivity|].
  refine (bookmark_positions_contiguous (W:=nat) true empty_db 0%nat roots_db 1%nat first_db _ _ _).
  - reflexivity.
  - vm_compute. reflexivity.
  - eapply rtc_once, (step_op true (BInsert (separator "menu________" "bbbbbbbbbbbb" Append)) roots_db 1%nat
      (Ok (OGuid "bbbbbbbbbbbb")) first_db 1%nat); [by intros ? [=]|vm_compute; reflexivity|done].
Defined.

Lemma ancestors_query_ends_witness :
  ancestors 3 (moz_bookmarks toy_db) (Some 8) = Some [8; 2; 1] ∧
  ancestors 9 (moz_bookmarks toy_db) (Some 8) = Some [8; 2; 1].
Proof.
  split; [vm_compute; reflexivity|].
  refine (proj1 (ancestors_query_ends (moz_bookmarks toy_db) (Some 8) 3 [8; 2; 1] _)). vm_compute. reflexivity.
Defined.
End ToyOps.

(** ** Where the tree breaks *)
Import ToyPlaces.

(** An update that names the folder of an item as its new parent counts the item among its
    new siblings: with [Append] its position is one too large, and the positions of the folder
    have a gap. *)
Theorem reparent_to_same_folder_leaves_gap :
  let c := update_bookmark true "aaaaaaaaaaaa" (ToyOps.move_to "menu________" Append None) in
  tree_ok toy_db ∧ fst (c (toy_db, 100%nat)) = Ok tt ∧ ¬ tree_ok (ToyOps.after c).
Proof.
  split; [apply ToyOps.toy_db_ok|]. split; [vm_compute; reflexivity|]. intros [_ Hc]. specialize (Hc 2).
  apply (kids_lookup _ _ _ 2 6) in Hc; [|vm_compute; reflexivity]. vm_compute in Hc. discriminate.
Qed.

(** [update_bookmark] commits also when the update fails: a bookmark that is moved and
    given a URL that is too long keeps its folder and its URL, but the positions have been
    changed, and the tree is no longer sound. *)
Theorem failed_update_is_committed :
  let url := string_of_list_ascii (repeat "a"%char (Z.to_nat 65537)) in
  let c := update_bookmark true "aaaaaaaaaaaa" (ToyOps.move_to "cccccccccccc" Append (Some url)) in
  tree_ok toy_db ∧ fst (c (toy_db, 100%nat)) = Err (PInvalidPlaceInfo UrlTooLong) ∧
  ¬ tree_ok (ToyOps.after c).
Proof.
  split; [apply ToyOps.toy_db_ok|]. split; [vm_compute; reflexivity|]. intros [_ Hc]. specialize (Hc 2).
  assert (Hp : place (moz_bookmarks (ToyOps.after (update_bookmark true "aaaaaaaaaaaa"
    (ToyOps.move_to "cccccccccccc" Append (Some (string_of_list_ascii (repeat "a"%char (Z.to_nat 65537)))))))) 6 = Some (Some 2, -1))
    by (vm_compute; reflexivity).
  apply Hc in Hp as (i & Hi & _). lia.
Qed.

(** Nothing stops an update from putting a folder into itself: the folder is then its own
    ancestor, and the query for its ancestors, which the update runs next, never ends. *)
Theorem folder_moved_into_itself :
  (∀ m id r fuel, m !! id = Some r → b_type r = BookmarkType.as_u8 TFolder → b_parent r = Some id →
     ancestors fuel m (Some id) = None) ∧
  fst (update_bookmark true "cccccccccccc" (UFolder (mkUpdatableFolder (LocParent "cccccccccccc" Append) None))
         (toy_db, 100%nat)) = Panic NO_END.
Proof. split; [intros m id r fuel; apply ancestors_cycle|vm_compute; reflexivity]. Qed.
