(* ===== verification/BookmarkTree.v ===== *)
(** * Places: whole trees of bookmarks

    Model of the rest of [components/places/src/storage/bookmarks.rs]: trees of nodes with
    their serialisation, [insert_tree] and [fetch_tree]. *)

From S2P Require Import Prelude Database Sync15Types KeyBundle State Viaduct Token PlacesTypes PlacesDb Bookmarks BookmarksSpec BookmarksOps.
From Stdlib Require Import Ascii String.
From stdpp Require Import sorting strings list gmap fin_sets.
Local Open Scope Z_scope.
Local Open Scope list_scope.

Section tree.
Context {W : Type} `{!UrlLib, !Interruptee W, !Clock W, !Rand W, !UrlSafeBase64}.
Abbreviation DB := (ST (PlacesDb * W) PlacesError).

(** ** Nodes *)
Record BookmarkNode := mkBookmarkNode {
  bn_guid : option string; bn_date_added : option Z; bn_last_modified : option Z; bn_title : option string; bn_url : Url }.
Record SeparatorNode := mkSeparatorNode {
  sn_guid : option string; sn_date_added : option Z; sn_last_modified : option Z }.
(** A [FolderNode] without its children. *)
Record FolderNode := mkFolderNode {
  fn_guid : option string; fn_date_added : option Z; fn_last_modified : option Z; fn_title : option string }.
Inductive BookmarkTreeNode :=
| NBookmark (b : BookmarkNode)
| NSeparator (s : SeparatorNode)
| NFolder (f : FolderNode) (children : list BookmarkTreeNode).

Definition node_type (n : BookmarkTreeNode) : BookmarkType :=
  match n with NBookmark _ => TBookmark | NFolder _ _ => TFolder | NSeparator _ => TSeparator end.
Definition node_guid_opt (n : BookmarkTreeNode) : option string :=
  match n with NBookmark b => bn_guid b | NFolder f _ => fn_guid f | NSeparator s => sn_guid s end.
Definition node_guid {E} (n : BookmarkTreeNode) : res E string :=
  match node_guid_opt n with Some g => Ok g | None => Panic "Missing guid?" end.
Definition created_modified (n : BookmarkTreeNode) : DB (Z * Z) :=
  let '(created, modified) :=
    match n with
    | NBookmark b => (bn_date_added b, bn_last_modified b)
    | NFolder f _ => (fn_date_added f, fn_last_modified f)
    | NSeparator s => (sn_date_added s, sn_last_modified s)
    end in
  created ← match created with Some t => mret t | None => now end;
  modified ← match modified with Some t => mret t | None => now end;
  mret (created, modified).

(** ** Serialisation

    The JSON object of a node, with the fields that [Mapping] reads; a field that is not
    written is read as its default. *)
Inductive Mapping := mkMapping {
  mp_type : Z; mp_guid : option string; mp_date_added : option Z; mp_last_modified : option Z;
  mp_title : option string; mp_url : option string; mp_children : list Mapping }.

Fixpoint serialize (n : BookmarkTreeNode) : Mapping :=
  match n with
  | NBookmark b =>
      mkMapping (BookmarkType.as_u8 TBookmark) (bn_guid b) (bn_date_added b) (bn_last_modified b) (bn_title b)
        (Some (url_as_str (bn_url b))) []
  | NSeparator s => mkMapping (BookmarkType.as_u8 TSeparator) (sn_guid s) (sn_date_added s) (sn_last_modified s) None None []
  | NFolder f children =>
      mkMapping (BookmarkType.as_u8 TFolder) (fn_guid f) (fn_date_added f) (fn_last_modified f) (fn_title f) None
        (List.map serialize children)
  end.

Fixpoint deserialize (m : Mapping) : BookmarkTreeNode :=
  let url := mp_url m ≫= λ u, match url_parse u with Ok parsed => Some parsed | _ => None end in
  match BookmarkType.from_u8_with_valid_url (mp_type m) (is_some url), url with
  | TBookmark, Some url => NBookmark (mkBookmarkNode (mp_guid m) (mp_date_added m) (mp_last_modified m) (mp_title m) url)
  | TSeparator, _ => NSeparator (mkSeparatorNode (mp_guid m) (mp_date_added m) (mp_last_modified m))
  (* a bookmark without a URL is not returned by [from_u8_with_valid_url] *)
  | TBookmark, None | TFolder, _ =>
      NFolder (mkFolderNode (mp_guid m) (mp_date_added m) (mp_last_modified m) (mp_title m)) (List.map deserialize (mp_children m))
  end.

(** ** insert_tree *)
Definition or_opt {A} (a b : option A) : option A := match a with Some x => Some x | None => b end.

(** The items of a subtree in the order in which they are inserted: a folder comes before its
    children. *)
Fixpoint add_node (parent : string) (default_when : Z) (n : BookmarkTreeNode) : DB (list InsertableItem) :=
  match n with
  | NBookmark b =>
      mret [IBookmark (mkInsertableBookmark parent Append (or_opt (bn_date_added b) (Some default_when))
                         (or_opt (bn_last_modified b) (Some default_when)) (bn_guid b) (bn_url b) (bn_title b))]
  | NSeparator s =>
      mret [ISeparator (mkInsertableSeparator parent Append (or_opt (sn_date_added s) (Some default_when))
                          (or_opt (sn_last_modified s) (Some default_when)) (sn_guid s))]
  | NFolder f children =>
      my_guid ← match fn_guid f with Some g => mret g | None => new_guid end;
      inner_when ← now;
      infos ← (fix go (l : list BookmarkTreeNode) : DB (list InsertableItem) :=
                 match l with
                 | [] => mret []
                 | c :: l => a ← add_node my_guid inner_when c; b ← go l; mret (a ++ b)
                 end) children;
      mret (IFolder (mkInsertableFolder parent Append (or_opt (fn_date_added f) (Some default_when))
                       (or_opt (fn_last_modified f) (Some default_when)) (Some my_guid) (fn_title f)) :: infos)
  end.
Fixpoint add_nodes (parent : string) (default_when : Z) (l : list BookmarkTreeNode) : DB (list InsertableItem) :=
  match l with
  | [] => mret []
  | c :: l => a ← add_node parent default_when c; b ← add_nodes parent default_when l; mret (a ++ b)
  end.
Definition add_subtree_infos (parent : string) (children : list BookmarkTreeNode) : DB (list InsertableItem) :=
  default_when ← now;
  add_nodes parent default_when children.

Fixpoint insert_all (infos : list InsertableItem) : DB unit :=
  match infos with
  | [] => mret tt
  | i :: infos => _ ← insert_bookmark_in_tx i; insert_all infos
  end.

Definition insert_tree (f : FolderNode) (children : list BookmarkTreeNode) : DB unit :=
  match fn_guid f with
  | None => st_err (PInvalidPlaceInfo (InvalidParent "<no guid>"))
  | Some parent_guid =>
      insert_infos ← add_subtree_infos parent_guid children;
      transaction (
        _ ← insert_all insert_infos;
        delete_pending_temp_tables)
  end.

(** ** fetch_tree *)
Record FetchedTreeRow := mkFetchedTreeRow {
  ft_level : nat; ft_id : Z; ft_guid : string; ft_parent : option Z; ft_parent_guid : option string;
  ft_node_type : BookmarkType; ft_position : Z; ft_title : option string; ft_date_added : Z;
  ft_last_modified : Z; ft_url : option string }.

(** A row of the recursive table [descendants]: level, id, row of [moz_bookmarks], guid of the
    parent. *)
Record Descendant := mkDescendant { de_level : nat; de_id : Z; de_row : BookmarkRow; de_parent_guid : option string }.

(** [ORDER BY parent, position] among the rows of a level. *)
Definition de_key (x : Descendant) : Z * Z := (default 0 (b_parent (de_row x)), b_position (de_row x)).
Definition de_le (x y : Descendant) : Prop :=
  (de_key x).1 < (de_key y).1 ∨ (de_key x).1 = (de_key y).1 ∧ (de_key x).2 ≤ (de_key y).2.
Global Instance de_le_dec : RelDecision de_le.
Proof. intros x y. unfold de_le. apply _. Defined.

Definition children_rows (m : gmap Z BookmarkRow) (level : nat) (d : Descendant) : list Descendant :=
  (λ '(id, r), mkDescendant level id r (Some (b_guid (de_row d)))) <$> select (has_parent (de_id d)) m.

(** The rows of the query, level by level; it does not end if a folder contains itself. *)
Fixpoint descendants (fuel : nat) (m : gmap Z BookmarkRow) (level : nat) (cur : list Descendant) : option (list Descendant) :=
  match cur with
  | [] => Some []
  | _ =>
      match fuel with
      | O => None
      | S fuel =>
          rest ← descendants fuel m (S level) (merge_sort de_le (cur ≫= children_rows m (S level)));
          Some (cur ++ rest)
      end
  end.

Definition FetchedTreeRow_from_row (d : PlacesDb) (x : Descendant) : res PlacesError FetchedTreeRow :=
  let b := de_row x in
  let url := url_of_place d (b_fk b) in
  ty ← get_u8 (b_type b);
  position ← get_u32 (b_position b);
  Ok (mkFetchedTreeRow (de_level x) (de_id x) (b_guid b) (b_parent b) (de_parent_guid x)
        (BookmarkType.from_u8_with_valid_url ty (is_some url)) position (nullif_empty (b_title b))
        (ts_of_sql (b_dateAdded b)) (ts_of_sql (b_lastModified b)) url).

(** The node of a row, without children; [None] for a malformed bookmark. *)
Definition row_node (row : FetchedTreeRow) : option BookmarkTreeNode :=
  match ft_node_type row with
  | TBookmark =>
      match ft_url row with
      | Some url_str =>
          match url_parse url_str with
          | Ok url => Some (NBookmark (mkBookmarkNode (Some (ft_guid row)) (Some (ft_date_added row))
                              (Some (ft_last_modified row)) (ft_title row) url))
          | _ => None
          end
      | None => None
      end
  | TSeparator => Some (NSeparator (mkSeparatorNode (Some (ft_guid row)) (Some (ft_date_added row)) (Some (ft_last_modified row))))
  | TFolder => Some (NFolder (mkFolderNode (Some (ft_guid row)) (Some (ft_date_added row)) (Some (ft_last_modified row))
                                (ft_title row)) [])
  end.

Definition push_child (parent_guid : string) (n : BookmarkTreeNode) (t : gmap string (list BookmarkTreeNode))
    : gmap string (list BookmarkTreeNode) :=
  <[parent_guid := default [] (t !! parent_guid) ++ [n]]> t.

Fixpoint build_pseudo_tree (d : PlacesDb) (rows : list Descendant) (t : gmap string (list BookmarkTreeNode))
    : DB (gmap string (list BookmarkTreeNode)) :=
  match rows with
  | [] => mret t
  | x :: rows =>
      row ← st_lift (FetchedTreeRow_from_row d x);
      _ ← check_interrupted;
      build_pseudo_tree d rows
        (match row_node row, ft_parent_guid row with
         | Some n, Some parent_guid => push_child parent_guid n t
         | _, _ => t
         end)
  end.

(** [inflate]: a folder takes its children out of the map before they are inflated, so the
    recursion is not deeper than the map is large. *)
Fixpoint inflate (fuel : nat) (parent : BookmarkTreeNode) (pseudo_tree : gmap string (list BookmarkTreeNode))
    : BookmarkTreeNode * gmap string (list BookmarkTreeNode) :=
  match fuel with
  | O => (parent, pseudo_tree)
  | S fuel =>
      match parent with
      | NFolder f own =>
          match fn_guid f ≫= λ g, (λ c, (g, c)) <$> pseudo_tree !! g with
          | Some (g, children) =>
              let '(children, pseudo_tree) :=
                foldl (λ '(acc, t) c, let '(c, t) := inflate fuel c t in (acc ++ [c], t))
                  ([], delete g pseudo_tree) children in
              (NFolder f children, pseudo_tree)
          | None => (parent, pseudo_tree)
          end
      | _ => (parent, pseudo_tree)
      end
  end.

Definition fetch_tree (item_guid : string) : DB (option BookmarkTreeNode) :=
  d ← db_get;
  let m := moz_bookmarks d in
  match select_first (has_guid item_guid) m with
  | None => mret None
  | Some (id, b) =>
      let parent_guid := b_guid <$> (b_parent b ≫= λ p, m !! p) in
      match descendants (S (size m)) m 0 [mkDescendant 0 id b parent_guid] with
      | None => st_lift (Panic NO_END)
      | Some results =>
          row ← st_lift (FetchedTreeRow_from_row d (mkDescendant 0 id b parent_guid));
          let root := NFolder (mkFolderNode (Some (ft_guid row)) (Some (ft_date_added row)) (Some (ft_last_modified row))
                                 (ft_title row)) [] in
          _ ← check_interrupted;
          pseudo_tree ← build_pseudo_tree d (drop 1 results) ∅;
          mret (Some (fst (inflate (S (size pseudo_tree)) root pseudo_tree)))
      end
  end.
End tree.
