(* ===== verification/BookmarkTreeSpec.v ===== *)
(** * Places: fetch_tree reads the tree

    [fetch_tree] gets the items below a folder from one query in level order, files them under
    the guids of their parents and then assembles the tree.  It is shown to return the tree that
    a plain recursion over the children of each folder returns. *)

From S2P Require Import Prelude Database Sync15Types KeyBundle State Viaduct Token PlacesTypes PlacesDb Bookmarks BookmarksSpec BookmarksOps BookmarkTree.
From Stdlib Require Import Ascii String.
From stdpp Require Import sorting strings list gmap fin_sets.
Local Open Scope Z_scope.
Local Open Scope list_scope.

(** ** Levels *)

(** The [n]th ancestor of an item. *)
Fixpoint up (m : gmap Z BookmarkRow) (n : nat) (x : Z) : option Z :=
  match m !! x with
  | None => None
  | Some r => match n with O => Some x | S n => b_parent r ≫= up m n end
  end.

Lemma up_add m i k x : up m (i + k) x = up m i x ≫= up m k.
Proof.
  revert x. induction i as [|i IH]; intros x; cbn [up Nat.add].
  - destruct (m !! x) as [r|] eqn:Hx; [done|]. destruct k; cbn; by rewrite Hx.
  - destruct (m !! x) as [r|]; [|done]. destruct (b_parent r) as [p|]; [apply IH|done].
Qed.

Lemma Sorted_lookup {A} (R : relation A) l :
  (∀ i x y, l !! i = Some x → l !! S i = Some y → R x y) → Sorted R l.
Proof.
  induction l as [|x l IH]; intros HR; [constructor|]. constructor.
  - apply IH. intros i. apply (HR (S i)).
  - destruct l as [|y l]; constructor. by apply (HR 0%nat).
Qed.

(** A row of the item with the guid [g] as its parent. *)
Definition child_of (g : string) (e : Descendant) : Prop := de_parent_guid e = Some g.
#[local] Instance child_of_dec g e : Decision (child_of g e).
Proof. unfold child_of. apply _. Defined.

(** ** The tree by recursion *)
Section reference.
Context `{!UrlLib} (d : PlacesDb).

(** The node of a row without its children; a malformed bookmark has none. *)
Definition shallow (r : BookmarkRow) : option BookmarkTreeNode :=
  match FetchedTreeRow_from_row d (mkDescendant 0 0 r None) with Ok row => row_node row | _ => None end.

(** The tree of an item, read from the children of each folder in their order. *)
Fixpoint read_node (height : nat) (m : gmap Z BookmarkRow) (x : Z) : option BookmarkTreeNode :=
  n ← m !! x ≫= shallow;
  Some match n with
       | NFolder f _ => NFolder f match height with O => [] | S h => omap (read_node h m) (children m x) end
       | _ => n
       end.

Lemma shallow_folder r f l : shallow r = Some (NFolder f l) → l = [] ∧ fn_guid f = Some (b_guid r).
Proof.
  unfold shallow. destruct (FetchedTreeRow_from_row _ _) as [row| |] eqn:Hrow; [|done..].
  unfold FetchedTreeRow_from_row in Hrow. bind_inv Hrow. injection Hrow as <-. unfold row_node. cbn [ft_node_type ft_url ft_guid de_row].
  destruct (BookmarkType.from_u8_with_valid_url _ _); [|by intros [= <- <-]|done].
  destruct (url_of_place _ _); [|done]. by destruct (url_parse _).
Qed.

Lemma read_node_None h m x : m !! x ≫= shallow = None → read_node h m x = None.
Proof. destruct h; cbn; by intros ->. Qed.
Lemma omap_None {A B C} (f : A → option B) (g : A → option C) l :
  (∀ x, f x = None → g x = None) → omap f l = [] → omap g l = [].
Proof.
  intros Hfg. induction l as [|x l IH]; [done|]. cbn. destruct (f x) eqn:Hx; [done|]. rewrite (Hfg _ Hx). done.
Qed.

(** ** The pseudo tree *)
Definition file (t : gmap string (list BookmarkTreeNode)) (e : Descendant) : gmap string (list BookmarkTreeNode) :=
  match shallow (de_row e), de_parent_guid e with Some n, Some g => push_child g n t | _, _ => t end.
Definition filed (t : gmap string (list BookmarkTreeNode)) (g : string) : list BookmarkTreeNode := default [] (t !! g).

Lemma filed_foldl L t g :
  filed (foldl file t L) g = filed t g ++ omap (λ e, shallow (de_row e)) (filter (child_of g) L).
Proof.
  revert t. induction L as [|e L IH]; intros t; [by rewrite app_nil_r|]. cbn [foldl]. rewrite IH, filter_cons.
  assert (Hf : filed (file t e) g = filed t g ++ (if decide (child_of g e) then option_list (shallow (de_row e)) else [])).
  { unfold file, filed. case_decide as Hg; unfold child_of in Hg.
    - rewrite Hg. destruct (shallow (de_row e)) as [n|]; cbn; [|by rewrite app_nil_r]. unfold push_child. by rewrite lookup_insert_eq.
    - rewrite app_nil_r. destruct (shallow (de_row e)) as [n|], (de_parent_guid e) as [g'|]; try done.
      unfold push_child. by rewrite lookup_insert_ne by congruence. }
  rewrite Hf, <-app_assoc. f_equal. case_decide; [|done]. cbn. by destruct (shallow (de_row e)).
Qed.
End reference.

Section levels.
Context (m : gmap Z BookmarkRow) (root : Descendant).
Hypothesis Hroot : m !! de_id root = Some (de_row root).

Fixpoint lvl (n : nat) : list Descendant :=
  match n with O => [root] | S n => merge_sort de_le (lvl n ≫= children_rows m (S n)) end.

Lemma elem_of_lvl_S n e :
  e ∈ lvl (S n) ↔ ∃ pe, pe ∈ lvl n ∧ m !! de_id e = Some (de_row e) ∧ b_parent (de_row e) = Some (de_id pe) ∧
    de_level e = S n ∧ de_parent_guid e = Some (b_guid (de_row pe)).
Proof.
  cbn [lvl]. rewrite merge_sort_Permutation, list_elem_of_bind. split.
  - intros (pe & He & Hpe). exists pe. unfold children_rows in He. apply list_elem_of_fmap in He as ([id r] & -> & Hs).
    apply elem_of_select in Hs as [Hr Hp%has_parent_spec]. done.
  - intros (pe & Hpe & Hr & Hp & Hl & Hg). exists pe. split; [|done]. apply list_elem_of_fmap.
    exists (de_id e, de_row e). split; [destruct e; cbn in *; congruence|]. apply elem_of_select. split; [done|].
    by apply has_parent_spec.
Qed.

Lemma lvl_row n e : e ∈ lvl n → m !! de_id e = Some (de_row e) ∧ up m n (de_id e) = Some (de_id root).
Proof.
  revert e. induction n as [|n IH]; intros e.
  - intros ->%list_elem_of_singleton. split; [done|]. cbn. by rewrite Hroot.
  - rewrite elem_of_lvl_S. intros (pe & Hpe & Hr & Hp & _). split; [done|]. cbn. rewrite Hr, Hp. by apply IH.
Qed.

Lemma lvl_complete n x : up m n x = Some (de_id root) → ∃ e, e ∈ lvl n ∧ de_id e = x.
Proof.
  revert x. induction n as [|n IH]; intros x; cbn [up]; destruct (m !! x) as [r|] eqn:Hr; try done.
  - intros [= ->]. exists root. split; [apply list_elem_of_here|done].
  - destruct (b_parent r) as [p|] eqn:Hp; [|done]. cbn. intros (pe & Hpe & Hid)%IH.
    exists (mkDescendant (S n) x r (Some (b_guid (de_row pe)))). split; [|done]. apply elem_of_lvl_S.
    exists pe. cbn. subst p. done.
Qed.

(** An item is determined by its level and id. *)
Lemma lvl_inj n e e' : e ∈ lvl n → e' ∈ lvl n → de_id e = de_id e' → e = e'.
Proof.
  revert e e'. induction n as [|n IH]; intros e e'.
  - by intros ->%list_elem_of_singleton ->%list_elem_of_singleton.
  - rewrite !elem_of_lvl_S. intros (pe & Hpe & Hr & Hp & Hl & Hg) (pe' & Hpe' & Hr' & Hp' & Hl' & Hg') Hid.
    assert (de_row e = de_row e') as Hrow by congruence. rewrite Hrow, Hp' in Hp. injection Hp as Hp.
    assert (pe = pe') as <- by (by apply IH). destruct e, e'; cbn in *; congruence.
Qed.

Lemma children_rows_NoDup n pe : NoDup (children_rows m n pe).
Proof.
  unfold children_rows. apply (NoDup_fmap_2_strong _).
  - intros [i r] [i' r'] _ _ [= -> ->]. done.
  - unfold select. apply NoDup_ListNoDup, List.NoDup_filter, NoDup_ListNoDup, NoDup_rows.
Qed.
Lemma lvl_NoDup n : NoDup (lvl n).
Proof.
  induction n as [|n IH]; [apply NoDup_singleton|]. cbn [lvl]. rewrite merge_sort_Permutation.
  apply NoDup_bind; [|intros; apply children_rows_NoDup|done].
  intros pe pe' e Hpe Hpe' He He'. unfold children_rows in *.
  apply list_elem_of_fmap in He as ([i r] & -> & Hs). apply list_elem_of_fmap in He' as ([i' r'] & [= -> -> Hg] & Hs').
  apply elem_of_select in Hs as [_ Hp%has_parent_spec], Hs' as [_ Hp'%has_parent_spec]. rewrite Hp in Hp'. injection Hp' as Hp'.
  by apply (lvl_inj n).
Qed.

(** *** Finitely many levels *)
Lemma lvl_empty_more n k : lvl n = [] → lvl (n + k) = [].
Proof.
  intros Hn. induction k as [|k IH]; [by rewrite Nat.add_0_r|]. rewrite Nat.add_succ_r. cbn [lvl]. by rewrite IH.
Qed.

Lemma descendants_lvl fuel n k :
  lvl (n + k) = [] → (k ≤ fuel)%nat →
  ∃ k', descendants fuel m n (lvl n) = Some (concat (lvl <$> seq n k')) ∧ lvl (n + k') = [].
Proof.
  revert n k. induction fuel as [|fuel IH]; intros n k Hk Hle.
  - exists 0%nat. replace k with 0%nat in Hk by lia. rewrite Nat.add_0_r in Hk. rewrite Nat.add_0_r, Hk. done.
  - cbn [descendants]. destruct (lvl n) as [|e l] eqn:Hn; [exists 0%nat; by rewrite Nat.add_0_r|].
    destruct k as [|k]; [rewrite Nat.add_0_r in Hk; congruence|]. rewrite Nat.add_succ_r in Hk.
    rewrite <-Hn. change (merge_sort de_le (lvl n ≫= children_rows m (S n))) with (lvl (S n)).
    destruct (IH (S n) k) as (k' & -> & Hk'); [done|lia|]. exists (S k'). by rewrite Nat.add_succ_r.
Qed.

Lemma up_iter c x n : up m c x = Some x → up m (n * c) x = Some x.
Proof.
  intros Hc. induction n as [|n IH]; [|cbn [Nat.mul]; by rewrite up_add, Hc].
  destruct c; cbn in *; by destruct (m !! x).
Qed.

Context (K : nat).
Hypothesis HK : lvl K = [].

(** Nothing below the root is above itself. *)
Lemma no_cycle i e c : e ∈ lvl i → up m (S c) (de_id e) = Some (de_id e) → False.
Proof.
  intros [_ Hi]%lvl_row Hc. apply (up_iter _ _ K) in Hc.
  assert (up m (K * S c + i) (de_id e) = Some (de_id root)) as Hup by (by rewrite up_add, Hc).
  apply lvl_complete in Hup as (e' & He' & _). replace (K * S c + i)%nat with (K + (K * c + i))%nat in He' by lia.
  rewrite (lvl_empty_more _ _ HK) in He'. by apply elem_of_nil in He'.
Qed.

Lemma lvl_unique i j e e' : e ∈ lvl i → e' ∈ lvl j → de_id e = de_id e' → i = j ∧ e = e'.
Proof.
  intros He He' Hid. assert (Hij : i = j); [|subst; split; [done|by eapply lvl_inj]].
  assert (Hwlog : ∀ i j e e', e ∈ lvl i → e' ∈ lvl j → de_id e = de_id e' → ¬ (i < j)%nat).
  { clear i j e e' He He' Hid. intros i j e e' [_ Hi]%lvl_row [_ Hj]%lvl_row Hid Hlt. rewrite <-Hid in Hj.
    replace j with (i + S (pred (j - i)))%nat in Hj by lia. rewrite up_add, Hi in Hj.
    apply (no_cycle 0 root (pred (j - i))); [apply list_elem_of_here|done]. }
  pose proof (Hwlog i j e e' He He' Hid). pose proof (Hwlog j i e' e He' He (eq_sym Hid)). lia.
Qed.

(** *** The children of an item in the list of descendants *)
Hypothesis Hguids : ∀ x y r r', m !! x = Some r → m !! y = Some r' → b_guid r = b_guid r' → x = y.
Hypothesis Hpos : ∀ p, contiguous m p.

Lemma child_of_lvl i j pe e :
  pe ∈ lvl i → e ∈ lvl (S j) → child_of (b_guid (de_row pe)) e → j = i ∧ b_parent (de_row e) = Some (de_id pe).
Proof.
  intros Hpe (pe' & Hpe' & Hr & Hp & _ & Hg)%elem_of_lvl_S Hc. unfold child_of in Hc. rewrite Hg in Hc. injection Hc as Hc.
  assert (de_id pe' = de_id pe) as Hid by (eapply Hguids; [by eapply lvl_row..|done]).
  destruct (lvl_unique _ _ _ _ Hpe' Hpe Hid) as [-> ->]. done.
Qed.
Definition no_row : BookmarkRow := mkBookmarkRow None 0 None 0 None 0 0 "" 0 0.
Definition child_row (i : nat) (pe : Descendant) (c : Z) : Descendant :=
  mkDescendant (S i) c (default no_row (m !! c)) (Some (b_guid (de_row pe))).

Lemma elem_of_children p c : c ∈ children m p ↔ ∃ r, m !! c = Some r ∧ b_parent r = Some p.
Proof.
  rewrite list_elem_of_lookup. split.
  - intros (i & Hi). apply (kids_lookup _ _ _ _ _ (Hpos p)), place_Some in Hi as (r & Hr & Hp & _). eauto.
  - intros (r & Hr & Hp). destruct (Hpos p c (b_position r)) as [(i & _ & Hi) _]; [apply place_Some; eauto|]. eauto.
Qed.
Lemma children_position p i c : children m p !! i = Some c → b_position (default no_row (m !! c)) = Z.of_nat i.
Proof. intros Hi. apply (kids_lookup _ _ _ _ _ (Hpos p)), place_Some in Hi as (r & -> & _ & Hz). done. Qed.

#[local] Instance de_le_trans : Transitive de_le.
Proof. intros x y z. unfold de_le. lia. Qed.
#[local] Instance de_le_total : Total de_le.
Proof. intros x y. unfold de_le. lia. Qed.

Lemma lvl_sorted n : StronglySorted de_le (lvl n).
Proof.
  destruct n as [|n]; [repeat constructor|]. apply Sorted_StronglySorted; [apply _|]. cbn [lvl]. apply (Sorted_merge_sort _).
Qed.
Lemma StronglySorted_filter {A} (R : relation A) (P : A → Prop) `{!∀ x, Decision (P x)} l :
  StronglySorted R l → StronglySorted R (filter P l).
Proof.
  induction 1 as [|x l Hl IH Hx]; [constructor|]. rewrite filter_cons. case_decide; [|done]. constructor; [done|].
  apply Forall_forall. intros y [_ Hy]%list_elem_of_filter. by eapply Forall_forall in Hx.
Qed.

Lemma lvl_children i pe :
  pe ∈ lvl i → filter (child_of (b_guid (de_row pe))) (lvl (S i)) = child_row i pe <$> children m (de_id pe).
Proof.
  intros Hpe. pose proof (lvl_row _ _ Hpe) as [Hrow _]. set (L := child_row i pe <$> children m (de_id pe)).
  assert (HL : ∀ n e, L !! n = Some e → b_parent (de_row e) = Some (de_id pe) ∧ b_position (de_row e) = Z.of_nat n).
  { intros n e. unfold L. rewrite list_lookup_fmap. intros (c & Hc & ->)%fmap_Some. cbn. split; [|by eapply children_position].
    by apply list_elem_of_lookup_2, elem_of_children in Hc as (r & -> & Hp). }
  assert (Hperm : filter (child_of (b_guid (de_row pe))) (lvl (S i)) ≡ₚ L).
  { apply NoDup_Permutation.
    - apply NoDup_filter, lvl_NoDup.
    - apply (NoDup_fmap_1 de_id). unfold L. rewrite <-list_fmap_compose. rewrite list_fmap_id. eapply kids_NoDup, Hpos.
    - intros e. unfold L. rewrite list_elem_of_filter, list_elem_of_fmap. split.
      + intros [Hc He]. destruct (child_of_lvl _ _ _ _ Hpe He Hc) as [_ Hp].
        apply elem_of_lvl_S in He as (_ & _ & Hr & _ & Hl & _). exists (de_id e). split.
        * unfold child_row. rewrite Hr, <-Hl, <-Hc. by destruct e.
        * apply elem_of_children. eauto.
      + intros (c & -> & (r & Hr & Hp)%elem_of_children). split; [done|]. apply elem_of_lvl_S. exists pe. cbn. by rewrite Hr. }
  apply (Sorted_unique_strong de_le); [|apply StronglySorted_Sorted, StronglySorted_filter, lvl_sorted| |done].
  - intros x y Hx Hy Hxy Hyx. rewrite Hperm in Hx. apply list_elem_of_lookup in Hx as (n & Hn), Hy as (k & Hk).
    pose proof (HL _ _ Hn) as (P1 & E1). pose proof (HL _ _ Hk) as (P2 & E2). unfold de_le, de_key in *.
    rewrite P1, P2, E1, E2 in *. cbn in *. assert (n = k) as -> by lia. congruence.
  - apply Sorted_lookup. intros n x y Hx Hy. right. apply HL in Hx as [P1 E1], Hy as [P2 E2]. unfold de_key.
    rewrite P1, P2, E1, E2. cbn. lia.
Qed.

(** The children of an item in several levels. *)
Lemma lvls_children i pe a n :
  pe ∈ lvl i →
  filter (child_of (b_guid (de_row pe))) (concat (lvl <$> seq (S a) n)) =
  if decide (a ≤ i < a + n)%nat then child_row i pe <$> children m (de_id pe) else [].
Proof.
  intros Hpe. revert a. induction n as [|n IH]; intros a; [by case_decide; [lia|]|].
  cbn [seq fmap list_fmap concat]. rewrite filter_app. change (list_fmap _ _ lvl) with (fmap (M:=list) lvl). rewrite IH.
  destruct (decide (a = i)) as [->|Hne].
  - rewrite lvl_children by done. rewrite decide_False, decide_True, app_nil_r by lia. done.
  - assert (filter (child_of (b_guid (de_row pe))) (lvl (S a)) = []) as ->.
    { destruct (filter _ _) as [|e l] eqn:Hf; [done|].
      assert (Hin : e ∈ filter (child_of (b_guid (de_row pe))) (lvl (S a))) by (rewrite Hf; apply list_elem_of_here).
      apply list_elem_of_filter in Hin as [Hc He]. destruct (child_of_lvl _ _ _ _ Hpe He Hc); congruence. }
    cbn [app]. repeat case_decide; done || lia.
Qed.

(** ** Inflation *)
Context `{!UrlLib} (d : PlacesDb).

(** The guids at and below an item. *)
Definition guid_under (c : Z) (g : string) : Prop :=
  ∃ y r j, m !! y = Some r ∧ b_guid r = g ∧ up m j y = Some c.

Lemma guid_under_child p c r g : m !! c = Some r → b_parent r = Some p → is_Some (m !! p) → guid_under c g → guid_under p g.
Proof.
  intros Hr Hp [rp Hrp] (y & ry & j & Hy & Hg & Hup). exists y, ry, (j + 1)%nat. split_and!; [done..|].
  rewrite up_add, Hup. cbn. rewrite Hr, Hp. cbn. by rewrite Hrp.
Qed.
Lemma guid_under_self i e : e ∈ lvl i → guid_under (de_id e) (b_guid (de_row e)).
Proof. intros [Hr _]%lvl_row. exists (de_id e), (de_row e), 0%nat. cbn. by rewrite Hr. Qed.

(** What is under an item is not under another one of the same level, nor the item above. *)
Lemma guid_under_disjoint i e e' g : e ∈ lvl i → e' ∈ lvl i → guid_under (de_id e) g → guid_under (de_id e') g → e = e'.
Proof.
  intros He He' (y & r & j & Hy & Hg & Hup) (y' & r' & j' & Hy' & Hg' & Hup').
  assert (y' = y) as -> by (apply (Hguids _ _ _ _ Hy' Hy); congruence).
  assert (Hroot' : ∀ e j, e ∈ lvl i → up m j y = Some (de_id e) → ∃ e0, e0 ∈ lvl (j + i) ∧ de_id e0 = y).
  { intros e0 j0 [_ He0]%lvl_row Hj0. apply lvl_complete. by rewrite up_add, Hj0. }
  destruct (Hroot' e j He Hup) as (e0 & He0 & Hid0), (Hroot' e' j' He' Hup') as (e1 & He1 & Hid1).
  destruct (lvl_unique _ _ _ _ He0 He1) as [Hj _]; [congruence|]. assert (j' = j) as -> by lia.
  eapply lvl_inj; [done..|]. congruence.
Qed.
Lemma guid_under_parent i pe c : pe ∈ lvl i → child_row i pe c ∈ lvl (S i) → ¬ guid_under c (b_guid (de_row pe)).
Proof.
  intros Hpe Hc (y & r & j & Hy & Hg & Hup). pose proof (lvl_row _ _ Hpe) as [Hrow Hi].
  assert (y = de_id pe) as -> by (by eapply Hguids). pose proof (lvl_row _ _ Hc) as [_ Hi'].
  assert (Hx : up m (j + S i) (de_id pe) = Some (de_id root)) by (rewrite up_add, Hup; exact Hi').
  apply lvl_complete in Hx as (e & He & Hid). destruct (lvl_unique _ _ _ _ He Hpe Hid). lia.
Qed.

Context (T : gmap string (list BookmarkTreeNode)).
Hypothesis HT : ∀ i pe, pe ∈ lvl i →
  filed T (b_guid (de_row pe)) = omap (λ c, m !! c ≫= shallow d) (children m (de_id pe)).

(** What inflating the node of an item does. *)
Definition inflates (h : nat) : Prop := ∀ i pe n t fuel,
  pe ∈ lvl i → lvl (i + h) = [] → shallow d (de_row pe) = Some n →
  (∀ g, guid_under (de_id pe) g → t !! g = T !! g) → (size t < fuel)%nat →
  ∃ n' t', inflate fuel n t = (n', t') ∧ read_node d h m (de_id pe) = Some n' ∧ t' ⊆ t ∧
    ∀ g, ¬ guid_under (de_id pe) g → t' !! g = t !! g.

Definition inflate_step (fuel : nat) : list BookmarkTreeNode * gmap string (list BookmarkTreeNode) → BookmarkTreeNode → _ :=
  λ '(acc, t) c, let '(c, t) := inflate fuel c t in (acc ++ [c], t).

Lemma child_row_lvl i pe c : pe ∈ lvl i → c ∈ children m (de_id pe) → child_row i pe c ∈ lvl (S i).
Proof. intros Hpe (r & Hr & Hp)%elem_of_children. apply elem_of_lvl_S. exists pe. cbn. by rewrite Hr. Qed.

Lemma inflate_children h fuel i cs acc t :
  inflates h → lvl (S i + h) = [] → NoDup cs → (∀ c, c ∈ cs → ∃ e, e ∈ lvl (S i) ∧ de_id e = c) →
  (∀ c g, c ∈ cs → guid_under c g → t !! g = T !! g) → (size t < fuel)%nat →
  ∃ t', foldl (inflate_step fuel) (acc, t) (omap (λ c, m !! c ≫= shallow d) cs) = (acc ++ omap (read_node d h m) cs, t') ∧
    t' ⊆ t ∧ ∀ g, (∀ c, c ∈ cs → ¬ guid_under c g) → t' !! g = t !! g.
Proof.
  intros Hh Hend Hnd. revert acc t. induction Hnd as [|c cs Hc Hnd IH]; intros acc t Hcs Ht Hsize.
  { exists t. cbn. by rewrite app_nil_r. }
  destruct (Hcs c (list_elem_of_here _ _)) as (e & He & <-). pose proof (lvl_row _ _ He) as [Hrow _].
  change (omap (λ c, m !! c ≫= shallow d) (de_id e :: cs)) with
    (match m !! de_id e ≫= shallow d with
     | Some n => n :: omap (λ c, m !! c ≫= shallow d) cs | None => omap (λ c, m !! c ≫= shallow d) cs end).
  change (omap (read_node d h m) (de_id e :: cs)) with
    (match read_node d h m (de_id e) with
     | Some n => n :: omap (read_node d h m) cs | None => omap (read_node d h m) cs end).
  rewrite Hrow. cbn [mbind option_bind]. destruct (shallow d (de_row e)) as [n|] eqn:Hn.
  - destruct (Hh (S i) e n t fuel) as (n' & t1 & Hinf & Hread & Hsub & Hframe); [done..| |done|].
    { intros g. apply Ht, list_elem_of_here. }
    destruct (IH (acc ++ [n']) t1) as (t2 & Hfold & Hsub2 & Hframe2).
    + intros x Hx. by apply Hcs, list_elem_of_further.
    + intros x g Hx Hg. rewrite Hframe; [by eapply Ht; [apply list_elem_of_further|]|]. intros Hg'.
      destruct (Hcs x (list_elem_of_further _ _ _ Hx)) as (e' & He' & <-).
      by rewrite (guid_under_disjoint _ _ _ _ He He' Hg' Hg) in Hc.
    + apply map_subseteq_size in Hsub. lia.
    + exists t2. rewrite Hread. cbn [foldl inflate_step]. rewrite Hinf, Hfold, <-app_assoc. split_and!; [done| |].
      * by trans t1.
      * intros g Hg. rewrite Hframe2, Hframe; [done|apply Hg, list_elem_of_here|]. intros x Hx. by apply Hg, list_elem_of_further.
  - assert (read_node d h m (de_id e) = None) as -> by (apply read_node_None; by rewrite Hrow).
    destruct (IH acc t) as (t2 & Hfold & Hsub2 & Hframe2); [..|done|].
    + intros x Hx. by apply Hcs, list_elem_of_further.
    + intros x g Hx. by apply Ht, list_elem_of_further.
    + exists t2. split_and!; [done..|]. intros g Hg. apply Hframe2. intros x Hx. by apply Hg, list_elem_of_further.
Qed.

(** A folder above the level [i + 1]. *)
Lemma inflate_folder h fuel i pe f t :
  inflates h → pe ∈ lvl i → lvl (S i + h) = [] → fn_guid f = Some (b_guid (de_row pe)) →
  (∀ g, guid_under (de_id pe) g → t !! g = T !! g) → (size t < fuel)%nat →
  ∃ t', inflate fuel (NFolder f []) t = (NFolder f (omap (read_node d h m) (children m (de_id pe))), t') ∧ t' ⊆ t ∧
    ∀ g, ¬ guid_under (de_id pe) g → t' !! g = t !! g.
Proof.
  intros Hh Hpe Hend Hf Ht Hsize. destruct fuel as [|fuel]; [lia|]. cbn [inflate]. rewrite Hf. cbn [mbind option_bind].
  pose proof (HT _ _ Hpe) as Hfiled. pose proof (guid_under_self _ _ Hpe) as Hself. pose proof (lvl_row _ _ Hpe) as [Hrow _].
  unfold filed in Hfiled. rewrite <-(Ht _ Hself) in Hfiled.
  assert (Hup : ∀ c g, c ∈ children m (de_id pe) → guid_under c g → guid_under (de_id pe) g).
  { intros c g (r & Hr & Hp)%elem_of_children. eapply guid_under_child; [done..|by rewrite Hrow]. }
  destruct (t !! b_guid (de_row pe)) as [l|] eqn:Hl; cbn [fmap option_fmap option_map default] in *.
  - cbn in Hfiled. rewrite Hfiled. destruct (inflate_children h fuel i (children m (de_id pe)) [] (delete (b_guid (de_row pe)) t))
      as (t' & Hfold & Hsub & Hframe); [done..| | | | |].
    + eapply kids_NoDup, Hpos.
    + intros c Hc. exists (child_row i pe c). split; [by apply child_row_lvl|done].
    + intros c g Hc Hg. rewrite lookup_delete_ne; [by apply Ht, Hup with c|]. intros <-.
      by eapply guid_under_parent; [|by apply child_row_lvl|].
    + rewrite map_size_delete_Some by by rewrite Hl. assert (size t ≠ 0)%nat; [|lia].
      intros H0%map_size_empty_inv. by rewrite H0 in Hl.
    + unfold inflate_step in Hfold. rewrite Hfold. exists t'. split_and!; [done| |].
      * trans (delete (b_guid (de_row pe)) t); [done|apply delete_subseteq].
      * intros g Hg. rewrite Hframe; [rewrite lookup_delete_ne; [done|by intros <-]|]. intros c Hc Hg'. by apply Hg, Hup with c.
  - exists t. split_and!; [|done..]. do 2 f_equal. symmetry. eapply omap_None; [|done]. intros x. apply read_node_None.
Qed.

Lemma inflate_ok h : inflates h.
Proof.
  induction h as [|h IH]; intros i pe n t fuel Hpe Hend Hn Ht Hsize.
  { rewrite Nat.add_0_r in Hend. rewrite Hend in Hpe. by apply elem_of_nil in Hpe. }
  pose proof (lvl_row _ _ Hpe) as [Hrow _]. rewrite Nat.add_succ_r in Hend. cbn [read_node]. rewrite Hrow. cbn. rewrite Hn. cbn.
  destruct n as [b|s|f l].
  1, 2: destruct fuel; [lia|]; by eexists _, t.
  apply shallow_folder in Hn as [-> Hf].
  destruct (inflate_folder h fuel i pe f t) as (t' & Hinf & ? & ?); [done..|]. by eexists _, t'.
Qed.
End levels.

(** ** Trees without cycles *)
Definition acyclic (m : gmap Z BookmarkRow) : Prop := ∀ x n, up m (S n) x ≠ Some x.

Lemma up_Some m n x y : up m n x = Some y → is_Some (m !! y).
Proof.
  revert x. induction n as [|n IH]; intros x; cbn; destruct (m !! x) as [r|] eqn:Hx; [|done| |done].
  - intros [= <-]. by rewrite Hx.
  - destruct (b_parent r); [apply IH|done].
Qed.
Lemma up_le m i n x y : up m n x = Some y → (i ≤ n)%nat → is_Some (up m i x).
Proof.
  intros Hn Hle. replace n with (i + (n - i))%nat in Hn by lia. rewrite up_add in Hn. by destruct (up m i x).
Qed.

(** A chain of ancestors is not longer than the table. *)
Lemma up_size m n x y : acyclic m → up m n x = Some y → (n < size m)%nat.
Proof.
  intros Hac Hn. set (f j := default 0 (up m j x)).
  assert (Hf : ∀ j, (j ≤ n)%nat → up m j x = Some (f j)).
  { intros j Hj. destruct (up_le _ _ _ _ _ Hn Hj) as [z Hz]. unfold f. by rewrite Hz. }
  assert (Hne : ∀ i j, (i < j ≤ n)%nat → f i ≠ f j).
  { intros i j Hij Hfij. assert (Hj : up m (i + S (j - i - 1)) x = Some (f j)).
    { replace (i + S (j - i - 1))%nat with j by lia. apply Hf. lia. }
    rewrite up_add, (Hf i), <-Hfij in Hj by lia. by apply (Hac (f i) (j - i - 1)%nat). }
  assert (Hnd : NoDup (f <$> seq 0 (S n))).
  { apply (NoDup_fmap_2_strong f); [|apply NoDup_seq]. intros i j Hi%elem_of_seq Hj%elem_of_seq Hfij.
    destruct (Nat.lt_total i j) as [Hlt|[Heq|Hlt]]; [|done|]; exfalso; [apply (Hne i j)|apply (Hne j i)]; done || lia. }
  assert (Hsub : (list_to_set (f <$> seq 0 (S n)) : gset Z) ⊆ dom m).
  { intros z (j & -> & Hj%elem_of_seq)%elem_of_list_to_set%list_elem_of_fmap. apply elem_of_dom.
    eapply up_Some, Hf. lia. }
  apply subseteq_size in Hsub. rewrite size_list_to_set, length_fmap, length_seq, size_dom in Hsub by done. lia.
Qed.

Lemma acyclic_increasing m : (∀ x r p, m !! x = Some r → b_parent r = Some p → p < x) → acyclic m.
Proof.
  intros Hlt. assert (Hle : ∀ n x y, up m n x = Some y → y ≤ x ∧ (n ≠ 0%nat → y < x)).
  { induction n as [|n IH]; intros x y; cbn; destruct (m !! x) as [r|] eqn:Hx; try done.
    - intros [= <-]. lia.
    - destruct (b_parent r) as [p|] eqn:Hp; [|done]. cbn. intros [Hy _]%IH. pose proof (Hlt _ _ _ Hx Hp). lia. }
  intros x n Hx. apply Hle in Hx as [_ Hx]. specialize (Hx ltac:(done)). lia.
Qed.

(** ** Serialisation *)
Section serialisation.
Context `{!UrlLib}.
Hypothesis url_round_trip : ∀ u : Url, url_parse (url_as_str u) = Ok u.

Fixpoint node_size (n : BookmarkTreeNode) : nat :=
  match n with NFolder _ l => S (list_sum (List.map node_size l)) | _ => 1%nat end.

(** The JSON of a tree of bookmarks is read back as the same tree, if URLs are parsed back
    from their text. *)
Theorem tree_json_round_trip (n : BookmarkTreeNode) : deserialize (serialize n) = n.
Proof.
  induction n as [n IH] using (induction_ltof1 _ node_size). unfold ltof in IH. destruct n as [[]|[]|[] l]; cbn.
  - by rewrite url_round_trip.
  - done.
  - f_equal. rewrite List.map_map. rewrite <-(List.map_id l) at 2. apply List.map_ext_in. intros c Hc. apply IH. cbn.
    apply in_split in Hc as (l1 & l2 & ->). rewrite List.map_app, list_sum_app. cbn. lia.
Qed.
End serialisation.

(** ** fetch_tree *)
Section fetch.
Context {W : Type} `{!UrlLib, !Interruptee W, !Clock W, !Rand W, !UrlSafeBase64}.
Hypothesis uninterrupted : ∀ w : W, fst (was_interrupted w) = false.

Lemma check_interrupted_run (d : PlacesDb) (w : W) : ∃ w', check_interrupted (d, w) = (Ok tt, (d, w')).
Proof.
  unfold check_interrupted, on_world, err_if_interrupted. pose proof (uninterrupted w).
  destruct (was_interrupted w) as [b w']. cbn in *. subst b. by eexists.
Qed.

(** The columns of a row can be read. *)
Definition readable (r : BookmarkRow) : Prop := 0 ≤ b_type r < 256 ∧ 0 ≤ b_position r < 2 ^ 32.

Lemma from_row_shallow (d : PlacesDb) e :
  readable (de_row e) →
  ∃ row, FetchedTreeRow_from_row d e = Ok row ∧ row_node row = shallow d (de_row e) ∧ ft_parent_guid row = de_parent_guid e.
Proof.
  intros [Ht Hp]. unfold shallow, FetchedTreeRow_from_row, get_u8, get_u32. cbn [de_row].
  rewrite (proj2 (Z.leb_le 0 (b_type _))), (proj2 (Z.ltb_lt (b_type _) 256)), (proj2 (Z.leb_le 0 (b_position _))),
    (proj2 (Z.ltb_lt (b_position _) (2 ^ 32))) by lia. by eexists.
Qed.

Lemma build_pseudo_tree_run (d d0 : PlacesDb) L t (w : W) :
  Forall (λ e, readable (de_row e)) L →
  ∃ w', build_pseudo_tree d L t (d0, w) = (Ok (foldl (file d) t L), (d0, w')).
Proof.
  intros HL. revert t w. induction HL as [|e L He _ IH]; intros t w; [by eexists|]. cbn [build_pseudo_tree foldl].
  destruct (from_row_shallow d e He) as (row & Hrow & Hn & Hg).
  rewrite (st_bind_run _ _ _ row (d0, w)) by (unfold st_lift; by rewrite Hrow).
  destruct (check_interrupted_run d0 w) as (w1 & Hw1). rewrite (st_bind_run _ _ _ _ _ Hw1). rewrite Hn, Hg. apply IH.
Qed.

(** What is at the top of the tree that [fetch_tree] returns: a folder, whatever the item is. *)
Definition top_folder (r : BookmarkRow) : FolderNode :=
  mkFolderNode (Some (b_guid r)) (Some (ts_of_sql (b_dateAdded r))) (Some (ts_of_sql (b_lastModified r))) (nullif_empty (b_title r)).

Lemma pseudo_tree_lvl (d : PlacesDb) m root K i pe :
  m !! de_id root = Some (de_row root) → lvl m root K = [] →
  (∀ x y r r', m !! x = Some r → m !! y = Some r' → b_guid r = b_guid r' → x = y) → (∀ p, contiguous m p) →
  pe ∈ lvl m root i →
  filed (foldl (file d) ∅ (concat (lvl m root <$> seq 1 K))) (b_guid (de_row pe)) =
  omap (λ c, m !! c ≫= shallow d) (children m (de_id pe)).
Proof.
  intros Hroot HK Hguids Hpos Hpe. rewrite filed_foldl. unfold filed at 1. rewrite lookup_empty. cbn [default app].
  rewrite (lvls_children m root Hroot K HK Hguids Hpos i pe 0 K Hpe).
  rewrite decide_True.
  - assert (Hall : ∀ c, c ∈ children m (de_id pe) → is_Some (m !! c)).
    { intros c (r & Hr & _)%(elem_of_children m Hpos). by rewrite Hr. }
    induction (children m (de_id pe)) as [|c cs IH]; [done|]. cbn. destruct (Hall c (list_elem_of_here _ _)) as [r Hr].
    rewrite Hr. cbn. destruct (shallow d r); [f_equal|]; apply IH; intros x Hx; by apply Hall, list_elem_of_further.
  - split; [lia|]. destruct (decide (i < K)%nat); [lia|]. exfalso. replace i with (K + (i - K))%nat in Hpe by lia.
    rewrite (lvl_empty_more m root _ _ HK) in Hpe. by apply elem_of_nil in Hpe.
Qed.

(** The rows after the first one. *)
Lemma drop_root m root k :
  lvl m root k = [] → drop 1 (concat (lvl m root <$> seq 0 k)) = concat (lvl m root <$> seq 1 k).
Proof.
  intros Hk. destruct k as [|k]; [done|]. rewrite (seq_S k 1), fmap_app, concat_app. cbn [fmap list_fmap concat].
  change (1 + k)%nat with (S k). rewrite Hk, !app_nil_r. done.
Qed.

Lemma lvl_readable m root n : m !! de_id root = Some (de_row root) → map_Forall (λ _, readable) m → Forall (λ e, readable (de_row e)) (lvl m root n).
Proof. intros Hroot Hm. apply Forall_forall. intros e [Hr _]%(lvl_row m root Hroot). by apply (Hm _ _ Hr). Qed.

(** The tree of the item with the guid [g], by recursion. *)
Definition read_tree (d : PlacesDb) (g : string) : option BookmarkTreeNode :=
  '(id, r) ← select_first (has_guid g) (moz_bookmarks d);
  Some (NFolder (top_folder r) (omap (read_node d (size (moz_bookmarks d)) (moz_bookmarks d)) (children (moz_bookmarks d) id))).

Lemma fetch_tree_run d g (w : W) :
  tree_ok d → acyclic (moz_bookmarks d) → map_Forall (λ _, readable) (moz_bookmarks d) →
  ∃ w', fetch_tree g (d, w) = (Ok (read_tree d g), (d, w')).
Proof.
  intros [Hnodes Hpos] Hac Hread. set (m := moz_bookmarks d) in *. unfold fetch_tree, read_tree. fold m.
  rewrite (st_bind_run _ _ _ d (d, w)) by done. fold m.
  destruct (select_first (has_guid g) m) as [[id r]|] eqn:Hsel; [|by eexists]. cbn [mbind option_bind].
  apply select_first_Some in Hsel as [Hr _].
  set (root := mkDescendant 0 id r (b_guid <$> (b_parent r ≫= λ p, m !! p))).
  assert (Hroot : m !! de_id root = Some (de_row root)) by exact Hr.
  assert (Hguids : ∀ x y rx ry, m !! x = Some rx → m !! y = Some ry → b_guid rx = b_guid ry → x = y).
  { intros x y rx ry Hx Hy Hg. apply node_row in Hx, Hy. unfold node_of in Hx, Hy. rewrite Hg in Hx.
    by eapply (ok_guids _ _ Hnodes). }
  assert (Hsize : lvl m root (0 + size m) = []).
  { destruct (lvl m root (0 + size m)) as [|e l] eqn:Hl; [done|].
    assert (He : e ∈ lvl m root (size m)) by (cbn in Hl; rewrite Hl; apply list_elem_of_here).
    apply (lvl_row m root Hroot) in He as [_ He]. apply up_size in He; [lia|done]. }
  destruct (descendants_lvl m root (S (size m)) 0 (size m) Hsize) as (k & Hdesc & Hk); [lia|].
  cbn [lvl] in Hdesc. rewrite Hdesc. cbn [Nat.add] in Hk.
  destruct (from_row_shallow d root) as (row & Hrow & _); [by apply (Hread _ _ Hr)|].
  rewrite (st_bind_run _ _ _ row (d, w)) by (unfold st_lift; by rewrite Hrow).
  destruct (check_interrupted_run d w) as (w1 & Hw1). rewrite (st_bind_run _ _ _ _ _ Hw1).
  rewrite (drop_root _ _ _ Hk).
  destruct (build_pseudo_tree_run d d (concat (lvl m root <$> seq 1 k)) ∅ w1) as (w2 & Hw2).
  { apply Forall_concat, Forall_fmap, Forall_forall. intros n _. by apply lvl_readable. }
  rewrite (st_bind_run _ _ _ _ _ Hw2). exists w2.
  set (T := foldl (file d) ∅ (concat (lvl m root <$> seq 1 k))).
  assert (HT : ∀ i pe, pe ∈ lvl m root i → filed T (b_guid (de_row pe)) = omap (λ c, m !! c ≫= shallow d) (children m (de_id pe))).
  { intros i pe Hpe. by eapply pseudo_tree_lvl. }
  assert (NFolder (mkFolderNode (Some (ft_guid row)) (Some (ft_date_added row)) (Some (ft_last_modified row)) (ft_title row)) [] =
    NFolder (top_folder r) []) as ->.
  { unfold FetchedTreeRow_from_row in Hrow. bind_inv Hrow. by injection Hrow as <-. }
  destruct (inflate_folder m root Hroot k Hk Hguids Hpos d T HT (size m) (S (size T)) 0 root (top_folder r) T)
    as (t' & -> & _); [apply inflate_ok with k; done|apply list_elem_of_here| |done..|lia|done].
  apply (lvl_empty_more m root _ 1) in Hsize. by rewrite Nat.add_comm in Hsize.
Qed.

(** C27: if the table is well-formed, without cycles and its columns are in range, then
    [fetch_tree] returns what a recursion over the ordered children of each folder returns,
    and does not change the database. *)
Theorem fetch_tree_reads_tree d g (w : W) :
  tree_ok d → acyclic (moz_bookmarks d) → map_Forall (λ _, readable) (moz_bookmarks d) →
  ∃ w', fetch_tree g (d, w) = (Ok (read_tree d g), (d, w')).
Proof. apply fetch_tree_run. Qed.
End fetch.

Module ToyTree.
Import ToyPlaces ToyOps.

Lemma toy_acyclic : acyclic (moz_bookmarks toy_db).
Proof.
  apply acyclic_increasing.
  assert (Hall : map_Forall (λ x r, default (x - 1) (b_parent r) < x) (moz_bookmarks toy_db)).
  { apply (bool_decide_unpack _). vm_compute. exact I. }
  intros x r p Hx Hp. apply Hall in Hx. cbn in Hx. by rewrite Hp in Hx.
Qed.
Lemma toy_readable : map_Forall (λ _, readable) (moz_bookmarks toy_db).
Proof.
  assert (Hall : map_Forall (λ _ r, 0 ≤ b_type r < 256 ∧ 0 ≤ b_position r < 2 ^ 32) (moz_bookmarks toy_db)).
  { apply (bool_decide_unpack _). vm_compute. exact I. }
  exact Hall.
Qed.

Lemma tree_json_round_trip_witness :
  (∃ n, read_tree toy_db "menu________" = Some n ∧ serialize n ≠ serialize (NFolder (mkFolderNode None None None None) [])) ∧
  option_map (deserialize ∘ serialize) (read_tree toy_db "menu________") = read_tree toy_db "menu________".
Proof.
  split.
  - destruct (read_tree toy_db "menu________") as [n|] eqn:Hn; [|vm_compute in Hn; discriminate].
    exists n. split; [reflexivity|]. vm_compute in Hn. injection Hn as <-. discriminate.
  - destruct (read_tree toy_db "menu________") as [n|]; [|reflexivity]. cbn. f_equal.
    exact (tree_json_round_trip (λ _, eq_refl) n).
Defined.

Lemma fetch_tree_reads_tree_witness :
  fmap (M:=option) (λ n, match n with NFolder _ l => length l | _ => 0%nat end) (read_tree toy_db "menu________") = Some 3%nat ∧
  ∃ w', fetch_tree "menu________" (toy_db, 100%nat) = (Ok (read_tree toy_db "menu________"), (toy_db, w')).
Proof.
  split; [vm_compute; reflexivity|].
  exact (fetch_tree_reads_tree (W:=nat) (λ _, eq_refl) toy_db "menu________" 100%nat toy_db_ok toy_acyclic toy_readable).
Defined.
End ToyTree.
