(* ===== verification/PublicNode.v ===== *)
(** * Places: bookmarks at the FFI

    Model of [components/places/src/storage/bookmarks/public_node.rs] and [conversions.rs]:
    the nodes that are handed out, the messages they are turned into, and the messages that
    ask for insertions and updates. *)

From S2P Require Import Prelude Database Sync15Types KeyBundle State Viaduct Token PlacesTypes PlacesDb Bookmarks BookmarksSpec BookmarksOps BookmarkTree BookmarkTreeSpec.
From Stdlib Require Import Ascii String.
From stdpp Require Import sorting strings list gmap fin_sets.
Local Open Scope Z_scope.
Local Open Scope list_scope.

(** [let _tx = begin_transaction()?] that is never committed. *)
Definition dropped_transaction {D W E A} (c : ST (D * W) E A) : ST (D * W) E A := λ '(d, w),
  let '(r, (_, w)) := c (d, w) in (r, (d, w)).

(** A message, as [places_msg_types.proto] has it. *)
Inductive ProtoBookmark := mkProtoBookmark {
  m_node_type : option Z; m_guid : option string; m_date_added : option Z; m_last_modified : option Z;
  m_parent_guid : option string; m_position : option Z; m_title : option string; m_url : option string;
  m_child_guids : list string; m_child_nodes : list ProtoBookmark; m_have_child_nodes : option bool }.

Section public.
Context {W : Type} `{!UrlLib, !Interruptee W, !Clock W, !Rand W, !UrlSafeBase64}.
(** The overflow checks and debug assertions of the build. *)
Context (checks debug : bool).
Abbreviation DB := (ST (PlacesDb * W) PlacesError).

Inductive PublicNode := mkPublicNode {
  n_node_type : BookmarkType; n_guid : string; n_parent_guid : option string; n_position : Z;
  n_date_added : Z; n_last_modified : Z; n_url : option Url; n_title : option string;
  n_child_guids : option (list string); n_child_nodes : option (list PublicNode) }.

(** [PartialEq]. *)
Definition opt_eqb {A} (eqb : A → A → bool) (a b : option A) : bool :=
  match a, b with Some x, Some y => eqb x y | None, None => true | _, _ => false end.
Fixpoint list_eqb {A} (eqb : A → A → bool) (l k : list A) : bool :=
  match l, k with [], [] => true | x :: l, y :: k => eqb x y && list_eqb eqb l k | _, _ => false end.
Fixpoint PublicNode_eq (a b : PublicNode) : bool :=
  bool_decide (n_node_type a = n_node_type b) && String.eqb (n_guid a) (n_guid b) &&
  opt_eqb String.eqb (n_parent_guid a) (n_parent_guid b) && opt_eqb url_eqb (n_url a) (n_url b) &&
  opt_eqb (list_eqb String.eqb) (n_child_guids a) (n_child_guids b) &&
  match n_child_nodes a, n_child_nodes b with
  | Some l, Some k => list_eqb PublicNode_eq l k
  | None, None => true
  | _, _ => false
  end.

(** [From<RawBookmark>]. *)
Definition PublicNode_from_raw (rb : RawBookmark) : PublicNode :=
  mkPublicNode (bookmark_type rb) (guid rb) (parent_guid rb) (position rb) (date_added rb) (date_modified rb)
    (url rb) (title rb) None None.

Definition with_parent (parent : option string) (pos : Z) (n : PublicNode) : PublicNode :=
  mkPublicNode (n_node_type n) (n_guid n) parent pos (n_date_added n) (n_last_modified n) (n_url n) (n_title n)
    (n_child_guids n) (n_child_nodes n).

(** [From<BookmarkTreeNode>]. *)
Fixpoint PublicNode_from_tree (n : BookmarkTreeNode) : DB PublicNode :=
  '(date_added, last_modified) ← created_modified n;
  own_guid ← st_lift (node_guid n);
  match n with
  | NBookmark b =>
      mret (mkPublicNode TBookmark own_guid None 0 date_added last_modified (Some (bn_url b)) (bn_title b) None None)
  | NSeparator _ => mret (mkPublicNode TSeparator own_guid None 0 date_added last_modified None None None None)
  | NFolder f children =>
      nodes ← (fix go (i : Z) (l : list BookmarkTreeNode) : DB (list PublicNode) :=
                 match l with
                 | [] => mret []
                 | bn :: l =>
                     child ← PublicNode_from_tree bn;
                     rest ← go (i + 1) l;
                     mret (with_parent (Some own_guid) (wrap 32 i) child :: rest)
                 end) 0 children;
      mret (mkPublicNode TFolder own_guid None 0 date_added last_modified None (fn_title f) None (Some nodes))
  end.

(** The second assertion on children, that of [guids] and [nodes] one is given, repeats the
    condition it is under. *)
Definition with_children (self : PublicNode) (guids : option (list string)) (nodes : option (list PublicNode))
    : res PlacesError PublicNode :=
  _ ← (if negb debug then Ok tt
       else if is_some guids || is_some nodes
       then rassert (bool_decide (n_node_type self = TFolder)) "Trying to set children on non-folder"
       else rassert (negb (bool_decide (n_node_type self = TFolder))) "Should provide children or guids to folder!");
  Ok (mkPublicNode (n_node_type self) (n_guid self) (n_parent_guid self) (n_position self) (n_date_added self)
        (n_last_modified self) (n_url self) (n_title self) guids nodes).

(** ** Messages *)
(** [From<PublicNode> for msg_types::BookmarkNode]. *)
Fixpoint Proto_from_node (n : PublicNode) : ProtoBookmark :=
  mkProtoBookmark (Some (BookmarkType.as_u8 (n_node_type n))) (Some (n_guid n)) (Some (wrap_i64 (n_date_added n)))
    (Some (wrap_i64 (n_last_modified n))) (n_parent_guid n) (Some (n_position n)) (n_title n)
    (url_as_str <$> n_url n)
    (match n_child_guids n with Some l => l | None => [] end)
    (match n_child_nodes n with Some l => List.map Proto_from_node l | None => [] end)
    (match n_node_type n with TFolder => Some (is_some (n_child_nodes n)) | _ => None end).

Definition get_node_type (m : ProtoBookmark) : res PlacesError BookmarkType :=
  value ← match m_node_type m with Some v => Ok v | None => Panic "called `Option::unwrap()` on a `None` value" end;
  _ ← rassert ((0 <=? value) && (value <=? 255)) "wildly illegal node_type";
  match BookmarkType.from_u8 value with Some t => Ok t | None => Panic "Invalid node_type" end.

Definition into_insertable (m : ProtoBookmark) : res PlacesError InsertableItem :=
  ty ← get_node_type m;
  let parent_guid := default (BookmarkRootGuid.as_str Unfiled) (m_parent_guid m) in
  let position := match m_position m with Some p => Specific p | None => Append end in
  match ty with
  | TBookmark =>
      url ← parse_url (default ""%string (m_url m));
      Ok (IBookmark (mkInsertableBookmark parent_guid position None None None url (m_title m)))
  | TSeparator => Ok (ISeparator (mkInsertableSeparator parent_guid position None None None))
  | TFolder => Ok (IFolder (mkInsertableFolder parent_guid position None None None (m_title m)))
  end.

Record BookmarkUpdateInfo := mkBookmarkUpdateInfo {
  ui_guid : string; ui_title : option string; ui_url : option string; ui_parent_guid : option string; ui_position : option Z }.

Definition BookmarkUpdateInfo_from (m : ProtoBookmark) : res PlacesError BookmarkUpdateInfo :=
  match m_guid m with
  | Some g => Ok (mkBookmarkUpdateInfo g (m_title m) (m_url m) (m_parent_guid m) (m_position m))
  | None => Panic "Missing guid"
  end.

Definition update_location (i : BookmarkUpdateInfo) : UpdateTreeLocation :=
  match ui_parent_guid i, ui_position i with
  | None, None => LocNone
  | None, Some pos => LocPosition (Specific pos)
  | Some parent_guid, pos => LocParent parent_guid (match pos with Some p => Specific p | None => Append end)
  end.

Definition into_updatable (i : BookmarkUpdateInfo) (ty : BookmarkType) : res PlacesError (string * UpdatableItem) :=
  if is_some (ui_title i) && bool_decide (ty = TSeparator) then Err (PInvalidPlaceInfo (IllegalChange "title" ty))
  else if is_some (ui_url i) && negb (bool_decide (ty = TBookmark)) then Err (PInvalidPlaceInfo (IllegalChange "url" ty))
  else
    updatable ← match ty with
                | TBookmark =>
                    url ← parse_opt_url (ui_url i);
                    Ok (UBookmark (mkUpdatableBookmark (update_location i) url (ui_title i)))
                | TSeparator => Ok (USeparator (mkUpdatableSeparator (update_location i)))
                | TFolder => Ok (UFolder (mkUpdatableFolder (update_location i) (ui_title i)))
                end;
    Ok (ui_guid i, updatable).

(** ** Reads *)
(** [get_raw_bookmarks_for_url], in the order of the ids. *)
Definition place_has_url (d : PlacesDb) (hash : Z) (url : string) (r : BookmarkRow) : bool :=
  match b_fk r ≫= λ id, moz_places d !! id with
  | Some p => (p_url_hash p =? hash) && String.eqb (p_url p) url
  | None => false
  end.
Definition get_raw_bookmarks_for_url (url : Url) : DB (list RawBookmark) :=
  d ← db_get;
  hash ← st_lift (sql_hash (url_as_str url));
  st_lift (mapM (λ '(id, r), RawBookmark_from_row d id r)
             (select (place_has_url d hash (url_as_str url)) (moz_bookmarks d))).

(** The rows of a folder, [ORDER BY position]. *)
Definition sorted_rows (d : PlacesDb) (parent : Z) : list (Z * BookmarkRow) :=
  merge_sort pos_le (select (has_parent parent) (moz_bookmarks d)).
Definition get_raw_bookmarks_with_parent (parent : Z) : DB (list RawBookmark) :=
  d ← db_get;
  st_lift (mapM (λ '(id, r), RawBookmark_from_row d id r) (sorted_rows d parent)).
Definition get_child_guids (parent : Z) : DB (list string) :=
  d ← db_get;
  mret ((λ '(_, r), b_guid r) <$> sorted_rows d parent).

Definition fetch_bookmarks_by_url (u : Url) : DB (list PublicNode) :=
  raws ← get_raw_bookmarks_for_url u;
  st_lift (mapM (λ rb,
    _ ← (if negb debug then Ok tt
         else rassert ((child_count rb =? 0) && bool_decide (bookmark_type rb = TBookmark) && opt_eqb url_eqb (url rb) (Some u))
                "assertion failed: (left == right)");
    Ok (PublicNode_from_raw rb)) raws).

Inductive ChildInfo := NoChildren | Guids (l : list string) | Nodes (l : list PublicNode).
Definition guids_nodes (c : ChildInfo) : option (list string) * option (list PublicNode) :=
  match c with NoChildren => (None, None) | Guids g => (Some g, None) | Nodes n => (None, Some n) end.

Fixpoint child_nodes_of (kids : list RawBookmark) : DB (list PublicNode) :=
  match kids with
  | [] => mret []
  | kid :: kids =>
      child_guids ← (if bool_decide (bookmark_type kid = TFolder)
                     then if child_count kid =? 0 then mret (Some [])
                          else g ← get_child_guids (row_id kid); mret (Some g)
                     else mret None);
      _ ← check_interrupted;
      n ← st_lift (with_children (PublicNode_from_raw kid) child_guids None);
      rest ← child_nodes_of kids;
      mret (n :: rest)
  end.

Definition fetch_bookmark_child_info (parent : RawBookmark) (get_direct_children : bool) : DB ChildInfo :=
  if negb (bool_decide (bookmark_type parent = TFolder)) then mret NoChildren
  else if child_count parent =? 0 then mret (if get_direct_children then Nodes [] else Guids [])
  else if negb get_direct_children then g ← get_child_guids (row_id parent); mret (Guids g)
  else
    kids ← get_raw_bookmarks_with_parent (row_id parent);
    nodes ← child_nodes_of kids;
    mret (Nodes nodes).

Definition fetch_bookmark_in_tx (item_guid : string) (get_direct_children : bool) : DB (option PublicNode) :=
  rb ← get_raw_bookmark item_guid;
  match rb with
  | None => mret None
  | Some rb =>
      _ ← check_interrupted;
      info ← fetch_bookmark_child_info rb get_direct_children;
      let '(child_guids, child_nodes) := guids_nodes info in
      n ← st_lift (with_children (PublicNode_from_raw rb) child_guids child_nodes);
      mret (Some n)
  end.
Definition fetch_bookmark (item_guid : string) (get_direct_children : bool) : DB (option PublicNode) :=
  dropped_transaction (fetch_bookmark_in_tx item_guid get_direct_children).

Definition no_rows {A} : res PlacesError A := sql_err "Query returned no rows".

Definition fetch_public_tree (item_guid : string) : DB (option PublicNode) :=
  dropped_transaction (
    tree ← fetch_tree item_guid;
    match tree with
    | None => mret None
    | Some tree =>
        proto ← PublicNode_from_tree tree;
        if String.eqb item_guid root_guid then mret (Some proto)
        else
          d ← db_get;
          '(parent_guid, position) ← st_lift (
            match select_first (has_guid item_guid) (moz_bookmarks d) with
            | None => no_rows
            | Some (_, b) =>
                position ← get_u32 (b_position b);
                Ok (b_guid <$> (b_parent b ≫= λ p, moz_bookmarks d !! p), position)
            end);
          mret (Some (with_parent parent_guid position proto))
    end).

(** ** Writes *)
Definition update_bookmark_from_message (msg : ProtoBookmark) : DB unit :=
  info ← st_lift (BookmarkUpdateInfo_from msg);
  transaction (
    d ← db_get;
    node_type ← st_lift (
      match select_first (has_guid (ui_guid info)) (moz_bookmarks d) with
      | None => no_rows
      | Some (_, b) => map_err (λ _, PSqlError "Integer out of range") (BookmarkType.column_result (b_type b))
      end);
    '(guid, updatable) ← st_lift (into_updatable info node_type);
    update_bookmark_in_tx checks guid updatable).
End public.

(** ** What is shown of an item *)
Section spec.
Context {W : Type} `{!UrlLib, !Interruptee W, !Clock W, !Rand W, !UrlSafeBase64}.
Context (checks debug : bool).

Definition parent_guid_of (d : PlacesDb) (r : BookmarkRow) : option string :=
  b_guid <$> (b_parent r ≫= λ p, moz_bookmarks d !! p).
Definition shows (d : PlacesDb) (id : Z) (n : PublicNode) : Prop :=
  ∃ r, moz_bookmarks d !! id = Some r ∧ n_node_type n = row_type r ∧ n_guid n = b_guid r ∧
    n_parent_guid n = parent_guid_of d r ∧ n_position n = b_position r ∧
    (row_type r ≠ TSeparator → n_title n = nullif_empty (b_title r)) ∧
    parse_opt_url (url_of_place d (b_fk r)) = Ok (n_url n) ∧
    n_date_added n = ts_of_sql (b_dateAdded r) ∧ n_last_modified n = ts_of_sql (b_lastModified r).
Definition guids_of (m : gmap Z BookmarkRow) (p : Z) : list string := omap (λ c, b_guid <$> m !! c) (children m p).

(** An item with the guids of its children, and one with its children. *)
Definition shows_guids (d : PlacesDb) (id : Z) (n : PublicNode) : Prop :=
  shows d id n ∧ n_child_nodes n = None ∧
  n_child_guids n = if decide (n_node_type n = TFolder) then Some (guids_of (moz_bookmarks d) id) else None.
Definition shows_children (d : PlacesDb) (id : Z) (n : PublicNode) : Prop :=
  shows d id n ∧ n_child_guids n = None ∧
  match n_child_nodes n with
  | Some l => n_node_type n = TFolder ∧ Forall2 (shows_guids d) (children (moz_bookmarks d) id) l
  | None => n_node_type n ≠ TFolder
  end.

Lemma mapM_res {A B E} (f : A → res E B) l :
  (∀ x, x ∈ l → is_ok (f x) = true) → ∃ k, mapM f l = Ok k ∧ Forall2 (λ x y, x ∈ l ∧ f x = Ok y) l k.
Proof.
  intros Hl. enough (∃ k, mapM f l = Ok k ∧ Forall2 (λ x y, f x = Ok y) l k) as (k & Hk & Hf).
  { exists k. split; [done|]. apply Forall2_same_length_lookup_2; [by eapply Forall2_length|]. intros i x y Hx Hy.
    split; [by eapply list_elem_of_lookup_2|]. by eapply (Forall2_lookup_lr _ _ _ _ _ _ Hf). }
  revert Hl. induction l as [|x l IH]; intros Hl; [by exists []|].
  destruct IH as (k & Hk & Hf); [intros y Hy; by apply Hl, list_elem_of_further|].
  pose proof (Hl x (list_elem_of_here _ _)) as Hx. destruct (f x) as [y|e|msg] eqn:Hfx; [|done..].
  exists (y :: k). split; [|by constructor]. cbn. rewrite Hfx. cbn. by rewrite Hk.
Qed.

Lemma sorted_rows_children d p :
  fst <$> sorted_rows d p = children (moz_bookmarks d) p ∧ ∀ id r, (id, r) ∈ sorted_rows d p → moz_bookmarks d !! id = Some r.
Proof.
  split; [done|]. intros id r. unfold sorted_rows. rewrite merge_sort_Permutation. by intros [Hr _]%elem_of_select.
Qed.
Lemma sorted_rows_guids d p : (λ '(_, r), b_guid r) <$> sorted_rows d p = guids_of (moz_bookmarks d) p.
Proof.
  destruct (sorted_rows_children d p) as [Hc Hr]. unfold guids_of. rewrite <-Hc. clear Hc.
  induction (sorted_rows d p) as [|[id r] l IH]; [done|]. cbn. rewrite (Hr id r (list_elem_of_here _ _)). cbn. f_equal.
  apply IH. intros id' r' Hin. by apply Hr, list_elem_of_further.
Qed.
Lemma get_child_guids_run d p (w : W) : get_child_guids p (d, w) = (Ok (guids_of (moz_bookmarks d) p), (d, w)).
Proof. unfold get_child_guids. rewrite (st_bind_run _ _ _ d (d, w)) by done. by rewrite sorted_rows_guids. Qed.
Lemma no_children d p : tree_ok d → count_children d p = 0 → children (moz_bookmarks d) p = [].
Proof.
  intros [_ Hpos] Hc. unfold count_children in Hc. rewrite (kids_count _ _ _ (Hpos p)) in Hc.
  destruct (children (moz_bookmarks d) p); [done|]. cbn in Hc. lia.
Qed.

Lemma raw_shows d id r raw guids nodes :
  raw_matches d id r raw → (is_some guids || is_some nodes = bool_decide (row_type r = TFolder)) →
  ∃ n, with_children debug (PublicNode_from_raw raw) guids nodes = Ok n ∧ shows d id n ∧ n_node_type n = row_type r ∧
    n_child_guids n = guids ∧ n_child_nodes n = nodes.
Proof.
  intros Hm Hg. unfold with_children. cbn [n_node_type PublicNode_from_raw]. rewrite (raw_type _ _ _ _ Hm), Hg.
  assert (Hs : shows d id (mkPublicNode (row_type r) (guid raw) (parent_guid raw) (position raw) (date_added raw)
    (date_modified raw) (url raw) (title raw) guids nodes)).
  { exists r. pose proof (raw_row _ _ _ _ Hm). cbn. split_and!; try done; try by apply Hm.
    intros _. by apply Hm. }
  destruct debug; cbn; [|by eexists]. destruct (bool_decide (row_type r = TFolder)); by eexists.
Qed.

Hypothesis uninterrupted : ∀ w : W, fst (was_interrupted w) = false.
Context (d : PlacesDb).
Hypothesis Htree : tree_ok d.
Hypothesis Hrows : ∀ id r, moz_bookmarks d !! id = Some r → is_ok (RawBookmark_from_row d id r) = true.

Lemma child_nodes_run (w : W) ids raws :
  Forall2 (λ id raw, ∃ r, raw_matches d id r raw) ids raws →
  ∃ w' l, child_nodes_of debug raws (d, w) = (Ok l, (d, w')) ∧ Forall2 (shows_guids d) ids l.
Proof.
  intros Hall. revert w. induction Hall as [|id raw ids raws [r Hm] _ IH]; intros w; [by exists w, []|].
  cbn [child_nodes_of].
  assert (Hg : (if bool_decide (bookmark_type raw = TFolder)
                then if child_count raw =? 0 then mret (Some []) else g ← get_child_guids (row_id raw); mret (Some g)
                else mret None) (d, w) =
    (Ok (if decide (row_type r = TFolder) then Some (guids_of (moz_bookmarks d) id) else None), (d, w))).
  { rewrite (raw_type _ _ _ _ Hm), (raw_child_count _ _ _ _ Hm), (raw_row_id _ _ _ _ Hm).
    case_bool_decide as Ht; [rewrite decide_True by done|by rewrite decide_False].
    destruct (Z.eqb_spec (count_children d id) 0) as [Hz|].
    - unfold guids_of. by rewrite no_children.
    - by rewrite (st_bind_run _ _ _ _ _ (get_child_guids_run d id w)). }
  rewrite (st_bind_run _ _ _ _ _ Hg). destruct (check_interrupted_run uninterrupted d w) as (w1 & Hw1).
  rewrite (st_bind_run _ _ _ _ _ Hw1).
  destruct (raw_shows d id r raw (if decide (row_type r = TFolder) then Some (guids_of (moz_bookmarks d) id) else None) None)
    as (n & Hn & Hs & Ht & Hcg & Hcn); [done|by destruct (decide (row_type r = TFolder)); [rewrite bool_decide_eq_true_2|rewrite bool_decide_eq_false_2]|].
  rewrite (st_bind_run _ _ _ n (d, w1)) by (unfold st_lift; by rewrite Hn).
  destruct (IH w1) as (w2 & l & Hl & Hf). rewrite (st_bind_run _ _ _ _ _ Hl). exists w2, (n :: l).
  split; [done|]. constructor; [|done]. split; [done|]. split; [done|]. by rewrite Ht, Hcg.
Qed.

Lemma get_raw_select g (w : W) :
  get_raw_bookmark g (d, w) =
  (match select_first (has_guid g) (moz_bookmarks d) with
   | None => Ok None
   | Some (id, r) => Some <$> RawBookmark_from_row d id r
   end, (d, w)).
Proof.
  unfold get_raw_bookmark. rewrite (st_bind_run _ _ _ d (d, w)) by done.
  destruct (select_first (has_guid g) (moz_bookmarks d)) as [[id r]|]; [|done].
  unfold mbind, ST_bind, st_lift. by destruct (RawBookmark_from_row d id r).
Qed.

Lemma raws_run parent :
  ∃ raws, mapM (λ '(id, r), RawBookmark_from_row d id r) (sorted_rows d parent) = Ok raws ∧
    Forall2 (λ id raw, ∃ r, raw_matches d id r raw) (children (moz_bookmarks d) parent) raws.
Proof.
  destruct (sorted_rows_children d parent) as [<- Hin].
  destruct (mapM_res (λ '(id, r), RawBookmark_from_row d id r) (sorted_rows d parent)) as (raws & Hk & Hf).
  { intros [id r] Hr. by apply Hrows, Hin. }
  exists raws. split; [done|]. apply Forall2_fmap_l. eapply Forall2_impl; [exact Hf|]. cbn.
  intros [id r] raw [Hr Hraw]. exists r. apply raw_from_row; [by apply Hin|done].
Qed.

Lemma child_info_run (w : W) id r raw deep :
  raw_matches d id r raw →
  ∃ w' info, fetch_bookmark_child_info debug raw deep (d, w) = (Ok info, (d, w')) ∧
    match info with
    | NoChildren => row_type r ≠ TFolder
    | Guids l => deep = false ∧ row_type r = TFolder ∧ l = guids_of (moz_bookmarks d) id
    | Nodes l => deep = true ∧ row_type r = TFolder ∧ Forall2 (shows_guids d) (children (moz_bookmarks d) id) l
    end.
Proof.
  intros Hm. unfold fetch_bookmark_child_info. rewrite (raw_type _ _ _ _ Hm), (raw_child_count _ _ _ _ Hm), (raw_row_id _ _ _ _ Hm).
  case_bool_decide as Ht; cbn [negb]; [|by exists w, NoChildren].
  destruct (Z.eqb_spec (count_children d id) 0) as [Hz|].
  { exists w. apply no_children in Hz; [|done]. unfold guids_of. rewrite Hz. by destruct deep; eexists. }
  destruct deep; cbn [negb].
  - destruct (raws_run id) as (raws & Hraws & Hf).
    rewrite (st_bind_run _ _ _ raws (d, w)).
    2: { unfold get_raw_bookmarks_with_parent. rewrite (st_bind_run _ _ _ d (d, w)) by done. unfold st_lift. by rewrite Hraws. }
    destruct (child_nodes_run w _ _ Hf) as (w' & l & Hl & Hs). rewrite (st_bind_run _ _ _ _ _ Hl). by exists w', (Nodes l).
  - exists w, (Guids (guids_of (moz_bookmarks d) id)). by rewrite (st_bind_run _ _ _ _ _ (get_child_guids_run d id w)).
Qed.

(** [fetch_bookmark] shows the item with the guid that is asked for as it is in the table,
    with the guids of its children in their order, or with the children themselves and the
    guids of their children; it fails no assertion and leaves the database as it is. *)
Theorem fetch_bookmark_shows_item g deep (w : W) :
  ∃ o w', fetch_bookmark debug g deep (d, w) = (Ok o, (d, w')) ∧
    match select_first (has_guid g) (moz_bookmarks d) with
    | None => o = None
    | Some (id, _) => ∃ n, o = Some n ∧ if deep then shows_children d id n else shows_guids d id n
    end.
Proof.
  unfold fetch_bookmark, dropped_transaction, fetch_bookmark_in_tx. pose proof (get_raw_select g w) as Hget.
  destruct (select_first (has_guid g) (moz_bookmarks d)) as [[id r]|] eqn:Hsel;
    [|eexists _, w; by rewrite (st_bind_run _ _ _ _ _ Hget)].
  apply select_first_Some in Hsel as Hr. destruct Hr as [Hr _].
  pose proof (Hrows _ _ Hr) as Hok. destruct (RawBookmark_from_row d id r) as [raw| |] eqn:Hraw; [|done..].
  pose proof (raw_from_row _ _ _ _ Hr Hraw) as Hm.
  rewrite (st_bind_run _ _ _ (Some raw) (d, w)) by exact Hget.
  destruct (check_interrupted_run uninterrupted d w) as (w1 & Hw1). rewrite (st_bind_run _ _ _ _ _ Hw1).
  destruct (child_info_run w1 id r raw deep Hm) as (w2 & info & Hinfo & Hspec). rewrite (st_bind_run _ _ _ _ _ Hinfo).
  destruct (guids_nodes info) as [cg cn] eqn:Hgn.
  destruct (raw_shows d id r raw cg cn Hm) as (n & Hn & Hs & Ht & Hcg & Hcn).
  { destruct info; injection Hgn as <- <-; case_bool_decide; naive_solver. }
  rewrite (st_bind_run _ _ _ n (d, w2)) by (unfold st_lift; by rewrite Hn). exists (Some n), w2. split; [done|].
  exists n. split; [done|]. unfold shows_children, shows_guids. rewrite Hcg, Hcn, Ht.
  destruct info; injection Hgn as <- <-; destruct deep; naive_solver (case_decide; naive_solver).
Qed.
End spec.

(** ** Updates by message *)
Section messages.
Context {W : Type} `{!UrlLib, !Interruptee W, !Clock W, !Rand W, !UrlSafeBase64}.
Context (checks : bool).

(** The place that a message asks for: at a position in a folder or at its end, at a position in
    the folder where the item is, or where it is. *)
Definition message_location (msg : ProtoBookmark) : UpdateTreeLocation :=
  match m_parent_guid msg with
  | Some p => LocParent p (from_option Specific Append (m_position msg))
  | None => from_option (LocPosition ∘ Specific) LocNone (m_position msg)
  end.
(** What the message asks for is not a move to the folder the item is in. *)
Definition message_pre (msg : ProtoBookmark) (d : PlacesDb) : Prop :=
  ∀ g, m_guid msg = Some g → update_pre g (USeparator (mkUpdatableSeparator (message_location msg))) d.
(** What the message says of the item. *)
Definition message_item (msg : ProtoBookmark) (item : UpdatableItem) : Prop :=
  upd_location item = message_location msg ∧
  upd_title item = m_title msg ∧
  parse_opt_url (m_url msg) = Ok match item with UBookmark b => ub_url b | _ => None end.

Lemma into_updatable_ok msg info ty g item :
  BookmarkUpdateInfo_from msg = Ok info → into_updatable info ty = Ok (g, item) →
  m_guid msg = Some g ∧ g = ui_guid info ∧ upd_bookmark_type item = ty ∧ message_item msg item.
Proof.
  unfold BookmarkUpdateInfo_from, into_updatable, message_item. intros Hinfo.
  destruct (m_guid msg) as [g'|] eqn:Hg; [|done]. injection Hinfo as <-. cbn [ui_title ui_url ui_guid].
  destruct (is_some (m_title msg) && bool_decide (ty = TSeparator)) eqn:Ht; [done|].
  destruct (is_some (m_url msg) && negb (bool_decide (ty = TBookmark))) eqn:Hu; [done|]. intros Hup. bind_inv Hup.
  match goal with Hx : Ok (g', _) = _ |- _ => injection Hx as -> -> end.
  assert (Hloc : update_location (mkBookmarkUpdateInfo g (m_title msg) (m_url msg) (m_parent_guid msg) (m_position msg)) = message_location msg).
  { unfold update_location, message_location. cbn. by destruct (m_parent_guid msg), (m_position msg). }
  match goal with Hx : match ty with _ => _ end = _ |- _ => rename Hx into Hitem end. destruct ty.
  - bind_inv Hitem. injection Hitem as <-. by split_and!.
  - injection Hitem as <-. split_and!; try done. by destruct (m_url msg).
  - injection Hitem as <-. split_and!; try done; [by destruct (m_title msg)|]. by destruct (m_url msg).
Qed.

(** C28: an update by message puts the title, the URL and the place of the message into the item
    with its guid, leaves the URLs of all pages and the contents and places of all other items as they are, and keeps the tree
    well-formed: with a new URL the item is of the page of that URL, without one it keeps its
    page.  A change that the type of the item does not
    allow, and any other failure, leaves the database as it was.  Excluded ([message_pre]) are messages
    with a negative position, and those that name the folder the item is in as its
    parent: the proto file allows them, but such an update leaves a gap in the positions (see
    [reparent_to_same_folder_leaves_gap]). *)
Theorem message_update_refines_tree msg d (w : W) r d' w' :
  tree_ok d → message_pre msg d → update_bookmark_from_message checks msg (d, w) = (r, (d', w')) →
  match r with
  | Ok _ => tree_ok d' ∧ ∃ g item, m_guid msg = Some g ∧ message_item msg item ∧ updated g item d d'
  | _ => d' = d
  end.
Proof.
  intros Htree Hpre Hrun.
  assert (Hfail : rolls_back (update_bookmark_from_message (W:=W) checks msg)).
  { apply rolls_back_lift. intros info. apply rolls_back_transaction. }
  destruct r as [[]|e|m]; [|by apply (Hfail _ _ _ _ _ Hrun)..].
  assert (Hok : ok_post (update_bookmark_from_message (W:=W) checks msg) d
    (λ _ d', tree_ok d' ∧ ∃ g item, m_guid msg = Some g ∧ message_item msg item ∧ updated g item d d')); [|by eapply Hok].
  unfold update_bookmark_from_message. ok_step. apply ok_post_lift. intros info Hinfo. ok_step. ok_step. ok_step. ok_step.
  apply ok_post_lift. intros ty _. ok_step. apply ok_post_lift. intros [g item] Hup.
  destruct (into_updatable_ok _ _ _ _ _ Hinfo Hup) as (Hg & -> & _ & Hitem). cbn beta iota.
  eapply ok_post_weaken; [apply update_in_tx_ok; [done|]|].
  - specialize (Hpre _ Hg). destruct Hitem as [Hloc _]. unfold update_pre in *. by rewrite Hloc.
  - intros [] d1 [Ht1 Hupd]. split; [done|]. by eexists _, _.
Qed.
End messages.

(** ** Whole trees *)
Section trees.
Context {W : Type} `{!UrlLib, !Interruptee W, !Clock W, !Rand W, !UrlSafeBase64}.
Hypothesis uninterrupted : ∀ w : W, fst (was_interrupted w) = false.
Context (d : PlacesDb).
Abbreviation m := (moz_bookmarks d).
Hypothesis Htree : tree_ok d.
Hypothesis Hac : acyclic m.
Hypothesis Hrows : ∀ id r, m !! id = Some r → is_ok (RawBookmark_from_row d id r) = true ∧ row_constraints d m r = true.

(** A node that shows an item with everything below it. *)
Inductive tree_shown : Z → PublicNode → Prop :=
| shown_leaf id n : shows d id n → n_node_type n ≠ TFolder → n_child_nodes n = None → n_child_guids n = None → tree_shown id n
| shown_folder id n l :
    shows d id n → n_node_type n = TFolder → n_child_nodes n = Some l → n_child_guids n = None →
    Forall2 tree_shown (children m id) l → tree_shown id n.

Lemma raw_readable id r :
  is_ok (RawBookmark_from_row d id r) = true → readable r ∧ ∃ u, parse_opt_url (url_of_place d (b_fk r)) = Ok u.
Proof.
  intros Hok. destruct (RawBookmark_from_row d id r) as [raw| |] eqn:Hraw; [|done..].
  unfold RawBookmark_from_row in Hraw. bind_inv Hraw. split; [|by eexists]. unfold readable, get_u8, get_u32 in *.
  repeat match goal with Hu : (if ?b then _ else _) = Ok _ |- _ => destruct b eqn:?; [clear Hu|done] end.
  bool_to_prop. lia.
Qed.
Lemma constraints_fk r :
  row_constraints d m r = true → b_type r = 1 ∧ (∃ u, url_of_place d (b_fk r) = Some u) ∧ b_fk r ≠ None ∨ 1 < b_type r ∧ b_fk r = None.
Proof.
  unfold row_constraints. intros [[[[_ Ho]%andb_true_iff _]%andb_true_iff Hfk]%andb_true_iff _]%andb_true_iff.
  unfold url_of_place, in_table in *. apply orb_true_iff in Ho as [Ho|Ho]; bool_to_prop;
    destruct (b_fk r) as [fk|]; try done; [left|by right]. destruct (moz_places d !! fk) as [p|] eqn:Hp; [|done].
  split_and!; [done|by eexists; cbn; rewrite Hp|done].
Qed.

(** The node of a row, with what [PublicNode_from_tree] needs. *)
Lemma shallow_ok id r :
  m !! id = Some r →
  ∃ n, shallow d r = Some n ∧ node_type n = row_type r ∧ node_guid_opt n = Some (b_guid r) ∧
    match n with
    | NBookmark b => bn_date_added b = Some (ts_of_sql (b_dateAdded r)) ∧ bn_last_modified b = Some (ts_of_sql (b_lastModified r)) ∧
        bn_title b = nullif_empty (b_title r) ∧ parse_opt_url (url_of_place d (b_fk r)) = Ok (Some (bn_url b))
    | NSeparator s => sn_date_added s = Some (ts_of_sql (b_dateAdded r)) ∧ sn_last_modified s = Some (ts_of_sql (b_lastModified r)) ∧
        b_fk r = None
    | NFolder f l => f = top_folder r ∧ l = [] ∧ b_fk r = None
    end.
Proof.
  intros Hr. destruct (Hrows _ _ Hr) as [Hraw Hcon]. apply raw_readable in Hraw as [Hread [u Hu]].
  destruct (from_row_shallow d (mkDescendant 0 id r None) Hread) as (row & Hrow & Hn & _). cbn in Hn. rewrite <-Hn.
  unfold FetchedTreeRow_from_row in Hrow. bind_inv Hrow. injection Hrow as <-. cbn in *.
  match goal with Ht : get_u8 _ = Ok _ |- _ => apply get_u8_Ok in Ht as -> end. unfold row_node, row_type. cbn.
  apply constraints_fk in Hcon as [(Ht & [s Hs] & Hfk)|(Ht & Hfk)].
  - rewrite Ht, Hs in *. cbn. unfold parse_opt_url, parse_url in Hu. destruct (url_parse s) as [p| |] eqn:Hp; [|done..].
    injection Hu as <-. eexists. split; [done|]. destruct (b_fk r); [|done]. split_and!; try done. cbn. unfold parse_url. by rewrite Hp.
  - rewrite Hfk in *. cbn. unfold BookmarkType.from_u8_with_valid_url.
    destruct (BookmarkType.from_u8 (b_type r)) as [[]|] eqn:Hty; by eexists.
Qed.

(** The children of a folder. *)
Definition from_trees (own_guid : string) : Z → list BookmarkTreeNode → ST (PlacesDb * W) PlacesError (list PublicNode) :=
  fix go (i : Z) (l : list BookmarkTreeNode) :=
    match l with
    | [] => mret []
    | bn :: l =>
        child ← PublicNode_from_tree bn;
        rest ← go (i + 1) l;
        mret (with_parent (Some own_guid) (wrap 32 i) child :: rest)
    end.

(** What is below an item is shown, if the reading went deep enough. *)
Definition subtree_shown (h : nat) : Prop := ∀ k x top n r (w : W),
  read_node d h m x = Some n → up m k x = Some top → (size m ≤ k + h)%nat → m !! x = Some r →
  ∃ p, PublicNode_from_tree n (d, w) = (Ok p, (d, w)) ∧ tree_shown x (with_parent (parent_guid_of d r) (b_position r) p).

Lemma from_trees_run h own xs i (w : W) k top pid pr :
  subtree_shown h → (size m ≤ S k + h)%nat → m !! pid = Some pr → b_guid pr = own →
  (∀ j x, xs !! j = Some x → ∃ r, m !! x = Some r ∧ b_parent r = Some pid ∧ b_position r = i + Z.of_nat j ∧
     up m (S k) x = Some top) → 0 ≤ i →
  ∃ l, from_trees own i (omap (read_node d h m) xs) (d, w) = (Ok l, (d, w)) ∧ Forall2 tree_shown xs l.
Proof.
  intros Hsub Hk Hpid Hown. revert i. induction xs as [|x xs IH]; intros i Hxs Hi; [by exists []|].
  destruct (Hxs 0%nat x eq_refl) as (r & Hr & Hp & Hz & Hup).
  destruct (shallow_ok _ _ Hr) as (n0 & Hn0 & _).
  assert (Hread : ∃ n, read_node d h m x = Some n) by (destruct h; cbn; rewrite Hr; cbn; rewrite Hn0; by eexists).
  destruct Hread as [n Hread]. destruct (Hsub _ _ _ _ _ w Hread Hup Hk Hr) as (p & Hp1 & Hshown).
  destruct (IH (i + 1)) as (l & Hl & Hf); [|lia|].
  { intros j y Hy. destruct (Hxs (S j) y Hy) as (ry & ? & ? & Hz' & ?). exists ry. split_and!; try done. rewrite Hz'. lia. }
  exists (with_parent (parent_guid_of d r) (b_position r) p :: l). split; [|by constructor].
  change (omap (read_node d h m) (x :: xs)) with
    (match read_node d h m x with Some n => n :: omap (read_node d h m) xs | None => omap (read_node d h m) xs end).
  rewrite Hread. cbn [from_trees]. rewrite (st_bind_run _ _ _ _ _ Hp1). fold (from_trees own).
  rewrite (st_bind_run _ _ _ _ _ Hl). unfold mret, ST_ret. do 3 f_equal.
  unfold parent_guid_of. rewrite Hp. cbn [mbind option_bind]. rewrite Hpid. cbn. rewrite Hown, Hz. f_equal.
  replace (i + Z.of_nat 0) with i by lia. unfold wrap. apply Z.mod_small. split; [done|].
  destruct (Hrows _ _ Hr) as [Hraw _]. apply raw_readable in Hraw as [[_ Hpos] _]. lia.
Qed.

(** A folder with its children. *)
Lemma folder_run h k x top r (w : W) :
  subtree_shown h → up m k x = Some top → (size m ≤ S k + h)%nat → m !! x = Some r →
  ∃ l, PublicNode_from_tree (NFolder (top_folder r) (omap (read_node d h m) (children m x))) (d, w) =
    (Ok (mkPublicNode TFolder (b_guid r) None 0 (ts_of_sql (b_dateAdded r)) (ts_of_sql (b_lastModified r)) None
           (nullif_empty (b_title r)) None (Some l)), (d, w)) ∧ Forall2 tree_shown (children m x) l.
Proof.
  intros Hsub Hup Hk Hr.
  destruct (from_trees_run h (b_guid r) (children m x) 0 w k top x r) as (l & Hl & Hf); [done..| |lia|].
  { intros j c Hc. destruct Htree as [_ Hpos]. apply (kids_lookup _ _ _ _ _ (Hpos x)), place_Some in Hc as (rc & Hrc & Hp & Hz).
    exists rc. split_and!; try done. cbn. rewrite Hrc, Hp. done. }
  exists l. split; [|done]. cbn [PublicNode_from_tree]. fold (from_trees (b_guid r)).
  rewrite (st_bind_run _ _ _ (ts_of_sql (b_dateAdded r), ts_of_sql (b_lastModified r)) (d, w)) by done.
  rewrite (st_bind_run _ _ _ (b_guid r) (d, w)) by done.
  exact (st_bind_run _ _ _ _ _ Hl).
Qed.

Lemma subtree_shown_all h : subtree_shown h.
Proof.
  induction h as [|h IH]; intros k x top n r w Hread Hup Hk Hr.
  { rewrite Nat.add_0_r in Hk. apply up_size in Hup; [lia|done]. }
  destruct (shallow_ok _ _ Hr) as (n0 & Hn0 & Hty & Hg & Hn). cbn in Hread. rewrite Hr in Hread. cbn in Hread.
  rewrite Hn0 in Hread. cbn in Hread. injection Hread as <-. destruct n0 as [b|s|f l0].
  - destruct Hn as (Ha & Hm & Ht & Hu). destruct b as [bg ba bm bt bu]. cbn in *. subst.
    eexists. split; [done|]. apply shown_leaf; try done. exists r. by rewrite Hty.
  - destruct Hn as (Ha & Hm & Hu). destruct s as [sg sa sm]. cbn in *. subst.
    eexists. split; [done|]. apply shown_leaf; try done. exists r. cbn. rewrite Hu. by rewrite <-Hty.
  - destruct Hn as (-> & -> & Hu). destruct (folder_run h k x top r w) as (l & Hl & Hf); [done..|lia|done|].
    eexists. split; [exact Hl|]. eapply shown_folder; try done. exists r. cbn in *. rewrite Hu. by rewrite <-Hty.
Qed.

(** The tree that the FFI asks for shows the folder and every item below it as they are in
    the table, the parents, positions and URLs included, for any table without cycles whose
    rows can be read; only the top of the tree of the root has its position left at 0. *)
Theorem public_tree_shows_table g id r (w : W) :
  select_first (has_guid g) m = Some (id, r) → row_type r = TFolder →
  ∃ n l w', fetch_public_tree g (d, w) = (Ok (Some n), (d, w')) ∧
    n_guid n = g ∧ n_child_nodes n = Some l ∧ Forall2 tree_shown (children m id) l ∧
    (g ≠ root_guid → tree_shown id n).
Proof.
  intros Hsel Hty. pose proof (select_first_Some _ _ _ _ Hsel) as [Hr Hg%String.eqb_eq].
  assert (Hread : map_Forall (λ _, readable) m).
  { intros x rx Hx. by apply Hrows in Hx as [[Hx _]%raw_readable _]. }
  destruct (fetch_tree_run uninterrupted d g w Htree Hac Hread) as (w1 & Hfetch). unfold read_tree in Hfetch.
  rewrite Hsel in Hfetch. cbn [mbind option_bind] in Hfetch.
  destruct (folder_run (size m) 0 id id r w1) as (l & Hl & Hf); [apply subtree_shown_all|by cbn; rewrite Hr|lia|done|].
  assert (Hfk : b_fk r = None).
  { destruct (Hrows _ _ Hr) as [_ [(Ht & _ & Hfk)|[_ Hfk]]%constraints_fk]; [|done]. unfold row_type in Hty. rewrite Ht in Hty.
    by destruct (b_fk r). }
  unfold fetch_public_tree, dropped_transaction. rewrite (st_bind_run _ _ _ _ _ Hfetch), (st_bind_run _ _ _ _ _ Hl).
  destruct (String.eqb_spec g root_guid) as [Hroot|Hroot].
  - eexists _, l, w1. by split_and!.
  - rewrite (st_bind_run _ _ _ d (d, w1)) by done. rewrite Hsel.
    assert (Hpos : get_u32 (b_position r) = Ok (b_position r)).
    { destruct (Hread _ _ Hr) as [_ Hpos]. unfold get_u32. by rewrite (proj2 (Z.leb_le _ _)), (proj2 (Z.ltb_lt _ _)) by lia. }
    rewrite (st_bind_run _ _ _ (parent_guid_of d r, b_position r) (d, w1)) by (unfold st_lift; rewrite Hpos; done).
    eexists _, l, w1. split_and!; try done. intros _. eapply shown_folder; try done. exists r. cbn. by rewrite Hfk.
Qed.
End trees.

Module ToyPublic.
Import ToyPlaces ToyOps ToyTree.

Lemma toy_rows id r :
  moz_bookmarks toy_db !! id = Some r →
  is_ok (RawBookmark_from_row toy_db id r) = true ∧ row_constraints toy_db (moz_bookmarks toy_db) r = true.
Proof.
  assert (Hall : map_Forall (λ id r, is_ok (RawBookmark_from_row toy_db id r) = true ∧
    row_constraints toy_db (moz_bookmarks toy_db) r = true) (moz_bookmarks toy_db)).
  { apply (bool_decide_unpack _). vm_compute. exact I. }
  apply Hall.
Qed.

Lemma fetch_bookmark_shows_item_witness :
  (select_first (has_guid "menu________") (moz_bookmarks toy_db) ≫= λ '(id, _), Some id) = Some 2 ∧
  ∃ o w', fetch_bookmark true "menu________" true (toy_db, 100%nat) = (Ok o, (toy_db, w')) ∧
    match select_first (has_guid "menu________") (moz_bookmarks toy_db) with
    | None => o = None
    | Some (id, _) => ∃ n, o = Some n ∧ shows_children toy_db id n
    end.
Proof.
  split; [vm_compute; reflexivity|].
  exact (fetch_bookmark_shows_item (W:=nat) true (λ _, eq_refl) toy_db toy_db_ok (λ id r Hr, proj1 (toy_rows id r Hr))
    "menu________" true 100%nat).
Defined.

Lemma public_tree_shows_table_witness :
  (select_first (has_guid "menu________") (moz_bookmarks toy_db) ≫= λ '(id, _), Some id) = Some 2 ∧
  ∃ r n l w', moz_bookmarks toy_db !! 2 = Some r ∧ fetch_public_tree "menu________" (toy_db, 100%nat) = (Ok (Some n), (toy_db, w')) ∧
    n_child_nodes n = Some l ∧ length l = 3%nat ∧ tree_shown toy_db 2 n.
Proof.
  split; [vm_compute; reflexivity|].
  destruct (select_first (has_guid "menu________") (moz_bookmarks toy_db)) as [[id r]|] eqn:Hsel; [|vm_compute in Hsel; discriminate].
  assert (Hid : (id, row_type r) = (2, TFolder)) by (vm_compute in Hsel; injection Hsel as <- <-; reflexivity).
  injection Hid as -> Hty.
  assert (Hnever : ∀ w : nat, fst (was_interrupted w) = false) by reflexivity.
  destruct (public_tree_shows_table (W:=nat) Hnever toy_db toy_db_ok toy_acyclic toy_rows "menu________" 2 r 100%nat Hsel Hty)
    as (n & l & w' & Hrun & _ & Hl & Hf & Hshown).
  exists r, n, l, w'. split_and!; [by apply (select_first_Some _ _ _ _ Hsel)|done|done| |by apply Hshown].
  by rewrite <-(Forall2_length _ _ _ Hf).
Defined.

(** A new title and another place for the bookmark of the toy database. *)
Definition toy_message : ProtoBookmark :=
  mkProtoBookmark None (Some "aaaaaaaaaaaa"%string) None None None (Some 2) (Some "new"%string) (Some "http://new.com/"%string) [] [] None.
Definition toy_updated : PlacesDb := fst (snd (update_bookmark_from_message true toy_message (toy_db, 100%nat))).
Lemma message_update_refines_tree_witness :
  children (moz_bookmarks toy_updated) 2 = [8; 7; 6] ∧ tree_ok toy_updated ∧
  ∃ g item, m_guid toy_message = Some g ∧ message_item toy_message item ∧ updated g item toy_db toy_updated.
Proof.
  split; [vm_compute; reflexivity|].
  refine (message_update_refines_tree (W:=nat) true toy_message toy_db 100%nat (Ok tt) toy_updated 102%nat toy_db_ok _ _).
  - intros info [= <-]. cbn. intros z [= <-]. lia.
  - vm_compute. reflexivity.
Defined.
End ToyPublic.

