(* ===== verification/Frecency.v ===== *)
(** * Places: frecency

    Model of [components/places/src/frecency.rs].  Scores are [f32] numbers, modelled by the
    specification of IEEE 754 binary32 of the Standard Library ([SpecFloat], precision 24,
    exponent bound 128). *)

From S2P Require Import Prelude Database Sync15Types KeyBundle State Viaduct Token PlacesTypes PlacesDb.
From Stdlib Require Import Floats.SpecFloat Ascii String.
From stdpp Require Import sorting strings list gmap.
Local Open Scope Z_scope.
Local Open Scope list_scope.

(** ** f32 and i32 *)
Module F32.
Abbreviation f32 := spec_float.
Definition of_Z (z : Z) : f32 := binary_normalize 24 128 z 0 false.
Definition add : f32 → f32 → f32 := SFadd 24 128.
Definition mul : f32 → f32 → f32 := SFmul 24 128.
Definition div : f32 → f32 → f32 := SFdiv 24 128.
Definition zero : f32 := S754_zero false.
(** [f32::ceil]; the result of a negative number above -1 is a negative zero. *)
Definition ceil (x : f32) : f32 :=
  match x with
  | S754_finite s m e =>
      let n := if s then - Z.pos m else Z.pos m in
      let z := if 0 <=? e then n * 2 ^ e else - ((- n) / 2 ^ (- e)) in
      if z =? 0 then S754_zero s else of_Z z
  | _ => x
  end.
(** [x as i32]: truncation, saturating at the bounds, NaN to zero. *)
Definition as_i32 (x : f32) : Z :=
  match x with
  | S754_nan | S754_zero _ => 0
  | S754_infinity s => if s then - 2 ^ 31 else 2 ^ 31 - 1
  | S754_finite s m e =>
      let a := if 0 <=? e then Z.pos m * 2 ^ e else Z.pos m / 2 ^ (- e) in
      if s then Z.max (- 2 ^ 31) (- a) else Z.min (2 ^ 31 - 1) a
  end.
End F32.

Definition wrap_i32 (x : Z) : Z := (x + 2 ^ 31) mod 2 ^ 32 - 2 ^ 31.
Definition i32_add {E} (checks : bool) (a b : Z) : res E Z :=
  if (- 2 ^ 31 <=? a + b) && (a + b <? 2 ^ 31) then Ok (a + b)
  else if checks then Panic "attempt to add with overflow" else Ok (wrap_i32 (a + b)).

(** ** Settings *)
Inductive RedirectBonus := RBUnknown | RBRedirect | RBNormal.
Global Instance RedirectBonus_eq_dec : EqDecision RedirectBonus.
Proof. solve_decision. Defined.

Record FrecencySettings := mkFrecencySettings {
  num_visits : Z;
  first_bucket_cutoff_days : Z; second_bucket_cutoff_days : Z; third_bucket_cutoff_days : Z; fourth_bucket_cutoff_days : Z;
  first_bucket_weight : Z; second_bucket_weight : Z; third_bucket_weight : Z; fourth_bucket_weight : Z;
  default_bucket_weight : Z;
  embed_visit_bonus : Z; framed_link_visit_bonus : Z; link_visit_bonus : Z; typed_visit_bonus : Z;
  bookmark_visit_bonus : Z; download_visit_bonus : Z; permanent_redirect_visit_bonus : Z;
  temporary_redirect_visit_bonus : Z; redirect_source_visit_bonus : Z; default_visit_bonus : Z;
  unvisited_bookmark_bonus : Z; unvisited_typed_bonus : Z; reload_visit_bonus : Z;
}.

Definition DEFAULT_FRECENCY_SETTINGS : FrecencySettings := {|
  num_visits := 10;
  first_bucket_cutoff_days := 4; second_bucket_cutoff_days := 14; third_bucket_cutoff_days := 31;
  fourth_bucket_cutoff_days := 90;
  first_bucket_weight := 100; second_bucket_weight := 70; third_bucket_weight := 50; fourth_bucket_weight := 30;
  default_bucket_weight := 10;
  embed_visit_bonus := 0; framed_link_visit_bonus := 0; link_visit_bonus := 100; typed_visit_bonus := 2000;
  bookmark_visit_bonus := 75; download_visit_bonus := 0; permanent_redirect_visit_bonus := 0;
  temporary_redirect_visit_bonus := 0; redirect_source_visit_bonus := 25; default_visit_bonus := 0;
  unvisited_bookmark_bonus := 140; unvisited_typed_bonus := 200; reload_visit_bonus := 0;
|}.

Definition get_transition_bonus (self : FrecencySettings) (visit_type : option VisitTransition) (visited redirect : bool) : Z :=
  if redirect then redirect_source_visit_bonus self
  else
    match visit_type, visited with
    | Some Link, _ => link_visit_bonus self
    | Some Embed, _ => embed_visit_bonus self
    | Some FramedLink, _ => framed_link_visit_bonus self
    | Some RedirectPermanent, _ => temporary_redirect_visit_bonus self
    | Some RedirectTemporary, _ => permanent_redirect_visit_bonus self
    | Some Download, _ => download_visit_bonus self
    | Some Reload, _ => reload_visit_bonus self
    | Some Typed, true => typed_visit_bonus self
    | Some Typed, false => unvisited_typed_bonus self
    | Some Bookmark, true => bookmark_visit_bonus self
    | Some Bookmark, false => unvisited_bookmark_bonus self
    | None, _ => default_visit_bonus self
    end.

Definition get_frecency_aged_weight (self : FrecencySettings) (age_in_days : Z) : Z :=
  if age_in_days <=? first_bucket_cutoff_days self then first_bucket_weight self
  else if age_in_days <=? second_bucket_cutoff_days self then second_bucket_weight self
  else if age_in_days <=? third_bucket_cutoff_days self then third_bucket_weight self
  else if age_in_days <=? fourth_bucket_cutoff_days self then fourth_bucket_weight self
  else default_bucket_weight self.

(** ** Computation *)
Section frecency.
Context {W : Type} `{!Clock W}.
Context (checks : bool) (settings : FrecencySettings).
Abbreviation DB := (ST (PlacesDb * W) PlacesError).

Record FrecencyComputation := mkFrecencyComputation {
  fc_page_id : Z; fc_most_recent_redirect_bonus : RedirectBonus;
  fc_typed : Z; fc_visit_count : Z; fc_foreign_count : Z; fc_is_query : bool }.

(** [substr(url, 0, 7) = 'place:']: a substring that starts before the first character. *)
Definition is_query (url : string) : bool := String.prefix "place:" url.

Definition FrecencyComputation_new (page_id : Z) (bonus : RedirectBonus) : DB FrecencyComputation :=
  d ← db_get;
  match moz_places d !! page_id with
  | None => st_err (PSqlError "Query returned no rows")
  | Some r =>
      typed ← st_lift (get_i32 (p_typed r));
      visit_count ← st_lift (get_i32 (p_visit_count_local r + p_visit_count_remote r));
      foreign_count ← st_lift (get_i32 (p_foreign_count r));
      mret (mkFrecencyComputation page_id bonus typed visit_count foreign_count (is_query (p_url r)))
  end.

Definition has_bookmark (self : FrecencyComputation) : bool := 0 <? fc_foreign_count self.

(** *** The recent visits *)
Definition is_redirect_type (ty : Z) : bool :=
  (VisitTransition.as_u8 RedirectPermanent <=? ty) && (ty <=? VisitTransition.as_u8 RedirectTemporary).

(** [ORDER BY visit_date DESC], by id among equal dates. *)
Definition later_first (x y : Z * VisitRow) : Prop := v_visit_date y.2 ≤ v_visit_date x.2.
Global Instance later_first_dec : RelDecision later_first.
Proof. intros x y. unfold later_first. apply _. Defined.

(** The rows of the query, without the age: the type of the visit or of the redirect that led
    to it, the type of each redirect that it led to, and the date. *)
Definition recent_visits (d : PlacesDb) (page_id : Z) : list (Z * option Z * Z) :=
  let visits := merge_sort later_first (select (λ v, v_place_id v =? page_id) (moz_historyvisits d)) in
  let rows := visits ≫= λ '(id, v),
    let origin := if is_redirect_type (v_visit_type v) then v_from_visit v ≫= λ o, moz_historyvisits d !! o else None in
    let targets := select (λ t, bool_decide (v_from_visit t = Some id) && is_redirect_type (v_visit_type t))
                     (moz_historyvisits d) in
    let visit_type := match origin with Some o => v_visit_type o | None => v_visit_type v end in
    match targets with
    | [] => [(visit_type, None, v_visit_date v)]
    | _ => (λ '(_, t), (visit_type, Some (v_visit_type t), v_visit_date v)) <$> targets
    end in
  if num_visits settings <? 0 then rows else take (Z.to_nat (num_visits settings)) rows.

(** [ROUND((now() - v.visit_date)/86400000)] as [f64] and then as [i32]. *)
Definition age_in_days (now visit_date : Z) : Z :=
  Z.max (- 2 ^ 31) (Z.min (2 ^ 31 - 1) (Z.quot (now - visit_date) 86400000)).

Definition sql_now : DB Z := on_world (λ w, let '(t, w) := system_now w in
  (match Timestamp_from_system_time t with Ok t => Ok (ts_to_sql t) | Err e => Err e | Panic m => sql_err m end, w)).

Definition use_redirect_bonus (self : FrecencyComputation) (num_sampled_visits : nat)
    (visit_type target_visit_type : option VisitTransition) : bool :=
  if bool_decide (fc_most_recent_redirect_bonus self = RBUnknown) || Nat.ltb 0 num_sampled_visits
  then bool_decide (target_visit_type = Some RedirectPermanent) ||
       (bool_decide (target_visit_type = Some RedirectTemporary) && negb (bool_decide (visit_type = Some Typed)))
  else bool_decide (fc_most_recent_redirect_bonus self = RBRedirect).

Fixpoint score_visits (self : FrecencyComputation) (rows : list (Z * option Z * Z)) (num_sampled_visits : nat)
    (points_for_sampled_visits : F32.f32) : DB (nat * F32.f32) :=
  match rows with
  | [] => mret (num_sampled_visits, points_for_sampled_visits)
  | (visit_type, target_visit_type, visit_date) :: rows =>
      now ← sql_now;
      visit_type ← st_lift (get_u8 visit_type);
      target_visit_type ← st_lift (match target_visit_type with Some t => get_u8 t | None => Ok 0 end);
      let visit_type := VisitTransition.from_primitive visit_type in
      let target_visit_type := VisitTransition.from_primitive target_visit_type in
      let redirect := use_redirect_bonus self num_sampled_visits visit_type target_visit_type in
      let bonus := get_transition_bonus settings visit_type true redirect in
      bonus ← st_lift (if has_bookmark self
                       then i32_add checks bonus (get_transition_bonus settings (Some Bookmark) true false) else Ok bonus);
      let points := if bonus =? 0 then points_for_sampled_visits
                    else let weight := F32.of_Z (get_frecency_aged_weight settings (age_in_days now visit_date)) in
                         F32.add points_for_sampled_visits (F32.mul weight (F32.div (F32.of_Z bonus) (F32.of_Z 100))) in
      score_visits self rows (S num_sampled_visits) points
  end.

Definition score_recent_visits (self : FrecencyComputation) : DB (nat * F32.f32) :=
  d ← db_get;
  score_visits self (recent_visits d (fc_page_id self)) 0 F32.zero.

Definition get_frecency_for_sample (self : FrecencyComputation) (num_sampled : nat) (score : F32.f32) : Z :=
  if SFeqb score F32.zero then -1
  else F32.as_i32 (F32.ceil (F32.div (F32.mul (F32.of_Z (fc_visit_count self)) (F32.ceil score))
                               (F32.of_Z (Z.of_nat num_sampled)))).

Definition compute_unvisited_bookmark_frecency (self : FrecencyComputation) : res PlacesError Z :=
  let bonus := get_transition_bonus settings (Some Bookmark) false false in
  bonus ← (if fc_typed self =? 0 then Ok bonus
           else i32_add checks bonus (get_transition_bonus settings (Some Typed) false false));
  Ok (F32.as_i32 (F32.ceil (F32.mul (F32.of_Z (first_bucket_weight settings)) (F32.div (F32.of_Z bonus) (F32.of_Z 100))))).

Definition calculate_frecency (page_id : Z) (is_redirect : option bool) : DB Z :=
  _ ← st_lift (rassert (0 <? page_id) "calculate_frecency given invalid page_id");
  let bonus := match is_redirect with None => RBUnknown | Some true => RBRedirect | Some false => RBNormal end in
  fc ← FrecencyComputation_new page_id bonus;
  '(num_sampled_visits, sample_score) ← (if 0 <? fc_visit_count fc then score_recent_visits fc else mret (0%nat, F32.zero));
  if Nat.ltb 0 num_sampled_visits then mret (get_frecency_for_sample fc num_sampled_visits sample_score)
  else if negb (has_bookmark fc) || fc_is_query fc then mret 0
  else st_lift (compute_unvisited_bookmark_frecency fc).
End frecency.
