(* ===== verification/History.v ===== *)
(** * Places: history

    Model of [components/places/src/storage/history.rs] (the part that is not for Sync) and
    [observation.rs], with the triggers of [sql/create_shared_triggers.sql] on visits and
    pages.  A statement that fails changes nothing: the constraints that are checked at its end
    are in [transaction]. *)

From S2P Require Import Prelude Database Sync15Types KeyBundle State Viaduct Token PlacesTypes PlacesDb Bookmarks Frecency.
From Stdlib Require Import Ascii String.
From stdpp Require Import sorting strings list gmap fin_sets.
Local Open Scope Z_scope.
Local Open Scope list_scope.

(** ** Rows of moz_places *)
Definition p_set_title (x : option string) (r : PlaceRow) : PlaceRow :=
  mkPlaceRow (p_url r) x (p_visit_count_local r) (p_visit_count_remote r) (p_hidden r) (p_typed r) (p_frecency r)
    (p_last_visit_date_local r) (p_last_visit_date_remote r) (p_guid r) (p_foreign_count r) (p_url_hash r) (p_origin_id r)
    (p_sync_status r) (p_sync_change_counter r).
Definition p_set_visits (count_local count_remote last_local last_remote : Z) (r : PlaceRow) : PlaceRow :=
  mkPlaceRow (p_url r) (p_title r) count_local count_remote (p_hidden r) (p_typed r) (p_frecency r)
    last_local last_remote (p_guid r) (p_foreign_count r) (p_url_hash r) (p_origin_id r)
    (p_sync_status r) (p_sync_change_counter r).
Definition p_set_hidden (x : bool) (r : PlaceRow) : PlaceRow :=
  mkPlaceRow (p_url r) (p_title r) (p_visit_count_local r) (p_visit_count_remote r) x (p_typed r) (p_frecency r)
    (p_last_visit_date_local r) (p_last_visit_date_remote r) (p_guid r) (p_foreign_count r) (p_url_hash r) (p_origin_id r)
    (p_sync_status r) (p_sync_change_counter r).
Definition p_set_typed (x : Z) (r : PlaceRow) : PlaceRow :=
  mkPlaceRow (p_url r) (p_title r) (p_visit_count_local r) (p_visit_count_remote r) (p_hidden r) x (p_frecency r)
    (p_last_visit_date_local r) (p_last_visit_date_remote r) (p_guid r) (p_foreign_count r) (p_url_hash r) (p_origin_id r)
    (p_sync_status r) (p_sync_change_counter r).
Definition p_set_guid (x : string) (r : PlaceRow) : PlaceRow :=
  mkPlaceRow (p_url r) (p_title r) (p_visit_count_local r) (p_visit_count_remote r) (p_hidden r) (p_typed r) (p_frecency r)
    (p_last_visit_date_local r) (p_last_visit_date_remote r) x (p_foreign_count r) (p_url_hash r) (p_origin_id r)
    (p_sync_status r) (p_sync_change_counter r).
Definition p_set_sync (status counter : Z) (r : PlaceRow) : PlaceRow :=
  mkPlaceRow (p_url r) (p_title r) (p_visit_count_local r) (p_visit_count_remote r) (p_hidden r) (p_typed r) (p_frecency r)
    (p_last_visit_date_local r) (p_last_visit_date_remote r) (p_guid r) (p_foreign_count r) (p_url_hash r) (p_origin_id r)
    status counter.

(** ** observation.rs *)
Record VisitObservation := mkVisitObservation {
  vo_url : string; vo_title : option string; vo_visit_type : option VisitTransition; vo_is_error : option bool;
  vo_is_redirect_source : option bool; vo_is_permanent_redirect_source : option bool; vo_at : option Z;
  vo_referrer : option string; vo_is_remote : option bool }.

Definition get_redirect_frecency_boost (self : VisitObservation) : bool :=
  is_some (vo_is_redirect_source self) &&
  match vo_visit_type self with Some t => negb (bool_decide (t = Typed)) | None => true end.
Definition get_is_hidden (self : VisitObservation) : bool :=
  match vo_visit_type self with
  | Some t => is_some (vo_is_redirect_source self) || bool_decide (t = FramedLink) || bool_decide (t = Embed)
  | None => false
  end.

(** ** Statements on visits *)
(** [visit_type NOT IN (0, 4, 7, 8, 9)]. *)
Definition counted (ty : Z) : bool := negb (bool_decide (ty ∈ [0; 4; 7; 8; 9])).
Definition b2z (b : bool) : Z := if b then 1 else 0.

Definition moz_historyvisits_afterinsert_trigger (v : VisitRow) : PlacesDb → PlacesDb :=
  on_places (alter (λ p,
    p_set_visits
      (p_visit_count_local p + b2z (counted (v_visit_type v) && v_is_local v))
      (p_visit_count_remote p + b2z (counted (v_visit_type v) && negb (v_is_local v)))
      (Z.max (p_last_visit_date_local p) (if v_is_local v then v_visit_date v else 0))
      (Z.max (p_last_visit_date_remote p) (if v_is_local v then 0 else v_visit_date v)) p) (v_place_id v)).

(** [IFNULL((SELECT visit_date .. ORDER BY visit_date DESC LIMIT 1), 0)]. *)
Definition visit_of (is_local : bool) (place_id : Z) (v : VisitRow) : bool :=
  (v_place_id v =? place_id) && Bool.eqb (v_is_local v) is_local.
Definition last_visit_date (is_local : bool) (place_id : Z) (m : gmap Z VisitRow) : Z :=
  match merge_sort later_first (select (visit_of is_local place_id) m) with [] => 0 | (_, v) :: _ => v_visit_date v end.

Definition moz_historyvisits_afterdelete_trigger (v : VisitRow) (d : PlacesDb) : PlacesDb :=
  on_places (alter (λ p,
    p_set_visits
      (p_visit_count_local p - b2z (counted (v_visit_type v) && v_is_local v))
      (p_visit_count_remote p - b2z (counted (v_visit_type v) && negb (v_is_local v)))
      (last_visit_date true (v_place_id v) (moz_historyvisits d))
      (last_visit_date false (v_place_id v) (moz_historyvisits d)) p) (v_place_id v)) d.

(** The frecency of a row, with [moz_places_afterupdate_frecency_trigger]. *)
Definition stage (key : string * string) (delta : Z) (m : gmap (string * string) Z) : gmap (string * string) Z :=
  <[key := default 0 (m !! key) + delta]> m.
Definition set_frecency (id score : Z) (d : PlacesDb) : PlacesDb :=
  match moz_places d !! id with
  | None => d
  | Some p =>
      on_update_temp (stage (get_prefix (p_url p), get_host_and_port (p_url p)) (Z.max score 0 - Z.max (p_frecency p) 0))
        (on_places <[id := p_set_frecency score p]> d)
  end.

(** [moz_places_afterdelete_trigger_origins]. *)
Definition stage_deletion (p : PlaceRow) (m : gmap (string * string) Z) : gmap (string * string) Z :=
  let key := (get_prefix (p_url p), get_host_and_port (p_url p)) in
  match m !! key with
  | None => <[key := - Z.max (p_frecency p) 0]> m
  | Some x => if 0 <? p_frecency p then <[key := x - p_frecency p]> m else m
  end.

(** The foreign key [from_visit]. *)
Definition visit_fk (d : PlacesDb) : bool :=
  bool_decide (map_Forall (λ _ v, in_table (v_from_visit v) (moz_historyvisits d) = true) (moz_historyvisits d)).

Section history.
Context {W : Type} `{!UrlLib, !Interruptee W, !Clock W, !Rand W, !UrlSafeBase64}.
(** The overflow checks of the build, and the number of variables in a statement. *)
Context (checks : bool) (max_variable_number : nat).
Abbreviation DB := (ST (PlacesDb * W) PlacesError).

Definition fk_failed {A} : DB A := st_err (PSqlError "FOREIGN KEY constraint failed").

Definition insert_visit (v : VisitRow) : DB Z :=
  d ← db_get;
  let id := next_rowid (moz_historyvisits d) in
  let visits := <[id := v]> (moz_historyvisits d) in
  if in_table (v_from_visit v) visits && is_some (moz_places d !! v_place_id v) then
    _ ← db_modify (on_visits (λ _, visits));
    _ ← db_modify (moz_historyvisits_afterinsert_trigger v);
    mret id
  else fk_failed.

(** [DELETE FROM moz_historyvisits WHERE ..]. *)
Definition delete_visit_row (d : PlacesDb) (id : Z) : PlacesDb :=
  match moz_historyvisits d !! id with
  | None => d
  | Some v => moz_historyvisits_afterdelete_trigger v (on_visits (delete id) d)
  end.
Definition delete_visits (sel : Z → VisitRow → bool) : DB unit :=
  d ← db_get;
  let ids := fst <$> List.filter (λ '(id, v), sel id v) (rows (moz_historyvisits d)) in
  let d' := foldl delete_visit_row d ids in
  if visit_fk d' then db_modify (λ _, d') else fk_failed.

(** ** Statements on pages *)
(** What [ON DELETE CASCADE] does to the tags of a page, with
    [moz_tags_relations_afterdelete_trigger]. *)
Fixpoint untag_page (tags : list Z) (place_id : Z) : DB unit :=
  match tags with
  | [] => mret tt
  | tag :: tags =>
      _ ← db_modify (on_tags_relation (λ s, s ∖ {[(tag, place_id)]}));
      now ← sql_now;
      _ ← db_modify (on_tags (alter (λ t, mkTagRow (t_tag t) now) tag));
      untag_page tags place_id
  end.
Definition tags_of (d : PlacesDb) (place_id : Z) : list Z :=
  fst <$> List.filter (λ '(_, p), p =? place_id) (elements (moz_tags_relation d)).

(** One row; bookmarks restrict its deletion, and its visits, their tombstones, its stale
    frecency, its input history and its tags are deleted with it. *)
Definition delete_place_row (id : Z) : DB unit :=
  d ← db_get;
  match moz_places d !! id with
  | None => mret tt
  | Some p =>
      if bool_decide (map_Forall (λ _ b, b_fk b ≠ Some id) (moz_bookmarks d)) then
        _ ← db_modify (on_places (delete id));
        _ ← db_modify (on_visits (filter (λ '(_, v), v_place_id v ≠ id)));
        _ ← db_modify (on_visit_tombstones (filter (λ '(p, _), p ≠ id)));
        _ ← db_modify (on_stale (delete id));
        _ ← db_modify (on_inputhistory (filter (λ '((p, _), _), p ≠ id)));
        _ ← untag_page (tags_of d id) id;
        db_modify (on_delete_temp (stage_deletion p))
      else fk_failed
  end.
Fixpoint delete_place_rows (ids : list Z) : DB unit :=
  match ids with
  | [] => mret tt
  | id :: ids => _ ← delete_place_row id; delete_place_rows ids
  end.
(** [DELETE FROM moz_places WHERE ..]. *)
Definition delete_places (sel : Z → PlaceRow → bool) : DB unit :=
  d ← db_get;
  let ids := fst <$> List.filter (λ '(id, p), sel id p) (rows (moz_places d)) in
  transaction (
    _ ← delete_place_rows ids;
    d ← db_get;
    if visit_fk d then mret tt else fk_failed).

(** UPDATE of columns other than [frecency], without triggers. *)
Definition update_places (sel : Z → PlaceRow → bool) (f : PlaceRow → PlaceRow) : DB unit :=
  db_modify (on_places (map_imap (λ id p, Some (if sel id p then f p else p)))).

Definition has_url (hash : Z) (url : string) (p : PlaceRow) : bool := (p_url_hash p =? hash) && String.eqb (p_url p) url.

(** ** update_frecency and friends *)
Definition update_frecency (id : Z) (redirect_boost : option bool) : DB unit :=
  score ← calculate_frecency checks DEFAULT_FRECENCY_SETTINGS id redirect_boost;
  db_modify (set_frecency id score).
Fixpoint update_frecencies (ids : list Z) : DB unit :=
  match ids with
  | [] => mret tt
  | id :: ids => _ ← update_frecency id None; update_frecencies ids
  end.

Definition frecency_stale_at (url : Url) : DB (option Z) :=
  hash ← st_lift (sql_hash (url_as_str url));
  d ← db_get;
  mret (head (omap (λ '(id, _), ts_of_sql <$> moz_places_stale_frecencies d !! id)
               (select (has_url hash (url_as_str url)) (moz_places d)))).

Definition add_visit (page_id : Z) (from_visit : option Z) (visit_date : Z) (visit_type : VisitTransition) (is_local : bool)
    : DB Z :=
  rid ← insert_visit (mkVisitRow is_local from_visit page_id (ts_to_sql visit_date) (VisitTransition.as_u8 visit_type));
  _ ← db_modify (on_visit_tombstones (λ s, s ∖ {[(page_id, ts_to_sql visit_date)]}));
  mret rid.

Definition url_to_guid (url : Url) : DB (option string) :=
  hash ← st_lift (sql_hash (url_as_str url));
  d ← db_get;
  mret ((λ '(_, p), p_guid p) <$> select_first (has_url hash (url_as_str url)) (moz_places d)).

(** ** Observations *)
(** The columns that an observation sets. *)
Definition compose_updates (l : list (PlaceRow → PlaceRow)) (p : PlaceRow) : PlaceRow := foldl (λ p f, f p) p l.

Definition apply_observation_direct (visit_ob : VisitObservation) : DB (option Z) :=
  url ← st_lift (parse_url (vo_url visit_ob));
  if URL_LENGTH_MAX <? Z.of_nat (len_str (url_as_str url)) then mret None
  else
    page_info ← fetch_or_new_page url;
    title_updates ← match vo_title visit_ob with
                    | Some title => t ← st_lift (slice_up_to title TITLE_LENGTH_MAX); mret [p_set_title (Some t)]
                    | None => mret []
                    end;
    '(visit_row_id, visit_updates, update_frec) ←
      match vo_visit_type visit_ob with
      | Some visit_type =>
          let hidden_updates := if get_is_hidden visit_ob then [] else [p_set_hidden false] in
          typed_updates ← (if bool_decide (visit_type = Typed)
                           then typed ← st_lift (uadd checks 32 (pi_typed page_info) 1); mret [p_set_typed typed]
                           else mret []);
          at_ ← match vo_at visit_ob with Some t => mret t | None => now end;
          let is_remote := default false (vo_is_remote visit_ob) in
          row_id ← add_visit (pi_row_id page_info) None at_ visit_type (negb is_remote);
          mret (Some row_id, hidden_updates ++ typed_updates, negb (default false (vo_is_error visit_ob)))
      | None => mret (None, [], false)
      end;
    counter_updates ← (if is_some (vo_title visit_ob) || is_some (vo_visit_type visit_ob)
                       then counter ← st_lift (uadd checks 32 (pi_sync_change_counter page_info) 1);
                            mret [λ p, p_set_sync (p_sync_status p) counter p]
                       else mret []);
    _ ← update_places (λ id _, id =? pi_row_id page_info) (compose_updates (title_updates ++ visit_updates ++ counter_updates));
    _ ← (if update_frec : bool then update_frecency (pi_row_id page_info) (Some (get_redirect_frecency_boost visit_ob))
         else mret tt);
    mret (visit_row_id : option Z).

Definition apply_observation (visit_ob : VisitObservation) : DB (option Z) :=
  transaction (apply_observation_direct visit_ob).

(** ** Deletion *)
(** [INSERT OR IGNORE INTO moz_places_tombstones (guid) SELECT guid FROM moz_places WHERE ..]. *)
Definition bury_places (sel : Z → PlaceRow → bool) : DB unit :=
  d ← db_get;
  db_modify (on_places_tombstones (λ s,
    s ∪ list_to_set ((λ '(_, p), p_guid p) <$> List.filter (λ '(id, p), sel id p) (rows (moz_places d))))).

Definition is_normal_place (p : PlaceRow) : bool := p_sync_status p =? SyncStatus.as_u8 SNormal.

Definition do_delete_place_by_guid (guid : string) : DB unit :=
  _ ← bury_places (λ _ p, String.eqb (p_guid p) guid && is_normal_place p);
  _ ← delete_places (λ _ p, String.eqb (p_guid p) guid);
  delete_pending_temp_tables.
(** The transaction is committed also when the result is an error. *)
Definition delete_place_by_guid (guid : string) : DB unit := commit_always (do_delete_place_by_guid guid).

Record PageToClean := mkPageToClean { pc_id : Z; pc_has_foreign : bool; pc_has_visits : bool }.
Definition PageToClean_from_row (id : Z) (p : PlaceRow) : PageToClean :=
  mkPageToClean id (negb (p_foreign_count p =? 0)) (negb (p_last_visit_date_local p + p_last_visit_date_remote p =? 0)).

(** [foreign_count = 0 AND last_visit_date_local = 0 AND last_visit_date_remote = 0]. *)
Definition is_orphan (p : PlaceRow) : bool :=
  (p_foreign_count p =? 0) && (p_last_visit_date_local p =? 0) && (p_last_visit_date_remote p =? 0).

Definition cleanup_pages (pages : list PageToClean) : DB unit :=
  let frec_ids := pc_id <$> List.filter (λ p, pc_has_foreign p || pc_has_visits p) pages in
  _ ← update_frecencies frec_ids;
  let remove_ids := pc_id <$> List.filter (λ p, negb (pc_has_foreign p) && negb (pc_has_visits p)) pages in
  each_sized_chunk remove_ids max_variable_number (λ chunk _,
    _ ← bury_places (λ id p, bool_decide (id ∈ chunk) && is_normal_place p && is_orphan p);
    delete_places (λ id p, bool_decide (id ∈ chunk) && is_orphan p)).

(** The pages among some ids. *)
Definition pages_to_clean (d : PlacesDb) (ids : list Z) : list PageToClean :=
  (λ '(id, p), PageToClean_from_row id p) <$> List.filter (λ '(id, _), bool_decide (id ∈ ids)) (rows (moz_places d)).

Definition delete_place_visit_at_time_in_tx (url : string) (visit_date : Z) : DB unit :=
  hash ← st_lift (sql_hash url);
  d ← db_get;
  let at_date v := v_visit_date v =? ts_to_sql visit_date in
  let visited '(id, p) := has_url hash url p &&
    is_some (select_first (λ v, (v_place_id v =? id) && at_date v) (moz_historyvisits d)) in
  match head (List.filter visited (rows (moz_places d))) with
  | None => mret tt
  | Some (place_id, _) =>
      _ ← db_modify (on_visit_tombstones (λ s, s ∪ {[(place_id, ts_to_sql visit_date)]}));
      _ ← delete_visits (λ _ v, at_date v && (v_place_id v =? place_id));
      d ← db_get;
      match moz_places d !! place_id with
      | None => st_err (PSqlError "Query returned no rows")
      | Some p =>
          _ ← cleanup_pages [PageToClean_from_row place_id p];
          delete_pending_temp_tables
      end
  end.
Definition delete_place_visit_at_time (place : Url) (visit : Z) : DB unit :=
  transaction (delete_place_visit_at_time_in_tx (url_as_str place) visit).

Definition delete_visits_between_in_tx (start end_ : Z) : DB unit :=
  d ← db_get;
  let between v := (ts_to_sql start <=? v_visit_date v) && (v_visit_date v <=? ts_to_sql end_) in
  let visits := select between (moz_historyvisits d) in
  _ ← each_sized_chunk visits max_variable_number (λ chunk _, delete_visits (λ id _, bool_decide (id ∈ chunk.*1)));
  _ ← db_modify (on_visit_tombstones (λ s, s ∪ list_to_set ((λ '(_, v), (v_place_id v, ts_of_sql (v_visit_date v))) <$> visits)));
  _ ← each_sized_chunk visits max_variable_number (λ chunk _,
        d ← db_get;
        cleanup_pages (pages_to_clean d ((λ '(_, v), v_place_id v) <$> chunk)));
  delete_pending_temp_tables.
Definition delete_visits_between (start end_ : Z) : DB unit := transaction (delete_visits_between_in_tx start end_).

(** ** Wiping *)
(** [UPDATE moz_places SET frecency = .., sync_change_counter = 0]. *)
Definition reset_place (d : PlacesDb) (id : Z) : PlacesDb :=
  on_places (alter (λ p, p_set_sync (p_sync_status p) 0 p) id)
    (set_frecency id (unvisited_bookmark_bonus DEFAULT_FRECENCY_SETTINGS) d).
(** [DELETE FROM moz_origins WHERE id NOT IN (SELECT origin_id FROM moz_places)]: nothing is
    not in a set with a NULL. *)
Definition delete_unused_origins (d : PlacesDb) : PlacesDb :=
  if bool_decide (map_Forall (λ _ p, p_origin_id p ≠ None) (moz_places d))
  then on_origins (filter (λ '(id, _), map_Forall (λ _ p, p_origin_id p ≠ Some id) (moz_places d))) d
  else d.

Definition wipe_tables : DB unit :=
  _ ← delete_places (λ _ p, p_foreign_count p =? 0);
  _ ← delete_visits (λ _ _, true);
  _ ← db_modify (on_places_tombstones (λ _, ∅));
  _ ← db_modify (on_inputhistory (λ _, ∅));
  _ ← db_modify (on_visit_tombstones (λ _, ∅));
  _ ← db_modify delete_unused_origins;
  _ ← db_modify (λ d, foldl reset_place d (fst <$> rows (moz_places d)));
  d ← db_get;
  _ ← update_frecencies (fst <$> rows (moz_places d));
  delete_pending_temp_tables.
(** The [VACUUM] that follows the commit leaves the contents of the tables as they are; it is
    not modelled, and neither is the error that SQLite returns when it cannot run it. *)
Definition wipe_local : DB unit := transaction wipe_tables.
Definition prune_destructively : DB unit := wipe_local.

Definition DELETION_HIGH_WATER_MARK_META_KEY : string := "history_deleted_hwm".
(** [get_meta::<Timestamp>]. *)
Definition get_meta_timestamp (key : string) : DB (option Z) :=
  v ← get_meta key;
  st_lift match v with
          | None => Ok None
          | Some (MInteger z) => Ok (Some (ts_of_sql z))
          | Some (MText _) => sql_err "Invalid column type Text"
          end.
Definition put_meta_timestamp (key : string) (t : Z) : DB unit := put_meta key (MInteger (ts_to_sql t)).

(** [SELECT MAX(visit_date) FROM moz_historyvisits]. *)
Definition max_visit_date (m : gmap Z VisitRow) : option Z :=
  match merge_sort later_first (rows m) with [] => None | (_, v) :: _ => Some (v_visit_date v) end.

Definition delete_everything : DB unit :=
  transaction (
    d ← db_get;
    let most_recent_known_visit_time := default 0 (ts_of_sql <$> max_visit_date (moz_historyvisits d)) in
    previous_mark ← get_meta_timestamp DELETION_HIGH_WATER_MARK_META_KEY;
    now ← now;
    let new_mark := Z.max (Z.max now (default 0 previous_mark)) most_recent_known_visit_time in
    _ ← put_meta_timestamp DELETION_HIGH_WATER_MARK_META_KEY new_mark;
    wipe_tables).

(** ** Queries *)
Definition get_visited_chunk (d : PlacesDb) (chunk : list (nat * Url)) (result : list bool) : res PlacesError (list bool) :=
  foldl (λ acc '(idx, url),
    result ← acc;
    hash ← hash_url (url_as_str url);
    if is_some (select_first (has_url hash (url_as_str url)) (moz_places d))
    then if bool_decide (idx < length result)%nat then Ok (<[idx := true]> result) else Panic "index out of bounds"
    else Ok result) (Ok result) chunk.
Fixpoint get_visited_chunks (d : PlacesDb) (cs : list (list (nat * Url))) (result : list bool) : res PlacesError (list bool) :=
  match cs with
  | [] => Ok result
  | c :: cs => result ← get_visited_chunk d c result; get_visited_chunks d cs result
  end.
Definition get_visited_into (urls_idxs : list (nat * Url)) (result : list bool) : DB (list bool) :=
  d ← db_get;
  st_lift (get_visited_chunks d (chunks (length urls_idxs) max_variable_number urls_idxs) result).
Definition get_visited (urls : list Url) : DB (list bool) :=
  get_visited_into (imap pair urls) (replicate (length urls) false).

Definition get_visited_urls (start end_ : Z) (include_remote : bool) : DB (list string) :=
  d ← db_get;
  let wanted id v := (v_place_id v =? id) && (ts_to_sql start <=? v_visit_date v) && (v_visit_date v <=? ts_to_sql end_) &&
                     (include_remote || v_is_local v) in
  mret ((λ '(_, p), p_url p) <$>
          List.filter (λ '(id, _), is_some (select_first (wanted id) (moz_historyvisits d))) (rows (moz_places d))).

Record HistoryVisitInfo := mkHistoryVisitInfo { hv_url : string; hv_title : option string; hv_timestamp : Z; hv_visit_type : Z }.
Definition HistoryVisitInfo_from_row (p : PlaceRow) (v : VisitRow) : res PlacesError HistoryVisitInfo :=
  ty ← get_u8 (v_visit_type v);
  Ok (mkHistoryVisitInfo (p_url p) (p_title p) (v_visit_date v)
        (VisitTransition.as_u8 (default Link (VisitTransition.from_primitive ty)))).

(** [((1 << visit_type) & :allowed_types) != 0]. *)
Definition type_allowed (allowed_types : Z) (v : VisitRow) : bool :=
  negb (Z.land (Z.shiftl 1 (v_visit_type v)) allowed_types =? 0).
(** [ORDER BY visit_date]. *)
Definition earlier_first (x y : Z * VisitRow) : Prop := v_visit_date x.2 ≤ v_visit_date y.2.
Global Instance earlier_first_dec : RelDecision earlier_first.
Proof. intros x y. unfold earlier_first. apply _. Defined.

Definition infos_of (d : PlacesDb) (visits : list (Z * VisitRow)) : res PlacesError (list HistoryVisitInfo) :=
  mapM (λ '(p, v), HistoryVisitInfo_from_row p v)
    (omap (λ '(_, v), (λ p, (p, v)) <$> moz_places d !! v_place_id v) visits).

Definition get_visit_infos (start end_ exclude_types : Z) : DB (list HistoryVisitInfo) :=
  d ← db_get;
  let allowed_types := VisitTransitionSet.complement exclude_types in
  let wanted v := (ts_to_sql start <=? v_visit_date v) && (v_visit_date v <=? ts_to_sql end_) && type_allowed allowed_types v in
  st_lift (infos_of d (merge_sort earlier_first (select wanted (moz_historyvisits d)))).

Definition get_visit_count (exclude_types : Z) : DB Z :=
  d ← db_get;
  mret (if VisitTransitionSet.is_empty exclude_types then Z.of_nat (size (moz_historyvisits d))
        else Z.of_nat (length (select (type_allowed (VisitTransitionSet.complement exclude_types)) (moz_historyvisits d)))).

(** [LIMIT :count OFFSET :offset]: a negative limit is none, a negative offset is zero. *)
Definition limit_offset {A} (count offset : Z) (l : list A) : list A :=
  let l := drop (Z.to_nat offset) l in
  if count <? 0 then l else take (Z.to_nat count) l.
Definition get_visit_page (offset count exclude_types : Z) : DB (list HistoryVisitInfo) :=
  d ← db_get;
  let wanted := type_allowed (VisitTransitionSet.complement exclude_types) in
  let visits := List.filter (λ '(_, v), is_some (moz_places d !! v_place_id v))
                  (merge_sort later_first (select wanted (moz_historyvisits d))) in
  st_lift (infos_of d (limit_offset count offset visits)).
End history.
