(* ===== verification/HistorySpec.v ===== *)
(** * Places: the invariant of the history tables

    Triggers keep the number of visits and the dates of the last visits of a page in the row of
    the page.  The invariant says that they are right, and that the tombstones are those of
    things that are not there. *)

From S2P Require Import Prelude Database Sync15Types KeyBundle State Viaduct Token PlacesTypes PlacesDb Bookmarks BookmarksSpec Frecency History.
From Stdlib Require Import Ascii String.
From stdpp Require Import sorting strings list gmap fin_sets.
Local Open Scope Z_scope.
Local Open Scope list_scope.

(** ** Counting *)
Definition count {A} (f : A → bool) (m : gmap Z A) : Z := Z.of_nat (size (filter (λ '(_, v), f v = true) m)).

Lemma count_empty {A} (f : A → bool) : count f ∅ = 0.
Proof. unfold count. by rewrite map_filter_empty, map_size_empty. Qed.
Lemma count_insert {A} (f : A → bool) (m : gmap Z A) i x :
  m !! i = None → count f (<[i := x]> m) = count f m + b2z (f x).
Proof.
  intros Hi. unfold count. destruct (f x) eqn:Hf; cbn [b2z].
  - rewrite map_filter_insert_True by done. rewrite map_size_insert_None; [lia|]. apply map_lookup_filter_None. by left.
  - rewrite map_filter_insert_False by (by rewrite Hf). rewrite delete_id by done. lia.
Qed.
Lemma count_delete {A} (f : A → bool) (m : gmap Z A) i x :
  m !! i = Some x → count f (delete i m) = count f m - b2z (f x).
Proof.
  intros Hi. rewrite <-(insert_delete_id m i x Hi) at 2. rewrite count_insert by apply lookup_delete_eq. lia.
Qed.
Lemma count_none {A} (f : A → bool) (m : gmap Z A) : (∀ i x, m !! i = Some x → f x = false) → count f m = 0.
Proof.
  intros Hf. unfold count. replace (filter _ m) with (∅ : gmap Z A); [by rewrite map_size_empty|]. symmetry.
  apply map_empty. intros i. apply map_lookup_filter_None. right. intros x Hx. by rewrite (Hf i x Hx).
Qed.
(** Rows that do not count do not matter. *)
Lemma count_filter {A} (f : A → bool) (P : Z * A → Prop) `{!∀ x, Decision (P x)} (m : gmap Z A) :
  (∀ i x, m !! i = Some x → f x = true → P (i, x)) → count f (filter P m) = count f m.
Proof.
  intros HP. unfold count. do 2 f_equal. rewrite map_filter_filter. apply map_filter_ext. intros i x Hx. naive_solver.
Qed.

(** ** The dates of the last visits *)
Lemma later_first_head l x y :
  head (merge_sort later_first l) = Some x → y ∈ l → v_visit_date y.2 ≤ v_visit_date x.2.
Proof.
  assert (Htrans : Transitive later_first) by (intros a b c; unfold later_first; lia).
  assert (Htotal : Total later_first) by (intros a b; unfold later_first; lia).
  assert (Hs : StronglySorted later_first (merge_sort later_first l)).
  { apply Sorted_StronglySorted; [done|]. apply (Sorted_merge_sort _). }
  intros Hh Hy. rewrite <-(merge_sort_Permutation later_first l) in Hy.
  destruct (merge_sort later_first l) as [|z k]; [done|]. injection Hh as ->. apply elem_of_cons in Hy as [->|Hy]; [done|].
  apply StronglySorted_inv in Hs as [_ Hs]. rewrite Forall_forall in Hs. by apply Hs.
Qed.

Definition visits_at (m : gmap Z VisitRow) (b : bool) (p z : Z) : Prop :=
  ∃ id v, m !! id = Some v ∧ visit_of b p v = true ∧ v_visit_date v = z.

(** [z] is the date of the last visit, or there is none. *)
Definition is_last (m : gmap Z VisitRow) (b : bool) (p z : Z) : Prop :=
  (z = 0 ∧ ∀ id v, m !! id = Some v → visit_of b p v = false) ∨
  (visits_at m b p z ∧ ∀ id v, m !! id = Some v → visit_of b p v = true → v_visit_date v ≤ z).

Lemma last_visit_date_is_last m b p : is_last m b p (last_visit_date b p m).
Proof.
  unfold last_visit_date. pose proof (later_first_head (select (visit_of b p) m)) as Hhead.
  pose proof (merge_sort_Permutation later_first (select (visit_of b p) m)) as Hperm.
  destruct (merge_sort later_first _) as [|[id v] l].
  - left. split; [done|]. intros id v Hv. destruct (visit_of b p v) eqn:Hb; [|done]. exfalso.
    assert (Hin : (id, v) ∈ select (visit_of b p) m) by (by apply elem_of_select).
    rewrite <-Hperm in Hin. by apply elem_of_nil in Hin.
  - right. split.
    + assert (Hin : (id, v) ∈ select (visit_of b p) m) by (rewrite <-Hperm; apply list_elem_of_here).
      apply elem_of_select in Hin as [? ?]. by exists id, v.
    + intros id' v' Hv' Hb. apply (Hhead (id, v) (id', v')); [done|]. by apply elem_of_select.
Qed.
Lemma is_last_unique m b p z z' : is_last m b p z → is_last m b p z' → z = z'.
Proof.
  intros [[-> Hno]|[(id & v & Hv & Hb & <-) Hmax]] [[-> Hno']|[(id' & v' & Hv' & Hb' & <-) Hmax']]; [done|..].
  - apply Hno in Hv'. congruence.
  - apply Hno' in Hv. congruence.
  - apply Z.le_antisymm; eauto.
Qed.
Lemma is_last_ext m m' b p z :
  (∀ id v, visit_of b p v = true → m' !! id = Some v ↔ m !! id = Some v) → is_last m b p z → is_last m' b p z.
Proof.
  intros Hext [[-> Hno]|[(id & v & Hv & Hb & <-) Hmax]].
  - left. split; [done|]. intros id v Hv. destruct (visit_of b p v) eqn:Hb; [|done]. apply Hext in Hv; [|done].
    apply Hno in Hv. congruence.
  - right. split; [exists id, v; split_and!; try done; by apply Hext|]. intros id' v' Hv' Hb'. eapply Hmax; [|done]. by apply Hext.
Qed.
Lemma is_last_insert m b p z id v :
  m !! id = None → 0 < v_visit_date v → (∀ i w, m !! i = Some w → 0 < v_visit_date w) → is_last m b p z →
  is_last (<[id := v]> m) b p (if visit_of b p v then Z.max z (v_visit_date v) else z).
Proof.
  intros Hid Hpos Hall Hl. destruct (visit_of b p v) eqn:Hb.
  - right. destruct Hl as [[-> Hno]|[(i & w & Hw & Hbw & <-) Hmax]].
    + rewrite Z.max_r by lia. split; [exists id, v; by rewrite lookup_insert_eq|].
      intros i w Hw Hbw. destruct (decide (i = id)) as [->|]; [rewrite lookup_insert_eq in Hw; by injection Hw as <-|].
      rewrite lookup_insert_ne in Hw by done. apply Hno in Hw. congruence.
    + split.
      * destruct (Z.max_spec (v_visit_date w) (v_visit_date v)) as [[_ ->]|[_ ->]]; [exists id, v; by rewrite lookup_insert_eq|].
        exists i, w. rewrite lookup_insert_ne; [done|]. intros ->. congruence.
      * intros j u Hu Hbu. destruct (decide (j = id)) as [->|]; [rewrite lookup_insert_eq in Hu; injection Hu as <-; lia|].
        rewrite lookup_insert_ne in Hu by done. specialize (Hmax _ _ Hu Hbu). lia.
  - eapply is_last_ext; [|done]. intros i w Hbw. rewrite lookup_insert_Some. split; [|intros Hw; right; split; [intros <-; congruence|done]].
    intros [[-> ->]|[_ ?]]; congruence.
Qed.
Lemma is_last_zero m b p : is_last m b p 0 → (∀ i w, m !! i = Some w → 0 < v_visit_date w) → ∀ id v, m !! id = Some v → visit_of b p v = false.
Proof.
  intros [[_ Hno]|[(id & v & Hv & Hb & Hz) _]] Hall; [done|]. apply Hall in Hv. lia.
Qed.

(** ** The abstract history

    What the tables say, without what is derived from the visits (the statistics of a page and
    its frecency) and without what does not matter to history (titles, origins, ..). *)
Record Page := mkPage { pg_url : string; pg_guid : string; pg_hash : Z; pg_foreign : Z; pg_status : Z }.
Definition page_of (p : PlaceRow) : Page := mkPage (p_url p) (p_guid p) (p_url_hash p) (p_foreign_count p) (p_sync_status p).

Record Hist := mkHist {
  h_pages : gmap Z Page; h_visits : gmap Z VisitRow; h_vtombs : gset (Z * Z); h_ptombs : gset string;
  h_bookmarks : gmap Z BookmarkRow; h_mark : option MetaValue }.
Definition abs (d : PlacesDb) : Hist :=
  mkHist (page_of <$> moz_places d) (moz_historyvisits d) (moz_historyvisit_tombstones d) (moz_places_tombstones d)
    (moz_bookmarks d) (moz_meta d !! DELETION_HIGH_WATER_MARK_META_KEY).

Definition no_visits (m : gmap Z VisitRow) (id : Z) : Prop := map_Forall (λ _ v, v_place_id v ≠ id) m.
Global Instance no_visits_dec m id : Decision (no_visits m id).
Proof. unfold no_visits. apply _. Defined.

(** A date that is a number of milliseconds since the epoch. *)
Definition date_ok (t : Z) : Prop := 0 < t < 2 ^ 63.

(** Keys are unique, references lead to rows, and dates and types of visits are in range. *)
Record hist_wf (h : Hist) : Prop := {
  wf_page id pg : h_pages h !! id = Some pg → 0 < id ∧ sql_hash (pg_url pg) = Ok (pg_hash pg);
  wf_url i p j q : h_pages h !! i = Some p → h_pages h !! j = Some q → pg_url p = pg_url q → i = j;
  wf_guid i p j q : h_pages h !! i = Some p → h_pages h !! j = Some q → pg_guid p = pg_guid q → i = j;
  wf_visit i v : h_visits h !! i = Some v →
    is_Some (h_pages h !! v_place_id v) ∧ v_from_visit v = None ∧ date_ok (v_visit_date v) ∧
    ∃ t, v_visit_type v = VisitTransition.as_u8 t;
  wf_vtomb id t : (id, t) ∈ h_vtombs h → is_Some (h_pages h !! id);
}.
(** Nothing that is there has a tombstone, except pages with a guid in [F]. *)
Record tombs_but (F : gset string) (h : Hist) : Prop := {
  tomb_page id pg : h_pages h !! id = Some pg → pg_guid pg ∉ F → pg_guid pg ∉ h_ptombs h;
  tomb_visit i v : h_visits h !! i = Some v → (v_place_id v, v_visit_date v) ∉ h_vtombs h;
}.
(** Nothing that is there has a tombstone. *)
Definition tombs_ok (h : Hist) : Prop :=
  (∀ id pg, h_pages h !! id = Some pg → pg_guid pg ∉ h_ptombs h) ∧
  (∀ i v, h_visits h !! i = Some v → (v_place_id v, v_visit_date v) ∉ h_vtombs h).
Lemma tombs_but_empty h : tombs_but ∅ h ↔ tombs_ok h.
Proof.
  split; [intros [Hp Hv]|intros [Hp Hv]]; (split; [intros id pg Hpg|done]); [apply (Hp id pg Hpg); set_solver|intros _; by apply (Hp id)].
Qed.

(** The statistics of a page. *)
Definition counts (b : bool) (id : Z) (v : VisitRow) : bool := visit_of b id v && counted (v_visit_type v).
Record page_ok (m : gmap Z VisitRow) (id : Z) (p : PlaceRow) : Prop := {
  ok_count_local : p_visit_count_local p = count (counts true id) m;
  ok_count_remote : p_visit_count_remote p = count (counts false id) m;
  ok_last_local : is_last m true id (p_last_visit_date_local p);
  ok_last_remote : is_last m false id (p_last_visit_date_remote p);
}.
Definition stats_ok (d : PlacesDb) : Prop := map_Forall (page_ok (moz_historyvisits d)) (moz_places d).

Definition hist_pre (d : PlacesDb) : Prop := hist_wf (abs d) ∧ stats_ok d.
Definition hist_ok (d : PlacesDb) : Prop := hist_pre d ∧ tombs_ok (abs d).
Definition hist_but (F : gset string) (d : PlacesDb) : Prop := hist_pre d ∧ tombs_but F (abs d).
Lemma hist_but_empty d : hist_but ∅ d ↔ hist_ok d.
Proof. unfold hist_but, hist_ok. by rewrite tombs_but_empty. Qed.

(** In a sound database the hash adds nothing to the URL. *)
Lemma has_url_eq d hash url id p :
  hist_wf (abs d) → sql_hash url = Ok hash → moz_places d !! id = Some p → has_url hash url p = String.eqb (p_url p) url.
Proof.
  intros Hwf Hhash Hp. unfold has_url. destruct (String.eqb_spec (p_url p) url) as [Hu|]; [|by rewrite andb_false_r].
  destruct (wf_page _ Hwf id (page_of p)) as [_ Hh]; [cbn; by rewrite lookup_fmap, Hp|].
  cbn in Hh. rewrite Hu, Hhash in Hh. injection Hh as ->. by rewrite Z.eqb_refl.
Qed.

(** ** Changes that are not of the history *)
Definition stats_of (p : PlaceRow) : Z * Z * (Z * Z) :=
  (p_visit_count_local p, p_visit_count_remote p, (p_last_visit_date_local p, p_last_visit_date_remote p)).
Definition same_history (d d' : PlacesDb) : Prop :=
  abs d' = abs d ∧ stats_of <$> moz_places d' = stats_of <$> moz_places d.
Global Instance same_history_preorder : PreOrder same_history.
Proof. split; [done|]. intros d1 d2 d3 [? ?] [? ?]. split; congruence. Qed.

Lemma page_ok_stats m id p q : stats_of q = stats_of p → page_ok m id p → page_ok m id q.
Proof. intros [= E1 E2 E3 E4] [? ? ? ?]. split; congruence. Qed.
Lemma stats_same d d' : same_history d d' → stats_ok d → stats_ok d'.
Proof.
  intros [Habs Hst] Hs id q Hq.
  assert (Hl : (stats_of <$> moz_places d') !! id = (stats_of <$> moz_places d) !! id) by congruence.
  rewrite !lookup_fmap, Hq in Hl. destruct (moz_places d !! id) as [p|] eqn:Hp; [|done]. cbn in Hl. injection Hl as E1 E2 E3 E4.
  assert (Hv : moz_historyvisits d' = moz_historyvisits d) by (change (h_visits (abs d') = h_visits (abs d)); congruence).
  rewrite Hv. eapply page_ok_stats; [|by apply Hs]. unfold stats_of. congruence.
Qed.
Lemma hist_pre_same d d' : same_history d d' → hist_pre d → hist_pre d'.
Proof. intros Hsame [Hwf Hs]. split; [by rewrite (proj1 Hsame)|by eapply stats_same]. Qed.

(** A change of columns that are not of the history. *)
Definition keeps (f : PlaceRow → PlaceRow) : Prop := ∀ p, page_of (f p) = page_of p ∧ stats_of (f p) = stats_of p.
Lemma alter_same (f : PlaceRow → PlaceRow) id d : keeps f → same_history d (on_places (alter f id) d).
Proof.
  intros Hf. unfold same_history, abs. cbn. assert (Hfmap : ∀ {B} (g : PlaceRow → B), (∀ p, g (f p) = g p) →
    g <$> alter f id (moz_places d) = g <$> moz_places d).
  { intros B g Hg. apply map_eq. intros i. rewrite !lookup_fmap. destruct (decide (id = i)) as [->|];
      [rewrite lookup_alter_eq|by rewrite lookup_alter_ne]. destruct (moz_places d !! i); cbn; [by rewrite Hg|done]. }
  split; [f_equal|]; apply Hfmap; intros p; apply Hf.
Qed.
Lemma imap_same sel (f : PlaceRow → PlaceRow) d :
  keeps f → same_history d (on_places (map_imap (λ id p, Some (if sel id p : bool then f p else p))) d).
Proof.
  intros Hf. unfold same_history, abs. cbn. assert (Hfmap : ∀ {B} (g : PlaceRow → B), (∀ p, g (f p) = g p) →
    g <$> map_imap (λ id p, Some (if sel id p : bool then f p else p)) (moz_places d) = g <$> moz_places d).
  { intros B g Hg. apply map_eq. intros i. rewrite !lookup_fmap, map_lookup_imap.
    destruct (moz_places d !! i) as [p|]; cbn; [|done]. by destruct (sel i p); cbn; rewrite ?Hg. }
  split; [f_equal|]; apply Hfmap; intros p; apply Hf.
Qed.

Lemma foldl_same {A} (f : PlacesDb → A → PlacesDb) l d :
  (∀ d x, same_history d (f d x)) → same_history d (foldl f d l).
Proof. intros Hf. revert d. induction l as [|x l IH]; intros d; [done|]. cbn. etrans; [apply Hf|apply IH]. Qed.

Lemma set_frecency_same id score d : same_history d (set_frecency id score d).
Proof.
  unfold set_frecency. destruct (moz_places d !! id) as [p|] eqn:Hp; [|done].
  transitivity (on_places (alter (p_set_frecency score) id) d); [by apply alter_same|].
  assert (Heq : alter (p_set_frecency score) id (moz_places d) = <[id := p_set_frecency score p]> (moz_places d)).
  { apply map_eq. intros i. destruct (decide (id = i)) as [->|];
      [by rewrite lookup_alter_eq, Hp, lookup_insert_eq|by rewrite lookup_alter_ne, lookup_insert_ne]. }
  unfold same_history, abs. cbn. by rewrite Heq.
Qed.

Lemma stats_op_same op prefix host d : same_history d (update_origin_frecency_stats op prefix host d).
Proof.
  unfold update_origin_frecency_stats. destruct (find_origin _ _ _) as [[]|]; [|done].
  unfold same_history, abs. cbn. by rewrite !lookup_insert_ne by done.
Qed.
Lemma add_frecency_same prefix host delta d : same_history d (add_origin_frecency prefix host delta d).
Proof. done. Qed.
Lemma update_trigger_same key delta d : same_history d (moz_updateoriginsupdate_afterdelete_trigger key delta d).
Proof. destruct key as [prefix host]. cbn. etrans; [|apply stats_op_same]. apply (stats_op_same Z.sub prefix host d). Qed.
Lemma delete_trigger_same key delta d : same_history d (moz_updateoriginsdelete_afterdelete_trigger key delta d).
Proof. destruct key as [prefix host]. cbn. etrans; [|apply stats_op_same]. apply (stats_op_same Z.sub prefix host d). Qed.
Lemma insert_trigger_same id old d : same_history d (moz_updateoriginsinsert_afterdelete_trigger id old d).
Proof.
  unfold moz_updateoriginsinsert_afterdelete_trigger. cbn zeta. etrans; [|by apply alter_same].
  etrans; [|apply stats_op_same]. etrans; [apply (stats_op_same Z.sub)|].
  destruct (find_origin _ _ _); [destruct (0 <? _)|]; done.
Qed.
Lemma flush_same d : same_history d (flush_origins d).
Proof.
  unfold flush_origins. cbn zeta. etrans; [|apply foldl_same; intros ? []; apply insert_trigger_same].
  match goal with |- same_history _ (on_insert_temp _ ?x) => change (same_history d x) end.
  etrans; [|apply foldl_same; intros ? []; apply delete_trigger_same].
  match goal with |- same_history _ (on_delete_temp _ ?x) => change (same_history d x) end.
  etrans; [|apply foldl_same; intros ? []; apply update_trigger_same]. done.
Qed.
Lemma reset_place_same d id : same_history d (reset_place d id).
Proof. unfold reset_place. etrans; [apply set_frecency_same|by apply alter_same]. Qed.

(** The ids of some rows. *)
Lemma elem_of_selected {A} (sel : Z → A → bool) (m : gmap Z A) id :
  id ∈ fst <$> List.filter (λ '(id, v), sel id v) (rows m) ↔ ∃ v, m !! id = Some v ∧ sel id v = true.
Proof.
  rewrite list_elem_of_fmap. split.
  - intros ([j v] & -> & Hj). apply list_elem_of_In, filter_In in Hj as [Hj Hsel].
    apply list_elem_of_In, elem_of_rows in Hj. by exists v.
  - intros (v & Hv & Hsel). exists (id, v). split; [done|]. apply list_elem_of_In, filter_In. split; [|done].
    by apply list_elem_of_In, elem_of_rows.
Qed.

(** ** The triggers on visits keep the statistics *)
Lemma is_last_nonneg m b p z : (∀ i v, m !! i = Some v → 0 < v_visit_date v) → is_last m b p z → 0 ≤ z.
Proof. intros Hpos [[-> _]|[(i & v & Hv & _ & <-) _]]; [done|]. apply Hpos in Hv. lia. Qed.

Lemma counts_eq b id v : counts b id v = (v_place_id v =? id) && Bool.eqb (v_is_local v) b && counted (v_visit_type v).
Proof. done. Qed.

Lemma afterinsert_stats d id v :
  (∀ i w, moz_historyvisits d !! i = Some w → 0 < v_visit_date w) → 0 < v_visit_date v →
  moz_historyvisits d !! id = None → stats_ok d →
  stats_ok (moz_historyvisits_afterinsert_trigger v (on_visits (λ _, <[id := v]> (moz_historyvisits d)) d)).
Proof.
  intros Hpos Hv Hid Hs i q. cbn. intros Hq.
  assert (∃ p, moz_places d !! i = Some p) as [p Hp].
  { apply lookup_alter_Some in Hq as [(<- & p & Hp & _)|[_ Hp]]; eauto. }
  destruct (Hs i p Hp) as [Hcl Hcr Hll Hlr].
  pose proof (is_last_nonneg _ _ _ _ Hpos Hll). pose proof (is_last_nonneg _ _ _ _ Hpos Hlr).
  apply (is_last_insert _ _ _ _ id v) in Hll; [|done..]. apply (is_last_insert _ _ _ _ id v) in Hlr; [|done..].
  unfold visit_of in Hll, Hlr. destruct (decide (v_place_id v = i)) as [Heq|Hne].
  - subst i. rewrite lookup_alter_eq, Hp in Hq. injection Hq as <-. rewrite Z.eqb_refl in Hll, Hlr.
    split; cbn; rewrite ?count_insert by done; rewrite ?counts_eq, ?Z.eqb_refl, ?Hcl, ?Hcr;
      destruct (v_is_local v); cbn in *; rewrite ?andb_false_r, ?andb_true_r; try done; rewrite Z.max_l by done; done.
  - rewrite lookup_alter_ne in Hq by done. rewrite Hp in Hq. injection Hq as <-.
    apply Z.eqb_neq in Hne. rewrite Hne in Hll, Hlr.
    split; rewrite ?count_insert by done; rewrite ?counts_eq, ?Hne, ?Hcl, ?Hcr; cbn in *; try done; lia.
Qed.

Lemma delete_visit_row_stats d id : stats_ok d → stats_ok (delete_visit_row d id).
Proof.
  unfold delete_visit_row. destruct (moz_historyvisits d !! id) as [v|] eqn:Hv; [|done].
  intros Hs i q. cbn. intros Hq. destruct (decide (v_place_id v = i)) as [<-|Hne].
  - rewrite lookup_alter_eq in Hq. destruct (moz_places d !! _) as [p|] eqn:Hp; [|done]. injection Hq as <-.
    destruct (Hs _ p Hp) as [Hcl Hcr _ _].
    split; cbn; rewrite ?(count_delete _ _ id v) by done; [..|apply last_visit_date_is_last|apply last_visit_date_is_last];
      rewrite counts_eq, Z.eqb_refl, ?Hcl, ?Hcr; destruct (v_is_local v), (counted _); done.
  - rewrite lookup_alter_ne in Hq by done. destruct (Hs i q Hq) as [Hcl Hcr Hll Hlr]. apply Z.eqb_neq in Hne.
    assert (Hext : ∀ b j w, visit_of b i w = true → delete id (moz_historyvisits d) !! j = Some w ↔ moz_historyvisits d !! j = Some w).
    { intros b j w Hb. rewrite lookup_delete_Some. split; [naive_solver|]. intros Hw. split; [|done]. intros ->.
      rewrite Hv in Hw. injection Hw as ->. unfold visit_of in Hb. by rewrite Hne in Hb. }
    split; [..|eapply is_last_ext; [apply Hext|done]|eapply is_last_ext; [apply Hext|done]];
      rewrite (count_delete _ _ id v) by done; rewrite counts_eq, Hne, ?Hcl, ?Hcr; cbn; lia.
Qed.
Lemma delete_visit_row_abs d id :
  abs (delete_visit_row d id) =
  mkHist (h_pages (abs d)) (delete id (h_visits (abs d))) (h_vtombs (abs d)) (h_ptombs (abs d)) (h_bookmarks (abs d)) (h_mark (abs d)).
Proof.
  unfold delete_visit_row. destruct (moz_historyvisits d !! id) as [v|] eqn:Hv; unfold abs; cbn; [f_equal|by rewrite delete_id].
  apply map_eq. intros i. rewrite !lookup_fmap. destruct (decide (v_place_id v = i)) as [->|];
    [rewrite lookup_alter_eq|by rewrite lookup_alter_ne]. by destruct (moz_places d !! i).
Qed.

(** ** Statements as functions of the abstract history *)
Definition with_visits (f : gmap Z VisitRow → gmap Z VisitRow) (h : Hist) : Hist :=
  mkHist (h_pages h) (f (h_visits h)) (h_vtombs h) (h_ptombs h) (h_bookmarks h) (h_mark h).
Definition with_vtombs (f : gset (Z * Z) → gset (Z * Z)) (h : Hist) : Hist :=
  mkHist (h_pages h) (h_visits h) (f (h_vtombs h)) (h_ptombs h) (h_bookmarks h) (h_mark h).
Definition with_ptombs (f : gset string → gset string) (h : Hist) : Hist :=
  mkHist (h_pages h) (h_visits h) (h_vtombs h) (f (h_ptombs h)) (h_bookmarks h) (h_mark h).
Definition with_mark (m : option MetaValue) (h : Hist) : Hist :=
  mkHist (h_pages h) (h_visits h) (h_vtombs h) (h_ptombs h) (h_bookmarks h) m.

Lemma delete_visit_rows ids d :
  stats_ok d →
  stats_ok (foldl delete_visit_row d ids) ∧
  abs (foldl delete_visit_row d ids) = with_visits (filter (λ '(id, _), id ∉ ids)) (abs d).
Proof.
  revert d. induction ids as [|id ids IH]; intros d Hs; cbn [foldl].
  - split; [done|]. unfold with_visits. rewrite map_filter_id; [done|]. intros i v _. apply not_elem_of_nil.
  - destruct (IH (delete_visit_row d id)) as [Hs' ->]; [by apply delete_visit_row_stats|]. split; [done|].
    rewrite delete_visit_row_abs. unfold with_visits. cbn. f_equal. apply map_eq. intros i.
    apply option_eq. intros v. rewrite !map_lookup_filter_Some, lookup_delete_Some, elem_of_cons. naive_solver.
Qed.

Lemma from_none_fk d : (∀ i v, moz_historyvisits d !! i = Some v → v_from_visit v = None) → visit_fk d = true.
Proof. intros Hf. unfold visit_fk. apply bool_decide_eq_true. intros i v Hv. by rewrite (Hf i v Hv). Qed.

(** *** Pages *)
Definition dropped (sel : Z → Page → bool) (h : Hist) (id : Z) : bool :=
  match h_pages h !! id with Some pg => sel id pg | None => false end.
Definition drop_pages (sel : Z → Page → bool) (h : Hist) : Hist :=
  mkHist (filter (λ '(id, pg), sel id pg = false) (h_pages h))
    (filter (λ '(_, v), dropped sel h (v_place_id v) = false) (h_visits h))
    (filter (λ '(id, _), dropped sel h id = false) (h_vtombs h)) (h_ptombs h) (h_bookmarks h) (h_mark h).
Definition bury (sel : Z → Page → bool) (h : Hist) : Hist :=
  with_ptombs (λ s, s ∪ map_to_set (λ _ pg, pg_guid pg) (filter (λ '(id, pg), sel id pg = true) (h_pages h))) h.

Lemma drop_lookup sel h id pg :
  h_pages (drop_pages sel h) !! id = Some pg ↔ h_pages h !! id = Some pg ∧ sel id pg = false.
Proof. apply map_lookup_filter_Some. Qed.
Lemma drop_ext sel sel' h :
  (∀ id pg, h_pages h !! id = Some pg → sel id pg = sel' id pg) → drop_pages sel h = drop_pages sel' h.
Proof.
  intros Hext. assert (Hd : ∀ id, dropped sel h id = dropped sel' h id).
  { intros id. unfold dropped. destruct (h_pages h !! id) eqn:Hp; [by apply Hext|done]. }
  unfold drop_pages. f_equal; [apply map_filter_ext; intros id pg Hp; by rewrite (Hext id pg Hp)
                              |apply map_filter_ext; intros ? ? _; by rewrite Hd|].
  apply set_eq. intros [id t]. by rewrite !elem_of_filter, Hd.
Qed.
Lemma drop_none sel h : (∀ id pg, h_pages h !! id = Some pg → sel id pg = false) → drop_pages sel h = h.
Proof.
  intros Hno. assert (Hd : ∀ id, dropped sel h id = false).
  { intros id. unfold dropped. destruct (h_pages h !! id) eqn:Hp; [by apply Hno|done]. }
  destruct h. unfold drop_pages. cbn in *. f_equal; [by apply map_filter_id|by apply map_filter_id; intros; apply Hd|].
  apply set_eq. intros [id t]. rewrite elem_of_filter, Hd. naive_solver.
Qed.
Lemma drop_pages_twice s1 s2 h : drop_pages s2 (drop_pages s1 h) = drop_pages (λ id pg, s1 id pg || s2 id pg) h.
Proof.
  assert (Hd : ∀ id, dropped (λ id pg, s1 id pg || s2 id pg) h id = dropped s1 h id || dropped s2 (drop_pages s1 h) id).
  { intros id. unfold dropped. cbn. rewrite map_lookup_filter. destruct (h_pages h !! id) as [pg|]; [|done]. cbn.
    destruct (s1 id pg); cbn; [done|]. by rewrite option_guard_True. }
  unfold drop_pages at 1 3. f_equal; cbn.
  - apply map_eq. intros id. apply option_eq. intros pg. rewrite !map_lookup_filter_Some, orb_false_iff. naive_solver.
  - apply map_eq. intros id. apply option_eq. intros v. rewrite !map_lookup_filter_Some, Hd, orb_false_iff. naive_solver.
  - apply set_eq. intros [id t]. rewrite !elem_of_filter, Hd, orb_false_iff. naive_solver.
Qed.

Lemma drop_wf sel h : hist_wf h → hist_wf (drop_pages sel h).
Proof.
  intros Hwf. assert (Hdrop : ∀ id, is_Some (h_pages h !! id) → dropped sel h id = false → is_Some (h_pages (drop_pages sel h) !! id)).
  { intros id [pg Hp] Hd. unfold dropped in Hd. rewrite Hp in Hd. exists pg. by apply drop_lookup. }
  split.
  - intros id pg [Hp _]%drop_lookup. by apply (wf_page h Hwf).
  - intros i p j q [Hp _]%drop_lookup [Hq _]%drop_lookup. by apply (wf_url h Hwf).
  - intros i p j q [Hp _]%drop_lookup [Hq _]%drop_lookup. by apply (wf_guid h Hwf).
  - intros i v [Hv Hd]%map_lookup_filter_Some. destruct (wf_visit h Hwf i v Hv) as [Hp ?]. auto.
  - intros id t. cbn. rewrite elem_of_filter. intros [Hd Ht]. apply Hdrop; [by eapply (wf_vtomb h Hwf)|done].
Qed.
Lemma bury_wf sel h : hist_wf h → hist_wf (bury sel h).
Proof. intros [? ? ? ? ?]. by split. Qed.

(** ** The statements, and what they do to the abstract history *)
(** What a call does to the abstract history, and that it keeps the rest. *)
Definition refines {W A} (c : ST (PlacesDb * W) PlacesError A) (d : PlacesDb) (h' : A → Hist → Prop) : Prop :=
  ok_post c d (λ a d', hist_pre d' ∧ h' a (abs d')).

Lemma refines_bind {W A B} (c : ST (PlacesDb * W) PlacesError A) (k : A → ST (PlacesDb * W) PlacesError B) d Q R :
  refines c d Q → (∀ a d', hist_pre d' → Q a (abs d') → refines (k a) d' R) → refines (c ≫= k) d R.
Proof.
  intros Hc Hk. apply ok_post_bind. eapply ok_post_weaken; [exact Hc|]. intros a d' [Hpre HQ]. by apply Hk.
Qed.
Lemma refines_weaken {W A} (c : ST (PlacesDb * W) PlacesError A) d (Q R : A → Hist → Prop) :
  refines c d Q → (∀ a h, hist_wf h → Q a h → R a h) → refines c d R.
Proof. intros Hc HQ. eapply ok_post_weaken; [exact Hc|]. intros a d' [[Hwf Hs] HQa]. split; [by split|]. by apply HQ. Qed.
Lemma refines_ret {W A} (a : A) d (Q : A → Hist → Prop) :
  hist_pre d → Q a (abs d) → refines (mret (M:=ST (PlacesDb * W) PlacesError) a) d Q.
Proof. intros Hpre HQ. apply ok_post_ret. by split. Qed.
Lemma refines_get {W B} (k : PlacesDb → ST (PlacesDb * W) PlacesError B) d R : refines (k d) d R → refines (db_get ≫= k) d R.
Proof. intros Hk. by apply ok_post_bind, ok_post_get. Qed.
Lemma refines_lift {W A B} (r : res PlacesError A) (k : A → ST (PlacesDb * W) PlacesError B) d R :
  (∀ a, r = Ok a → refines (k a) d R) → refines (st_lift r ≫= k) d R.
Proof. intros Hk. by apply ok_post_bind, ok_post_lift. Qed.
Lemma refines_world {W A B} (c : ST W PlacesError A) (k : A → ST (PlacesDb * W) PlacesError B) d R :
  (∀ a, refines (k a) d R) → refines (on_world c ≫= k) d R.
Proof. intros Hk. by apply ok_post_bind, ok_post_world. Qed.
Lemma refines_same {W A} (c : ST (PlacesDb * W) PlacesError A) d :
  hist_pre d → ok_post c d (λ _ d', same_history d d') → refines c d (λ _ h, h = abs d).
Proof.
  intros Hpre Hc. eapply ok_post_weaken; [exact Hc|]. intros a d' Hsame. split; [by apply (hist_pre_same d)|apply Hsame].
Qed.
Lemma refines_modify {W} (f : PlacesDb → PlacesDb) d (Q : Hist → Prop) :
  hist_wf (abs (f d)) → stats_ok (f d) → Q (abs (f d)) → refines (W:=W) (db_modify f) d (λ _, Q).
Proof. intros Hwf Hs HQ. apply ok_post_modify. split; [by split|done]. Qed.

Lemma ts_to_sql_ok t : date_ok t → ts_to_sql t = t.
Proof. intros Ht. unfold ts_to_sql, wrap_i64. unfold date_ok in Ht. rewrite Z.mod_small; lia. Qed.
Lemma ts_of_sql_ok t : date_ok t → ts_of_sql t = t.
Proof. intros Ht. unfold ts_of_sql, wrap. unfold date_ok in Ht. rewrite Z.mod_small; lia. Qed.

Lemma calculate_frecency_reads {W} `{!Clock W} checks settings id boost d :
  ok_post (W:=W) (calculate_frecency checks settings id boost) d (λ _ d', d' = d).
Proof.
  assert (Hrows : ∀ fc rows n pts d, ok_post (W:=W) (score_visits checks settings fc rows n pts) d (λ _ d', d' = d)).
  { intros fc rows. induction rows as [|[[ty tg] dt] rows IH]; intros n pts d0; cbn [score_visits]; [by apply ok_post_ret|].
    apply ok_post_bind, ok_post_world. intros t. places_steps; apply IH. }
  unfold calculate_frecency. apply ok_post_bind, ok_post_lift. intros _ _. apply ok_post_bind.
  eapply ok_post_weaken with (Q := λ _ d', d' = d).
  - unfold FrecencyComputation_new. by places_steps.
  - intros fc d1 ->. apply ok_post_bind. eapply ok_post_weaken with (Q := λ _ d', d' = d).
    + destruct (0 <? _); [|by apply ok_post_ret]. unfold score_recent_visits. places_steps. apply Hrows.
    + intros [n pts] d1 ->. by places_steps.
Qed.

Section statements.
Context {W : Type} `{!UrlLib, !Interruptee W, !Clock W, !Rand W, !UrlSafeBase64}.
Context (checks : bool) (max_variable_number : nat).

Lemma update_frecency_refines id boost d :
  hist_pre d → refines (W:=W) (update_frecency checks id boost) d (λ _ h, h = abs d).
Proof.
  intros Hpre. apply refines_same; [done|]. unfold update_frecency. apply ok_post_bind.
  eapply ok_post_weaken; [apply calculate_frecency_reads|]. intros score d' ->. apply ok_post_modify. apply set_frecency_same.
Qed.
Lemma update_frecencies_refines ids d :
  hist_pre d → refines (W:=W) (update_frecencies checks ids) d (λ _ h, h = abs d).
Proof.
  revert d. induction ids as [|id ids IH]; intros d Hpre; cbn [update_frecencies]; [by apply refines_ret|].
  eapply refines_bind; [by apply update_frecency_refines|]. intros [] d' Hpre' Habs. rewrite <-Habs. by apply IH.
Qed.
Lemma flush_refines d : hist_pre d → refines (W:=W) delete_pending_temp_tables d (λ _ h, h = abs d).
Proof. intros Hpre. apply refines_same; [done|]. apply ok_post_modify, flush_same. Qed.

Lemma with_visits_wf f h :
  (∀ i v, f (h_visits h) !! i = Some v → h_visits h !! i = Some v) → hist_wf h → hist_wf (with_visits f h).
Proof. intros Hf [? ? ? Hv ?]. split; try done. intros i v Hi. by apply (Hv i), Hf. Qed.

Lemma delete_visits_refines sel d :
  hist_pre d →
  refines (W:=W) (delete_visits sel) d (λ _ h, h = with_visits (filter (λ '(id, v), sel id v = false)) (abs d)).
Proof.
  intros [Hwf Hs]. unfold delete_visits. apply ok_post_bind, ok_post_get. cbn beta zeta.
  destruct (delete_visit_rows (fst <$> List.filter (λ '(id, v), sel id v) (rows (moz_historyvisits d))) d Hs) as [Hs' Habs].
  assert (Hf : with_visits (filter (λ '(id, _), id ∉ fst <$> List.filter (λ '(id, v), sel id v) (rows (moz_historyvisits d)))) (abs d)
    = with_visits (filter (λ '(id, v), sel id v = false)) (abs d)).
  { unfold with_visits. f_equal. apply map_filter_ext. intros i v Hv. rewrite elem_of_selected. split.
    - intros Hno. destruct (sel i v) eqn:Hsel; [|done]. destruct Hno. by exists v.
    - intros Hsel (w & Hw & Hsel'). cbn in Hv. congruence. }
  rewrite Hf in Habs. destruct (visit_fk _); [|apply ok_post_err]. apply ok_post_modify. split; [|done]. split; [|done].
  rewrite Habs. apply with_visits_wf; [|done]. intros i v [Hv _]%map_lookup_filter_Some. done.
Qed.

(** Pages. *)
Lemma untag_page_same tags id d : ok_post (W:=W) (untag_page tags id) d (λ _ d', same_history d d').
Proof.
  revert d. induction tags as [|t tags IH]; intros d; cbn [untag_page]; [by apply ok_post_ret|].
  apply ok_post_bind, ok_post_modify, ok_post_bind, ok_post_world. intros tm. apply ok_post_bind, ok_post_modify.
  eapply ok_post_weaken; [apply IH|]. intros [] d' Hsame. etrans; [|exact Hsame]. done.
Qed.

Lemma stats_drop d id :
  stats_ok d →
  stats_ok (on_visits (filter (λ '(_, v), v_place_id v ≠ id)) (on_places (delete id) d)).
Proof.
  intros Hs i p. cbn. intros [Hne Hp]%lookup_delete_Some. destruct (Hs i p Hp) as [Hcl Hcr Hll Hlr].
  assert (Hof : ∀ b v, visit_of b i v = true → v_place_id v = i).
  { intros b v [Hi _]%andb_true_iff. by apply Z.eqb_eq. }
  split; rewrite ?count_filter; try done.
  - intros j v _ [Hc _]%andb_true_iff. apply Hof in Hc. congruence.
  - intros j v _ [Hc _]%andb_true_iff. apply Hof in Hc. congruence.
  - eapply is_last_ext; [|exact Hll]. intros j v Hv%Hof. rewrite map_lookup_filter_Some. naive_solver.
  - eapply is_last_ext; [|exact Hlr]. intros j v Hv%Hof. rewrite map_lookup_filter_Some. naive_solver.
Qed.

Lemma delete_place_row_refines id d :
  hist_pre d → refines (W:=W) (delete_place_row id) d (λ _ h, h = drop_pages (λ i _, i =? id) (abs d)).
Proof.
  intros [Hwf Hs]. assert (Hdrop : ∀ i, dropped (λ i _, i =? id) (abs d) i = (i =? id) && is_some (moz_places d !! i)).
  { intros i. unfold dropped. cbn. rewrite lookup_fmap. destruct (moz_places d !! i); cbn; [by rewrite andb_true_r|by rewrite andb_false_r]. }
  unfold delete_place_row. apply ok_post_bind, ok_post_get. cbn beta.
  destruct (moz_places d !! id) as [p|] eqn:Hp.
  - destruct (bool_decide _); [|apply ok_post_err].
    do 5 apply ok_post_bind, ok_post_modify. cbn beta. apply ok_post_bind.
    eapply ok_post_weaken; [apply untag_page_same|]. intros [] d' Hsame. apply ok_post_modify.
    assert (Habs : abs d' = drop_pages (λ i _, i =? id) (abs d)).
    { rewrite (proj1 Hsame). unfold abs at 1, drop_pages. cbn. f_equal.
      - apply map_eq. intros i. apply option_eq. intros pg. rewrite lookup_fmap, fmap_Some.
        setoid_rewrite lookup_delete_Some. rewrite map_lookup_filter_Some, lookup_fmap, fmap_Some, Z.eqb_neq. naive_solver.
      - apply map_filter_ext. intros j v _. rewrite Hdrop, andb_false_iff, Z.eqb_neq. split; [by left|].
        intros [?|Hno]; [done|]. intros Heq. rewrite Heq, Hp in Hno. done.
      - apply set_eq. intros [i t]. rewrite !elem_of_filter, Hdrop, andb_false_iff, Z.eqb_neq. split; [naive_solver|].
        intros [[?|Hno] ?]; [done|]. split; [|done]. intros ->. by rewrite Hp in Hno. }
    split; [|exact Habs]. split; [change (hist_wf (abs d')); rewrite Habs; by apply drop_wf|].
    apply (stats_same d'); [done|]. eapply stats_same; [exact Hsame|]. by apply stats_drop.
  - apply ok_post_ret. split; [by split|]. symmetry. apply drop_none. intros i pg Hi. apply Z.eqb_neq. intros ->.
    cbn in Hi. by rewrite lookup_fmap, Hp in Hi.
Qed.
Lemma delete_place_rows_refines ids d :
  hist_pre d → refines (W:=W) (delete_place_rows ids) d (λ _ h, h = drop_pages (λ i _, bool_decide (i ∈ ids)) (abs d)).
Proof.
  revert d. induction ids as [|id ids IH]; intros d Hpre; cbn [delete_place_rows].
  { apply refines_ret; [done|]. symmetry. by apply drop_none. }
  eapply refines_bind; [by apply delete_place_row_refines|]. intros [] d' Hpre' Habs.
  eapply refines_weaken; [by apply IH|]. cbn beta. intros _ h _ ->. rewrite Habs, drop_pages_twice. apply drop_ext. intros i pg _.
  rewrite (bool_decide_ext (i ∈ id :: ids) (i = id ∨ i ∈ ids)) by apply elem_of_cons. rewrite bool_decide_or. f_equal.
  destruct (Z.eqb_spec i id); [by rewrite bool_decide_true|by rewrite bool_decide_false].
Qed.

Definition agree (d : PlacesDb) (sel' : Z → PlaceRow → bool) (sel : Z → Page → bool) : Prop :=
  ∀ id p, moz_places d !! id = Some p → sel' id p = sel id (page_of p).

Lemma delete_places_refines sel' sel d :
  hist_pre d → agree d sel' sel → refines (W:=W) (delete_places sel') d (λ _ h, h = drop_pages sel (abs d)).
Proof.
  intros Hpre Hsel. unfold delete_places. apply ok_post_bind, ok_post_get. cbn beta zeta. apply ok_post_transaction.
  apply ok_post_bind. eapply ok_post_weaken; [by apply delete_place_rows_refines|]. intros [] d' [Hpre' Habs].
  apply ok_post_bind, ok_post_get.
  destruct (visit_fk d'); [|apply ok_post_err]. apply ok_post_ret. split; [done|]. rewrite Habs. apply drop_ext.
  intros id pg Hpg. cbn in Hpg. rewrite lookup_fmap in Hpg. apply fmap_Some in Hpg as (p & Hp & ->). rewrite <-(Hsel id p Hp).
  apply eq_true_iff_eq. rewrite bool_decide_eq_true, elem_of_selected. split; [by intros (q & Hq & ?); simplify_eq|by exists p].
Qed.

Lemma bury_places_refines sel' sel d :
  hist_pre d → agree d sel' sel → refines (W:=W) (bury_places sel') d (λ _ h, h = bury sel (abs d)).
Proof.
  intros [Hwf Hs] Hsel. unfold bury_places. apply ok_post_bind, ok_post_get, ok_post_modify.
  assert (Habs : abs (on_places_tombstones (λ s, s ∪ list_to_set ((λ '(_, p), p_guid p) <$>
    List.filter (λ '(id, p), sel' id p) (rows (moz_places d)))) d) = bury sel (abs d)).
  { unfold abs at 1, bury, with_ptombs. cbn. f_equal. f_equal. apply set_eq. intros g.
    rewrite elem_of_list_to_set, elem_of_map_to_set, list_elem_of_fmap. split.
    - intros ([id p] & -> & Hin). apply list_elem_of_In, filter_In in Hin as [Hin Hsel'].
      apply list_elem_of_In, elem_of_rows in Hin. exists id, (page_of p). split; [|done].
      apply map_lookup_filter_Some. rewrite lookup_fmap, Hin. split; [done|]. by rewrite <-(Hsel id p).
    - intros (id & pg & [Hpg Hs']%map_lookup_filter_Some & <-). rewrite lookup_fmap in Hpg.
      apply fmap_Some in Hpg as (p & Hp & ->). exists (id, p). split; [done|]. apply list_elem_of_In, filter_In.
      split; [by apply list_elem_of_In, elem_of_rows|]. by rewrite (Hsel id p). }
  split; [|exact Habs]. split; [rewrite Habs; by apply bury_wf|done].
Qed.

(** Visits. *)
Definition record_visit (rid : Z) (v : VisitRow) (h : Hist) : Hist :=
  with_vtombs (λ s, s ∖ {[(v_place_id v, v_visit_date v)]}) (with_visits <[rid := v]> h).

Definition visit_in (h : Hist) (v : VisitRow) : Prop :=
  is_Some (h_pages h !! v_place_id v) ∧ v_from_visit v = None ∧ date_ok (v_visit_date v) ∧
  ∃ t, v_visit_type v = VisitTransition.as_u8 t.
Lemma record_visit_wf rid v h : visit_in h v → hist_wf h → hist_wf (record_visit rid v h).
Proof.
  intros Hv [? ? ? Hvs Hts]. split; try done.
  - cbn. intros i w [[<- <-]|[_ Hw]]%lookup_insert_Some; [done|by apply (Hvs i)].
  - cbn. intros id t [Ht _]%elem_of_difference. by eapply Hts.
Qed.
Lemma record_visit_tombs F rid v h : tombs_but F h → tombs_but F (record_visit rid v h).
Proof.
  intros [? Ht]. split; [done|]. cbn. intros i w [[<- <-]|[_ Hw]]%lookup_insert_Some; [set_solver|].
  apply Ht in Hw. set_solver.
Qed.

Lemma add_visit_refines page_id t ty is_local d :
  hist_pre d → date_ok t →
  refines (W:=W) (add_visit page_id None t ty is_local) d (λ rid h,
    let v := mkVisitRow is_local None page_id t (VisitTransition.as_u8 ty) in
    is_Some (h_pages (abs d) !! page_id) ∧ h_visits (abs d) !! rid = None ∧ 0 < rid ∧ h = record_visit rid v (abs d)).
Proof.
  intros [Hwf Hs] Ht. unfold add_visit. rewrite (ts_to_sql_ok t Ht). apply ok_post_bind.
  unfold insert_visit. apply ok_post_bind, ok_post_get. cbn beta zeta.
  set (v := mkVisitRow _ _ _ _ _). set (rid := next_rowid (moz_historyvisits d)).
  destruct (_ && _) eqn:Hfk; [|apply ok_post_err]. apply andb_true_iff in Hfk as [_ Hpage].
  do 2 apply ok_post_bind, ok_post_modify. apply ok_post_ret. apply ok_post_bind, ok_post_modify, ok_post_ret.
  assert (Hp : is_Some (h_pages (abs d) !! page_id)).
  { cbn. rewrite lookup_fmap. apply fmap_is_Some. cbn in Hpage. by destruct (moz_places d !! page_id). }
  match goal with |- hist_pre ?x ∧ _ => assert (Habs : abs x = record_visit rid v (abs d)) end.
  { unfold record_visit, with_vtombs, with_visits, abs. cbn. f_equal. apply map_eq. intros i. rewrite !lookup_fmap.
    destruct (decide (page_id = i)) as [->|]; [rewrite lookup_alter_eq|by rewrite lookup_alter_ne].
    by destruct (moz_places d !! i). }
  split; [split; [rewrite Habs; apply record_visit_wf; [split_and!; eauto|done]|]
         |split_and!; [done|apply next_rowid_fresh|apply next_rowid_pos|exact Habs]].
  match goal with |- stats_ok (on_visit_tombstones _ ?x) => change (stats_ok x) end.
  apply afterinsert_stats; [|by apply Ht|apply next_rowid_fresh|done].
  intros i w Hw. destruct (wf_visit _ Hwf i w Hw) as (_ & _ & [? _] & _). done.
Qed.

(** The page of a URL. *)
Lemma fetch_page_info_finds (u : Url) d :
  hist_pre d →
  ok_post (W:=W) (fetch_page_info u) d (λ o d', d' = d ∧
    match o with
    | Some i => ∃ p, moz_places d !! pi_row_id (page i) = Some p ∧ p_url p = url_as_str u
    | None => ∀ id p, moz_places d !! id = Some p → p_url p ≠ url_as_str u
    end).
Proof.
  intros [Hwf _]. unfold fetch_page_info. apply ok_post_bind, ok_post_lift. intros hash Hhash.
  apply ok_post_bind, ok_post_get. destruct (select_first _ _) as [[id r]|] eqn:Hsel.
  - apply select_first_Some in Hsel as [Hr [_ Hu%String.eqb_eq]%andb_true_iff]. places_steps. split; [done|]. exists r. cbn.
    match goal with Hi : PageInfo_from_row _ _ = _ |- _ => by rewrite (PageInfo_row_id _ _ _ Hi) end.
  - apply ok_post_ret. split; [done|]. intros id p Hp Hu. apply (select_first_None _ _ id p) in Hsel; [|done].
    destruct (wf_page _ Hwf id (page_of p)) as [_ Hh]; [cbn; by rewrite lookup_fmap, Hp|]. cbn in Hh.
    rewrite Hu, Hhash in Hh. injection Hh as Hh. by rewrite Hh, Hu, Z.eqb_refl, String.eqb_refl in Hsel.
Qed.

Definition new_page (id : Z) (pg : Page) (h : Hist) : Hist :=
  mkHist (<[id := pg]> (h_pages h)) (h_visits h) (h_vtombs h) (h_ptombs h ∖ {[pg_guid pg]}) (h_bookmarks h) (h_mark h).
Definition fresh_page (id : Z) (pg : Page) (h : Hist) : Prop :=
  h_pages h !! id = None ∧ 0 < id ∧ sql_hash (pg_url pg) = Ok (pg_hash pg) ∧
  ∀ i q, h_pages h !! i = Some q → pg_url q ≠ pg_url pg ∧ pg_guid q ≠ pg_guid pg.
Lemma new_page_wf id pg h : fresh_page id pg h → hist_wf h → hist_wf (new_page id pg h).
Proof.
  intros (Hid & Hpos & Hhash & Hne) Hwf. assert (Hmono : ∀ i, is_Some (h_pages h !! i) → is_Some (<[id := pg]> (h_pages h) !! i)).
  { intros i Hi. apply lookup_insert_is_Some. destruct (decide (id = i)); eauto. }
  split; cbn.
  - intros i q [[<- <-]|[_ Hq]]%lookup_insert_Some; [done|by apply (wf_page h Hwf)].
  - intros i p j q [[<- <-]|[_ Hp]]%lookup_insert_Some [[<- <-]|[_ Hq]]%lookup_insert_Some Heq; [done|..|by eapply (wf_url h Hwf)].
    + by destruct (proj1 (Hne j q Hq)).
    + by destruct (proj1 (Hne i p Hp)).
  - intros i p j q [[<- <-]|[_ Hp]]%lookup_insert_Some [[<- <-]|[_ Hq]]%lookup_insert_Some Heq; [done|..|by eapply (wf_guid h Hwf)].
    + by destruct (proj2 (Hne j q Hq)).
    + by destruct (proj2 (Hne i p Hp)).
  - intros i v Hv. destruct (wf_visit h Hwf i v Hv) as [? ?]. auto.
  - intros i t Ht. apply Hmono. by eapply (wf_vtomb h Hwf).
Qed.
Lemma new_page_tombs F id pg h : tombs_but F h → tombs_but F (new_page id pg h).
Proof.
  intros [Hp ?]. split; [|done]. cbn. intros i q [[<- <-]|[_ Hq]]%lookup_insert_Some HF; [set_solver|].
  apply Hp in Hq; [|done]. set_solver.
Qed.

Lemma insert_place_refines g u d :
  hist_pre d → (∀ id p, moz_places d !! id = Some p → p_url p ≠ u) →
  refines (W:=W) (insert_place g u) d (λ id h,
    ∃ hash, let pg := mkPage u g hash 0 (SyncStatus.as_u8 SNew) in fresh_page id pg (abs d) ∧ h = new_page id pg (abs d)).
Proof.
  intros [Hwf Hs] Hurl. unfold insert_place. apply ok_post_bind, ok_post_lift. intros hash Hhash.
  apply ok_post_bind, ok_post_lift. intros rev _. apply ok_post_bind, ok_post_get. destruct (bool_decide _) eqn:Hg; [|apply ok_post_err].
  apply bool_decide_eq_true in Hg. cbn zeta. set (id := next_rowid (moz_places d)).
  do 4 apply ok_post_bind, ok_post_modify. apply ok_post_ret.
  set (d1 := match find_origin _ _ d with Some _ => d | None => _ end).
  assert (Hd1 : same_history d d1) by (unfold d1; by destruct (find_origin _ _ d)).
  set (row := mkPlaceRow _ _ _ _ _ _ _ _ _ _ _ _ _ _ _). set (pg := mkPage u g hash 0 (SyncStatus.as_u8 SNew)).
  assert (Hfresh : fresh_page id pg (abs d)).
  { split_and!; cbn; [rewrite lookup_fmap; unfold id; by rewrite next_rowid_fresh|apply next_rowid_pos|done|].
    intros i q Hq. rewrite lookup_fmap in Hq. apply fmap_Some in Hq as (p & Hp & ->). cbn. split; [by eapply Hurl|].
    intros Heq. assert (Hin : filter (λ '(_, p), p_guid p = g) (moz_places d) !! i = Some p)
      by (by apply map_lookup_filter_Some). by rewrite Hg in Hin. }
  match goal with |- hist_pre ?x ∧ _ => assert (Habs : abs x = new_page id pg (abs d)) end.
  { unfold new_page. rewrite <-(proj1 Hd1). unfold abs. cbn. f_equal. by rewrite fmap_insert. }
  split; [split|by exists hash]; [rewrite Habs; by apply new_page_wf|].
  assert (Hs1 : stats_ok d1) by by apply (stats_same d).
  assert (Hv1 : moz_historyvisits d1 = moz_historyvisits d) by (unfold d1; by destruct (find_origin _ _ d)).
  intros i q. cbn. rewrite Hv1. intros [[<- <-]|[_ Hq]]%lookup_insert_Some; [|rewrite <-Hv1; by apply Hs1].
  assert (Hno : ∀ b j v, moz_historyvisits d !! j = Some v → visit_of b id v = false).
  { intros b j v Hv. unfold visit_of. destruct (Z.eqb_spec (v_place_id v) id) as [Heq|]; [|done].
    destruct (wf_visit _ Hwf j v Hv) as [[r Hr] _]. rewrite Heq in Hr. by rewrite (proj1 Hfresh) in Hr. }
  split; cbn; [symmetry; apply count_none; intros j v Hv; unfold counts; by rewrite (Hno _ _ _ Hv)..| |]; left; eauto.
Qed.

Definition ensured (u : string) (id : Z) (h h' : Hist) : Prop :=
  (h' = h ∧ ∃ pg, h_pages h !! id = Some pg ∧ pg_url pg = u) ∨
  (∃ g hash, let pg := mkPage u g hash 0 (SyncStatus.as_u8 SNew) in fresh_page id pg h ∧ h' = new_page id pg h).
Lemma ensured_wf u id h h' : ensured u id h h' → hist_wf h → hist_wf h'.
Proof. intros [[-> _]|(g & hash & Hf & ->)]; [done|by apply new_page_wf]. Qed.
Lemma ensured_tombs F u id h h' : ensured u id h h' → tombs_but F h → tombs_but F h'.
Proof. intros [[-> _]|(g & hash & Hf & ->)]; [done|by apply new_page_tombs]. Qed.

Lemma new_page_info_refines u g d :
  hist_pre d → (∀ id p, moz_places d !! id = Some p → p_url p ≠ url_as_str u) →
  refines (W:=W) (new_page_info u g) d (λ info h, ∃ g' hash, (∀ x, g = Some x → g' = x) ∧
    let pg := mkPage (url_as_str u) g' hash 0 (SyncStatus.as_u8 SNew) in
    fresh_page (pi_row_id info) pg (abs d) ∧ h = new_page (pi_row_id info) pg (abs d)).
Proof.
  intros Hpre Hno. unfold new_page_info. apply ok_post_bind.
  eapply ok_post_weaken with (Q := λ g' d', d' = d ∧ ∀ x, g = Some x → g' = x).
  { destruct g; [apply ok_post_ret; split; [done|congruence]|by apply ok_post_world]. }
  intros g' d' [-> Hg]. destruct (URL_LENGTH_MAX <? _); [apply ok_post_err|]. apply ok_post_bind.
  eapply ok_post_weaken; [by apply insert_place_refines|]. intros id d' [Hpre' (hash & Hf & Habs)]. apply ok_post_ret.
  split; [done|]. by exists g', hash.
Qed.
Lemma fetch_or_new_page_refines (u : Url) d :
  hist_pre d → refines (W:=W) (fetch_or_new_page u) d (λ info h, ensured (url_as_str u) (pi_row_id info) (abs d) h).
Proof.
  intros Hpre. unfold fetch_or_new_page. apply ok_post_bind. eapply ok_post_weaken; [by apply fetch_page_info_finds|].
  intros o d' [-> Ho]. destruct o as [i|].
  - apply ok_post_ret. split; [done|]. left. split; [done|]. destruct Ho as (p & Hp & Hu). exists (page_of p). cbn.
    by rewrite lookup_fmap, Hp.
  - eapply ok_post_weaken; [by apply new_page_info_refines|]. intros info d' [? (g & hash & _ & ?)]. split; [done|]. right. eauto.
Qed.
End statements.
