(* ===== verification/HistoryOps.v ===== *)
(** * Places: what the operations on history do

    The operations of [storage/history.rs] against the abstract history of [HistorySpec]: what
    each of them does when it succeeds, that it changes nothing when it fails, and that all of
    them keep the invariant. *)

From S2P Require Import Prelude Database Sync15Types KeyBundle State Viaduct Token PlacesTypes PlacesDb Bookmarks BookmarksSpec Frecency History HistorySpec.
From Stdlib Require Import Ascii String.
From stdpp Require Import sorting strings list gmap fin_sets.
Local Open Scope Z_scope.
Local Open Scope list_scope.

(** ** Pages that nothing keeps *)
Definition orphan (h : Hist) (id : Z) (pg : Page) : bool :=
  (pg_foreign pg =? 0) && bool_decide (no_visits (h_visits h) id).
Definition is_normal (pg : Page) : bool := pg_status pg =? SyncStatus.as_u8 SNormal.

(** The orphans among some pages are deleted; those that the server knows get a tombstone. *)
Definition cleaned (ids : list Z) (h : Hist) : Hist :=
  drop_pages (λ id pg, bool_decide (id ∈ ids) && orphan h id pg)
    (bury (λ id pg, bool_decide (id ∈ ids) && is_normal pg && orphan h id pg) h).

(** Visits at some places and dates are forgotten, and so are the pages that they were the last
    visits of. *)
Definition gone (f : Z → Z → bool) (h : Hist) : gmap Z VisitRow :=
  filter (λ '(_, v), f (v_place_id v) (v_visit_date v) = true) (h_visits h).
Definition forget (f : Z → Z → bool) (h : Hist) : Hist :=
  cleaned ((λ '(_, v), v_place_id v) <$> map_to_list (gone f h))
    (with_vtombs (λ s, s ∪ map_to_set (λ _ v, (v_place_id v, v_visit_date v)) (gone f h))
      (with_visits (filter (λ '(_, v), f (v_place_id v) (v_visit_date v) = false)) h)).

Lemma orphan_dropped h (ids : list Z) j v : h_visits h !! j = Some v →
  dropped (λ id pg, bool_decide (id ∈ ids) && orphan h id pg) (bury (λ id pg, bool_decide (id ∈ ids) && is_normal pg && orphan h id pg) h) (v_place_id v) = false.
Proof.
  intros Hv. unfold dropped, orphan. destruct (h_pages _ !! _) as [pg|]; [|done]. apply andb_false_iff. right.
  apply andb_false_iff. right. apply bool_decide_eq_false. intros Hno. by apply (Hno j v).
Qed.
Lemma cleaned_visits ids h : h_visits (cleaned ids h) = h_visits h.
Proof. unfold cleaned. cbn. apply map_filter_id. intros j v Hv. by apply orphan_dropped with (j := j). Qed.
Lemma cleaned_orphan ids h : orphan (cleaned ids h) = orphan h.
Proof. unfold orphan. by rewrite cleaned_visits. Qed.
Lemma cleaned_ext (s s' : list Z) h :
  (∀ id pg, h_pages h !! id = Some pg → orphan h id pg = true → id ∈ s ↔ id ∈ s') → cleaned s h = cleaned s' h.
Proof.
  intros Hext. assert (Heq : ∀ id pg, h_pages h !! id = Some pg →
    bool_decide (id ∈ s) && orphan h id pg = bool_decide (id ∈ s') && orphan h id pg).
  { intros id pg Hp. destruct (orphan h id pg) eqn:Ho; [|by rewrite !andb_false_r]. rewrite !andb_true_r.
    apply bool_decide_ext. by apply (Hext id pg). }
  unfold cleaned. rewrite (drop_ext _ (λ id pg, bool_decide (id ∈ s') && orphan h id pg)); [|exact Heq]. f_equal.
  unfold bury, with_ptombs. do 3 f_equal. apply map_filter_ext. intros id pg Hp. cbn.
  rewrite <-!andb_assoc, !(andb_comm (is_normal _)), !andb_assoc, Heq; done.
Qed.
Lemma cleaned_nil h : cleaned [] h = h.
Proof.
  unfold cleaned. rewrite drop_none; [|intros; by rewrite bool_decide_false by apply not_elem_of_nil].
  destruct h. unfold bury, with_ptombs. cbn. f_equal. apply set_eq. intros g.
  rewrite elem_of_union, elem_of_map_to_set. split; [|by left]. intros [?|(id & pg & [_ Hs]%map_lookup_filter_Some & _)]; [done|].
  rewrite bool_decide_false in Hs by apply not_elem_of_nil. done.
Qed.
Lemma cleaned_app s1 s2 h : cleaned s2 (cleaned s1 h) = cleaned (s1 ++ s2) h.
Proof.
  assert (Hin : ∀ id, bool_decide (id ∈ s1 ++ s2) = bool_decide (id ∈ s1) || bool_decide (id ∈ s2)).
  { intros id. rewrite <-bool_decide_or. apply bool_decide_ext, elem_of_app. }
  assert (Hbd : ∀ sel b h, bury b (drop_pages sel h) = with_ptombs (λ s, s ∪ map_to_set (λ _ pg, pg_guid pg)
    (filter (λ '(id, pg), b id pg = true) (filter (λ '(id, pg), sel id pg = false) (h_pages h)))) (drop_pages sel h)) by done.
  unfold cleaned at 1. rewrite cleaned_orphan. unfold cleaned. rewrite Hbd.
  match goal with |- drop_pages ?s (with_ptombs ?f (drop_pages ?s' ?x)) = _ =>
    change (with_ptombs f (drop_pages s (drop_pages s' x)) = drop_pages (λ id pg, bool_decide (id ∈ s1 ++ s2) && orphan h id pg)
      (bury (λ id pg, bool_decide (id ∈ s1 ++ s2) && is_normal pg && orphan h id pg) h)) end.
  rewrite drop_pages_twice. rewrite (drop_ext _ (λ id pg, bool_decide (id ∈ s1 ++ s2) && orphan h id pg))
    by (intros id pg _; by rewrite Hin, andb_orb_distrib_l).
  unfold drop_pages, bury, with_ptombs, dropped. cbn. f_equal. apply set_eq. intros g.
  rewrite !elem_of_union, !elem_of_map_to_set. setoid_rewrite map_lookup_filter_Some. setoid_rewrite map_lookup_filter_Some.
  split.
  - intros [[?|(id & pg & [Hp Hs] & Hg)]|(id & pg & [[Hp Hn] Hs] & Hg)]; [by left|right; exists id, pg..];
      rewrite Hin; split_and!; try done; destruct (bool_decide (id ∈ s1)), (bool_decide (id ∈ s2)); done.
  - intros [?|(id & pg & [Hp Hs] & Hg)]; [by left; left|]. rewrite Hin in Hs.
    destruct (bool_decide (id ∈ s1)) eqn:H1; [left; right; exists id, pg; rewrite H1; by destruct (bool_decide (id ∈ s2))|].
    right. exists id, pg. rewrite H1. by destruct (bool_decide (id ∈ s2)).
Qed.

Lemma cleaned_wf ids h : hist_wf h → hist_wf (cleaned ids h).
Proof. intros Hwf. unfold cleaned. by apply drop_wf, bury_wf. Qed.

(** Tombstones of pages that are deleted are of no other page. *)
Lemma bury_drop_tombs F (b sel : Z → Page → bool) h :
  (∀ id pg, b id pg = true → sel id pg = true) → hist_wf h → tombs_but F h → tombs_but F (drop_pages sel (bury b h)).
Proof.
  intros Hb Hwf [Hp Hv]. split.
  - intros id pg [Hpg Hsel]%drop_lookup HF. cbn in *. rewrite elem_of_union, elem_of_map_to_set.
    intros [Ht|(j & q & [Hq Hbq]%map_lookup_filter_Some & Hg)]; [by apply (Hp id pg)|].
    assert (j = id) as -> by (by eapply (wf_guid h Hwf)). rewrite Hpg in Hq. injection Hq as <-. apply Hb in Hbq. congruence.
  - cbn. intros i v [Hiv _]%map_lookup_filter_Some [_ Ht]%elem_of_filter. by apply (Hv i v).
Qed.
Lemma cleaned_tombs F ids h : hist_wf h → tombs_but F h → tombs_but F (cleaned ids h).
Proof.
  intros Hwf Ht. apply bury_drop_tombs; [|done..]. intros id pg Hb. destruct (bool_decide _), (is_normal pg); done.
Qed.

Lemma forget_tombs F f h : hist_wf h → tombs_but F h → tombs_but F (forget f h).
Proof.
  intros Hwf [Hp Hv]. apply cleaned_tombs.
  - split; try apply Hwf.
    + cbn. intros i v [Hiv _]%map_lookup_filter_Some. by apply (wf_visit h Hwf i).
    + cbn. intros id t. rewrite elem_of_union, elem_of_map_to_set. intros [Ht|(j & v & [Hj _]%map_lookup_filter_Some & [= <- <-])];
        [by eapply (wf_vtomb h Hwf)|]. by destruct (wf_visit h Hwf j v Hj).
  - split; [done|]. cbn. intros i v [Hiv Hf]%map_lookup_filter_Some. rewrite elem_of_union, elem_of_map_to_set.
    intros [Ht|(j & w & [Hj Hw]%map_lookup_filter_Some & [= Hpl Hd])]; [by apply (Hv i v)|]. congruence.
Qed.

(** ** The columns tell the orphans *)
Lemma last_none m b id z :
  (∀ i v, m !! i = Some v → 0 < v_visit_date v) → is_last m b id z →
  (z =? 0) = bool_decide (map_Forall (λ _ v, visit_of b id v = false) m).
Proof.
  intros Hpos Hl. apply eq_true_iff_eq. rewrite Z.eqb_eq, bool_decide_eq_true. split.
  - intros ->. intros i v Hv. by eapply is_last_zero.
  - intros Hno. destruct Hl as [[-> _]|[(i & v & Hv & Hb & _) _]]; [done|]. apply Hno in Hv. congruence.
Qed.
Lemma page_orphan d id p :
  hist_pre d → moz_places d !! id = Some p →
  is_orphan p = orphan (abs d) id (page_of p) ∧
  negb (pc_has_foreign (PageToClean_from_row id p)) && negb (pc_has_visits (PageToClean_from_row id p)) = orphan (abs d) id (page_of p).
Proof.
  intros [Hwf Hs] Hp. assert (Hpos : ∀ i v, moz_historyvisits d !! i = Some v → 0 < v_visit_date v).
  { intros i v Hv. destruct (wf_visit _ Hwf i v Hv) as (_ & _ & [? _] & _). done. }
  destruct (Hs id p Hp) as [_ _ Hll Hlr].
  pose proof (is_last_nonneg _ _ _ _ Hpos Hll). pose proof (is_last_nonneg _ _ _ _ Hpos Hlr).
  assert (Hno : (p_last_visit_date_local p =? 0) && (p_last_visit_date_remote p =? 0) = bool_decide (no_visits (moz_historyvisits d) id)).
  { rewrite (last_none _ _ _ _ Hpos Hll), (last_none _ _ _ _ Hpos Hlr), <-bool_decide_and. apply bool_decide_ext. split.
    - intros [Hl Hr] i v Hv Heq. specialize (Hl i v Hv). specialize (Hr i v Hv). unfold visit_of in *. rewrite Heq, Z.eqb_refl in *.
      by destruct (v_is_local v).
    - intros Hn. split; intros i v Hv; unfold visit_of; rewrite (proj2 (Z.eqb_neq _ _) (Hn i v Hv)); done. }
  unfold is_orphan, orphan. cbn. rewrite <-Hno, !negb_involutive. split; [by rewrite andb_assoc|]. f_equal.
  apply eq_true_iff_eq. rewrite andb_true_iff, !Z.eqb_eq. lia.
Qed.

Section operations.
Context {W : Type} `{!UrlLib, !Interruptee W, !Clock W, !Rand W, !UrlSafeBase64}.
Context (checks : bool) (max_variable_number : nat).
Context (Hmax : (0 < max_variable_number)%nat).

(** ** Cleaning up *)
Lemma clean_chunk_refines (chunk : list Z) d :
  hist_pre d →
  refines (W:=W) (_ ← bury_places (λ id p, bool_decide (id ∈ chunk) && is_normal_place p && is_orphan p);
                  delete_places (λ id p, bool_decide (id ∈ chunk) && is_orphan p)) d (λ _ h, h = cleaned chunk (abs d)).
Proof.
  intros Hpre. eapply refines_bind.
  - apply (bury_places_refines _ (λ id pg, bool_decide (id ∈ chunk) && is_normal pg && orphan (abs d) id pg)); [done|].
    intros id p Hp. by rewrite (proj1 (page_orphan d id p Hpre Hp)).
  - intros [] d' Hpre' Habs. unfold cleaned. rewrite <-Habs.
    apply delete_places_refines; [done|]. intros id p Hp. rewrite (proj1 (page_orphan d' id p Hpre' Hp)). unfold orphan.
    by rewrite Habs.
Qed.

Definition remove_ids (pages : list PageToClean) : list Z :=
  pc_id <$> List.filter (λ p, negb (pc_has_foreign p) && negb (pc_has_visits p)) pages.
Lemma cleanup_pages_refines pages d :
  hist_pre d → refines (W:=W) (cleanup_pages checks max_variable_number pages) d (λ _ h, h = cleaned (remove_ids pages) (abs d)).
Proof.
  intros Hpre. unfold cleanup_pages. eapply refines_bind; [by apply update_frecencies_refines|]. intros [] d' Hpre' <-.
  fold (remove_ids pages). unfold each_sized_chunk.
  set (I := λ (cs : list (list Z)) (e : PlacesDb), hist_pre e ∧ cleaned (concat cs) (abs e) = cleaned (remove_ids pages) (abs d')).
  eapply ok_post_weaken; [apply (ok_post_do_chunks _ I)|].
  - intros off c cs e [Hpe He]. eapply ok_post_weaken; [by apply clean_chunk_refines|]. intros [] e' [Hpe' He'].
    split; [done|]. by rewrite He', cleaned_app.
  - split; [done|]. by rewrite chunks_concat.
  - intros [] e [Hpe He]. split; [done|]. rewrite <-He. cbn. by rewrite cleaned_nil.
Qed.

Lemma cleanup_ids_refines ids d :
  hist_pre d →
  refines (W:=W) (cleanup_pages checks max_variable_number (pages_to_clean d ids)) d (λ _ h, h = cleaned ids (abs d)).
Proof.
  intros Hpre. eapply refines_weaken; [by apply cleanup_pages_refines|]. intros _ h _ ->. apply cleaned_ext.
  intros id pg Hpg Ho. cbn in Hpg. rewrite lookup_fmap in Hpg. apply fmap_Some in Hpg as (p & Hp & ->).
  unfold remove_ids, pages_to_clean. rewrite list_elem_of_fmap. split.
  - intros (pc & -> & Hin). apply list_elem_of_In, filter_In in Hin as [Hin _]. apply list_elem_of_In, list_elem_of_fmap in Hin as ([i q] & -> & Hin).
    apply list_elem_of_In, filter_In in Hin as [_ Hin]. by apply bool_decide_eq_true in Hin.
  - intros Hin. exists (PageToClean_from_row id p). split; [done|]. apply list_elem_of_In, filter_In. split.
    + apply list_elem_of_In, list_elem_of_fmap. exists (id, p). split; [done|]. apply list_elem_of_In, filter_In.
      split; [by apply list_elem_of_In, elem_of_rows|]. by apply bool_decide_eq_true.
    + by rewrite (proj2 (page_orphan d id p Hpre Hp)).
Qed.

(** ** Deleting visits *)
Lemma tombs_wf f h : hist_wf h → (∀ id t, (id, t) ∈ f (h_vtombs h) → is_Some (h_pages h !! id)) → hist_wf (with_vtombs f h).
Proof. intros [? ? ? ? ?] Hf. by split. Qed.

(** In chunks, as at once. *)
Lemma delete_visit_chunks_refines (visits : list (Z * VisitRow)) d :
  hist_pre d →
  refines (W:=W) (each_sized_chunk visits max_variable_number (λ chunk _, delete_visits (λ id _, bool_decide (id ∈ chunk.*1)))) d
    (λ _ h, h = with_visits (filter (λ '(id, _), id ∉ visits.*1)) (abs d)).
Proof.
  intros Hpre. unfold each_sized_chunk.
  set (I := λ (cs : list (list (Z * VisitRow))) (e : PlacesDb), hist_pre e ∧
    with_visits (filter (λ '(id, _), id ∉ (concat cs).*1)) (abs e) = with_visits (filter (λ '(id, _), id ∉ visits.*1)) (abs d)).
  eapply ok_post_weaken; [apply (ok_post_do_chunks _ I)|].
  - intros off c cs e [Hpe He]. eapply ok_post_weaken; [by apply delete_visits_refines|]. intros [] e' [Hpe' He'].
    split; [done|]. rewrite <-He, He'. unfold with_visits. cbn. f_equal. rewrite map_filter_filter. apply map_filter_ext.
    intros i v _. rewrite bool_decide_eq_false, fmap_app, elem_of_app. naive_solver.
  - split; [done|]. by rewrite chunks_concat.
  - intros [] e [Hpe He]. split; [done|]. rewrite <-He. destruct (abs e). unfold with_visits. cbn. f_equal. symmetry.
    apply map_filter_id. intros; apply not_elem_of_nil.
Qed.
Lemma cleanup_chunks_refines (visits : list (Z * VisitRow)) d :
  hist_pre d →
  refines (W:=W) (each_sized_chunk visits max_variable_number (λ chunk _,
      d ← db_get; cleanup_pages checks max_variable_number (pages_to_clean d ((λ '(_, v), v_place_id v) <$> chunk)))) d
    (λ _ h, h = cleaned ((λ '(_, v), v_place_id v) <$> visits) (abs d)).
Proof.
  intros Hpre. unfold each_sized_chunk.
  set (I := λ (cs : list (list (Z * VisitRow))) (e : PlacesDb), hist_pre e ∧
    cleaned ((λ '(_, v), v_place_id v) <$> concat cs) (abs e) = cleaned ((λ '(_, v), v_place_id v) <$> visits) (abs d)).
  eapply ok_post_weaken; [apply (ok_post_do_chunks _ I)|].
  - intros off c cs e [Hpe He]. apply ok_post_bind, ok_post_get. eapply ok_post_weaken; [by apply cleanup_ids_refines|].
    intros [] e' [Hpe' He']. split; [done|]. by rewrite He', cleaned_app, <-fmap_app.
  - split; [done|]. by rewrite chunks_concat.
  - intros [] e [Hpe He]. split; [done|]. rewrite <-He. cbn. by rewrite cleaned_nil.
Qed.

(** The tombstones of the visits that are deleted. *)
Definition tombs_of (f : Z → Z → bool) (h : Hist) : gset (Z * Z) :=
  map_to_set (λ _ v, (v_place_id v, v_visit_date v)) (gone f h).
Definition buried_visits (f : Z → Z → bool) (h : Hist) : Hist :=
  with_vtombs (λ s, s ∪ tombs_of f h) (with_visits (filter (λ '(_, v), f (v_place_id v) (v_visit_date v) = false)) h).
Lemma elem_of_tombs_of f h id t :
  (id, t) ∈ tombs_of f h ↔ f id t = true ∧ ∃ i v, h_visits h !! i = Some v ∧ v_place_id v = id ∧ v_visit_date v = t.
Proof.
  unfold tombs_of, gone. rewrite elem_of_map_to_set. setoid_rewrite map_lookup_filter_Some. naive_solver.
Qed.
Lemma buried_visits_wf f h : hist_wf h → hist_wf (buried_visits f h).
Proof.
  intros Hwf. apply tombs_wf; [apply with_visits_wf; [|done]; intros i v [Hv _]%map_lookup_filter_Some; done|].
  intros id t. cbn. rewrite elem_of_union, elem_of_tombs_of. intros [Ht|(_ & i & v & Hv & <- & _)];
    [by eapply (wf_vtomb h Hwf)|]. by destruct (wf_visit h Hwf i v Hv).
Qed.

Definition between (start end_ : Z) (_ t : Z) : bool := (ts_to_sql start <=? t) && (t <=? ts_to_sql end_).
Lemma delete_visits_between_refines start end_ d :
  hist_pre d →
  refines (W:=W) (delete_visits_between_in_tx checks max_variable_number start end_) d (λ _ h, h = forget (between start end_) (abs d)).
Proof.
  intros Hpre. unfold delete_visits_between_in_tx. apply refines_get. cbn beta zeta.
  set (visits := select _ (moz_historyvisits d)). set (f := between start end_).
  assert (Hvis : ∀ id v, (id, v) ∈ visits ↔ moz_historyvisits d !! id = Some v ∧ f (v_place_id v) (v_visit_date v) = true)
    by (intros id v; unfold visits; by rewrite elem_of_select).
  eapply refines_bind; [by apply delete_visit_chunks_refines|]. intros [] d1 Hpre1 Hd1.
  eapply refines_bind with (Q := λ _ h, h = buried_visits f (abs d)).
  { assert (Hset : list_to_set ((λ '(_, v), (v_place_id v, ts_of_sql (v_visit_date v))) <$> visits) = tombs_of f (abs d)).
    { apply set_eq. intros [id t]. rewrite elem_of_list_to_set, list_elem_of_fmap, elem_of_tombs_of. split.
      - intros ([i v] & [= -> ->] & [Hv Hb]%Hvis). destruct (wf_visit _ (proj1 Hpre) i v Hv) as (_ & _ & Hdate & _).
        rewrite ts_of_sql_ok by done. eauto 10.
      - intros (Hf & i & v & Hv & <- & <-). exists (i, v). rewrite Hvis. destruct (wf_visit _ (proj1 Hpre) i v Hv) as (_ & _ & Hdate & _).
        by rewrite ts_of_sql_ok. }
    assert (Habs : abs (on_visit_tombstones (λ s, s ∪ tombs_of f (abs d)) d1) = buried_visits f (abs d)).
    { transitivity (with_vtombs (λ s, s ∪ tombs_of f (abs d)) (abs d1)); [done|]. rewrite Hd1. unfold buried_visits, with_visits.
      do 2 f_equal. apply map_filter_ext. intros i v Hv. rewrite list_elem_of_fmap. split.
      - intros Hno. apply not_true_is_false. intros Hb. apply Hno. exists (i, v). by rewrite Hvis.
      - intros Hb ([j w] & -> & [Hw Hbw]%Hvis). cbn in Hv, Hb. congruence. }
    rewrite Hset. apply refines_modify; [|apply Hpre1|done]. rewrite Habs. apply buried_visits_wf, Hpre. }
  intros [] d2 Hpre2 Hd2. eapply refines_bind; [by apply cleanup_chunks_refines|]. intros [] d3 Hpre3 Hd3.
  eapply refines_weaken; [by apply flush_refines|]. intros _ h _ ->. rewrite Hd3, Hd2.
  apply cleaned_ext. intros id pg _ _. rewrite !list_elem_of_fmap. split.
  - intros ([i v] & -> & [Hv Hb]%Hvis). exists (i, v). split; [done|]. apply elem_of_map_to_list. by apply map_lookup_filter_Some.
  - intros ([i v] & -> & Hin). apply elem_of_map_to_list, map_lookup_filter_Some in Hin as [Hv Hb]. exists (i, v).
    split; [done|]. by apply Hvis.
Qed.

Definition page_is (h : Hist) (url : string) (id : Z) : bool :=
  match h_pages h !! id with Some pg => String.eqb (pg_url pg) url | None => false end.
Definition at_time (h : Hist) (url : string) (t : Z) (id t' : Z) : bool := page_is h url id && (t' =? ts_to_sql t).

Lemma forget_nothing f h : (∀ i v, h_visits h !! i = Some v → f (v_place_id v) (v_visit_date v) = false) → forget f h = h.
Proof.
  intros Hno. unfold forget. assert (Hg : gone f h = ∅).
  { apply map_empty. intros i. apply map_lookup_filter_None. right. intros v Hv. by rewrite (Hno i v Hv). }
  rewrite Hg, map_to_list_empty, cleaned_nil. destruct h. unfold with_vtombs, with_visits. cbn in *.
  rewrite map_filter_id by done. f_equal. unfold map_to_set. rewrite map_to_list_empty. set_solver.
Qed.
Lemma head_filter {A} (f : A → bool) l :
  match head (List.filter f l) with Some x => x ∈ l ∧ f x = true | None => ∀ x, x ∈ l → f x = false end.
Proof.
  destruct (List.filter f l) as [|x k] eqn:Hl; cbn.
  - intros x Hx. destruct (f x) eqn:Hf; [|done]. assert (Hin : In x (List.filter f l)) by (apply filter_In; by rewrite <-list_elem_of_In).
    by rewrite Hl in Hin.
  - rewrite list_elem_of_In. apply filter_In. rewrite Hl. by left.
Qed.

(** The page of a URL that has a visit at a date. *)
Lemma visited_at_spec url t hash d :
  hist_pre d → sql_hash url = Ok hash →
  match head (List.filter (λ '(id, p), has_url hash url p &&
      is_some (select_first (λ v, (v_place_id v =? id) && (v_visit_date v =? ts_to_sql t)) (moz_historyvisits d))) (rows (moz_places d))) with
  | None => ∀ i v, moz_historyvisits d !! i = Some v → at_time (abs d) url t (v_place_id v) (v_visit_date v) = false
  | Some (id, p) => moz_places d !! id = Some p ∧ (∀ j, page_is (abs d) url j = (j =? id)) ∧
      ∃ i v, moz_historyvisits d !! i = Some v ∧ v_place_id v = id ∧ v_visit_date v = ts_to_sql t
  end.
Proof.
  intros [Hwf _] Hhash. assert (Hurl : ∀ id p, moz_places d !! id = Some p → page_is (abs d) url id = has_url hash url p).
  { intros id p Hp. rewrite (has_url_eq d _ _ id) by done. unfold page_is. cbn. by rewrite lookup_fmap, Hp. }
  match goal with |- match head (List.filter ?f ?l) with _ => _ end => pose proof (head_filter f l) as Hh; destruct (head (List.filter f l)) as [[id p]|] end.
  - destruct Hh as [Hp%elem_of_rows [Hu Hs]%andb_true_iff]. split; [done|]. rewrite <-(Hurl id p Hp) in Hu. split.
    + intros j. unfold page_is in *. cbn in *. destruct (Z.eqb_spec j id) as [->|Hne]; [done|].
      destruct ((page_of <$> moz_places d) !! j) as [q|] eqn:Hq; [|done]. apply String.eqb_neq. intros Hqu. destruct Hne.
      destruct ((page_of <$> moz_places d) !! id) as [q'|] eqn:Hq'; [|done]. apply String.eqb_eq in Hu.
      eapply (wf_url _ Hwf); cbn; [done..|congruence].
    + destruct (select_first _ _) as [[i v]|] eqn:Hsel; [|done]. apply select_first_Some in Hsel as [Hv [Hpl Hd]%andb_true_iff].
      exists i, v. split_and!; [done|by apply Z.eqb_eq..].
  - intros i v Hv. destruct (wf_visit _ Hwf i v Hv) as [[pg Hpg] _]. cbn in Hpg. rewrite lookup_fmap in Hpg.
    apply fmap_Some in Hpg as (p & Hp & ->). unfold at_time. rewrite (Hurl _ p Hp).
    specialize (Hh (v_place_id v, p) (proj2 (elem_of_rows _ _ _) Hp)). cbn in Hh. apply andb_false_iff in Hh as [->|Hsel]; [done|].
    destruct (select_first _ _) eqn:Hsf; [done|]. apply (select_first_None _ _ i v) in Hsf; [|done]. cbn beta in Hsf. rewrite Z.eqb_refl in Hsf.
    cbn in Hsf. by rewrite Hsf, andb_false_r.
Qed.

Lemma delete_visit_at_time_refines url t d :
  hist_pre d →
  refines (W:=W) (delete_place_visit_at_time_in_tx checks max_variable_number url t) d (λ _ h, h = forget (at_time (abs d) url t) (abs d)).
Proof.
  intros Hpre. unfold delete_place_visit_at_time_in_tx. apply refines_lift. intros hash Hhash. apply refines_get. cbn beta zeta.
  pose proof (visited_at_spec url t hash d Hpre Hhash) as Hspec.
  destruct (head _) as [[id p]|]; [|apply refines_ret; [done|]; by rewrite forget_nothing].
  destruct Hspec as (Hp & Hpage & iv & v & Hv & Hvid & Hvd). set (f := at_time (abs d) url t).
  assert (Hf : ∀ j t', f j t' = (j =? id) && (t' =? ts_to_sql t)) by (intros j t'; unfold f, at_time; by rewrite Hpage).
  assert (Htombs : tombs_of f (abs d) = {[(id, ts_to_sql t)]}).
  { apply set_eq. intros [j t']. rewrite elem_of_tombs_of, elem_of_singleton, Hf, andb_true_iff, !Z.eqb_eq. naive_solver. }
  eapply refines_bind with (Q := λ _ h, h = with_vtombs (λ s, s ∪ {[(id, ts_to_sql t)]}) (abs d)).
  { apply refines_modify; [|apply Hpre|done]. apply (tombs_wf (λ s, s ∪ {[(id, ts_to_sql t)]}) (abs d)); [apply Hpre|].
    intros j t' [Hj|[= -> ->]%elem_of_singleton]%elem_of_union; [by eapply (wf_vtomb _ (proj1 Hpre))|].
    cbn. rewrite lookup_fmap, Hp. by eexists. }
  intros [] d1 Hpre1 Hd1. eapply refines_bind; [by apply delete_visits_refines|]. intros [] d2 Hpre2 Hd2.
  assert (Hd2' : abs d2 = buried_visits f (abs d)).
  { rewrite Hd2, Hd1. unfold buried_visits, with_vtombs, with_visits. cbn. rewrite Htombs. f_equal. apply map_filter_ext.
    intros i w _. by rewrite Hf, andb_comm. }
  apply refines_get. destruct (moz_places d2 !! id) as [p2|] eqn:Hp2; [|apply ok_post_err].
  eapply refines_bind; [by apply cleanup_pages_refines|]. intros [] d3 Hpre3 Hd3.
  eapply refines_weaken; [by apply flush_refines|]. intros _ h _ ->. rewrite Hd3, Hd2'.
  change (forget f (abs d)) with (cleaned ((λ '(_, v), v_place_id v) <$> map_to_list (gone f (abs d))) (buried_visits f (abs d))).
  apply cleaned_ext. rewrite <-Hd2'. intros j pg Hj Ho. unfold remove_ids. cbn [List.filter].
  destruct (page_orphan d2 id p2 Hpre2 Hp2) as [_ ->]. rewrite !list_elem_of_fmap. split.
  - intros (pc & -> & Hin). destruct (orphan (abs d2) id (page_of p2)); [|by apply not_elem_of_nil in Hin].
    apply list_elem_of_singleton in Hin as ->. exists (iv, v). split; [done|]. apply elem_of_map_to_list, map_lookup_filter_Some. split; [done|]. by rewrite Hf, Hvid, Hvd, !Z.eqb_refl.
  - intros ([i w] & -> & Hin). apply elem_of_map_to_list, map_lookup_filter_Some in Hin as [_ Hfw].
    rewrite Hf in Hfw. apply andb_true_iff in Hfw as [Heq%Z.eqb_eq _]. rewrite Heq in Hj, Ho |- *. cbn in Hj.
    rewrite lookup_fmap, Hp2 in Hj. injection Hj as <-. rewrite Ho. eexists. split; [|apply list_elem_of_here]. done.
Qed.

End operations.

(** ** Deleting pages, and everything *)
Section pages.
Context {W : Type} `{!UrlLib, !Interruptee W, !Clock W, !Rand W, !UrlSafeBase64}.
Context (checks : bool).

Definition without_guid (g : string) (h : Hist) : Hist :=
  drop_pages (λ _ pg, String.eqb (pg_guid pg) g) (bury (λ _ pg, String.eqb (pg_guid pg) g && is_normal pg) h).
Lemma delete_place_by_guid_refines g d :
  hist_pre d → refines (W:=W) (do_delete_place_by_guid g) d (λ _ h, h = without_guid g (abs d)).
Proof.
  intros Hpre. unfold do_delete_place_by_guid. eapply refines_bind.
  { by apply (bury_places_refines _ (λ _ pg, String.eqb (pg_guid pg) g && is_normal pg)). }
  intros [] d1 Hpre1 Hd1.
  eapply refines_bind; [by apply (delete_places_refines _ (λ _ pg, String.eqb (pg_guid pg) g))|]. intros [] d2 Hpre2 Hd2.
  eapply refines_weaken; [by apply flush_refines|]. intros _ h _ ->. by rewrite Hd2, Hd1.
Qed.
Lemma without_guid_tombs F g h : hist_wf h → tombs_but F h → tombs_but F (without_guid g h).
Proof. apply bury_drop_tombs. by intros id pg [? _]%andb_true_iff. Qed.

Definition wiped (h : Hist) : Hist :=
  mkHist (filter (λ '(_, pg), pg_foreign pg ≠ 0) (h_pages h)) ∅ ∅ ∅ (h_bookmarks h) (h_mark h).
Lemma wiped_tombs F h : tombs_but F (wiped h).
Proof. split; [intros id pg _ _; cbn; set_solver|]. intros i v Hv. cbn in Hv. by rewrite lookup_empty in Hv. Qed.

Lemma unused_origins_same d : same_history d (delete_unused_origins d).
Proof. unfold delete_unused_origins. by destruct (bool_decide _). Qed.
Lemma wipe_tables_refines d : hist_pre d → refines (W:=W) (wipe_tables checks) d (λ _ h, h = wiped (abs d)).
Proof.
  intros Hpre. unfold wipe_tables.
  eapply refines_bind; [by apply (delete_places_refines _ (λ _ pg, pg_foreign pg =? 0))|]. intros [] d1 Hpre1 Hd1.
  eapply refines_bind; [by apply delete_visits_refines|]. intros [] d2 Hpre2 Hd2.
  assert (Hno : h_visits (abs d2) = ∅).
  { rewrite Hd2. apply map_empty. intros i. apply map_lookup_filter_None. by right. }
  assert (Hwf : hist_wf (wiped (abs d))).
  { assert (Hpages : h_pages (wiped (abs d)) = h_pages (abs d2)).
    { rewrite Hd2, Hd1. apply map_filter_ext. intros i pg _. by rewrite Z.eqb_neq. }
    split; rewrite ?Hpages; [apply (proj1 Hpre2)..| |]; [intros i v Hv; cbn in Hv; by rewrite lookup_empty in Hv|].
    intros id t Ht. cbn in Ht. set_solver. }
  do 5 apply ok_post_bind, ok_post_modify. cbn beta.
  match goal with |- ok_post _ (foldl reset_place ?x ?l) _ => set (d3 := foldl reset_place x l);
    assert (Hsame : same_history (on_visit_tombstones (λ _, ∅) (on_inputhistory (λ _, ∅) (on_places_tombstones (λ _, ∅) d2))) d3) end.
  { etrans; [apply unused_origins_same|]. apply foldl_same, reset_place_same. }
  assert (Hd3 : abs d3 = wiped (abs d)).
  { rewrite (proj1 Hsame). transitivity (with_ptombs (λ _, ∅) (with_vtombs (λ _, ∅) (abs d2))); [done|].
    rewrite Hd2, Hd1. unfold wiped, with_ptombs, with_vtombs, with_visits, drop_pages. cbn. f_equal.
    - apply map_filter_ext. intros i pg _. by rewrite Z.eqb_neq.
    - apply map_empty. intros i. apply map_lookup_filter_None. by right. }
  assert (Hpre3 : hist_pre d3) by (split; [by rewrite Hd3|]; eapply stats_same; [exact Hsame|apply Hpre2]).
  rewrite <-Hd3. change (refines (W:=W) (d ← db_get; _ ← update_frecencies checks (fst <$> rows (moz_places d)); delete_pending_temp_tables)
    d3 (λ _ h, h = abs d3)).
  apply refines_get. eapply refines_bind; [by apply update_frecencies_refines|]. intros [] d4 Hpre4 <-.
  by apply flush_refines.
Qed.

Lemma later_first_max m t :
  max_visit_date m = Some t →
  (∀ i v, m !! i = Some v → v_visit_date v ≤ t) ∧ ∃ i v, m !! i = Some v ∧ v_visit_date v = t.
Proof.
  unfold max_visit_date. intros Hm. pose proof (later_first_head (rows m)) as Hhead.
  pose proof (merge_sort_Permutation later_first (rows m)) as Hperm.
  destruct (merge_sort later_first (rows m)) as [|[j w] l]; [done|]. injection Hm as <-. split.
  - intros i v Hv. apply (Hhead (j, w) (i, v)); [done|]. by apply elem_of_rows.
  - exists j, w. split; [|done]. apply elem_of_rows. rewrite <-Hperm. apply list_elem_of_here.
Qed.
Lemma max_visit_date_none m : max_visit_date m = None → m = ∅.
Proof.
  unfold max_visit_date. intros Hm. pose proof (merge_sort_Permutation later_first (rows m)) as Hperm.
  destruct (merge_sort later_first (rows m)) as [|[j w] l]; [|done]. apply map_empty. intros i.
  destruct (m !! i) as [v|] eqn:Hv; [|done]. apply elem_of_rows in Hv. rewrite <-Hperm in Hv. by apply not_elem_of_nil in Hv.
Qed.

(** The high-water mark of a history. *)
Definition mark_of (h : Hist) : Z := match h_mark h with Some (MInteger z) => ts_of_sql z | _ => 0 end.

Lemma with_mark_wf m h : hist_wf h → hist_wf (with_mark m h).
Proof. intros [? ? ? ? ?]. by split. Qed.
Lemma delete_everything_refines d :
  hist_pre d →
  refines (W:=W) (delete_everything checks) d (λ _ h, ∃ mark,
    h = with_mark (Some (MInteger (ts_to_sql mark))) (wiped (abs d)) ∧ mark_of (abs d) ≤ mark ∧
    ∀ i v, h_visits (abs d) !! i = Some v → v_visit_date v ≤ mark).
Proof.
  intros Hpre. apply ok_post_transaction, ok_post_bind, ok_post_get. cbn beta zeta. unfold get_meta_timestamp.
  apply ok_post_bind, ok_post_bind, ok_post_bind, ok_post_get, ok_post_ret, ok_post_lift. intros prev Hprev.
  apply ok_post_bind, ok_post_world. intros nw. cbn zeta. set (mark := Z.max _ _). apply ok_post_bind, ok_post_modify.
  match goal with |- ok_post _ ?x _ => assert (Hx : hist_pre x) end.
  { split; [|apply Hpre]. match goal with |- hist_wf (abs ?x) => replace (abs x) with (with_mark (Some (MInteger (ts_to_sql mark))) (abs d)) end.
    - apply with_mark_wf, Hpre.
    - unfold abs, with_mark. cbn. by rewrite lookup_insert_eq. }
  eapply ok_post_weaken; [by apply wipe_tables_refines|]. intros [] d' [Hpre' ->]. split; [done|]. exists mark. split_and!.
  - unfold wiped, with_mark, abs. cbn. by rewrite lookup_insert_eq.
  - unfold mark_of. cbn. destruct (moz_meta d !! _) as [[s|z]|]; cbn in Hprev; [done|injection Hprev as <-..]; unfold mark; cbn; lia.
  - intros i v Hv. destruct (max_visit_date (moz_historyvisits d)) as [t|] eqn:Hm.
    + destruct (later_first_max _ _ Hm) as [Hle (j & w & Hw & <-)]. specialize (Hle i v Hv).
      destruct (wf_visit _ (proj1 Hpre) j w Hw) as (_ & _ & Hdate & _). unfold mark. cbn. rewrite ts_of_sql_ok by done. lia.
    + apply max_visit_date_none in Hm. cbn in Hv. by rewrite Hm, lookup_empty in Hv.
Qed.

(** ** Observations *)
(** The clock is after 1970, and the milliseconds fit in 63 bits. *)
Definition sane_clock : Prop := ∀ w, 1000000 ≤ (system_now w).1 < 2 ^ 63 * 1000000.

Definition observed (ob : VisitObservation) (r : option Z) (h h' : Hist) : Prop :=
  ∃ url : Url, parse_url (vo_url ob) = Ok url ∧
  if URL_LENGTH_MAX <? Z.of_nat (len_str (url_as_str url)) then r = None ∧ h' = h
  else ∃ id h1, ensured (url_as_str url) id h h1 ∧
    match vo_visit_type ob with
    | None => r = None ∧ h' = h1
    | Some ty => ∃ rid t, r = Some rid ∧ h_visits h !! rid = None ∧ 0 < rid ∧ date_ok t ∧ (∀ t', vo_at ob = Some t' → t = t') ∧
        h' = record_visit rid (mkVisitRow (negb (default false (vo_is_remote ob))) None id t (VisitTransition.as_u8 ty)) h1
    end.

Lemma ensured_visits u id h h1 : ensured u id h h1 → h_visits h1 = h_visits h.
Proof. by intros [[-> _]|(g & hash & _ & ->)]. Qed.
Lemma ensured_page u id h h1 : ensured u id h h1 → ∃ pg, h_pages h1 !! id = Some pg ∧ pg_url pg = u.
Proof. intros [[-> Hp]|(g & hash & _ & ->)]; [done|]. cbn. rewrite lookup_insert_eq. eauto. Qed.

Lemma compose_keeps fs : Forall keeps fs → keeps (compose_updates fs).
Proof.
  intros Hfs. assert (Hk : ∀ p q, page_of q = page_of p ∧ stats_of q = stats_of p →
    page_of (foldl (λ p f, f p) q fs) = page_of p ∧ stats_of (foldl (λ p f, f p) q fs) = stats_of p).
  { induction Hfs as [|f fs Hf _ IH]; intros p q Hq; [done|]. cbn. apply IH. destruct (Hf q) as [-> ->]. done. }
  intros p. by apply Hk.
Qed.
Lemma update_places_refines sel f d :
  hist_pre d → keeps f → refines (W:=W) (update_places sel f) d (λ _ h, h = abs d).
Proof. intros Hpre Hf. apply refines_same; [done|]. apply ok_post_modify. by apply imap_same. Qed.

(** The date of a visit. *)
Lemma observation_date ob d :
  sane_clock → (∀ t, vo_at ob = Some t → date_ok t) →
  ok_post (W:=W) (match vo_at ob with Some t => mret t | None => now end) d (λ t d', d' = d ∧ date_ok t ∧ ∀ t', vo_at ob = Some t' → t = t').
Proof.
  intros Hclock Hat. destruct (vo_at ob) as [t|]; [apply ok_post_ret; split_and!; [done|by apply Hat|congruence]|].
  intros w t d' w'. unfold now, on_world. specialize (Hclock w). destruct (system_now w) as [ns w1]. cbn in Hclock.
  unfold Timestamp_from_system_time. rewrite (proj2 (Z.ltb_ge ns 0)) by lia. intros [= <- <- <-]. split_and!; [done| |done].
  unfold date_ok. assert (Hd : ns / 1000000000 * 1000 + ns mod 1000000000 / 1000000 = ns / 1000000).
  { rewrite (Z.div_mod ns 1000000000) at 3 by done. replace (1000000000 * (ns / 1000000000) + ns mod 1000000000)
      with (ns mod 1000000000 + (ns / 1000000000 * 1000) * 1000000) by lia. rewrite Z.div_add by done. lia. }
  rewrite Hd. split; [apply Z.div_str_pos; lia|apply Z.div_lt_upper_bound; lia].
Qed.

Lemma apply_observation_refines ob d :
  sane_clock → (∀ t, vo_at ob = Some t → date_ok t) → hist_pre d →
  refines (W:=W) (apply_observation_direct checks ob) d (λ r h, observed ob r (abs d) h).
Proof.
  intros Hclock Hat Hpre. unfold apply_observation_direct. apply refines_lift. intros url Hurl.
  destruct (URL_LENGTH_MAX <? _) eqn:Hlen; [apply refines_ret; [done|]; exists url; rewrite Hlen; done|].
  eapply refines_bind; [by apply fetch_or_new_page_refines|]. intros info d1 Hpre1 Hens.
  apply ok_post_bind. eapply ok_post_weaken with (Q := λ us d', d' = d1 ∧ Forall keeps us).
  { destruct (vo_title ob); [|by apply ok_post_ret]. apply ok_post_bind, ok_post_lift. intros t _. apply ok_post_ret.
    split; [done|]. by repeat constructor. }
  intros title_updates d' [-> Htitle]. apply ok_post_bind.
  eapply ok_post_weaken with (Q := λ x d', Forall keeps x.1.2 ∧ hist_pre d' ∧
    observed ob x.1.1 (abs d) (abs d')).
  { destruct (vo_visit_type ob) as [ty|] eqn:Hty; [|apply ok_post_ret; split_and!; [by constructor|done|]; exists url; rewrite Hlen, Hty; split; [done|]; by exists (pi_row_id info), (abs d1)].
    cbn zeta. apply ok_post_bind. eapply ok_post_weaken with (Q := λ us d', d' = d1 ∧ Forall keeps us).
    { destruct (bool_decide (ty = Typed)); [|by apply ok_post_ret]. apply ok_post_bind, ok_post_lift. intros n _. apply ok_post_ret.
      split; [done|]. by repeat constructor. }
    intros typed_updates d' [-> Htyped]. apply ok_post_bind. eapply ok_post_weaken; [by apply observation_date|].
    intros t d' (-> & Ht & Hatt). apply ok_post_bind. eapply ok_post_weaken; [by apply add_visit_refines|].
    intros rid d' [Hpre' (_ & Hrid & Hpos & Habs)]. apply ok_post_ret. cbn. split_and!; [|done|].
    - apply Forall_app. split; [|done]. destruct (get_is_hidden ob); by repeat constructor.
    - exists url. rewrite Hlen, Hty. split; [done|]. exists (pi_row_id info), (abs d1). split; [done|]. exists rid, t.
      by rewrite <-(ensured_visits _ _ _ _ Hens). }
  intros [[r visit_updates] frec] d2 (Hvu & Hpre2 & Hobs). cbn in *. apply ok_post_bind.
  eapply ok_post_weaken with (Q := λ us d', d' = d2 ∧ Forall keeps us).
  { destruct (_ || _); [|by apply ok_post_ret]. apply ok_post_bind, ok_post_lift. intros n _. apply ok_post_ret.
    split; [done|]. by repeat constructor. }
  intros counter_updates d' [-> Hcounter]. apply ok_post_bind.
  eapply ok_post_weaken; [apply update_places_refines; [done|]; apply compose_keeps; by rewrite !Forall_app|].
  intros [] d3 [Hpre3 Hd3]. rewrite <-Hd3 in Hobs. apply ok_post_bind. eapply ok_post_weaken with (Q := λ _ d', hist_pre d' ∧ abs d' = abs d3).
  { destruct frec; [by apply update_frecency_refines|by apply ok_post_ret]. }
  intros [] d4 [Hpre4 Hd4]. apply ok_post_ret. split; [done|]. by rewrite Hd4.
Qed.
End pages.

(** ** The operations together *)
Inductive HistoryOp `{!UrlLib} :=
| HObserve (ob : VisitObservation)
| HDeleteVisitAt (url : Url) (t : Z)
| HDeleteBetween (start end_ : Z)
| HDeletePlace (guid : string)
| HWipe
| HDeleteEverything.

Section theorems.
Context {W : Type} `{!UrlLib, !Interruptee W, !Clock W, !Rand W, !UrlSafeBase64}.
Context (checks : bool) (max_variable_number : nat).

Definition run_history_op (o : HistoryOp) : ST (PlacesDb * W) PlacesError (option Z) :=
  match o with
  | HObserve ob => apply_observation checks ob
  | HDeleteVisitAt url t => _ ← delete_place_visit_at_time checks max_variable_number url t; mret None
  | HDeleteBetween start end_ => _ ← delete_visits_between checks max_variable_number start end_; mret None
  | HDeletePlace guid => _ ← delete_place_by_guid guid; mret None
  | HWipe => _ ← wipe_local checks; mret None
  | HDeleteEverything => _ ← delete_everything checks; mret None
  end.

(** The dates of observations are in range. *)
Definition history_op_ok (o : HistoryOp) : Prop :=
  match o with HObserve ob => ∀ t, vo_at ob = Some t → date_ok t | _ => True end.

(** What an operation that succeeds does to the abstract history. *)
Definition history_spec (o : HistoryOp) (r : option Z) (h h' : Hist) : Prop :=
  match o with
  | HObserve ob => observed ob r h h'
  | HDeleteVisitAt url t => h' = forget (at_time h (url_as_str url) t) h
  | HDeleteBetween start end_ => h' = forget (between start end_) h
  | HDeletePlace guid => h' = without_guid guid h
  | HWipe => h' = wiped h
  | HDeleteEverything => ∃ mark, h' = with_mark (Some (MInteger (ts_to_sql mark))) (wiped h) ∧ mark_of h ≤ mark ∧
      ∀ i v, h_visits h !! i = Some v → v_visit_date v ≤ mark
  end.

Lemma run_history_op_refines o d :
  (0 < max_variable_number)%nat → sane_clock (W:=W) → history_op_ok o → hist_pre d →
  refines (run_history_op o) d (λ r h, history_spec o r (abs d) h).
Proof.
  intros Hmax Hclock Hok Hpre. assert (Hret : ∀ (c : ST (PlacesDb * W) PlacesError unit) Q,
    refines c d (λ _, Q) → refines (_ ← c; mret (None : option Z)) d (λ _, Q)).
  { intros c Q Hc. eapply refines_bind; [exact Hc|]. intros [] d' Hpre' HQ. by apply refines_ret. }
  destruct o; cbn [run_history_op history_spec]; try apply Hret; [apply ok_post_transaction..| | |].
  - by apply apply_observation_refines.
  - by apply delete_visit_at_time_refines.
  - by apply delete_visits_between_refines.
  - intros w [] d' w' Hrun. apply (delete_place_by_guid_refines guid d Hpre w tt d' w'). unfold delete_place_by_guid, commit_always in Hrun.
    by destruct (do_delete_place_by_guid guid (d, w)) as [[[]|e|m] [d1 w1]].
  - apply ok_post_transaction. by apply wipe_tables_refines.
  - by apply delete_everything_refines.
Qed.

Lemma history_spec_tombs F o r h h' : hist_wf h → tombs_but F h → history_spec o r h h' → tombs_but F h'.
Proof.
  intros Hwf Ht. destruct o; cbn [history_spec].
  - intros (url & _ & Hobs). destruct (_ <? _); [by destruct Hobs as [_ ->]|]. destruct Hobs as (id & h1 & Hens & Hv).
    apply (ensured_tombs F) in Hens as Ht1; [|done]. destruct (vo_visit_type ob); [|by destruct Hv as [_ ->]].
    destruct Hv as (rid & t & _ & _ & _ & _ & _ & ->). by apply record_visit_tombs.
  - intros ->. by apply forget_tombs.
  - intros ->. by apply forget_tombs.
  - intros ->. by apply without_guid_tombs.
  - intros ->. apply wiped_tombs.
  - intros (mark & -> & _). destruct (wiped_tombs F h) as [? ?]. by split.
Qed.

Lemma history_op_rolls_back o d w r d' w' :
  run_history_op o (d, w) = (r, (d', w')) → is_ok r = false → (∀ g, o ≠ HDeletePlace g) → d' = d.
Proof.
  intros Hrun Hr Hne. assert (Hrb : rolls_back (run_history_op o)).
  { destruct o; [apply rolls_back_transaction|..|by destruct (Hne guid)| |];
      apply (rolls_back_ret _ (λ _, None)), rolls_back_transaction. }
  by eapply Hrb.
Qed.

(** C15: the operations on history do what they say.  A recorded visit is added as one row, at the
    page of its URL, which is created if there is none, and its tombstone is dropped; deleting
    the visits in a range of dates, or those of a URL at a time, removes exactly these visits,
    leaves a tombstone for each that is still of a page, and deletes exactly those of their
    pages that have no visits left and that nothing refers to, with a tombstone for each page
    that the server knows, however the work is cut into chunks of SQL variables; deleting a page
    takes its visits with it; wiping keeps only pages that are referred to and no visits or
    tombstones, and deleting everything also raises the high-water mark above all visits.  An
    operation that fails, other than the deletion of a page by its guid, changes nothing. *)
Theorem history_refines_abstract o d w r d' w' :
  (0 < max_variable_number)%nat → sane_clock (W:=W) → history_op_ok o → hist_ok d →
  run_history_op o (d, w) = (r, (d', w')) →
  match r with
  | Ok out => history_spec o out (abs d) (abs d')
  | _ => (∀ g, o ≠ HDeletePlace g) → d' = d
  end.
Proof.
  intros Hmax Hclock Hok [Hpre Ht] Hrun. destruct r as [out|e|m].
  - by destruct (run_history_op_refines o d Hmax Hclock Hok Hpre w out d' w' Hrun).
  - by eapply history_op_rolls_back.
  - by eapply history_op_rolls_back.
Qed.

(** An operation that does not fail to delete a page keeps the database sound. *)
Lemma history_op_keeps_ok o d w r d' w' :
  (0 < max_variable_number)%nat → sane_clock (W:=W) → history_op_ok o → run_history_op o (d, w) = (r, (d', w')) →
  (is_ok r = true ∨ ∀ g, o ≠ HDeletePlace g) → ∀ F, hist_but F d → hist_but F d'.
Proof.
  intros Hmax Hclock Hok Hrun Hr F [Hpre Ht]. destruct (is_ok r) eqn:Hokr.
  - destruct r as [out| |]; [|done..]. destruct (run_history_op_refines o d Hmax Hclock Hok Hpre w out d' w' Hrun) as [Hpre' Hspec].
    split; [done|]. eapply history_spec_tombs; [apply Hpre|done..].
  - destruct Hr as [?|Hne]; [done|]. by rewrite (history_op_rolls_back o d w r d' w' Hrun Hokr Hne).
Qed.

Lemma delete_places_rolls_back sel : rolls_back (delete_places (W:=W) sel).
Proof.
  intros d w r d' w' Hrun. unfold delete_places in Hrun.
  by apply (rolls_back_transaction _ d w r d' w' Hrun).
Qed.

(** The deletion of a page that fails has written the tombstone of the page, and nothing else. *)
Lemma failed_page_deletion_keeps g d w r d' w' :
  run_history_op (HDeletePlace g) (d, w) = (r, (d', w')) → is_ok r = false →
  ∀ F, hist_but F d → hist_but ({[g]} ∪ F) d'.
Proof.
  intros Hrun Hr F [Hpre [Hp Hv]].
  assert (Hd : d' = d ∨ ∃ w1, bury_places (W:=W) (λ _ p, String.eqb (p_guid p) g && is_normal_place p) (d, w) = (Ok tt, (d', w1))).
  { revert Hrun. cbn [run_history_op]. unfold delete_place_by_guid, commit_always, do_delete_place_by_guid.
    unfold mbind at 1 2 3, ST_bind at 1 2 3.
    destruct (bury_places _ (d, w)) as [[[]|e|m] [d1 w1]] eqn:Hb; [|done..].
    destruct (delete_places _ (d1, w1)) as [[[]|e|m] [d2 w2]] eqn:Hdel.
    - by destruct r.
    - apply delete_places_rolls_back in Hdel as ->; [|done]. intros [= <- <- <-]. right. by exists w1.
    - intros [= <- <- <-]. by left. }
  destruct Hd as [->|[w1 Hb]].
  { split; [done|]. split; [|done]. intros id pg Hpg HF. apply (Hp id pg Hpg). set_solver. }
  destruct (bury_places_refines (W:=W) _ (λ _ pg, String.eqb (pg_guid pg) g && is_normal pg) d Hpre (λ _ _ _, eq_refl) w tt d' w1 Hb)
    as [Hpre' Habs].
  split; [done|]. rewrite Habs. split; [|done]. cbn. intros id pg Hpg HF.
  rewrite elem_of_union, elem_of_map_to_set. intros [Ht|(j & q & [Hq Hbq]%map_lookup_filter_Some & Hg)].
  - apply (Hp id pg Hpg); [set_solver|done].
  - apply andb_true_iff in Hbq as [Hbq%String.eqb_eq _]. set_solver.
Qed.

(** A step of the life of the database: any operation with any outcome.  The set collects the
    guids of the pages whose deletion failed. *)
Definition undone (o : HistoryOp) (r : res PlacesError (option Z)) : gset string :=
  match o with HDeletePlace g => if is_ok r then ∅ else {[g]} | _ => ∅ end.
Inductive history_step : PlacesDb * gset string → PlacesDb * gset string → Prop :=
| hstep o d w r d' w' F :
    history_op_ok o → run_history_op o (d, w) = (r, (d', w')) → history_step (d, F) (d', undone o r ∪ F).

Lemma history_step_ok s s' :
  (0 < max_variable_number)%nat → sane_clock (W:=W) → history_step s s' → hist_but s.2 s.1 → hist_but s'.2 s'.1.
Proof.
  intros Hmax Hclock [o d w r d' w' F Hok Hrun] Hd. cbn in *.
  assert (Hcase : undone o r = ∅ ∧ (is_ok r = true ∨ ∀ g, o ≠ HDeletePlace g) ∨
    ∃ g, o = HDeletePlace g ∧ is_ok r = false ∧ undone o r = {[g]}).
  { destruct o; cbn; try (left; split; [done|by right]). destruct (is_ok r); [left; split; [done|by left]|right; eauto]. }
  destruct Hcase as [[-> Hr]|(g & -> & Hr & ->)].
  - rewrite (union_empty_l_L F). by eapply history_op_keeps_ok.
  - by eapply failed_page_deletion_keeps.
Qed.

Lemma history_steps_ok d F d' F' :
  (0 < max_variable_number)%nat → sane_clock (W:=W) → rtc history_step (d, F) (d', F') → hist_but F d → hist_but F' d'.
Proof.
  intros Hmax Hclock Hsteps.
  enough (Hgen : ∀ s s', rtc history_step s s' → hist_but s.2 s.1 → hist_but s'.2 s'.1) by exact (Hgen _ _ Hsteps).
  induction 1 as [|x y z Hstep _ IH]; [done|]. intros Hx. apply IH. by apply (history_step_ok x).
Qed.

(** C16: through any sequence of operations on history, whether they succeed, fail or panic, the
    number of visits that the row of each
    page counts, for local and remote visits, is the number of its visits of the types that
    count, and its last visit dates are those of its last visits; each visit is of a page; no
    two pages have the same URL or guid; and nothing that is there has a tombstone, except
    pages whose deletion by guid has failed (their guids are [F]; see
    [failed_page_deletion_is_committed]).  The dates of the observations and of the clock must be
    in range. *)
Theorem history_invariant d d' F :
  (0 < max_variable_number)%nat → sane_clock (W:=W) → hist_ok d → rtc history_step (d, ∅) (d', F) → hist_but F d'.
Proof.
  intros Hmax Hclock Hd Hsteps. by eapply history_steps_ok; [..|exact Hsteps|apply hist_but_empty].
Qed.
End theorems.

(** ** Concrete runs *)
Module ToyHistory.
Import ToyPlaces.
(** A clock that starts after the epoch. *)
#[export] Instance toy_hclock : Clock nat := λ w, ((1 + Z.of_nat (w mod 1000)) * 1000000, S w).
Lemma hclock_sane : sane_clock (W:=nat).
Proof. intros w. cbn. pose proof (Nat.mod_upper_bound w 1000). lia. Qed.

Definition visit_at (url : string) (at_ : Z) : VisitObservation :=
  mkVisitObservation url None (Some Link) None None None (Some at_) None None.
Definition run (o : HistoryOp) (s : PlacesDb * nat) : PlacesDb * nat := snd (run_history_op (W:=nat) true 2 o s).
Lemma empty_hist_ok : hist_ok empty_db.
Proof.
  split; [split; [split|]|split].
  - intros id pg. cbn. by rewrite fmap_empty, lookup_empty.
  - intros i p j q. cbn. by rewrite fmap_empty, lookup_empty.
  - intros i p j q. cbn. by rewrite fmap_empty, lookup_empty.
  - intros i v. cbn. by rewrite lookup_empty.
  - intros i t. cbn. set_solver.
  - apply map_Forall_empty.
  - intros id pg. cbn. by rewrite fmap_empty, lookup_empty.
  - intros i v. cbn. by rewrite lookup_empty.
Qed.
Lemma run_step o s s' F :
  history_op_ok o → is_ok (fst (run_history_op (W:=nat) true 2 o s)) = true → run o s = s' →
  history_step (W:=nat) true 2 (fst s, F) (fst s', F).
Proof.
  unfold run. destruct s as [d w]. destruct (run_history_op (W:=nat) true 2 o (d, w)) as [r [d1 w1]] eqn:Hrun. cbn. intros Hok Hr <-.
  pose proof (hstep (W:=nat) true 2 o d w r d1 w1 F Hok Hrun) as Hs.
  assert (Hu : undone o r = ∅) by (destruct o; cbn; [done..|by rewrite Hr|done|done]). by rewrite Hu, (union_empty_l_L F) in Hs.
Qed.
Definition s1 : PlacesDb * nat := run (HObserve (visit_at "http://a.com/" 10)) (empty_db, 0%nat).
Definition s2 : PlacesDb * nat := run (HObserve (visit_at "http://a.com/" 20)) s1.
Definition s3 : PlacesDb * nat := run (HObserve (visit_at "http://b.com/" 15)) s2.

Lemma toy_date (url : string) (t : Z) : date_ok t → history_op_ok (HObserve (visit_at url t)).
Proof. intros Ht x [= <-]. done. Qed.
Lemma steps_to_s3 : rtc (history_step (W:=nat) true 2) (empty_db, ∅) (fst s3, ∅).
Proof.
  apply rtc_l with (fst s1, ∅); [|apply rtc_l with (fst s2, ∅); [|apply rtc_once]].
  - refine (run_step (HObserve (visit_at "http://a.com/" 10)) (empty_db, 0%nat) s1 ∅ _ _ eq_refl); [by apply toy_date|vm_compute; reflexivity].
  - refine (run_step (HObserve (visit_at "http://a.com/" 20)) s1 s2 ∅ _ _ eq_refl); [by apply toy_date|vm_compute; reflexivity].
  - refine (run_step (HObserve (visit_at "http://b.com/" 15)) s2 s3 ∅ _ _ eq_refl); [by apply toy_date|vm_compute; reflexivity].
Qed.

(** Two visits of one page and one of another. *)
Lemma history_invariant_witness :
  hist_but ∅ (fst s3) ∧
  (λ '(_, p), (p_url p, p_visit_count_local p, p_last_visit_date_local p)) <$> rows (moz_places (fst s3))
  = [("http://a.com/"%string, 2, 20); ("http://b.com/"%string, 1, 15)].
Proof.
  split; [|vm_compute; reflexivity].
  apply (history_invariant (W:=nat) true 2 empty_db); [lia|exact hclock_sane|exact empty_hist_ok|exact steps_to_s3].
Defined.

Lemma s3_ok : hist_ok (fst s3).
Proof.
  apply (proj1 (hist_but_empty (fst s3))).
  refine (history_steps_ok (W:=nat) true 2 empty_db ∅ (fst s3) ∅ _ hclock_sane steps_to_s3 (proj2 (hist_but_empty empty_db) empty_hist_ok)).
  lia.
Qed.

(** The first visit of one page and the only visit of the other are deleted, the latter with
    its page. *)
Definition s4 : PlacesDb * nat := run (HDeleteBetween 10 15) s3.
Lemma history_refines_abstract_witness :
  abs (fst s4) = forget (between 10 15) (abs (fst s3)) ∧
  (λ '(_, p), (p_url p, p_visit_count_local p)) <$> rows (moz_places (fst s4)) = [("http://a.com/"%string, 1)] ∧
  moz_historyvisit_tombstones (fst s4) = {[(1, 10)]} ∧
  (λ '(_, v), v_visit_date v) <$> rows (moz_historyvisits (fst s4)) = [20].
Proof.
  split; [|split_and!; vm_compute; reflexivity].
  refine (history_refines_abstract (W:=nat) true 2 (HDeleteBetween 10 15) (fst s3) (snd s3) (Ok None) (fst s4) (snd s4) _ hclock_sane I s3_ok _).
  - lia.
  - rewrite <-!surjective_pairing. vm_compute. reflexivity.
Defined.

(** The deletion of a page that is bookmarked fails, but its tombstone is written: the page is
    there and has a tombstone.  (It has been synced before.) *)
Definition synced_page : PlacesDb :=
  on_places (fmap (p_set_sync (SyncStatus.as_u8 SNormal) 0)) toy_db.
Definition page_guid : string := match rows (moz_places synced_page) with (_, p) :: _ => p_guid p | [] => "" end.
Theorem failed_page_deletion_is_committed :
  let '(r, (d, _)) := delete_place_by_guid (W:=nat) page_guid (synced_page, 0%nat) in
  r = Err (PSqlError "FOREIGN KEY constraint failed") ∧
  ((λ '(_, p), p_guid p) <$> rows (moz_places d)) = [page_guid] ∧ page_guid ∈ moz_places_tombstones d.
Proof.
  cut ((let '(r, (d, _)) := delete_place_by_guid (W:=nat) page_guid (synced_page, 0%nat) in
    (r, (λ '(_, p), p_guid p) <$> rows (moz_places d), bool_decide (page_guid ∈ moz_places_tombstones d)))
    = (Err (PSqlError "FOREIGN KEY constraint failed"), [page_guid], true)); [|vm_compute; reflexivity].
  destruct (delete_place_by_guid page_guid (synced_page, 0%nat)) as [r [d w]]. intros [= -> -> Hin].
  split_and!; try done. by apply bool_decide_eq_true in Hin.
Qed.
End ToyHistory.
