(* ===== verification/HistoryQueries.v ===== *)
(** * Places: queries on history

    What [get_visited], [get_visit_page] and [get_visit_count] of [storage/history.rs] answer,
    and concrete runs of the operations on history. *)

From S2P Require Import Prelude Database Sync15Types KeyBundle State Viaduct Token PlacesTypes PlacesDb Bookmarks BookmarksSpec Frecency History HistorySpec HistoryOps.
From Stdlib Require Import Ascii String.
From stdpp Require Import sorting strings list gmap fin_sets.
Local Open Scope Z_scope.
Local Open Scope list_scope.

(** ** Which pages are known *)
Definition known (d : PlacesDb) (url : string) : bool := is_some (select_first (λ p, String.eqb (p_url p) url) (moz_places d)).

Lemma known_spec d url : known d url = true ↔ ∃ id p, moz_places d !! id = Some p ∧ p_url p = url.
Proof.
  unfold known. destruct (select_first _ _) as [[id p]|] eqn:Hs; split; try done.
  - intros _. apply select_first_Some in Hs as [Hp Hu%String.eqb_eq]. eauto.
  - intros (id & p & Hp & Hu). apply (select_first_None _ _ id p) in Hs; [|done]. cbn in Hs. by rewrite Hu, String.eqb_refl in Hs.
Qed.

Section queries.
Context {W : Type} `{!UrlLib}.
Context (max_variable_number : nat).

(** The hash in the row of a page with the URL is the hash of the URL. *)
Lemma has_url_known d url hash :
  hist_wf (abs d) → hash_url (E:=PlacesError) url = Ok hash → is_some (select_first (has_url hash url) (moz_places d)) = known d url.
Proof.
  intros Hwf Hh. apply eq_true_iff_eq. rewrite known_spec. destruct (select_first _ _) as [[id p]|] eqn:Hs; split; try done.
  - intros _. apply select_first_Some in Hs as [Hp [_ Hu%String.eqb_eq]%andb_true_iff]. eauto.
  - intros (id & p & Hp & Hu). apply (select_first_None _ _ id p) in Hs; [|done].
    rewrite (has_url_eq d _ _ id), Hu, String.eqb_refl in Hs; [done|done|unfold sql_hash; by rewrite Hh|done].
Qed.

Lemma get_visited_chunk_run d pre (urls : list Url) :
  hist_wf (abs d) → Forall (λ u, ∃ h, hash_url (E:=PlacesError) (url_as_str u) = Ok h) urls →
  get_visited_chunk d (imap (λ i u, ((length pre + i)%nat, u)) urls) (pre ++ replicate (length urls) false)
  = Ok (pre ++ (known d ∘ url_as_str <$> urls)).
Proof.
  intros Hwf Hurls. revert pre. induction Hurls as [|u urls [h Hh] _ IH]; intros pre; [done|].
  unfold get_visited_chunk. cbn [imap foldl length replicate]. rewrite res_bind_ok, Hh, res_bind_ok, (has_url_known d _ h Hwf Hh).
  set (b := known d (url_as_str u)).
  assert (Hrun : (if b then if bool_decide (length pre + 0 < length (pre ++ false :: replicate (length urls) false))%nat
      then Ok (<[(length pre + 0)%nat := true]> (pre ++ false :: replicate (length urls) false)) else Panic "index out of bounds"
      else Ok (pre ++ false :: replicate (length urls) false) : res PlacesError (list bool))
    = Ok ((pre ++ [b]) ++ replicate (length urls) false)).
  { rewrite <-app_assoc. destruct b; [|done]. rewrite bool_decide_true by (rewrite length_app; cbn; lia).
    rewrite insert_app_r. done. }
  rewrite Hrun. specialize (IH (pre ++ [b])). unfold get_visited_chunk in IH.
  change (known d ∘ url_as_str <$> u :: urls) with ([b] ++ (known d ∘ url_as_str <$> urls)). rewrite app_assoc, <-IH.
  f_equal. apply imap_ext. intros i x _. cbn. rewrite length_app. cbn. f_equal. lia.
Qed.

Lemma get_visited_chunks_concat d cs result :
  get_visited_chunks d cs result = get_visited_chunk d (concat cs) result.
Proof.
  revert result. induction cs as [|c cs IH]; intros result; [done|]. cbn [get_visited_chunks concat].
  unfold get_visited_chunk at 2. rewrite foldl_app. fold (get_visited_chunk d c result).
  destruct (get_visited_chunk d c result) as [r|e|m]; cbn.
  - apply IH.
  - clear. induction (concat cs) as [|[i u] l IHl]; [done|]. apply IHl.
  - clear. induction (concat cs) as [|[i u] l IHl]; [done|]. apply IHl.
Qed.

(** [get_visited] answers, for each URL in its place and for lists of any length, whether
    there is a page with that URL. *)
Theorem get_visited_answers (urls : list Url) d (w : W) :
  (0 < max_variable_number)%nat → hist_ok d → Forall (λ u, ∃ h, hash_url (E:=PlacesError) (url_as_str u) = Ok h) urls →
  get_visited max_variable_number urls (d, w) = (Ok (known d ∘ url_as_str <$> urls), (d, w)).
Proof.
  intros Hmax [[Hwf _] _] Hurls. unfold get_visited, get_visited_into, mbind, ST_bind. cbn.
  rewrite get_visited_chunks_concat, chunks_concat by done.
  unfold st_lift. pose proof (get_visited_chunk_run d [] urls Hwf Hurls) as Hr.
  change (get_visited_chunk d (imap pair urls) (replicate (length urls) false) = Ok (known d ∘ url_as_str <$> urls)) in Hr.
  by rewrite Hr.
Qed.

(** ** Lists of visits *)
Lemma land_pow2 x k : 0 ≤ k → negb (Z.land (Z.shiftl 1 k) x =? 0) = Z.testbit x k.
Proof.
  intros Hk. rewrite Z.shiftl_1_l. destruct (Z.testbit x k) eqn:Hb.
  - apply negb_true_iff, Z.eqb_neq. intros Hz. apply (f_equal (λ z, Z.testbit z k)) in Hz.
    rewrite Z.land_spec, Z.pow2_bits_true, Hb, Z.bits_0 in Hz by done. done.
  - apply negb_false_iff, Z.eqb_eq. apply Z.bits_inj'. intros i Hi. rewrite Z.land_spec, Z.bits_0, Z.pow2_bits_eqb by done.
    destruct (Z.eqb_spec k i) as [<-|]; [by rewrite Hb|done].
Qed.
(** A visit is of an allowed type if its type is not excluded. *)
Lemma type_allowed_spec exclude t v :
  v_visit_type v = VisitTransition.as_u8 t →
  type_allowed (VisitTransitionSet.complement exclude) v = negb (VisitTransitionSet.contains exclude t).
Proof.
  intros Ht. unfold type_allowed, VisitTransitionSet.contains, VisitTransitionSet.bit. rewrite Ht, (Z.land_comm exclude).
  rewrite !land_pow2 by (by destruct t). unfold VisitTransitionSet.complement, VisitTransitionSet.not_u16.
  rewrite Z.land_spec, Z.lxor_spec. by destruct t; cbn; rewrite andb_true_r.
Qed.

Definition visit_info (d : PlacesDb) (v : VisitRow) : option HistoryVisitInfo :=
  (λ p, mkHistoryVisitInfo (p_url p) (p_title p) (v_visit_date v) (v_visit_type v)) <$> moz_places d !! v_place_id v.
Definition excluded (exclude : Z) (v : VisitRow) : bool :=
  match VisitTransition.from_primitive (v_visit_type v) with Some t => VisitTransitionSet.contains exclude t | None => true end.

Lemma from_as_u8 t : VisitTransition.from_primitive (VisitTransition.as_u8 t) = Some t.
Proof. by destruct t. Qed.
Lemma wf_type_allowed d exclude i v :
  hist_wf (abs d) → moz_historyvisits d !! i = Some v →
  type_allowed (VisitTransitionSet.complement exclude) v = negb (excluded exclude v).
Proof.
  intros Hwf Hv. destruct (wf_visit _ Hwf i v Hv) as (_ & _ & _ & t & Ht). rewrite (type_allowed_spec _ t) by done.
  unfold excluded. by rewrite Ht, from_as_u8.
Qed.

Lemma infos_of_run d (visits : list (Z * VisitRow)) :
  hist_wf (abs d) → (∀ i v, (i, v) ∈ visits → moz_historyvisits d !! i = Some v) →
  infos_of d visits = Ok (omap (visit_info d) visits.*2) ∧ length (omap (visit_info d) visits.*2) = length visits.
Proof.
  intros Hwf. unfold infos_of. induction visits as [|[i v] visits IH]; intros Hin; [done|].
  destruct IH as [IH Hlen]; [intros j x Hx; apply Hin; by right|].
  assert (Hv : moz_historyvisits d !! i = Some v) by (apply Hin; left).
  destruct (wf_visit _ Hwf i v Hv) as ([pg Hp] & _ & _ & t & Ht). cbn in Hp. rewrite lookup_fmap in Hp.
  apply fmap_Some in Hp as (p & Hp & _).
  assert (Hrow : HistoryVisitInfo_from_row p v = Ok (mkHistoryVisitInfo (p_url p) (p_title p) (v_visit_date v) (v_visit_type v))).
  { unfold HistoryVisitInfo_from_row. rewrite Ht. by destruct t. }
  unfold visit_info in *. cbn -[HistoryVisitInfo_from_row]. rewrite Hp. cbn -[HistoryVisitInfo_from_row].
  rewrite Hlen, Hrow. split; [|done]. cbn -[HistoryVisitInfo_from_row]. by rewrite IH.
Qed.

Lemma filter_Permutation {A} (f : A → bool) l l' : l ≡ₚ l' → List.filter f l ≡ₚ List.filter f l'.
Proof.
  induction 1 as [|x l l' _ IH|x y l|l l' l'' _ IH _ IH']; cbn; [done|by destruct (f x); rewrite ?IH| |by etrans].
  destruct (f x), (f y); try done. apply Permutation_swap.
Qed.
Lemma forallb_filter_id {A} (f : A → bool) l : forallb f l = true → List.filter f l = l.
Proof. induction l as [|x l IH]; [done|]. cbn. destruct (f x); [|done]. cbn. intros Hl. by rewrite IH. Qed.
Lemma filter_snd {A B} (f : B → bool) (l : list (A * B)) : (List.filter (λ '(_, v), f v) l).*2 = List.filter f l.*2.
Proof. induction l as [|[a b] l IH]; [done|]. cbn. destruct (f b); cbn; by rewrite IH. Qed.
Lemma filter_ext_in {A} (f g : A → bool) l : (∀ x, x ∈ l → f x = g x) → List.filter f l = List.filter g l.
Proof. intros Hfg. apply List.filter_ext_in. intros x Hx. by apply Hfg, list_elem_of_In. Qed.
Lemma omap_take_drop {A B} (f : A → option B) n l :
  Forall (λ x, is_Some (f x)) l → omap f (take n l) = take n (omap f l) ∧ omap f (drop n l) = drop n (omap f l).
Proof.
  intros Hl. revert n. induction Hl as [|x l [y Hy] _ IH]; intros [|n]; try done. cbn. rewrite Hy. cbn.
  destruct (IH n) as [-> ->]. done.
Qed.

(** The pages of visits are slices of one list, newest visit first, that holds exactly the
    visits whose type is not excluded, each with the URL and title of its page; and the number
    of visits that is reported is the length of that list. *)
Theorem visit_pages_slice_history exclude d (w : W) :
  hist_ok d → ∃ infos : list HistoryVisitInfo,
    Sorted (λ x y, hv_timestamp y ≤ hv_timestamp x) infos ∧
    infos ≡ₚ omap (visit_info d) (List.filter (λ v, negb (excluded exclude v)) (map_to_list (moz_historyvisits d)).*2) ∧
    get_visit_count exclude (d, w) = (Ok (Z.of_nat (length infos)), (d, w)) ∧
    ∀ offset count, 0 ≤ offset → 0 ≤ count →
      get_visit_page offset count exclude (d, w) = (Ok (take (Z.to_nat count) (drop (Z.to_nat offset) infos)), (d, w)).
Proof.
  intros [[Hwf _] _]. set (wanted := type_allowed (VisitTransitionSet.complement exclude)).
  set (visits := merge_sort later_first (select wanted (moz_historyvisits d))).
  assert (Hperm : visits ≡ₚ List.filter (λ '(_, v), wanted v) (map_to_list (moz_historyvisits d))).
  { unfold visits. rewrite merge_sort_Permutation. apply filter_Permutation, merge_sort_Permutation. }
  assert (Hin : ∀ i v, (i, v) ∈ visits → moz_historyvisits d !! i = Some v).
  { intros i v Hv. unfold visits in Hv. rewrite merge_sort_Permutation in Hv. by apply elem_of_select in Hv as [? _]. }
  assert (Hsome : Forall (λ v, is_Some (visit_info d v)) visits.*2).
  { apply Forall_forall. intros v ([i v'] & -> & Hv)%list_elem_of_fmap. destruct (wf_visit _ Hwf i v' (Hin _ _ Hv)) as [[pg Hp] _].
    unfold visit_info. cbn in *. rewrite lookup_fmap in Hp. apply fmap_Some in Hp as (p & -> & _). by eexists. }
  assert (Hall : visits.*2 ≡ₚ List.filter (λ v, negb (excluded exclude v)) (map_to_list (moz_historyvisits d)).*2).
  { rewrite Hperm, filter_snd. erewrite filter_ext_in; [reflexivity|]. intros v ([i v'] & -> & Hv)%list_elem_of_fmap.
    apply elem_of_map_to_list in Hv. by apply (wf_type_allowed d exclude i). }
  destruct (infos_of_run d visits Hwf Hin) as [_ Hlen].
  exists (omap (visit_info d) visits.*2). split_and!.
  - assert (Hs : Sorted later_first visits).
    { apply Sorted_merge_sort. intros x y. unfold later_first. lia. }
    clear -Hs Hsome. induction Hs as [|[i v] l Hs IH Hd]; [constructor|]. cbn in Hsome |- *.
    apply Forall_cons in Hsome as [[x Hx] Hsome]. rewrite Hx. constructor; [by apply IH|].
    destruct Hd as [|[j u] l Hd]; [constructor|]. cbn in Hsome |- *. apply Forall_cons in Hsome as [[y Hy] _]. rewrite Hy. constructor.
    unfold visit_info in Hx, Hy. apply fmap_Some in Hx as (p & _ & ->), Hy as (q & _ & ->). done.
  - by rewrite Hall.
  - rewrite Hlen. unfold get_visit_count, mbind, ST_bind. cbn. unfold mret, ST_ret. do 3 f_equal.
    rewrite (Permutation_length Hperm). destruct (VisitTransitionSet.is_empty exclude) eqn:He.
    + apply Z.eqb_eq in He as ->. rewrite <-length_map_to_list. do 2 f_equal. symmetry. apply forallb_filter_id, forallb_forall.
      intros [i v] Hv. apply list_elem_of_In, elem_of_map_to_list in Hv. unfold wanted.
      rewrite (wf_type_allowed d 0 i) by done. destruct (wf_visit _ Hwf i v Hv) as (_ & _ & _ & t & Ht).
      unfold excluded. by rewrite Ht, from_as_u8.
    + f_equal. apply Permutation_length. apply filter_Permutation, merge_sort_Permutation.
  - intros offset count Ho Hc. unfold get_visit_page, mbind, ST_bind. cbn. fold wanted visits.
    rewrite forallb_filter_id.
    + unfold limit_offset. rewrite (proj2 (Z.ltb_ge count 0)) by done.
      destruct (infos_of_run d (take (Z.to_nat count) (drop (Z.to_nat offset) visits)) Hwf) as [Hrun _].
      { intros i v Hv. apply Hin. apply elem_of_take in Hv as (j & Hj & _). rewrite lookup_drop in Hj. by eapply list_elem_of_lookup_2. }
      unfold st_lift. rewrite Hrun, fmap_take, fmap_drop. repeat f_equal.
      rewrite (proj1 (omap_take_drop _ _ _ (Forall_drop _ _ _ Hsome))). f_equal. apply (proj2 (omap_take_drop _ _ _ Hsome)).
    + apply forallb_forall. intros [i v] Hv%list_elem_of_In%Hin. destruct (wf_visit _ Hwf i v Hv) as [[pg Hp] _].
      cbn in Hp. rewrite lookup_fmap in Hp. by apply fmap_Some in Hp as (p & -> & _).
Qed.
End queries.

(** ** Concrete runs *)
Module ToyQueries.
Import ToyPlaces ToyHistory.

Lemma get_visited_answers_witness :
  get_visited (W:=nat) 2 (["http://b.com/"; "http://c.com/"; "http://a.com/"]%string : list Url) (fst s3, 0%nat)
  = (Ok [true; false; true], (fst s3, 0%nat)).
Proof.
  replace [true; false; true] with (known (fst s3) ∘ url_as_str <$> (["http://b.com/"; "http://c.com/"; "http://a.com/"]%string : list Url))
    by (vm_compute; reflexivity).
  apply (get_visited_answers (W:=nat) 2); [lia|exact s3_ok|].
  repeat constructor; (eexists; vm_compute; reflexivity).
Defined.

(** A page that is bookmarked and was never visited counts as visited. *)
Theorem bookmark_counts_as_visited :
  moz_historyvisits toy_db = ∅ ∧
  get_visited (W:=nat) 2 (["http://a.com/"]%string : list Url) (toy_db, 0%nat) = (Ok [true], (toy_db, 0%nat)).
Proof. split; vm_compute; reflexivity. Qed.

(** The second page of one visit each. *)
Lemma visit_pages_slice_history_witness :
  (∃ infos, get_visit_count (W:=nat) 0 (fst s3, 0%nat) = (Ok (Z.of_nat (length infos)), (fst s3, 0%nat)) ∧
     get_visit_page (W:=nat) 1 1 0 (fst s3, 0%nat) = (Ok (take 1 (drop 1 infos)), (fst s3, 0%nat))) ∧
  get_visit_page (W:=nat) 1 1 0 (fst s3, 0%nat) = (Ok [mkHistoryVisitInfo "http://b.com/" None 15 1], (fst s3, 0%nat)).
Proof.
  split; [|vm_compute; reflexivity].
  destruct (visit_pages_slice_history (W:=nat) 0 (fst s3) 0%nat s3_ok) as (infos & _ & _ & Hcount & Hpage).
  exists infos. split; [exact Hcount|]. apply (Hpage 1 1); lia.
Defined.
End ToyQueries.
