(* ===== verification/HistorySync.v ===== *)
(** * Places: the sync of history

    Model of the module [history_sync] of [components/places/src/storage/history.rs] and of
    [history_sync/mod.rs], [record.rs], [plan.rs] and [store.rs]: an incoming record is turned
    into a plan, the plans are applied in transactions that are committed now and then, and the
    pages that changed are collected for the upload.  The counters of telemetry are left out. *)

From S2P Require Import Prelude Database Sync15Types KeyBundle Bso State CollState Viaduct Token Client Sync MigrateState PlacesTypes PlacesDb Bookmarks Frecency History.
From Stdlib Require Import Ascii String.
From stdpp Require Import sorting strings list gmap fin_sets.
Local Open Scope Z_scope.
Local Open Scope list_scope.

Definition umul {E} (checks : bool) (w a b : Z) : res E Z :=
  if checks && (2 ^ w <=? a * b) then Panic "attempt to multiply with overflow" else Ok (wrap w (a * b)).

(** A [match] on the result of a call: a panic is not caught. *)
Definition st_catch {S E A} (c : ST S E A) : ST S E (E + A) := λ s,
  match c s with
  | (Ok a, s) => (Ok (inr a), s)
  | (Err e, s) => (Ok (inl e), s)
  | (Panic m, s) => (Panic m, s)
  end.

(** ** mod.rs and record.rs *)
Definition MAX_INCOMING_PLACES : Z := 5000.
Definition MAX_OUTGOING_PLACES : nat := 5000.
Definition MAX_VISITS : nat := 20.
Definition HISTORY_TTL : Z := 5184000.

(** Visit dates on the server are microseconds. *)
Definition Timestamp_from_server_visit (ts : Z) : Z := ts / 1000.
Definition ServerVisitTimestamp_from {E} (checks : bool) (ts : Z) : res E Z := umul checks 64 ts 1000.

Record HistoryRecordVisit := mkHistoryRecordVisit { hrv_date : Z; hrv_transition : Z }.
Record HistoryRecord := mkHistoryRecord {
  hr_id : string; hr_title : string; hr_hist_uri : string; hr_visits : list HistoryRecordVisit; hr_sortindex : Z; hr_ttl : Z }.
Record HistorySyncRecord := mkHistorySyncRecord { hs_guid : string; hs_record : option HistoryRecord }.

(** Whether the transaction has been open for a second ([ChunkedCoopTransaction::maybe_commit]). *)
Class CommitTimer (W : Type) := commit_due : W → bool * W.

Inductive IncomingPlan `{!UrlLib} :=
| Skip
| Invalid (e : PlacesError)
| Failed (e : PlacesError)
| PDelete
| Apply (url : Url) (new_title : option string) (visits : list HistoryRecordVisit)
| Reconciled.

Inductive OutgoingInfo := OutRecord (r : HistoryRecord) | OutTombstone.

Record FetchedVisit := mkFetchedVisit { fv_is_local : bool; fv_visit_date : Z; fv_visit_type : option VisitTransition }.
Definition FetchedVisit_from_row (v : VisitRow) : res PlacesError FetchedVisit :=
  ty ← get_u8 (v_visit_type v);
  Ok (mkFetchedVisit (v_is_local v) (ts_of_sql (v_visit_date v)) (VisitTransition.from_primitive ty)).
Record FetchedVisitPage `{!UrlLib} := mkFetchedVisitPage { fp_url : Url; fp_guid : string; fp_row_id : Z; fp_title : string }.
Definition FetchedVisitPage_from_row `{!UrlLib} (id : Z) (p : PlaceRow) : res PlacesError FetchedVisitPage :=
  url ← parse_url (p_url p);
  Ok (mkFetchedVisitPage _ url (p_guid p) id (default ""%string (p_title p))).

(** Orders of rows. *)
Definition str_le (x y : string) : Prop := String.leb x y = true.
Global Instance str_le_dec : RelDecision str_le.
Proof. intros x y. unfold str_le. apply _. Defined.
Definition more_frecent (x y : Z * PlaceRow) : Prop := p_frecency y.2 ≤ p_frecency x.2.
Global Instance more_frecent_dec : RelDecision more_frecent.
Proof. intros x y. unfold more_frecent. apply _. Defined.

Section sync.
Context {W : Type} `{!UrlLib, !Interruptee W, !Clock W, !Rand W, !UrlSafeBase64, !CommitTimer W}.
Context `{!SerdeJson, !Serde HistoryRecord, !Serde Payload}.
Context (checks : bool) (max_variable_number : nat).
(** The order in which a [HashMap] gives its entries. *)
Context (drain : gmap string OutgoingInfo → list (string * OutgoingInfo)).
Abbreviation DB := (ST (PlacesDb * W) PlacesError).

Definition from_payload (payload : Payload) : res PlacesError HistorySyncRecord :=
  let guid := Bso.p_id payload in
  record ← (if Payload.is_tombstone payload then Ok None
            else r ← map_err PSyncAdapterError (Payload.into_record (T:=HistoryRecord) payload); Ok (Some r));
  Ok (mkHistorySyncRecord guid record).

(** ** storage/history.rs: fetch_visits *)
Definition fetch_visits (url : Url) (limit : nat) : DB (option (FetchedVisitPage * list FetchedVisit)) :=
  hash ← st_lift (sql_hash (url_as_str url));
  d ← db_get;
  match select_first (has_url hash (url_as_str url)) (moz_places d) with
  | None => mret None
  | Some (id, p) =>
      page_info ← st_lift (FetchedVisitPage_from_row id p);
      visits ← st_lift (mapM (λ '(_, v), FetchedVisit_from_row v)
                         (take limit (select (λ v, v_place_id v =? fp_row_id page_info) (moz_historyvisits d))));
      mret (Some (page_info, visits))
  end.

Definition finish_incoming : DB unit := delete_pending_temp_tables.

(** ** plan.rs *)
Definition EARLIEST_TIMESTAMP : Z := 727747200000.
Definition clamp_visit_date (visit_date : Z) : DB Z :=
  now ← now;
  mret (if now <? visit_date then now else if visit_date <? EARLIEST_TIMESTAMP then EARLIEST_TIMESTAMP else visit_date).

(** [can_add_url] of [api/history.rs]. *)
Definition can_add_url (_ : Url) : res PlacesError bool := Ok true.

(** The set of transitions, as their numbers, and dates. *)
Fixpoint cur_visits (visits : list FetchedVisit) (cur_visit_map : gset (Z * Z)) : DB (gset (Z * Z)) :=
  match visits with
  | [] => mret cur_visit_map
  | visit :: visits =>
      match fv_visit_type visit with
      | None => cur_visits visits cur_visit_map
      | Some transition =>
          date_use ← clamp_visit_date (fv_visit_date visit);
          cur_visits visits (cur_visit_map ∪ {[(VisitTransition.as_u8 transition, date_use)]})
      end
  end.
Fixpoint visits_to_apply (earliest_allowed : Z) (visits : list HistoryRecordVisit) (cur_visit_map : gset (Z * Z))
    : DB (list HistoryRecordVisit) :=
  match visits with
  | [] => mret []
  | incoming_visit :: visits =>
      match VisitTransition.from_primitive (hrv_transition incoming_visit) with
      | None => visits_to_apply earliest_allowed visits cur_visit_map
      | Some transition =>
          timestamp ← clamp_visit_date (Timestamp_from_server_visit (hrv_date incoming_visit));
          let key := (VisitTransition.as_u8 transition, timestamp) in
          if (timestamp <? earliest_allowed) || bool_decide (key ∈ cur_visit_map)
          then visits_to_apply earliest_allowed visits cur_visit_map
          else
            date ← st_lift (ServerVisitTimestamp_from checks timestamp);
            rest ← visits_to_apply earliest_allowed visits (cur_visit_map ∪ {[key]});
            mret (mkHistoryRecordVisit date (VisitTransition.as_u8 transition) :: rest)
      end
  end.

Definition plan_incoming_record (record : HistoryRecord) (max_visits : nat) : DB IncomingPlan :=
  match parse_url (hr_hist_uri record) with
  | Err e => mret (Invalid e)
  | Panic m => st_lift (Panic m)
  | Ok url =>
      if negb (is_valid_places_guid (hr_id record)) then mret (Invalid (PInvalidPlaceInfo InvalidGuid))
      else
        match can_add_url url with
        | Err e => mret (Failed e)
        | Panic m => st_lift (Panic m)
        | Ok false => mret Skip
        | Ok true =>
            visit_tuple ← st_catch (fetch_visits url max_visits);
            match visit_tuple with
            | inl e => mret (Failed e)
            | inr visit_tuple =>
                let existing_visits := match visit_tuple with None => [] | Some (_, v) => v end in
                let guid_changed := match visit_tuple with Some (p, _) => negb (String.eqb (fp_guid p) (hr_id record)) | None => false end in
                cur_visit_map ← cur_visits existing_visits ∅;
                let earliest_allowed :=
                  if Nat.eqb (length existing_visits) max_visits
                  then match last existing_visits with Some v => fv_visit_date v | None => 0 end else 0 in
                to_apply ← visits_to_apply earliest_allowed (hr_visits record) cur_visit_map;
                mret (if guid_changed || negb (bool_decide (to_apply = []))
                      then Apply url (Some (hr_title record)) to_apply else Reconciled)
            end
        end
  end.

(** ** storage/history.rs: applying a plan *)
(** [UPDATE moz_places SET guid = :new_guid WHERE id = :row_id]. *)
Definition update_guid (row_id : Z) (guid : string) : DB unit :=
  d ← db_get;
  if bool_decide (map_Forall (λ id p, p_guid p = guid → id = row_id) (moz_places d))
  then update_places (λ id _, id =? row_id) (p_set_guid guid)
  else st_err (PSqlError "UNIQUE constraint failed: moz_places.guid").

Fixpoint add_synced_visits (page_id : Z) (visits : list HistoryRecordVisit) (visits_to_skip : gset Z) : DB unit :=
  match visits with
  | [] => mret tt
  | visit :: visits =>
      let timestamp := Timestamp_from_server_visit (hrv_date visit) in
      if bool_decide (timestamp ∈ visits_to_skip) then add_synced_visits page_id visits visits_to_skip
      else
        transition ← st_lift (match VisitTransition.from_primitive (hrv_transition visit) with
                              | Some t => Ok t
                              | None => Panic "these should already be validated" end);
        _ ← add_visit page_id None timestamp transition false;
        add_synced_visits page_id visits (visits_to_skip ∪ {[timestamp]})
  end.

(** The dates among some at which the page has a visit or the tombstone of one. *)
Definition dates_to_skip (d : PlacesDb) (page_id : Z) (dates : list Z) : gset Z :=
  list_to_set (ts_of_sql <$> List.filter (λ t, bool_decide (t ∈ dates))
    ((snd <$> List.filter (λ '(p, _), p =? page_id) (elements (moz_historyvisit_tombstones d))) ++
     ((λ '(_, v), v_visit_date v) <$> select (λ v, v_place_id v =? page_id) (moz_historyvisits d)))).

(** The page to apply visits to, and the increment of its counter; none if there is nothing to
    do.  (The guid of the page is not used after this.) *)
Definition page_for_visits (incoming_guid : string) (url : Url) (visits : list HistoryRecordVisit) : DB (option (PageInfo * Z)) :=
  info ← fetch_page_info url;
  match info with
  | Some info =>
      let page := page info in
      if String.eqb (pi_guid page) incoming_guid then mret (Some (page, 0))
      else
        _ ← (if bool_decide (pi_sync_status page = SNew) then update_guid (pi_row_id page) incoming_guid else mret tt);
        mret (Some (page, 1))
  | None =>
      if bool_decide (visits = []) then mret None
      else page ← new_page_info url (Some incoming_guid); mret (Some (page, 0))
  end.

Definition apply_synced_visits (incoming_guid : string) (url : Url) (title : option string) (visits : list HistoryRecordVisit)
    : DB unit :=
  mark ← get_meta_timestamp DELETION_HIGH_WATER_MARK_META_KEY;
  let visits := List.filter (λ v, default 0 mark <? Timestamp_from_server_visit (hrv_date v)) visits in
  found ← page_for_visits incoming_guid url visits;
  match found with
  | None => mret tt
  | Some (page_info, counter_incr) =>
      d ← db_get;
      _ ← (if bool_decide (visits = []) then mret tt
           else add_synced_visits (pi_row_id page_info) visits
                  (dates_to_skip d (pi_row_id page_info) ((λ v, Timestamp_from_server_visit (hrv_date v)) <$> visits)));
      _ ← update_frecency checks (pi_row_id page_info) None;
      let new_title := default (pi_title page_info) title in
      counter ← st_lift (uadd checks 32 (pi_sync_change_counter page_info) counter_incr);
      update_places (λ id _, id =? pi_row_id page_info)
        (λ p, p_set_sync (SyncStatus.as_u8 SNormal) counter (p_set_title (Some new_title) p))
  end.

Definition apply_synced_reconciliation (guid : string) : DB unit :=
  update_places (λ _ p, String.eqb (p_guid p) guid) (p_set_sync (SyncStatus.as_u8 SNormal) 0).
Definition apply_synced_deletion (guid : string) : DB unit := delete_places (λ _ p, String.eqb (p_guid p) guid).

(** ** storage/history.rs: outgoing changes *)
Definition record_visit_from_row (v : VisitRow) : res PlacesError HistoryRecordVisit :=
  date ← ServerVisitTimestamp_from checks (ts_of_sql (v_visit_date v));
  transition ← get_u8 (v_visit_type v);
  Ok (mkHistoryRecordVisit date transition).

(** [INSERT INTO temp_sync_updated_meta VALUES (:row_id, :change_delta)]. *)
Definition insert_sync_meta (row_id change_delta : Z) : DB unit :=
  d ← db_get;
  match temp_sync_updated_meta d !! row_id with
  | Some _ => st_err (PSqlError "UNIQUE constraint failed: temp_sync_updated_meta.id")
  | None => db_modify (on_sync_meta <[row_id := change_delta]>)
  end.

Fixpoint outgoing_records (max_visits : nat) (pages : list PageInfo) (result : gmap string OutgoingInfo) (ids_to_update : list Z)
    : DB (gmap string OutgoingInfo * list Z) :=
  match pages with
  | [] => mret (result, ids_to_update)
  | page :: pages =>
      d ← db_get;
      visits ← st_lift (mapM (λ '(_, v), record_visit_from_row v)
                 (take max_visits (merge_sort later_first (select (λ v, v_place_id v =? pi_row_id page) (moz_historyvisits d)))));
      if is_some (result !! pi_guid page) || bool_decide (visits = [])
      then outgoing_records max_visits pages result ids_to_update
      else
        _ ← insert_sync_meta (pi_row_id page) (pi_sync_change_counter page);
        outgoing_records max_visits pages
          (<[pi_guid page := OutRecord (mkHistoryRecord (pi_guid page) (pi_title page) (url_as_str (pi_url page)) visits
                                          (pi_frecency page) HISTORY_TTL)]> result)
          (ids_to_update ++ [pi_row_id page])
  end.

(** [sync_change_counter > 0 OR sync_status != Normal]. *)
Definition needs_upload (p : PlaceRow) : bool :=
  (0 <? p_sync_change_counter p) || negb (p_sync_status p =? SyncStatus.as_u8 SNormal).

Definition outgoing_tombstones (d : PlacesDb) (max_places : nat) : gmap string OutgoingInfo :=
  list_to_map ((λ guid, (guid, OutTombstone)) <$> take max_places (merge_sort str_le (elements (moz_places_tombstones d)))).

(** [temp_sync_updated_meta] is created on demand in the source ([CREATE TEMP TABLE IF NOT EXISTS]);
    here it is always there, empty at first.  Rows that an unfinished sync of the connection left
    in it stay, and make the insertion of the same page fail. *)
Definition fetch_outgoing (max_places max_visits : nat) : DB (gmap string OutgoingInfo) :=
  d ← db_get;
  let result := outgoing_tombstones d max_places in
  let max_places_left := (max_places - size result)%nat in
  pages ← st_lift (mapM (λ '(id, p), PageInfo_from_row id p)
             (take max_places_left (merge_sort more_frecent (select needs_upload (moz_places d)))));
  '(result, ids_to_update) ← outgoing_records max_visits pages result [];
  _ ← each_sized_chunk ids_to_update max_variable_number (λ chunk _,
        update_places (λ id _, bool_decide (id ∈ chunk)) (λ p, p_set_sync (SyncStatus.as_u8 SNormal) (p_sync_change_counter p) p));
  mret result.

Definition finish_outgoing : DB unit :=
  d ← db_get;
  let meta := temp_sync_updated_meta d in
  _ ← db_modify (on_places (map_imap (λ id p,
        Some match meta !! id with
             | Some change_delta => p_set_sync (p_sync_status p) (p_sync_change_counter p - change_delta) p
             | None => p
             end)));
  _ ← update_places (λ id _, negb (is_some (meta !! id))) (p_set_sync (SyncStatus.as_u8 SNormal) 0);
  _ ← db_modify (on_sync_meta (λ _, ∅));
  db_modify (on_places_tombstones (λ _, ∅)).

Definition reset_storage : DB unit := update_places (λ _ _, true) (p_set_sync (SyncStatus.as_u8 SNew) 0).

(** ** plan.rs: apply_plan *)
Fixpoint make_plans (changes : list (Payload * ServerTimestamp)) : DB (list (string * IncomingPlan)) :=
  match changes with
  | [] => mret []
  | (payload, _) :: changes =>
      _ ← check_interrupted;
      match from_payload payload with
      | Panic m => st_lift (Panic m)
      | Err _ => make_plans changes
      | Ok item =>
          plan ← match hs_record item with
                 | Some record => plan_incoming_record record MAX_VISITS
                 | None => mret PDelete
                 end;
          plans ← make_plans changes;
          mret ((hs_guid item, plan) :: plans)
      end
  end.

Definition apply_one (guid : string) (plan : IncomingPlan) : DB unit :=
  match plan with
  | Skip | Invalid _ | Failed _ => mret tt
  | PDelete => apply_synced_deletion guid
  | Apply url new_title visits => apply_synced_visits guid url new_title visits
  | Reconciled => apply_synced_reconciliation guid
  end.

(** A failure rolls back to the last commit. *)
Definition rollback_to {A} (saved : PlacesDb) (c : DB A) : DB A := λ s,
  match c s with
  | (Ok a, s) => (Ok a, s)
  | (Err e, (_, w)) => (Err e, (saved, w))
  | (Panic m, (_, w)) => (Panic m, (saved, w))
  end.
Definition maybe_commit (saved : PlacesDb) : DB PlacesDb := λ '(d, w),
  let '(due, w) := commit_due w in (Ok (if due then d else saved), (d, w)).

Fixpoint apply_plans (saved : PlacesDb) (plans : list (string * IncomingPlan)) : DB unit :=
  match plans with
  | [] => rollback_to saved finish_incoming
  | (guid, plan) :: plans =>
      _ ← rollback_to saved check_interrupted;
      saved ← maybe_commit saved;
      _ ← rollback_to saved (apply_one guid plan);
      apply_plans saved plans
  end.

Definition outgoing_payload (guid : string) (out_record : OutgoingInfo) : res PlacesError Payload :=
  match out_record with
  | OutRecord record => map_err PSyncAdapterError (Payload.from_record record)
  | OutTombstone => Ok (Payload.new_tombstone_with_ttl guid HISTORY_TTL)
  end.

Definition apply_plan (inbound : IncomingChangeset) : DB OutgoingChangeset :=
  plans ← make_plans (rc_changes inbound);
  d ← db_get;
  _ ← apply_plans d plans;
  changes ← transaction (
    out_infos ← fetch_outgoing MAX_OUTGOING_PLACES MAX_VISITS;
    st_lift (mapM (λ '(guid, out_record), outgoing_payload guid out_record) (drain out_infos)));
  mret (mkRecordChangeset changes (rc_timestamp inbound) "history").

Definition finish_plan : DB unit := transaction finish_outgoing.

(** ** store.rs *)
Definition LAST_SYNC_META_KEY : string := "history_last_sync_time".
Definition GLOBAL_SYNCID_META_KEY : string := "history_global_sync_id".
Definition COLLECTION_SYNCID_META_KEY : string := "history_sync_id".
Definition GLOBAL_STATE_META_KEY : string := "global_sync_state_v2".

(** [get_meta::<i64>] and [get_meta::<String>]. *)
Definition get_meta_integer (key : string) : DB (option Z) :=
  v ← get_meta key;
  st_lift match v with None => Ok None | Some (MInteger z) => Ok (Some z) | Some (MText _) => sql_err "Invalid column type Text" end.
Definition get_meta_text (key : string) : DB (option string) :=
  v ← get_meta key;
  st_lift match v with None => Ok None | Some (MText s) => Ok (Some s) | Some (MInteger _) => sql_err "Invalid column type Integer" end.

Definition do_apply_incoming (inbound : IncomingChangeset) : DB OutgoingChangeset :=
  outgoing ← apply_plan inbound;
  _ ← put_meta LAST_SYNC_META_KEY (MInteger (millis_i64 (rc_timestamp inbound)));
  mret outgoing.

Definition do_sync_finished (new_timestamp : ServerTimestamp) (records_synced : list string) : DB unit :=
  _ ← finish_plan;
  put_meta LAST_SYNC_META_KEY (MInteger (millis_i64 new_timestamp)).

Definition do_reset (assoc : StoreSyncAssociation) : DB unit :=
  transaction (
    _ ← reset_storage;
    _ ← put_meta LAST_SYNC_META_KEY (MInteger 0);
    match assoc with
    | Disconnected => _ ← delete_meta GLOBAL_SYNCID_META_KEY; delete_meta COLLECTION_SYNCID_META_KEY
    | Connected ids =>
        _ ← put_meta GLOBAL_SYNCID_META_KEY (MText (cs_global ids));
        put_meta COLLECTION_SYNCID_META_KEY (MText (cs_coll ids))
    end).

Definition get_collection_request_db : DB CollectionRequest :=
  millis ← get_meta_integer LAST_SYNC_META_KEY;
  let since := default ts_default (timestamp_of_millis <$> millis) in
  mret (CollectionRequest.limit MAX_INCOMING_PLACES
          (CollectionRequest.newer_than since (CollectionRequest.full (CollectionRequest.new "history")))).

Definition get_sync_assoc_db : DB StoreSyncAssociation :=
  global ← get_meta_text GLOBAL_SYNCID_META_KEY;
  coll ← get_meta_text COLLECTION_SYNCID_META_KEY;
  mret (match global, coll with
        | Some global, Some coll => Connected (mkCollSyncIds global coll)
        | _, _ => Disconnected
        end).

Definition migrate_v1_global_state {V} `{!JsonAccess V, !MetaGlobalFromStr, !PgsSerde} : DB unit :=
  old_state ← get_meta_text "history_global_state";
  match old_state with
  | None => mret tt
  | Some old_state =>
      transaction (
        '(new_sync_ids, new_global_state) ←
          st_lift (match extract_v1_state (V:=V) (Some old_state) "history" with
                   | Ok r => Ok r | Err e => match e with end | Panic m => Panic m end);
        _ ← match new_sync_ids with
            | Some sync_ids =>
                _ ← put_meta GLOBAL_SYNCID_META_KEY (MText (cs_global sync_ids));
                put_meta COLLECTION_SYNCID_META_KEY (MText (cs_coll sync_ids))
            | None => mret tt
            end;
        _ ← match new_global_state with
            | Some new_global_state => put_meta GLOBAL_STATE_META_KEY (MText new_global_state)
            | None => mret tt
            end;
        delete_meta "history_global_state")
  end.

(** The [?] of the methods turns an error into a [failure::Error], here its text. *)
Context (display : PlacesError → string).

Definition history_store : Store (PlacesDb * W) := {|
  collection_name := "history";
  apply_incoming inbound := st_map_err display (do_apply_incoming inbound);
  sync_finished new_timestamp records_synced := st_map_err display (do_sync_finished new_timestamp records_synced);
  get_collection_request := st_map_err display get_collection_request_db;
  get_sync_assoc := st_map_err display get_sync_assoc_db;
  CollState.reset assoc := st_map_err display (do_reset assoc);
  CollState.wipe := mret tt;
|}.
End sync.
