(* ===== verification/HistorySyncSpec.v ===== *)
(** * Places: what a sync does to history

    The visits that a sync adds are those of the server that are not known, not deleted, and
    later than the high-water mark; what is uploaded is what changed. *)

From S2P Require Import Prelude Database Sync15Types KeyBundle Bso State CollState Viaduct Token Client PlacesTypes PlacesDb Bookmarks BookmarksSpec Frecency History HistorySpec HistoryOps HistorySync.
From Stdlib Require Import Ascii String.
From stdpp Require Import sorting strings list gmap fin_sets.
Local Open Scope Z_scope.
Local Open Scope list_scope.

(** ** Changes of columns of pages *)
Definition on_pages (sel : Z → Page → bool) (g : Page → Page) (h : Hist) : Hist :=
  mkHist (map_imap (λ id pg, Some (if sel id pg then g pg else pg)) (h_pages h)) (h_visits h) (h_vtombs h) (h_ptombs h)
    (h_bookmarks h) (h_mark h).
Lemma on_pages_lookup sel g h id :
  h_pages (on_pages sel g h) !! id = (λ pg, if sel id pg then g pg else pg) <$> h_pages h !! id.
Proof. cbn. rewrite map_lookup_imap. by destruct (h_pages h !! id). Qed.

(** Guids stay distinct. *)
Definition renames (sel : Z → Page → bool) (g : Page → Page) (h : Hist) : Prop :=
  ∀ i p j q, h_pages (on_pages sel g h) !! i = Some p → h_pages (on_pages sel g h) !! j = Some q → pg_guid p = pg_guid q → i = j.
Lemma on_pages_wf sel g h :
  (∀ pg, pg_url (g pg) = pg_url pg ∧ pg_hash (g pg) = pg_hash pg) → renames sel g h → hist_wf h → hist_wf (on_pages sel g h).
Proof.
  intros Hg Hr Hwf. assert (Hl : ∀ id pg, h_pages (on_pages sel g h) !! id = Some pg →
    ∃ q, h_pages h !! id = Some q ∧ pg_url pg = pg_url q ∧ pg_hash pg = pg_hash q).
  { intros id pg Hp. rewrite on_pages_lookup in Hp. apply fmap_Some in Hp as (q & Hq & ->). exists q. split; [done|].
    destruct (sel id q); [apply Hg|done]. }
  assert (Hsome : ∀ id, is_Some (h_pages h !! id) → is_Some (h_pages (on_pages sel g h) !! id)).
  { intros id [pg Hp]. rewrite on_pages_lookup, Hp. by eexists. }
  split.
  - intros id pg (q & Hq & -> & ->)%Hl. by apply (wf_page h Hwf).
  - intros i p j q (p' & Hp & -> & _)%Hl (q' & Hq & -> & _)%Hl. by apply (wf_url h Hwf).
  - exact Hr.
  - intros i v Hv. destruct (wf_visit h Hwf i v Hv) as [? ?]. auto.
  - intros id t Ht. apply Hsome. by eapply (wf_vtomb h Hwf).
Qed.
Lemma renames_same sel g h : (∀ pg, pg_guid (g pg) = pg_guid pg) → hist_wf h → renames sel g h.
Proof.
  intros Hg Hwf i p j q Hp Hq Heq. rewrite on_pages_lookup in Hp, Hq. apply fmap_Some in Hp as (p' & Hp & ->), Hq as (q' & Hq & ->).
  eapply (wf_guid h Hwf); [done..|]. by destruct (sel i p'), (sel j q'); rewrite ?Hg in Heq.
Qed.

Lemma pages_updated sel' sel f g d :
  hist_pre d → agree d sel' sel → (∀ p, page_of (f p) = g (page_of p) ∧ stats_of (f p) = stats_of p) →
  hist_wf (on_pages sel g (abs d)) →
  let d' := on_places (map_imap (λ id p, Some (if sel' id p : bool then f p else p))) d in
  hist_pre d' ∧ abs d' = on_pages sel g (abs d).
Proof.
  intros [Hwf Hs] Hsel Hf Hwf' d'.
  assert (Habs : abs d' = on_pages sel g (abs d)).
  { unfold abs, on_pages. cbn. f_equal. apply map_eq. intros i. rewrite lookup_fmap, !map_lookup_imap, lookup_fmap.
    destruct (moz_places d !! i) as [p|] eqn:Hp; [|done]. cbn. rewrite (Hsel i p Hp). by destruct (sel i (page_of p)); cbn; rewrite ?(proj1 (Hf p)). }
  split; [|exact Habs]. split; [by rewrite Habs|].
  intros i q. cbn. rewrite map_lookup_imap. destruct (moz_places d !! i) as [p|] eqn:Hp; [|done]. cbn. intros [= <-].
  destruct (sel' i p); [|by apply Hs]. eapply page_ok_stats; [apply Hf|by apply Hs].
Qed.

(** ** Deleted history does not come back *)
Definition no_return (h h' : Hist) : Prop :=
  h_mark h' = h_mark h ∧
  ∀ i v, h_visits h' !! i = Some v → h_visits h !! i = Some v ∨ (mark_of h < v_visit_date v ∧ v_is_local v = false).
Global Instance no_return_preorder : PreOrder no_return.
Proof.
  split; [by split; [|auto]|]. intros h1 h2 h3 [Hm1 H1] [Hm2 H2]. split; [congruence|]. intros i v Hv.
  destruct (H2 i v Hv) as [Hv2|[Hlt Hr]]; [by apply H1|]. right. split; [|done]. unfold mark_of in *. by rewrite <-Hm1.
Qed.
Lemma no_return_subset h h' :
  h_mark h' = h_mark h → (∀ i v, h_visits h' !! i = Some v → h_visits h !! i = Some v) → no_return h h'.
Proof. intros Hm Hv. split; [done|]. intros i v Hi. left. by apply Hv. Qed.

Lemma from_primitive_inv z t : VisitTransition.from_primitive z = Some t → z = VisitTransition.as_u8 t.
Proof.
  unfold VisitTransition.from_primitive.
  repeat (match goal with |- match ?x with _ => _ end = _ → _ => destruct x; try done end); by intros [= <-].
Qed.

Section sync.
Context {W : Type} `{!UrlLib, !Interruptee W, !Clock W, !Rand W, !UrlSafeBase64, !CommitTimer W}.
Context (checks : bool) (max_variable_number : nat).

Lemma update_places_pages sel' sel f g d :
  hist_pre d → agree d sel' sel → (∀ p, page_of (f p) = g (page_of p) ∧ stats_of (f p) = stats_of p) →
  hist_wf (on_pages sel g (abs d)) →
  refines (W:=W) (update_places sel' f) d (λ _ h, h = on_pages sel g (abs d)).
Proof. intros Hpre Hsel Hf Hwf. apply ok_post_modify. by apply pages_updated. Qed.

(** *** The page of an incoming record *)
Definition set_guid (g : string) (pg : Page) : Page := mkPage (pg_url pg) g (pg_hash pg) (pg_foreign pg) (pg_status pg).
Definition set_status (s : Z) (pg : Page) : Page := mkPage (pg_url pg) (pg_guid pg) (pg_hash pg) (pg_foreign pg) s.

Definition synced_page (u g : string) (pid : Z) (h h1 : Hist) : Prop :=
  (∃ pg, h_pages h !! pid = Some pg ∧ pg_url pg = u ∧
     (h1 = h ∨ (pg_status pg = SyncStatus.as_u8 SNew ∧ h1 = on_pages (λ id _, id =? pid) (set_guid g) h))) ∨
  (∃ hash, let pg := mkPage u g hash 0 (SyncStatus.as_u8 SNew) in fresh_page pid pg h ∧ h1 = new_page pid pg h).

Lemma synced_page_frame u g pid h h1 :
  synced_page u g pid h h1 → h_visits h1 = h_visits h ∧ h_vtombs h1 = h_vtombs h ∧ h_mark h1 = h_mark h ∧
  ∃ pg, h_pages h1 !! pid = Some pg ∧ pg_url pg = u.
Proof.
  intros [(pg & Hp & Hu & [->|[_ ->]])|(hash & _ & ->)]; split_and!; try done.
  - eauto.
  - exists (set_guid g pg). by rewrite on_pages_lookup, Hp, Z.eqb_refl.
  - cbn. rewrite lookup_insert_eq. by eexists.
Qed.

(** All pages but the one of the URL [u] are as they were, and there are no others; that page
    keeps its references, and it may get the guid [g] and the status of a page the server knows. *)
Definition pages_merged (u g : string) (h h' : Hist) : Prop :=
  (∀ id pg, pg_url pg ≠ u → h_pages h' !! id = Some pg ↔ h_pages h !! id = Some pg) ∧
  (∀ id pg, h_pages h !! id = Some pg → pg_url pg = u →
     ∃ pg', h_pages h' !! id = Some pg' ∧ pg_url pg' = u ∧ pg_foreign pg' = pg_foreign pg ∧
       (pg_guid pg' = pg_guid pg ∨ pg_guid pg' = g) ∧ (pg' = pg ∨ pg_status pg' = SyncStatus.as_u8 SNormal)).

Lemma synced_page_url u g pid h h1 :
  synced_page u g pid h h1 → hist_wf h →
  (∀ id, id ≠ pid → h_pages h1 !! id = h_pages h !! id) ∧
  (∀ pg, h_pages h !! pid = Some pg → pg_url pg = u ∧
     ∃ pg1, h_pages h1 !! pid = Some pg1 ∧ pg_url pg1 = u ∧ pg_foreign pg1 = pg_foreign pg ∧ (pg_guid pg1 = pg_guid pg ∨ pg_guid pg1 = g)) ∧
  (∀ id pg, h_pages h !! id = Some pg → pg_url pg = u → id = pid).
Proof.
  intros [(pg & Hp & Hu & Hh)|(hash & (Hnone & _ & _ & Hne) & ->)] Hwf.
  - split_and!.
    + intros id Hid. destruct Hh as [->|[_ ->]]; [done|]. rewrite on_pages_lookup. destruct (Z.eqb_spec id pid); [done|].
      by destruct (h_pages h !! id).
    + intros pg' Hp'. rewrite Hp in Hp'. injection Hp' as <-. split; [done|]. destruct Hh as [->|[_ ->]]; [exists pg; auto|].
      exists (set_guid g pg). rewrite on_pages_lookup, Hp, Z.eqb_refl. cbn. auto.
    + intros id pg' Hp' Hu'. eapply (wf_url h Hwf); [exact Hp'|exact Hp|congruence].
  - split_and!.
    + intros id Hid. cbn. by rewrite lookup_insert_ne.
    + intros pg Hp. congruence.
    + intros id pg Hp Hu. by destruct (Hne id pg Hp).
Qed.
Lemma synced_page_merged u g pid h h1 h2 :
  synced_page u g pid h h1 → hist_wf h → h_pages h2 = h_pages h1 →
  pages_merged u g h (on_pages (λ id _, id =? pid) (set_status (SyncStatus.as_u8 SNormal)) h2).
Proof.
  intros Hsp Hwf Heq. destruct (synced_page_url _ _ _ _ _ Hsp Hwf) as (Hother & Hpid & Honly).
  destruct (synced_page_frame _ _ _ _ _ Hsp) as (_ & _ & _ & pg1 & Hp1 & Hu1). split.
  - intros id pg Hne. rewrite on_pages_lookup, Heq. destruct (Z.eqb_spec id pid) as [->|Hid].
    + rewrite Hp1. split.
      * intros [= <-]. by destruct Hne.
      * intros Hp. by destruct (Hpid _ Hp).
    + rewrite (Hother id Hid). by destruct (h_pages h !! id).
  - intros id pg Hp Hu. pose proof (Honly id pg Hp Hu) as ->. destruct (Hpid _ Hp) as (_ & pg2 & Hp2 & Hu2 & Hf & Hg).
    exists (set_status (SyncStatus.as_u8 SNormal) pg2). rewrite on_pages_lookup, Heq, Hp2, Z.eqb_refl. cbn. auto 8.
Qed.

Lemma PageInfo_status id r info : PageInfo_from_row id r = Ok info → pi_sync_status info = SNew → p_sync_status r = SyncStatus.as_u8 SNew.
Proof.
  unfold PageInfo_from_row. intros Hi. bind_inv Hi. injection Hi as <-. cbn.
  match goal with Hs : get_u8 (p_sync_status r) = Ok _ |- _ => unfold get_u8 in Hs; destruct (_ && _); [injection Hs as <-|done] end.
  unfold SyncStatus.from_u8. destruct (Z.eqb_spec (p_sync_status r) 1); [done|]. by destruct (_ =? 2).
Qed.

Lemma fetch_page_info_status (u : Url) d :
  ok_post (W:=W) (fetch_page_info u) d (λ o _, ∀ i p, o = Some i → moz_places d !! pi_row_id (page i) = Some p →
    pi_sync_status (page i) = SNew → p_sync_status p = SyncStatus.as_u8 SNew).
Proof.
  unfold fetch_page_info. apply ok_post_bind, ok_post_lift. intros hash _. apply ok_post_bind, ok_post_get.
  destruct (select_first _ _) as [[id r]|] eqn:Hsel; [|by apply ok_post_ret].
  apply select_first_Some in Hsel as [Hr _]. apply ok_post_bind, ok_post_lift. intros info Hinfo. apply ok_post_ret.
  intros i p [= <-] Hp Hst. cbn in *. rewrite (PageInfo_row_id _ _ _ Hinfo) in Hp. rewrite Hr in Hp. injection Hp as <-.
  by eapply PageInfo_status.
Qed.

Lemma update_guid_refines pid g d :
  hist_pre d → is_Some (moz_places d !! pid) →
  refines (W:=W) (update_guid pid g) d (λ _ h, h = on_pages (λ id _, id =? pid) (set_guid g) (abs d)).
Proof.
  intros Hpre Hpid. unfold update_guid. apply refines_get. destruct (bool_decide _) eqn:Hu; [|apply ok_post_err].
  apply bool_decide_eq_true in Hu. apply update_places_pages; [done..|]. apply on_pages_wf; [done| |apply Hpre].
  assert (Hother : ∀ i q, h_pages (abs d) !! i = Some q → pg_guid q = g → i = pid).
  { intros i q Hq Hg. cbn in Hq. rewrite lookup_fmap in Hq. apply fmap_Some in Hq as (p & Hp & ->). by apply (Hu i p). }
  intros i p j q Hp Hq Heq. rewrite on_pages_lookup in Hp, Hq. apply fmap_Some in Hp as (p' & Hp & ->), Hq as (q' & Hq & ->).
  destruct (Z.eqb_spec i pid) as [->|], (Z.eqb_spec j pid) as [->|]; cbn in Heq; [done|..].
  - symmetry. by apply (Hother j q').
  - by apply (Hother i p').
  - by eapply (wf_guid _ (proj1 Hpre)).
Qed.

Lemma page_for_visits_refines g u visits d :
  hist_pre d →
  refines (W:=W) (page_for_visits g u visits) d (λ o h,
    match o with
    | None => visits = [] ∧ h = abs d
    | Some (info, _) => synced_page (url_as_str u) g (pi_row_id info) (abs d) h
    end).
Proof.
  intros Hpre. unfold page_for_visits. apply ok_post_bind.
  eapply ok_post_weaken; [apply ok_post_and; [by apply fetch_page_info_finds|apply fetch_page_info_status]|].
  intros o d' [[-> Ho] Hst]. destruct o as [i|].
  - destruct Ho as (p & Hp & Hu). cbn zeta.
    assert (Hpg : h_pages (abs d) !! pi_row_id (page i) = Some (page_of p)) by (cbn; by rewrite lookup_fmap, Hp).
    destruct (String.eqb _ _); [apply ok_post_ret; split; [done|]; left; exists (page_of p); auto|].
    destruct (bool_decide _) eqn:Hnew.
    + apply bool_decide_eq_true in Hnew. apply ok_post_bind. eapply ok_post_weaken; [apply update_guid_refines; [done|by eexists]|].
      intros [] d' [Hpre' Habs]. apply ok_post_ret. split; [done|]. left. exists (page_of p). split; [done|]. split; [done|]. right.
      split; [by apply (Hst i p)|done].
    + apply ok_post_bind, ok_post_ret, ok_post_ret. split; [done|]. left. exists (page_of p). auto.
  - destruct (bool_decide _) eqn:Hv; [apply ok_post_ret; split; [done|]; by apply bool_decide_eq_true in Hv|].
    apply ok_post_bind. eapply ok_post_weaken; [by apply new_page_info_refines|]. intros info d' [Hpre' (g' & hash & Hg & Hf & Habs)].
    apply ok_post_ret. split; [done|]. right. rewrite (Hg g eq_refl) in Hf, Habs. by exists hash.
Qed.

(** *** The visits of an incoming record *)
Definition ms (v : HistoryRecordVisit) : Z := Timestamp_from_server_visit (hrv_date v).

(** What adding visits to a page does, but for those at some dates. *)
Record adds (pid : Z) (visits : list HistoryRecordVisit) (skip : gset Z) (h h' : Hist) : Prop := {
  adds_frame : h_pages h' = h_pages h ∧ h_vtombs h' = h_vtombs h ∧ h_ptombs h' = h_ptombs h ∧ h_mark h' = h_mark h;
  adds_old i v : h_visits h !! i = Some v → h_visits h' !! i = Some v;
  adds_new i v : h_visits h' !! i = Some v → h_visits h !! i = Some v ∨
    (v_is_local v = false ∧ v_place_id v = pid ∧ v_visit_date v ∉ skip ∧
     ∃ w, w ∈ visits ∧ v_visit_date v = ms w ∧ v_visit_type v = hrv_transition w);
  adds_all w : w ∈ visits → ms w ∉ skip → ∃ i v, h_visits h' !! i = Some v ∧ v_place_id v = pid ∧ v_visit_date v = ms w;
  adds_once i j v v' : h_visits h' !! i = Some v → h_visits h' !! j = Some v' → h_visits h !! i = None → h_visits h !! j = None →
    v_visit_date v = v_visit_date v' → i = j;
}.

Lemma adds_nil pid skip h : adds pid [] skip h h.
Proof.
  split; [done..| | |].
  - intros i v Hv. by left.
  - intros w Hw. by apply not_elem_of_nil in Hw.
  - intros i j v v' Hi _ Hni. congruence.
Qed.
Lemma adds_skip pid w visits skip h h' : ms w ∈ skip → adds pid visits skip h h' → adds pid (w :: visits) skip h h'.
Proof.
  intros Hskip [Hf Ho Hn Ha H1]. split; [done..| | |done].
  - intros i v Hv. destruct (Hn i v Hv) as [?|(? & ? & ? & w' & Hw & ?)]; [by left|right]. split_and!; try done. exists w'. split; [by right|done].
  - intros w' [->|Hw]%elem_of_cons; [done|by apply Ha].
Qed.
Lemma adds_cons pid w visits skip rid t h h' :
  h_visits h !! rid = None → ms w ∉ skip → (pid, ms w) ∉ h_vtombs h → hrv_transition w = VisitTransition.as_u8 t →
  adds pid visits (skip ∪ {[ms w]}) (record_visit rid (mkVisitRow false None pid (ms w) (VisitTransition.as_u8 t)) h) h' →
  adds pid (w :: visits) skip h h'.
Proof.
  set (v0 := mkVisitRow _ _ _ _ _). intros Hrid Hskip Htomb Ht [(Hp & Hv & Hpt & Hm) Ho Hn Ha H1].
  assert (Hv0 : h_visits h' !! rid = Some v0) by (apply Ho; cbn; by rewrite lookup_insert_eq).
  assert (Hnew : ∀ i v, h_visits h' !! i = Some v → h_visits h !! i = None →
    (i = rid ∧ v = v0) ∨ (i ≠ rid ∧ v_visit_date v ∉ skip ∪ {[ms w]} ∧ h_visits (record_visit rid v0 h) !! i = None)).
  { intros i v Hi Hnone. destruct (decide (i = rid)) as [->|Hne]; [left; split; [done|congruence]|]. right. cbn.
    rewrite lookup_insert_ne by done. destruct (Hn i v Hi) as [Hr|(? & ? & ? & ?)]; [|done].
    cbn in Hr. rewrite lookup_insert_ne in Hr by done. congruence. }
  split.
  - split_and!; [done| |done..]. rewrite Hv. cbn. set_solver.
  - intros i v Hi. apply Ho. cbn. rewrite lookup_insert_ne; [done|]. congruence.
  - intros i v Hi. destruct (Hn i v Hi) as [Hr|(? & ? & ? & w' & Hw & ? & ?)].
    + cbn in Hr. apply lookup_insert_Some in Hr as [[<- <-]|[_ ?]]; [right|by left]. cbn. split_and!; try done. exists w. split; [left|by rewrite Ht].
    + right. split_and!; try done; [set_solver|]. exists w'. split; [by right|done].
  - intros w' [->|Hw]%elem_of_cons Hs; [by exists rid, v0|]. destruct (decide (ms w' = ms w)) as [->|Hne]; [by exists rid, v0|].
    apply Ha; [done|set_solver].
  - intros i j v v' Hi Hj Hni Hnj Hd.
    destruct (Hnew i v Hi Hni) as [[-> ->]|(Hnei & Hsi & Hri)], (Hnew j v' Hj Hnj) as [[-> ->]|(Hnej & Hsj & Hrj)]; [done|..].
    + rewrite <-Hd in Hsj. set_solver.
    + rewrite Hd in Hsi. set_solver.
    + by apply (H1 i j v v').
Qed.

Lemma add_synced_visits_refines pid visits : ∀ skip d,
  hist_pre d → Forall (λ w, date_ok (ms w)) visits →
  (∀ w, w ∈ visits → (pid, ms w) ∈ h_vtombs (abs d) → ms w ∈ skip) →
  refines (W:=W) (add_synced_visits pid visits skip) d (λ _ h, adds pid visits skip (abs d) h).
Proof.
  induction visits as [|w visits IH]; intros skip d Hpre Hdates Hskip; cbn [add_synced_visits].
  { apply refines_ret; [done|]. apply adds_nil. }
  apply Forall_cons in Hdates as [Hdate Hdates]. fold (ms w).
  destruct (bool_decide (ms w ∈ skip)) eqn:Hin.
  { apply bool_decide_eq_true in Hin. eapply refines_weaken; [apply IH; [done..|]|].
    - intros w' Hw'. apply Hskip. by right.
    - intros [] h _. by apply adds_skip. }
  apply bool_decide_eq_false in Hin. apply refines_lift. intros t Ht.
  assert (Hty : hrv_transition w = VisitTransition.as_u8 t).
  { destruct (VisitTransition.from_primitive _) eqn:Hp; [|done]. injection Ht as ->. by apply from_primitive_inv. }
  assert (Hnt : (pid, ms w) ∉ h_vtombs (abs d)) by (intros Hc; apply Hin, Hskip; [left|done]).
  eapply refines_bind; [by apply add_visit_refines|]. intros rid d' Hpre' (Hpage & Hrid & _ & Habs).
  eapply refines_weaken; [apply IH; [done..|]|].
  - intros w' Hw' Ht'. rewrite Habs in Ht'. cbn in Ht'. apply elem_of_union_l, Hskip; [by right|set_solver].
  - intros [] h _ Hadds. rewrite Habs in Hadds. by eapply adds_cons.
Qed.

Definition visited_at (h : Hist) (pid t : Z) : Prop := ∃ i v, h_visits h !! i = Some v ∧ v_place_id v = pid ∧ v_visit_date v = t.
Lemma elem_of_dates_to_skip d pid dates t :
  Forall date_ok dates → t ∈ dates →
  t ∈ dates_to_skip d pid dates ↔ (pid, t) ∈ h_vtombs (abs d) ∨ visited_at (abs d) pid t.
Proof.
  intros Hdates Ht. rewrite Forall_forall in Hdates. unfold dates_to_skip. rewrite elem_of_list_to_set, list_elem_of_fmap.
  assert (Hrows : ∀ x, x ∈ (snd <$> List.filter (λ '(p, _), p =? pid) (elements (moz_historyvisit_tombstones d))) ++
     ((λ '(_, v), v_visit_date v) <$> select (λ v, v_place_id v =? pid) (moz_historyvisits d)) ↔
     (pid, x) ∈ h_vtombs (abs d) ∨ visited_at (abs d) pid x).
  { intros x. rewrite elem_of_app, !list_elem_of_fmap. f_equiv.
    - split.
      + intros ([p y] & -> & Hin). apply list_elem_of_In, filter_In in Hin as [Hin ->%Z.eqb_eq]. by apply list_elem_of_In, elem_of_elements in Hin.
      + intros Hin. exists (pid, x). split; [done|]. apply list_elem_of_In, filter_In. rewrite Z.eqb_refl. split; [|done].
        by apply list_elem_of_In, elem_of_elements.
    - split.
      + intros ([i v] & -> & [Hv Hp%Z.eqb_eq]%elem_of_select). by exists i, v.
      + intros (i & v & Hv & Hp & Hd). exists (i, v). split; [done|]. apply elem_of_select. by rewrite Hp, Z.eqb_refl. }
  split.
  - intros (x & -> & Hin). apply list_elem_of_In, filter_In in Hin as [Hin Hx%bool_decide_eq_true].
    rewrite (ts_of_sql_ok x) by auto. by apply Hrows, list_elem_of_In.
  - intros Hor. exists t. rewrite ts_of_sql_ok by auto. split; [done|]. apply list_elem_of_In, filter_In.
    split; [by apply list_elem_of_In, Hrows|by apply bool_decide_eq_true].
Qed.

(** The incoming visits that are later than the high-water mark. *)
Definition newer (h : Hist) (visits : list HistoryRecordVisit) : list HistoryRecordVisit := List.filter (λ w, mark_of h <? ms w) visits.
Lemma elem_of_newer h visits w : w ∈ newer h visits ↔ w ∈ visits ∧ mark_of h < ms w.
Proof. unfold newer. by rewrite list_elem_of_In, filter_In, <-list_elem_of_In, Z.ltb_lt. Qed.
Definition u64_dates (visits : list HistoryRecordVisit) : Prop := Forall (λ w, 0 ≤ hrv_date w < 2 ^ 64) visits.
Lemma mark_nonneg h : 0 ≤ mark_of h.
Proof. unfold mark_of. destruct (h_mark h) as [[]|]; [done| |done]. apply Z.mod_pos_bound. done. Qed.
Lemma newer_dates h visits : u64_dates visits → Forall (λ w, date_ok (ms w)) (newer h visits).
Proof.
  intros Hd. apply Forall_forall. intros w [Hw Hm]%elem_of_newer. unfold u64_dates in Hd. rewrite Forall_forall in Hd.
  specialize (Hd w Hw). pose proof (mark_nonneg h). unfold date_ok, ms, Timestamp_from_server_visit in *.
  split; [lia|]. apply Z.div_lt_upper_bound; lia.
Qed.

(** What is done to the history for an incoming record. *)
Definition merges (u g : string) (visits : list HistoryRecordVisit) (h h' : Hist) : Prop :=
  (newer h visits = [] ∧ h' = h) ∨
  ∃ pid skip h1 h2, synced_page u g pid h h1 ∧
    (∀ w, w ∈ newer h visits → ms w ∈ skip ↔ (pid, ms w) ∈ h_vtombs h ∨ visited_at h pid (ms w)) ∧
    adds pid (newer h visits) skip h1 h2 ∧ h' = on_pages (λ id _, id =? pid) (set_status (SyncStatus.as_u8 SNormal)) h2.

Lemma get_mark_refines d :
  ok_post (W:=W) (get_meta_timestamp DELETION_HIGH_WATER_MARK_META_KEY) d (λ m d', d' = d ∧ default 0 m = mark_of (abs d)).
Proof.
  unfold get_meta_timestamp. apply ok_post_bind, ok_post_bind, ok_post_get, ok_post_ret, ok_post_lift. unfold mark_of. cbn.
  intros m Hm. by destruct (moz_meta d !! _) as [[]|]; [|injection Hm as <-..].
Qed.

Lemma apply_synced_visits_refines g u title visits d :
  hist_pre d → u64_dates visits →
  refines (W:=W) (apply_synced_visits checks g u title visits) d (λ _ h, merges (url_as_str u) g visits (abs d) h).
Proof.
  intros Hpre Hdates. unfold apply_synced_visits. apply ok_post_bind. eapply ok_post_weaken; [apply get_mark_refines|].
  intros m d' [-> Hm]. cbn zeta. rewrite Hm.
  change (List.filter (λ v, mark_of (abs d) <? Timestamp_from_server_visit (hrv_date v)) visits) with (newer (abs d) visits). set (vs := newer (abs d) visits).
  apply (newer_dates (abs d)) in Hdates. fold vs in Hdates.
  apply ok_post_bind. eapply ok_post_weaken; [by apply page_for_visits_refines|]. intros o d1 [Hpre1 Ho].
  destruct o as [[info incr]|]; [|apply ok_post_ret; split; [done|]; left; by destruct Ho].
  destruct (synced_page_frame _ _ _ _ _ Ho) as (Hv1 & Ht1 & Hm1 & _).
  apply ok_post_bind, ok_post_get. set (skip := dates_to_skip d1 (pi_row_id info) _).
  assert (Hskip : ∀ w, w ∈ vs → ms w ∈ skip ↔ (pi_row_id info, ms w) ∈ h_vtombs (abs d) ∨ visited_at (abs d) (pi_row_id info) (ms w)).
  { intros w Hw. unfold skip. rewrite elem_of_dates_to_skip.
    - rewrite Ht1. unfold visited_at. by rewrite Hv1.
    - apply Forall_fmap. exact Hdates.
    - by apply list_elem_of_fmap_2. }
  eapply ok_post_bind, ok_post_weaken with (Q := λ _ e, hist_pre e ∧ adds (pi_row_id info) vs skip (abs d1) (abs e)).
  { assert (Hadd : refines (W:=W) (add_synced_visits (pi_row_id info) vs skip) d1 (λ _ h, adds (pi_row_id info) vs skip (abs d1) h)).
    { apply add_synced_visits_refines; [done..|]. intros w Hw Ht. apply Hskip; [done|]. left. by rewrite <-Ht1. }
    destruct (bool_decide (vs = [])) eqn:Hnil; [|exact Hadd]. apply bool_decide_eq_true in Hnil. apply ok_post_ret.
    split; [done|]. rewrite Hnil. apply adds_nil. }
  intros [] d2 [Hpre2 Hadds]. apply ok_post_bind. eapply ok_post_weaken; [by apply update_frecency_refines|].
  intros [] d3 [Hpre3 Hd3]. apply ok_post_bind, ok_post_lift. intros counter _.
  eapply ok_post_weaken; [apply (update_places_pages _ (λ id _, id =? pi_row_id info) _ (set_status (SyncStatus.as_u8 SNormal)));
    [done..|]|].
  { apply on_pages_wf; [done|by apply renames_same, Hpre3|apply Hpre3]. }
  intros [] d4 [Hpre4 Hd4]. split; [done|]. right. exists (pi_row_id info), skip, (abs d1), (abs d2).
  split_and!; [done..|]. by rewrite Hd4, Hd3.
Qed.

(** C17: the visits of an incoming record are merged into the page of its URL.  No visit is lost or
    changed; every new visit is a remote one of that page, is in the record, is later than the
    high-water mark of the last deletion of everything, was not deleted by the user, and is at a
    time at which the page had no visit; no two new visits are at the same time; and every visit
    of the record that is later than the mark is there afterwards, unless it was deleted.  Every
    other page stays as it was (URL, guid, references, sync status) and no other page is created;
    the page of the URL keeps its references, and at most its guid becomes that of the record and
    its status that of a synced page. *)
Theorem synced_visits_merge g u title visits d w d' w' :
  hist_ok d → u64_dates visits → apply_synced_visits (W:=W) checks g u title visits (d, w) = (Ok tt, (d', w')) →
  let h := abs d in let h' := abs d' in
  (∀ i v, h_visits h !! i = Some v → h_visits h' !! i = Some v) ∧
  (∀ i v, h_visits h' !! i = Some v → h_visits h !! i = None →
     page_is h' (url_as_str u) (v_place_id v) = true ∧ v_is_local v = false ∧
     (∃ x, x ∈ visits ∧ v_visit_date v = ms x ∧ v_visit_type v = hrv_transition x) ∧ mark_of h < v_visit_date v ∧
     (v_place_id v, v_visit_date v) ∉ h_vtombs h ∧ ¬ visited_at h (v_place_id v) (v_visit_date v)) ∧
  (∀ i j v v', h_visits h' !! i = Some v → h_visits h' !! j = Some v' → h_visits h !! i = None → h_visits h !! j = None →
     v_visit_date v = v_visit_date v' → i = j) ∧
  (∀ x, x ∈ visits → mark_of h < ms x →
     ∃ pid, page_is h' (url_as_str u) pid = true ∧ ((pid, ms x) ∈ h_vtombs h ∨ visited_at h' pid (ms x))) ∧
  pages_merged (url_as_str u) g h h'.
Proof.
  intros [Hpre _] Hdates Hrun. cbn zeta.
  destruct (apply_synced_visits_refines g u title visits d Hpre Hdates w tt d' w' Hrun) as [_ [[Hnil ->]|(pid & skip & h1 & h2 & Hpg & Hskip & Ha & ->)]].
  { split_and!; [done|congruence|congruence| |split; [done|]; intros id pg Hp Hu; exists pg; auto 6]. intros x Hx Hm. assert (Hin : x ∈ newer (abs d) visits) by (by apply elem_of_newer).
    rewrite Hnil in Hin. by apply not_elem_of_nil in Hin. }
  destruct (synced_page_frame _ _ _ _ _ Hpg) as (Hv & Ht & Hm & pg & Hp & Hu). destruct Ha as [(Hp2 & _) Ho Hn Hall H1].
  rewrite Hv in Ho, Hn, H1. change (h_visits (on_pages _ _ h2)) with (h_visits h2).
  assert (Hpage : page_is (on_pages (λ id _, id =? pid) (set_status (SyncStatus.as_u8 SNormal)) h2) (url_as_str u) pid = true).
  { unfold page_is. rewrite on_pages_lookup, Hp2, Hp, Z.eqb_refl. cbn. rewrite Hu. apply String.eqb_refl. }
  split_and!; [exact Ho| |exact H1| |apply (synced_page_merged _ _ _ _ h1); [done|apply Hpre|done]].
  - intros i v Hi Hnone. destruct (Hn i v Hi) as [?|(Hloc & -> & Hns & x & Hx & Hd & Hty)]; [congruence|].
    rewrite Hd in Hns |- *. apply Hskip in Hx as Hs. apply elem_of_newer in Hx as [Hx Hlt].
    split_and!; try done; [by exists x|naive_solver..].
  - intros x Hx Hlt. exists pid. split; [done|]. assert (Hin : x ∈ newer (abs d) visits) by (by apply elem_of_newer).
    destruct (decide (ms x ∈ skip)) as [Hs|Hs]; [|right; by apply Hall].
    apply Hskip in Hs as [Hs|(i & v & Hi & Hv' & Hd')]; [by left| |done]. right. exists i, v. auto.
Qed.
End sync.

(** A call in a sequence succeeds or ends the sequence. *)
Lemma st_bind_cases {S E A B} (c : ST S E A) (k : A → ST S E B) s r s' :
  (c ≫= k) s = (r, s') → (∃ a s1, c s = (Ok a, s1) ∧ k a s1 = (r, s')) ∨ (∃ r1, c s = (r1, s') ∧ is_ok r1 = false).
Proof.
  unfold mbind, ST_bind. destruct (c s) as [[a|e|m] s1]; [intros Hk; left; eauto|intros [= <- <-]; right; by eexists..].
Qed.

(** ** The plans *)
Lemma umul_range {E} checks w a b x : 0 ≤ w → umul (E:=E) checks w a b = Ok x → 0 ≤ x < 2 ^ w.
Proof. intros Hw. unfold umul. destruct (checks && _); [done|]. intros [= <-]. apply wrap_fits. done. Qed.

Definition plan_ok `{!UrlLib} (plan : IncomingPlan) : Prop := match plan with Apply _ _ visits => u64_dates visits | _ => True end.

Section plans.
Context {W : Type} `{!UrlLib, !Interruptee W, !Clock W, !Rand W, !UrlSafeBase64, !CommitTimer W}.
Context `{!SerdeJson, !Serde HistoryRecord, !Serde Payload}.
Context (checks : bool) (max_variable_number : nat).
Abbreviation DB := (ST (PlacesDb * W) PlacesError).

Lemma reads_match_res {A B} (r : res PlacesError A) (f : A → DB B) (g : PlacesError → DB B) :
  (∀ a, reads (f a)) → (∀ e, reads (g e)) → reads (match r with Ok a => f a | Err e => g e | Panic m => st_lift (Panic m) end).
Proof. intros Hf Hg. by destruct r. Qed.
Lemma reads_catch {A} (c : DB A) : reads c → reads (st_catch c).
Proof. intros Hc d w. specialize (Hc d w). unfold st_catch. by destruct (c (d, w)) as [[] []]. Qed.
Lemma reads_clamp t : reads (W:=W) (clamp_visit_date t).
Proof. apply reads_bind; [apply reads_world|]. intros n. apply reads_ret. Qed.
Lemma reads_cur_visits visits : ∀ s, reads (W:=W) (cur_visits visits s).
Proof.
  induction visits as [|v visits IH]; intros s; cbn [cur_visits]; [apply reads_ret|]. destruct (fv_visit_type v); [|apply IH].
  apply reads_bind; [apply reads_clamp|]. intros t. apply IH.
Qed.
Lemma reads_to_apply earliest visits : ∀ s, reads (W:=W) (visits_to_apply checks earliest visits s).
Proof.
  induction visits as [|v visits IH]; intros s; cbn [visits_to_apply]; [apply reads_ret|].
  destruct (VisitTransition.from_primitive _); [|apply IH]. apply reads_bind; [apply reads_clamp|]. intros t. cbn zeta.
  destruct (_ || _); [apply IH|]. apply reads_bind; [apply reads_lift|]. intros date. apply reads_bind; [apply IH|]. intros rest. apply reads_ret.
Qed.
Lemma reads_fetch_visits u n : reads (W:=W) (fetch_visits u n).
Proof.
  unfold fetch_visits. apply reads_bind; [apply reads_lift|]. intros hash. apply reads_bind; [apply reads_get|]. intros d.
  destruct (select_first _ _) as [[id p]|]; [|apply reads_ret]. apply reads_bind; [apply reads_lift|]. intros pi.
  apply reads_bind; [apply reads_lift|]. intros vs. apply reads_ret.
Qed.
Lemma reads_plan r n : reads (W:=W) (plan_incoming_record checks r n).
Proof.
  unfold plan_incoming_record. apply reads_match_res; [|intros e; apply reads_ret]. intros u.
  destruct (negb _); [apply reads_ret|]. cbn. apply reads_bind; [apply reads_catch, reads_fetch_visits|].
  intros [e|t]; [apply reads_ret|]. apply reads_bind; [apply reads_cur_visits|]. intros s.
  apply reads_bind; [apply reads_to_apply|]. intros l. apply reads_ret.
Qed.
Lemma reads_plans changes : reads (W:=W) (make_plans checks changes).
Proof.
  induction changes as [|[p t] changes IH]; cbn [make_plans]; [apply reads_ret|]. apply reads_bind; [apply reads_world|]. intros [].
  destruct (from_payload p) as [item|e|m]; [|apply IH|apply reads_lift].
  apply reads_bind; [destruct (hs_record item); [apply reads_plan|apply reads_ret]|]. intros plan.
  apply reads_bind; [apply IH|]. intros plans. apply reads_ret.
Qed.

(** The visits of a plan have dates that are u64 numbers. *)
Lemma to_apply_dates earliest visits : ∀ s d, ok_post (W:=W) (visits_to_apply checks earliest visits s) d (λ l _, u64_dates l).
Proof.
  induction visits as [|v visits IH]; intros s d; cbn [visits_to_apply]; [apply ok_post_ret; constructor|].
  destruct (VisitTransition.from_primitive _); [|apply IH]. apply ok_post_bind, ok_post_bind, ok_post_world. intros n. apply ok_post_ret.
  cbn zeta. destruct (_ || _); [apply IH|]. apply ok_post_bind, ok_post_lift. intros date Hdate. apply ok_post_bind.
  eapply ok_post_weaken; [apply IH|]. intros rest d' Hrest. apply ok_post_ret. constructor; [|done].
  cbn. by eapply (umul_range checks 64).
Qed.
Lemma plan_record_ok r n d : ok_post (W:=W) (plan_incoming_record checks r n) d (λ p _, plan_ok p).
Proof.
  unfold plan_incoming_record. destruct (parse_url _) as [u|e|m]; [|by apply ok_post_ret|by apply ok_post_lift].
  destruct (negb _); [by apply ok_post_ret|]. cbn. apply ok_post_bind. eapply ok_post_weaken with (Q := λ _ _, True); [done|].
  intros [e|t] d' _; [by apply ok_post_ret|]. apply ok_post_bind. eapply ok_post_weaken with (Q := λ _ _, True); [done|].
  intros s d1 _. apply ok_post_bind. eapply ok_post_weaken; [apply to_apply_dates|]. intros l d2 Hl. apply ok_post_ret.
  by destruct (_ || _).
Qed.
Lemma make_plans_ok changes : ∀ d, ok_post (W:=W) (make_plans checks changes) d (λ plans _, Forall (λ x, plan_ok x.2) plans).
Proof.
  induction changes as [|[p t] changes IH]; intros d; cbn [make_plans]; [apply ok_post_ret; constructor|].
  apply ok_post_bind, ok_post_world. intros []. destruct (from_payload p) as [item|e|m]; [|apply IH|by apply ok_post_lift].
  apply ok_post_bind. eapply ok_post_weaken with (Q := λ p _, plan_ok p).
  { destruct (hs_record item); [apply plan_record_ok|by apply ok_post_ret]. }
  intros plan d1 Hplan. apply ok_post_bind. eapply ok_post_weaken; [apply IH|]. intros plans d2 Hplans. apply ok_post_ret. by constructor.
Qed.

(** ** Applying a plan *)
Lemma merges_no_return u g visits h h' : merges u g visits h h' → no_return h h'.
Proof.
  intros [[_ ->]|(pid & skip & h1 & h2 & Hp & _ & [(_ & _ & _ & Hm2) _ Hn _ _] & ->)]; [done|].
  destruct (synced_page_frame _ _ _ _ _ Hp) as (Hv & _ & Hm & _). split; [cbn; congruence|]. intros i v Hi.
  destruct (Hn i v Hi) as [?|(Hl & _ & _ & w & [_ Hlt]%elem_of_newer & Hd & _)]; [left; congruence|right; by rewrite Hd].
Qed.
Lemma apply_one_no_return g plan d :
  hist_pre d → plan_ok plan → refines (W:=W) (apply_one checks g plan) d (λ _ h, no_return (abs d) h).
Proof.
  intros Hpre Hplan. destruct plan as [|e|e| |u t visits|]; cbn [apply_one]; try by apply refines_ret.
  - eapply refines_weaken; [apply (delete_places_refines _ (λ _ pg, String.eqb (pg_guid pg) g)); [done|by intros id p]|].
    intros [] h _ ->. apply no_return_subset; [done|]. by intros i v [? _]%map_lookup_filter_Some.
  - eapply refines_weaken; [by apply apply_synced_visits_refines|]. intros [] h _. apply merges_no_return.
  - eapply refines_weaken; [apply (update_places_pages _ (λ _ pg, String.eqb (pg_guid pg) g) _ (set_status (SyncStatus.as_u8 SNormal)));
      [done|by intros id p|done|]|].
    { apply on_pages_wf; [done|by apply renames_same, Hpre|apply Hpre]. }
    intros [] h _ ->. by apply no_return_subset.
Qed.

Definition Inv (h0 : Hist) (d : PlacesDb) : Prop := hist_pre d ∧ no_return h0 (abs d).
Lemma rollback_inv {A} h0 saved (c : DB A) d w r d' w' :
  Inv h0 saved → ok_post c d (λ _ e, Inv h0 e) → rollback_to saved c (d, w) = (r, (d', w')) → Inv h0 d'.
Proof.
  intros Hs Hc. unfold rollback_to. destruct (c (d, w)) as [[a|e|m] [d1 w1]] eqn:Hrun; intros [= <- <- <-]; [|done..].
  by eapply Hc.
Qed.
Lemma apply_plans_inv h0 plans : ∀ saved d w r d' w',
  Inv h0 saved → Inv h0 d → Forall (λ x, plan_ok x.2) plans → apply_plans checks saved plans (d, w) = (r, (d', w')) → Inv h0 d'.
Proof.
  induction plans as [|[g plan] plans IH]; intros saved d w r d' w' Hs Hd Hp; cbn [apply_plans].
  { apply rollback_inv; [done|]. eapply ok_post_weaken; [apply flush_refines, Hd|]. intros [] e [Hpre He]. split; [done|]. rewrite He. apply Hd. }
  apply Forall_cons in Hp as [Hplan Hp]. unfold mbind, ST_bind.
  destruct (rollback_to saved check_interrupted (d, w)) as [r1 [d1 w1]] eqn:R1.
  assert (Hd1 : Inv h0 d1).
  { eapply rollback_inv in R1; [exact R1|done|]. apply ok_post_world. by intros []. }
  destruct r1 as [[]|e|m]; [|by intros [= <- <- <-]..]. unfold maybe_commit.
  destruct (commit_due w1) as [due w2]. set (saved' := if due then d1 else saved).
  assert (Hs' : Inv h0 saved') by (unfold saved'; by destruct due).
  destruct (rollback_to saved' (apply_one checks g plan) (d1, w2)) as [r3 [d3 w3]] eqn:R3.
  assert (Hd3 : Inv h0 d3).
  { eapply rollback_inv in R3; [exact R3|done|]. eapply ok_post_weaken; [apply apply_one_no_return; [apply Hd1|done]|].
    intros [] e [Hpre Hnr]. split; [done|]. etrans; [apply Hd1|done]. }
  destruct r3 as [[]|e|m]; [|by intros [= <- <- <-]..]. by apply IH.
Qed.

(** ** Outgoing changes *)
Lemma PageInfo_columns id r info :
  PageInfo_from_row id r = Ok info →
  parse_url (p_url r) = Ok (pi_url info) ∧ pi_row_id info = id ∧ pi_guid info = p_guid r ∧ pi_title info = default ""%string (p_title r) ∧
  pi_frecency info = p_frecency r ∧ pi_sync_change_counter info = p_sync_change_counter r.
Proof.
  unfold PageInfo_from_row. intros Hi. bind_inv Hi. injection Hi as <-. cbn.
  repeat match goal with Hx : get_u32 ?z = Ok _ |- _ => unfold get_u32 in Hx; destruct (_ && _); [injection Hx as <-|done] end.
  repeat match goal with Hx : get_i32 ?z = Ok _ |- _ => unfold get_i32 in Hx; destruct (_ && _); [injection Hx as <-|done] end. done.
Qed.

(** The newest visits of a page, as they are uploaded. *)
Definition newest_visits (d : PlacesDb) (max_visits : nat) (id : Z) : res PlacesError (list HistoryRecordVisit) :=
  mapM (λ '(_, v), record_visit_from_row checks v)
    (take max_visits (merge_sort later_first (select (λ v, v_place_id v =? id) (moz_historyvisits d)))).
Definition record_of (page : PageInfo) (visits : list HistoryRecordVisit) : OutgoingInfo :=
  OutRecord (mkHistoryRecord (pi_guid page) (pi_title page) (url_as_str (pi_url page)) visits (pi_frecency page) HISTORY_TTL).

(** The pages that are uploaded, and what is noted about them. *)
Record collected (mv : nat) (pages : list PageInfo) (d : PlacesDb) (out out' : gmap string OutgoingInfo) (ids ids' : list Z)
    (m m' : gmap Z Z) : Prop := {
  col_out g x : out' !! g = Some x → out !! g = Some x ∨
    (out !! g = None ∧ ∃ page visits, page ∈ pages ∧ pi_guid page = g ∧ newest_visits d mv (pi_row_id page) = Ok visits ∧ visits ≠ [] ∧ x = record_of page visits);
  col_keep g x : out !! g = Some x → out' !! g = Some x;
  col_size : (size out' ≤ size out + length pages)%nat;
  col_meta id delta : m' !! id = Some delta → m !! id = Some delta ∨
    (id ∈ ids' ∧ ∃ page, page ∈ pages ∧ pi_row_id page = id ∧ pi_sync_change_counter page = delta);
  col_ids id : id ∈ ids → id ∈ ids';
}.

Lemma outgoing_records_refines mv pages : ∀ out ids d,
  ok_post (W:=W) (outgoing_records checks mv pages out ids) d (λ '(out', ids') d',
    ∃ m', d' = on_sync_meta (λ _, m') d ∧ collected mv pages d out out' ids ids' (temp_sync_updated_meta d) m').
Proof.
  induction pages as [|page pages IH]; intros out ids d; cbn [outgoing_records].
  { apply ok_post_ret. exists (temp_sync_updated_meta d). split; [by destruct d|]. split; try done; [by left|cbn; lia|by left]. }
  apply ok_post_bind, ok_post_get, ok_post_bind, ok_post_lift. intros visits Hvisits.
  assert (Hweak : ∀ out' ids' m', collected mv pages d out out' ids ids' (temp_sync_updated_meta d) m' →
    collected mv (page :: pages) d out out' ids ids' (temp_sync_updated_meta d) m').
  { intros out' ids' m' [Ho Hk Hs Hm Hi]. split; try done; [|cbn; lia|].
    - intros g x Hx. destruct (Ho g x Hx) as [?|(? & pg & vs & ? & ?)]; [by left|right]. split; [done|]. exists pg, vs. split; [by right|done].
    - intros id delta Hd. destruct (Hm id delta Hd) as [?|(? & pg & ? & ?)]; [by left|right]. split; [done|]. exists pg. split; [by right|done]. }
  destruct (_ || _) eqn:Hskip.
  { eapply ok_post_weaken; [apply IH|]. intros [out' ids'] d' (m' & -> & Hc). exists m'. auto. }
  apply orb_false_iff in Hskip as [Hnone Hne%bool_decide_eq_false].
  apply ok_post_bind. unfold insert_sync_meta. apply ok_post_bind, ok_post_get.
  destruct (temp_sync_updated_meta d !! pi_row_id page) eqn:Hmeta; [apply ok_post_err|]. apply ok_post_modify.
  eapply ok_post_weaken; [apply IH|]. intros [out' ids'] d' (m' & -> & [Ho Hk Hs Hm Hi]). exists m'. split; [done|].
  assert (Hout : out !! pi_guid page = None) by (by destruct (out !! pi_guid page)). split.
  - intros g x Hx. destruct (Ho g x Hx) as [Hl|(Hn & pg & vs & Hin & Hrest)].
    + apply lookup_insert_Some in Hl as [[<- <-]|[_ ?]]; [right|by left]. split; [done|]. exists page, visits. split; [left|done].
    + apply lookup_insert_None in Hn as [Hn _]. right. split; [done|]. exists pg, vs. split; [by right|done].
  - intros g x Hx. apply Hk. rewrite lookup_insert_ne; [done|]. congruence.
  - rewrite map_size_insert_None in Hs by done. cbn. lia.
  - intros id delta Hd. destruct (Hm id delta Hd) as [Hl|(? & pg & ? & ?)].
    + cbn in Hl. apply lookup_insert_Some in Hl as [[<- <-]|[_ ?]]; [right|by left]. split; [apply Hi; set_solver|].
      exists page. split; [left|done].
    + right. split; [done|]. exists pg. split; [by right|done].
  - intros id Hid. apply Hi. set_solver.
Qed.

Lemma mapM_ok_inv {A B} (f : A → res PlacesError B) l k :
  mapM f l = Ok k → length k = length l ∧ ∀ y, y ∈ k → ∃ x, x ∈ l ∧ f x = Ok y.
Proof.
  revert k. induction l as [|x l IH]; intros k Hk.
  - injection Hk as <-. split; [done|]. intros y Hy. by apply not_elem_of_nil in Hy.
  - cbn in Hk. bind_inv Hk. injection Hk as <-.
    match goal with Hx : f x = Ok ?y, Hl : mapM f l = Ok ?k |- _ => destruct (IH k Hl) as [Hlen Hin]; split; [cbn; by rewrite Hlen|];
      intros z [->|Hz]%elem_of_cons; [exists x; split; [left|done]|] end.
    destruct (Hin z Hz) as (x' & ? & ?). exists x'. split; [by right|done].
Qed.

(** What the update of the status does, at once. *)
Definition mark_normal (ids : list Z) : gmap Z PlaceRow → gmap Z PlaceRow :=
  map_imap (λ id p, Some (if bool_decide (id ∈ ids) then p_set_sync (SyncStatus.as_u8 SNormal) (p_sync_change_counter p) p else p)).
Lemma mark_normal_app s1 s2 m : mark_normal s2 (mark_normal s1 m) = mark_normal (s1 ++ s2) m.
Proof.
  apply map_eq. intros id. unfold mark_normal. rewrite !map_lookup_imap. destruct (m !! id) as [p|]; [|done]. cbn.
  rewrite (bool_decide_ext (id ∈ s1 ++ s2) (id ∈ s1 ∨ id ∈ s2)) by apply elem_of_app. rewrite bool_decide_or.
  by destruct (bool_decide (id ∈ s1)), (bool_decide (id ∈ s2)).
Qed.
Lemma mark_normal_nil m : mark_normal [] m = m.
Proof.
  apply map_eq. intros id. unfold mark_normal. rewrite map_lookup_imap. destruct (m !! id); [|done]. cbn.
  by rewrite bool_decide_false by apply not_elem_of_nil.
Qed.
Lemma on_places_id d : on_places (λ m, m) d = d.
Proof. by destruct d. Qed.

Definition page_rows (mp : nat) (d : PlacesDb) : list (Z * PlaceRow) :=
  take (mp - size (outgoing_tombstones d mp)) (merge_sort more_frecent (select needs_upload (moz_places d))).

Lemma fetch_outgoing_refines mp mv d :
  (0 < max_variable_number)%nat →
  ok_post (W:=W) (fetch_outgoing checks max_variable_number mp mv) d (λ out d', ∃ pages ids m,
    mapM (λ '(id, p), PageInfo_from_row id p) (page_rows mp d) = Ok pages ∧
    collected mv pages d (outgoing_tombstones d mp) out [] ids (temp_sync_updated_meta d) m ∧
    d' = on_places (mark_normal ids) (on_sync_meta (λ _, m) d)).
Proof.
  intros Hmax. unfold fetch_outgoing. apply ok_post_bind, ok_post_get. cbn zeta. apply ok_post_bind, ok_post_lift. intros pages Hpages.
  apply ok_post_bind. eapply ok_post_weaken; [apply outgoing_records_refines|]. intros [out ids] d1 (m & -> & Hc).
  set (d1 := on_sync_meta (λ _, m) d) in *. apply ok_post_bind.
  unfold each_sized_chunk. set (I := λ (cs : list (list Z)) (e : PlacesDb), on_places (mark_normal (concat cs)) e = on_places (mark_normal ids) d1).
  eapply ok_post_weaken; [apply (ok_post_do_chunks _ I)|].
  - intros off c cs e He. apply ok_post_modify. unfold I in *. rewrite <-He. cbn [concat].
    transitivity (on_places (mark_normal (concat cs)) (on_places (mark_normal c) e)); [done|].
    destruct e. unfold on_places. cbn. f_equal. apply mark_normal_app.
  - unfold I. by rewrite chunks_concat.
  - intros [] e He. unfold I in He. cbn in He. apply ok_post_ret. exists pages, ids, m. split_and!; [done..|].
    change (e = on_places (mark_normal ids) d1). rewrite <-He. destruct e. unfold on_places. cbn. f_equal. symmetry. apply mark_normal_nil.
Qed.

Lemma mark_normal_inv h0 ids m d : Inv h0 d → Inv h0 (on_places (mark_normal ids) (on_sync_meta (λ _, m) d)).
Proof.
  intros [Hpre Hnr]. assert (Hpre' : hist_pre (on_sync_meta (λ _, m) d)) by done.
  destruct (pages_updated (λ id _, bool_decide (id ∈ ids)) (λ id _, bool_decide (id ∈ ids))
    (λ p, p_set_sync (SyncStatus.as_u8 SNormal) (p_sync_change_counter p) p) (set_status (SyncStatus.as_u8 SNormal)) _ Hpre') as [Hp Ha]; [done..| |].
  { apply on_pages_wf; [done|by apply renames_same, Hpre|apply Hpre]. }
  split; [exact Hp|]. etrans; [exact Hnr|]. unfold mark_normal. rewrite Ha. by apply no_return_subset.
Qed.

(** C18: history that was deleted does not come back with a sync.  Whatever records the server
    sends, and also when the sync is interrupted or fails half way, every visit in the database
    afterwards was there before or is a remote visit later than the high-water mark that the
    last deletion of everything has left; the mark stays, and the tables stay sound. *)
Theorem deleted_history_stays_deleted (drain : gmap string OutgoingInfo → list (string * OutgoingInfo)) inbound d w r d' w' :
  (0 < max_variable_number)%nat → hist_ok d →
  apply_plan (W:=W) checks max_variable_number drain inbound (d, w) = (r, (d', w')) →
  hist_pre d' ∧ no_return (abs d) (abs d').
Proof.
  intros Hmax [Hpre _]. assert (Hinv : Inv (abs d) d) by done. change (hist_pre d' ∧ no_return (abs d) (abs d')) with (Inv (abs d) d').
  unfold apply_plan. intros Hrun. apply reads_then in Hrun as [[_ ->]|(plans & w1 & Hplans & Hrun)]; [done| |apply reads_plans].
  pose proof (make_plans_ok _ _ _ _ _ _ Hplans) as Hok. rewrite (st_bind_run _ _ _ d (d, w1)) in Hrun by done.
  apply st_bind_cases in Hrun as [([] & [d2 w2] & Happly & Hrun)|(r1 & Happly & _)];
    [|exact (apply_plans_inv _ _ _ _ _ _ _ _ Hinv Hinv Hok Happly)].
  assert (Hd2 : Inv (abs d) d2) by exact (apply_plans_inv _ _ _ _ _ _ _ _ Hinv Hinv Hok Happly).
  apply st_bind_cases in Hrun as [(changes & [d3 w3] & Htx & Hrun)|(r1 & Htx & Hr1)];
    [|by rewrite (rolls_back_transaction _ _ _ _ _ _ Htx Hr1)].
  injection Hrun as <- <- <-. refine (ok_post_transaction _ d2 (λ _ e, Inv (abs d) e) _ _ _ _ _ Htx). apply ok_post_bind.
  eapply ok_post_weaken; [by apply fetch_outgoing_refines|].
  intros out e (pages & ids & m & _ & _ & ->). apply ok_post_lift. intros _ _. by apply mark_normal_inv.
Qed.

Lemma outgoing_tombstones_lookup d mp g x :
  outgoing_tombstones d mp !! g = Some x →
  x = OutTombstone ∧ g ∈ moz_places_tombstones d.
Proof.
  intros Hg. apply elem_of_list_to_map_2, list_elem_of_fmap in Hg as (g' & [= -> ->] & Hin). split; [done|].
  apply elem_of_take in Hin as (i & Hin%list_elem_of_lookup_2 & _). rewrite merge_sort_Permutation in Hin. by apply elem_of_elements.
Qed.
Lemma outgoing_tombstones_size d mp : (size (outgoing_tombstones d mp) ≤ mp)%nat.
Proof.
  unfold outgoing_tombstones. rewrite <-length_map_to_list, map_to_list_to_map.
  - rewrite length_fmap, length_take. lia.
  - rewrite <-list_fmap_compose. cbn. rewrite list_fmap_id. eapply sublist_NoDup; [|apply sublist_take].
    rewrite merge_sort_Permutation. apply NoDup_elements.
Qed.
Lemma outgoing_tombstones_all d mp g :
  (size (moz_places_tombstones d) ≤ mp)%nat → g ∈ moz_places_tombstones d → outgoing_tombstones d mp !! g = Some OutTombstone.
Proof.
  intros Hsize Hg. unfold outgoing_tombstones. set (l := merge_sort str_le _).
  assert (Hl : l ≡ₚ elements (moz_places_tombstones d)) by apply merge_sort_Permutation.
  rewrite take_ge by (rewrite Hl; exact Hsize). apply elem_of_list_to_map.
  - rewrite <-list_fmap_compose. cbn. rewrite list_fmap_id, Hl. apply NoDup_elements.
  - apply list_elem_of_fmap. exists g. split; [done|]. rewrite Hl. by apply elem_of_elements.
Qed.
Lemma page_rows_in mp d id p : (id, p) ∈ page_rows mp d → moz_places d !! id = Some p ∧ needs_upload p = true.
Proof.
  unfold page_rows. intros (i & Hin%list_elem_of_lookup_2 & _)%elem_of_take. rewrite merge_sort_Permutation in Hin.
  by apply elem_of_select in Hin.
Qed.

(** What is uploaded.  The upload has at most as many entries as allowed; a deletion is sent
    for a guid only if it has a tombstone, and for all tombstones if they are not too many; and
    a record is sent only for a page that is new or has changed since the last upload, and that
    has no tombstone, with its title, its URL and its newest visits, at least one and at most as
    many as allowed. *)
Theorem outgoing_reports_changes mp mv d w out d' w' :
  (0 < max_variable_number)%nat → fetch_outgoing (W:=W) checks max_variable_number mp mv (d, w) = (Ok out, (d', w')) →
  (size out ≤ mp)%nat ∧
  (∀ g, out !! g = Some OutTombstone → g ∈ moz_places_tombstones d) ∧
  ((size (moz_places_tombstones d) ≤ mp)%nat → ∀ g, g ∈ moz_places_tombstones d → out !! g = Some OutTombstone) ∧
  (∀ g r, out !! g = Some (OutRecord r) → ∃ id p u, moz_places d !! id = Some p ∧ p_guid p = g ∧ needs_upload p = true ∧
     parse_url (p_url p) = Ok u ∧ newest_visits d mv id = Ok (hr_visits r) ∧ (0 < length (hr_visits r) ≤ mv)%nat ∧
     r = mkHistoryRecord g (default ""%string (p_title p)) (url_as_str u) (hr_visits r) (p_frecency p) HISTORY_TTL).
Proof.
  intros Hmax Hrun. destruct (fetch_outgoing_refines mp mv d Hmax w out d' w' Hrun) as (pages & ids & m & Hpages & [Ho Hk Hsz _ _] & _).
  apply mapM_ok_inv in Hpages as [Hlen Hpages]. pose proof (outgoing_tombstones_size d mp) as Hts. split_and!.
  - rewrite Hlen in Hsz. unfold page_rows in Hsz. rewrite length_take in Hsz. lia.
  - intros g Hg. destruct (Ho g _ Hg) as [Ht|(_ & ? & ? & _ & _ & _ & _ & [=])]. by apply outgoing_tombstones_lookup in Ht as [_ ?].
  - intros Hsize g Hg. by apply Hk, outgoing_tombstones_all.
  - intros g r Hg. destruct (Ho g _ Hg) as [Ht|(_ & page & visits & Hin & <- & Hv & Hne & [= ->])].
    { by apply outgoing_tombstones_lookup in Ht as [[=] _]. }
    destruct (Hpages page Hin) as ([id p] & Hrow & Hinfo). apply page_rows_in in Hrow as [Hp Hup].
    destruct (PageInfo_columns id p page Hinfo) as (Hurl & Hid & Hguid & Htitle & Hfrec & _). exists id, p, (pi_url page). cbn.
    rewrite Hid in Hv. split_and!; try done; [by destruct visits; [|cbn; lia]| |by rewrite Hguid, Htitle, Hfrec].
    apply mapM_ok_inv in Hv as [Hvl _]. rewrite Hvl, length_take. lia.
Qed.

Lemma finish_outgoing_run d (w : W) :
  let meta := temp_sync_updated_meta d in
  finish_outgoing (d, w) =
    (Ok tt, (on_places_tombstones (λ _, ∅) (on_sync_meta (λ _, ∅) (on_places (map_imap (λ id p, Some
       match meta !! id with
       | Some delta => p_set_sync (p_sync_status p) (p_sync_change_counter p - delta) p
       | None => p_set_sync (SyncStatus.as_u8 SNormal) 0 p
       end)) d)), w)).
Proof.
  unfold finish_outgoing, mbind, ST_bind. cbn. unfold on_places_tombstones, on_sync_meta, on_places. cbn.
  match goal with |- (_, (?a, _)) = (_, (?b, _)) => cut (moz_places a = moz_places b); [cbn; by intros ->|cbn] end. apply map_eq. intros id. rewrite !map_lookup_imap. destruct (moz_places d !! id) as [p|]; [|done]. cbn.
  by destruct (temp_sync_updated_meta d !! id).
Qed.

(** Nothing to upload. *)
Definition settled (d : PlacesDb) : Prop :=
  moz_places_tombstones d = ∅ ∧ map_Forall (λ _ p, needs_upload p = false) (moz_places d).
Lemma settled_uploads_nothing mp mv d (w : W) :
  settled d → fetch_outgoing checks max_variable_number mp mv (d, w) = (Ok ∅, (d, w)).
Proof.
  intros [Ht Hp]. assert (Hsel : select needs_upload (moz_places d) = []).
  { destruct (select needs_upload (moz_places d)) as [|[id p] l] eqn:Hs; [done|].
    assert (Hin : (id, p) ∈ select needs_upload (moz_places d)) by (rewrite Hs; left). apply elem_of_select in Hin as [Hp' Hn].
    rewrite (Hp id p Hp') in Hn. done. }
  assert (Htomb : outgoing_tombstones d mp = ∅) by (unfold outgoing_tombstones; rewrite Ht, elements_empty; by destruct mp).
  unfold fetch_outgoing. rewrite (st_bind_run _ _ _ d (d, w)) by done. cbn zeta. rewrite Hsel, Htomb.
  rewrite (st_bind_run _ _ _ [] (d, w)); [|unfold st_lift; by destruct (mp - size ∅)%nat].
  rewrite (st_bind_run _ _ _ (∅, []) (d, w)) by done. by rewrite (st_bind_run _ _ _ tt (d, w)).
Qed.

(** C19: a sync settles: with no rows left in the temporary table by an unfinished sync of the same
    connection, once the outgoing changes have been collected, uploaded and marked as
    done, there is nothing left to upload, also for the pages that were left out because they
    have no visits or because there were too many. *)
Theorem sync_settles mp mv d w out d1 w1 :
  (0 < max_variable_number)%nat → temp_sync_updated_meta d = ∅ →
  fetch_outgoing (W:=W) checks max_variable_number mp mv (d, w) = (Ok out, (d1, w1)) →
  ∃ d2, finish_plan (d1, w1) = (Ok tt, (d2, w1)) ∧
    ∀ mp' mv' w', fetch_outgoing (W:=W) checks max_variable_number mp' mv' (d2, w') = (Ok ∅, (d2, w')).
Proof.
  intros Hmax Htemp Hrun. destruct (fetch_outgoing_refines mp mv d Hmax w out d1 w1 Hrun) as (pages & ids & m & Hpages & [_ _ _ Hm _] & ->).
  apply mapM_ok_inv in Hpages as [_ Hpages]. unfold finish_plan, transaction. rewrite finish_outgoing_run. cbn zeta.
  eexists. split; [reflexivity|]. intros mp' mv' w'. apply settled_uploads_nothing. split; [done|].
  intros id q. cbn. rewrite map_lookup_imap. unfold mark_normal. rewrite map_lookup_imap.
  destruct (moz_places d !! id) as [p|] eqn:Hp; [|done]. cbn. intros [= <-].
  destruct (m !! id) as [delta|] eqn:Hd; [|done]. destruct (Hm id delta Hd) as [Ht|(Hid & page & Hin & Hrow & Hc)].
  { by rewrite Htemp, lookup_empty in Ht. }
  destruct (Hpages page Hin) as ([id' p'] & [Hp' _]%page_rows_in & Hinfo).
  destruct (PageInfo_columns id' p' page Hinfo) as (_ & Hid' & _ & _ & _ & Hcount). assert (id' = id) as -> by congruence.
  rewrite Hp in Hp'. injection Hp' as <-. rewrite bool_decide_true by done. cbn. unfold needs_upload. cbn.
  rewrite <-Hc, Hcount, Z.sub_diag. done.
Qed.
End plans.

(** ** Concrete runs *)
Module ToyHistorySync.
Import ToyPlaces ToySerde.
(** A clock in the year 2001. *)
#[export] Instance toy_sclock : Clock nat := λ w, ((1000000000000 + Z.of_nat (w mod 1000)) * 1000000, S w).
#[export] Instance toy_timer : CommitTimer nat := λ w, (true, w).
Lemma sync_clock_sane : sane_clock (W:=nat).
Proof. intros w. cbn. pose proof (Nat.mod_upper_bound w 1000). lia. Qed.

Definition text (k : string) (v : JsonValue) : string :=
  match field k v with Some (GenLeaf (inr (inl s))) => s | _ => ""%string end.
Definition visit_json (v : HistoryRecordVisit) : JsonValue := GenNode 3 [GenLeaf (inl (hrv_date v)); GenLeaf (inl (hrv_transition v))].
Definition json_visit (v : JsonValue) : option HistoryRecordVisit :=
  match v with GenNode 3 [GenLeaf (inl d); GenLeaf (inl t)] => Some (mkHistoryRecordVisit d t) | _ => None end.
Definition record_payload (r : HistoryRecord) : Payload :=
  mkPayload _ (hr_id r) false
    {["title" := json_string (hr_title r); "histUri" := json_string (hr_hist_uri r); "visits" := GenNode 2 (visit_json <$> hr_visits r)]}%string.
#[export] Instance toy_history_record : Serde HistoryRecord := {|
  to_string r := to_string (record_payload r);
  from_str _ := Err "not needed"%string;
  to_value r := to_value (record_payload r);
  from_value v :=
    match field "id" v, field "visits" v with
    | Some (GenLeaf (inr (inl s))), Some (GenNode 2 vs) =>
        Ok (mkHistoryRecord s (text "title" v) (text "histUri" v) (omap json_visit vs) 0 0)
    | _, _ => Err "missing field"%string
    end;
|}.

Abbreviation S := (PlacesDb * nat)%type.
Definition observe (at_ : Z) (s : S) : S :=
  snd (run_history_op (W:=nat) true 999 (HObserve (mkVisitObservation "http://a.com/" None (Some Link) None None None (Some at_) None None)) s).
Lemma sound_op o d w r d' w' :
  history_op_ok o → run_history_op (W:=nat) true 999 o (d, w) = (r, (d', w')) → (∀ g, o ≠ HDeletePlace g) → hist_ok d → hist_ok d'.
Proof.
  intros Hop Hrun Hne Hd. apply hist_but_empty. apply hist_but_empty in Hd.
  refine (history_op_keeps_ok true 999 o d w r d' w' _ sync_clock_sane Hop Hrun (or_intror Hne) ∅ Hd). lia.
Qed.
Lemma observe_ok at_ s : date_ok at_ → hist_ok (fst s) → hist_ok (fst (observe at_ s)).
Proof.
  intros Ht Hok. unfold observe. destruct s as [d w].
  destruct (run_history_op _ _ _ (d, w)) as [r [d' w']] eqn:Hrun. cbn.
  eapply sound_op; [|exact Hrun|done|exact Hok]. by intros t [= <-].
Qed.

Definition s1 : S := observe 900000000010 (empty_db, 0%nat).
Lemma s1_ok : hist_ok (fst s1).
Proof. by apply observe_ok, ToyHistory.empty_hist_ok. Qed.

(** The visit that is known is not added again. *)
Definition incoming : list HistoryRecordVisit := [mkHistoryRecordVisit 900000000010000 1; mkHistoryRecordVisit 900000000020000 2].
Definition s2 : S := snd (apply_synced_visits (W:=nat) true "gggggggggggg" ("http://a.com/"%string : Url) None incoming s1).
Definition visit_list (d : PlacesDb) : list (bool * Z * Z) :=
  (λ '(_, v), (v_is_local v, v_visit_date v, v_visit_type v)) <$> rows (moz_historyvisits d).

Lemma synced_visits_merge_witness :
  visit_list (fst s2) = [(true, 900000000010, 1); (false, 900000000020, 2)] ∧
  (∀ i v, h_visits (abs (fst s1)) !! i = Some v → h_visits (abs (fst s2)) !! i = Some v) ∧
  ((λ '(_, p), p_guid p) <$> rows (moz_places (fst s2))) = ["gggggggggggg"%string].
Proof.
  split; [vm_compute; reflexivity|]. split; [|vm_compute; reflexivity].
  refine (proj1 (synced_visits_merge (W:=nat) true "gggggggggggg" ("http://a.com/"%string : Url) None incoming (fst s1) (snd s1)
    (fst s2) (snd s2) s1_ok _ _)).
  - repeat constructor; cbn; lia.
  - rewrite <-!surjective_pairing. vm_compute. reflexivity.
Defined.

(** Everything is deleted; the server still has an old visit, and a new one. *)
Definition s3 : S := snd (run_history_op (W:=nat) true 999 HDeleteEverything s1).
Lemma wiped_ok : hist_ok (fst s3).
Proof.
  unfold s3. destruct s1 as [d w] eqn:Hs1. pose proof s1_ok as Hok. rewrite Hs1 in Hok.
  destruct (run_history_op _ _ _ (d, w)) as [r [d' w']] eqn:Hrun. cbn.
  by eapply sound_op; [|exact Hrun|done|exact Hok].
Qed.
Definition changes (date : Z) : IncomingChangeset :=
  mkRecordChangeset [(record_payload (mkHistoryRecord "gggggggggggg" "title" "http://a.com/"
     [mkHistoryRecordVisit 900000000010000 1; mkHistoryRecordVisit date 1] 0 0), SERVER_EPOCH)] SERVER_EPOCH "history".
Lemma run_parts {A} (x : A * S) : x = (fst x, (fst (snd x), snd (snd x))).
Proof. by destruct x as [? []]. Qed.
Definition in_order (m : gmap string OutgoingInfo) : list (string * OutgoingInfo) := map_to_list m.
Definition plan (date : Z) (s : S) : res PlacesError OutgoingChangeset * S := apply_plan (W:=nat) true 999 in_order (changes date) s.

Lemma deleted_history_stays_deleted_witness :
  visit_list (fst s3) = [] ∧ is_ok (fst (plan 2000000000000000 s3)) = true ∧
  no_return (abs (fst s3)) (abs (fst (snd (plan 2000000000000000 s3)))) ∧
  visit_list (fst (snd (plan 2000000000000000 s3))) = [(false, 1000000000004, 1)].
Proof.
  split; [vm_compute; reflexivity|]. split; [vm_compute; reflexivity|]. split; [|vm_compute; reflexivity].
  refine (proj2 (deleted_history_stays_deleted (W:=nat) true 999 in_order (changes 2000000000000000) (fst s3) (snd s3)
    (fst (plan 2000000000000000 s3)) _ (snd (snd (plan 2000000000000000 s3))) _ wiped_ok _)).
  - lia.
  - unfold plan. rewrite <-(surjective_pairing s3). apply run_parts.
Defined.

(** The upload of the page that was visited, and the end of the sync. *)
Definition out1 : res PlacesError (gmap string OutgoingInfo) * S := fetch_outgoing (W:=nat) true 999 10 20 s1.
Definition uploaded : gmap string OutgoingInfo := match fst out1 with Ok out => out | _ => ∅ end.
Lemma outgoing_reports_changes_witness :
  (size uploaded ≤ 10)%nat ∧
  ((λ '(_, o), match o with OutRecord r => (hr_hist_uri r, hr_visits r) | OutTombstone => (""%string, []) end) <$> map_to_list uploaded)
  = [("http://a.com/"%string, [mkHistoryRecordVisit 900000000010000 1])].
Proof.
  split; [|vm_compute; reflexivity].
  refine (proj1 (outgoing_reports_changes (W:=nat) true 999 10 20 (fst s1) (snd s1) uploaded (fst (snd out1)) (snd (snd out1)) _ _)).
  - lia.
  - rewrite <-!surjective_pairing. vm_compute. reflexivity.
Defined.
Lemma sync_settles_witness :
  uploaded ≠ ∅ ∧ ∃ d2, finish_plan (snd out1) = (Ok tt, (d2, snd (snd out1))) ∧
    fetch_outgoing (W:=nat) true 999 10 20 (d2, 0%nat) = (Ok ∅, (d2, 0%nat)).
Proof.
  split; [vm_compute; discriminate|].
  destruct (sync_settles (W:=nat) true 999 10 20 (fst s1) (snd s1) uploaded (fst (snd out1)) (snd (snd out1))) as (d2 & Hfin & Hnone).
  - lia.
  - vm_compute. reflexivity.
  - rewrite <-!surjective_pairing. vm_compute. reflexivity.
  - exists d2. rewrite <-surjective_pairing in Hfin. split; [exact Hfin|apply Hnone].
Defined.

(** A page is deleted and then visited again; before its tombstone is uploaded, a record with
    its old guid comes in.  The page takes that guid, and is then found among the tombstones:
    what is uploaded is its deletion, and not the page, which is there with its visits. *)
Definition s4 : S := observe 900000000030 (snd (delete_place_by_guid (W:=nat) "gggggggggggg" s2)).
Theorem guid_takeover_uploads_tombstone :
  let '(r, (d, _)) := plan 900000000040000 s4 in
  ((λ '(_, p), p_guid p) <$> rows (moz_places d)) = ["gggggggggggg"%string] ∧
  visit_list d = [(true, 900000000030, 1); (false, 900000000010, 1); (false, 900000000040, 1)] ∧
  moz_places_tombstones d = {["gggggggggggg"%string]} ∧
  match r with Ok out => (λ p, (Bso.p_id p, p_deleted p)) <$> rc_changes out | _ => [] end = [("gggggggggggg"%string, true)].
Proof. vm_compute. repeat split. Qed.
End ToyHistorySync.
