(* ===== verification/Tags.v ===== *)
(** * Places: tags

    Model of [components/places/src/storage/tags.rs] on the read-write connection, with the
    triggers on [moz_tags_relation] of [sql/create_shared_triggers.sql] and
    [create_main_triggers.sql], and what the operations do to the tags of a URL. *)

From S2P Require Import Prelude Database Sync15Types KeyBundle State Viaduct Token PlacesTypes PlacesDb Bookmarks BookmarksSpec Frecency History HistorySpec HistoryOps.
From Stdlib Require Import Ascii String.
From stdpp Require Import sorting strings list gmap fin_sets.
Local Open Scope Z_scope.
Local Open Scope list_scope.

(** [s.find(char::is_whitespace).is_some()]. *)
Fixpoint has_ws (b : bytes) : bool :=
  match b with [] => false | _ :: b' => negb (Nat.eqb (ws_len b) 0) || has_ws b' end.

(** ** Validation *)
Inductive ValidatedTag := TInvalid (t : string) | TNormalized (t : string) | TOriginal (t : string).
Definition is_original (self : ValidatedTag) : bool := match self with TOriginal _ => true | _ => false end.
Definition ensure_valid (self : ValidatedTag) : res PlacesError string :=
  match self with TInvalid _ => Err (PInvalidPlaceInfo InvalidTag) | TNormalized t | TOriginal t => Ok t end.
Definition validate_tag (tag : string) : ValidatedTag :=
  let t := trim tag in
  if Nat.eqb (len_str t) 0 || Nat.ltb TAG_LENGTH_MAX (len_str t) || has_ws (as_bytes t) then TInvalid tag
  else if negb (Nat.eqb (len_str t) (len_str tag)) then TNormalized t
  else TOriginal t.

(** ** Statements *)
Definition bump_bookmarks (place_id : Z) : PlacesDb → PlacesDb :=
  on_bookmarks (fmap (λ b, if bool_decide (b_fk b = Some place_id) then b_set_syncChangeCounter (b_syncChangeCounter b + 1) b else b)).
Definition touch_tag (tag_id now : Z) : PlacesDb → PlacesDb := on_tags (alter (λ t, mkTagRow (t_tag t) now) tag_id).
(** Orders of rows. *)
Definition less_frecent (x y : Z * PlaceRow) : Prop := p_frecency x.2 ≤ p_frecency y.2.
Global Instance less_frecent_dec : RelDecision less_frecent.
Proof. intros x y. unfold less_frecent. apply _. Defined.
Definition later_modified (x y : Z * TagRow) : Prop := t_lastModified y.2 ≤ t_lastModified x.2.
Global Instance later_modified_dec : RelDecision later_modified.
Proof. intros x y. unfold later_modified. apply _. Defined.

Section tags.
Context {W : Type} `{!UrlLib, !Clock W}.
Abbreviation DB := (ST (PlacesDb * W) PlacesError).

Definition find_tag (d : PlacesDb) (tag : string) : option Z := fst <$> select_first (λ t, String.eqb (t_tag t) tag) (moz_tags d).

(** [INSERT OR IGNORE INTO moz_tags]. *)
Definition insert_tag (tag : string) : DB unit :=
  now ← sql_now;
  db_modify (λ d, match find_tag d tag with
                  | Some _ => d
                  | None => on_tags (λ m, <[next_rowid m := mkTagRow tag now]> m) d
                  end).

(** The triggers on a row of [moz_tags_relation] that is inserted or deleted. *)
Definition relation_triggers (delta tag_id place_id : Z) : DB unit :=
  now ← sql_now;
  _ ← db_modify (touch_tag tag_id now);
  _ ← db_modify (add_foreign_count delta (Some place_id));
  db_modify (bump_bookmarks place_id).

(** [INSERT OR IGNORE INTO moz_tags_relation]. *)
Definition insert_relation (tag_id place_id : Z) : DB unit :=
  d ← db_get;
  if bool_decide ((tag_id, place_id) ∈ moz_tags_relation d) then mret tt
  else
    _ ← db_modify (on_tags_relation (λ s, s ∪ {[(tag_id, place_id)]}));
    relation_triggers 1 tag_id place_id.

Fixpoint delete_relation_rows (l : list (Z * Z)) : DB unit :=
  match l with
  | [] => mret tt
  | (tag_id, place_id) :: l =>
      _ ← db_modify (on_tags_relation (λ s, s ∖ {[(tag_id, place_id)]}));
      _ ← relation_triggers (-1) tag_id place_id;
      delete_relation_rows l
  end.
Definition delete_relations (sel : Z → Z → bool) : DB unit :=
  d ← db_get;
  delete_relation_rows (List.filter (λ '(t, p), sel t p) (elements (moz_tags_relation d))).

(** [SELECT id FROM moz_places WHERE url_hash = hash(:url) AND url = :url]. *)
Definition find_place (url : Url) : DB (option Z) :=
  hash ← st_lift (sql_hash (url_as_str url));
  d ← db_get;
  mret (fst <$> select_first (has_url hash (url_as_str url)) (moz_places d)).

(** ** Operations *)
Definition tag_url (url : Url) (tag : string) : DB unit :=
  tag ← st_lift (ensure_valid (validate_tag tag));
  transaction (
    info ← fetch_page_info url;
    match info with
    | None => st_err (PInvalidPlaceInfo NoSuchUrl)
    | Some info =>
        _ ← insert_tag tag;
        d ← db_get;
        match find_tag d tag with
        | None => st_err (PSqlError "NOT NULL constraint failed: moz_tags_relation.tag_id")
        | Some tag_id => insert_relation tag_id (pi_row_id (page info))
        end
    end).

Definition untag_url (url : Url) (tag : string) : DB unit :=
  tag ← st_lift (ensure_valid (validate_tag tag));
  place ← find_place url;
  d ← db_get;
  let tag_id := find_tag d tag in
  transaction (delete_relations (λ t p, bool_decide (tag_id = Some t) && bool_decide (place = Some p))).

Definition remove_all_tags_from_url (url : Url) : DB unit :=
  place ← find_place url;
  transaction (delete_relations (λ _ p, bool_decide (place = Some p))).

(** [DELETE FROM moz_tags WHERE tag = :tag]; the rows that refer to it go with it. *)
Definition remove_tag (tag : string) : DB unit :=
  d ← db_get;
  match find_tag d tag with
  | None => mret tt
  | Some tag_id =>
      transaction (
        _ ← db_modify (on_tags (delete tag_id));
        delete_relations (λ t _, t =? tag_id))
  end.

Definition get_urls_with_tag (tag : string) : DB (list Url) :=
  tag ← st_lift (ensure_valid (validate_tag tag));
  d ← db_get;
  let tagged id := match find_tag d tag with Some t => bool_decide ((t, id) ∈ moz_tags_relation d) | None => false end in
  st_lift (mapM (λ '(_, p), parse_url (p_url p))
    (merge_sort less_frecent (List.filter (λ '(id, _), tagged id) (rows (moz_places d))))).

Definition get_tags_for_url (url : Url) : DB (list string) :=
  place ← find_place url;
  d ← db_get;
  let of_place t := match place with Some p => bool_decide ((t, p) ∈ moz_tags_relation d) | None => false end in
  mret ((λ '(_, t), t_tag t) <$> merge_sort later_modified (List.filter (λ '(id, _), of_place id) (rows (moz_tags d)))).
End tags.

(** ** What the operations keep *)
Definition tag_count (d : PlacesDb) (id : Z) : Z := Z.of_nat (size (filter (λ x, x.2 = id) (moz_tags_relation d))).
(** The references to pages that are not of tags. *)
Definition other_references (d : PlacesDb) : gmap Z Z := map_imap (λ id p, Some (p_foreign_count p - tag_count d id)) (moz_places d).

(** The tables that have nothing to do with tags. *)
Definition other_tables (d : PlacesDb) :=
  (moz_places_tombstones d, moz_places_stale_frecencies d, moz_bookmarks_deleted d, moz_origins d, moz_meta d,
   (moz_updateoriginsinsert_temp d, moz_updateoriginsdelete_temp d, moz_updateoriginsupdate_temp d),
   moz_inputhistory d, temp_sync_updated_meta d).

Record same_but_tags (d d' : PlacesDb) : Prop := {
  sbt_pages : p_set_foreign_count 0 <$> moz_places d' = p_set_foreign_count 0 <$> moz_places d;
  sbt_references : other_references d' = other_references d;
  sbt_visits : moz_historyvisits d' = moz_historyvisits d;
  sbt_bookmarks : b_set_syncChangeCounter 0 <$> moz_bookmarks d' = b_set_syncChangeCounter 0 <$> moz_bookmarks d;
  sbt_vtombs : moz_historyvisit_tombstones d' = moz_historyvisit_tombstones d;
  sbt_others : other_tables d' = other_tables d;
}.
Global Instance same_but_tags_preorder : PreOrder same_but_tags.
Proof. split; [by split|]. intros d1 d2 d3 [? ? ? ? ? ?] [? ? ? ? ? ?]. split; congruence. Qed.

Lemma sbt_field {A} (f : PlaceRow → A) d d' :
  (∀ p, f (p_set_foreign_count 0 p) = f p) → same_but_tags d d' → f <$> moz_places d' = f <$> moz_places d.
Proof.
  intros Hf Hsame. assert (Hfm : ∀ m : gmap Z PlaceRow, f <$> m = f <$> (p_set_foreign_count 0 <$> m)).
  { intros m. rewrite <-map_fmap_compose. apply map_fmap_ext. intros i p _. cbn. by rewrite Hf. }
  by rewrite (Hfm (moz_places d')), (Hfm (moz_places d)), (sbt_pages _ _ Hsame).
Qed.
Lemma sbt_stats d d' : same_but_tags d d' → stats_ok d → stats_ok d'.
Proof.
  intros Hsame Hst id p' Hp'. pose proof (f_equal (lookup id) (sbt_field stats_of _ _ (λ _, eq_refl) Hsame)) as Hl.
  rewrite !lookup_fmap, Hp' in Hl. destruct (moz_places d !! id) as [p|] eqn:Hp; [|done]. cbn in Hl. apply Some_inj in Hl.
  rewrite (sbt_visits _ _ Hsame). eapply page_ok_stats; [exact Hl|]. by apply Hst.
Qed.
Lemma sbt_wf d d' : same_but_tags d d' → hist_wf (abs d) → hist_wf (abs d').
Proof.
  intros Hsame Hwf. pose proof (sbt_field (λ p, (p_url p, p_guid p, p_url_hash p)) _ _ (λ _, eq_refl) Hsame) as Hkeys.
  assert (Hl : ∀ id pg', h_pages (abs d') !! id = Some pg' → ∃ pg, h_pages (abs d) !! id = Some pg ∧
    pg_url pg' = pg_url pg ∧ pg_guid pg' = pg_guid pg ∧ pg_hash pg' = pg_hash pg).
  { intros id pg' Hp. cbn in *. rewrite lookup_fmap in Hp. apply fmap_Some in Hp as (p' & Hp' & ->).
    apply (f_equal (lookup id)) in Hkeys. rewrite !lookup_fmap, Hp' in Hkeys.
    destruct (moz_places d !! id) as [p|] eqn:Hp; [|done]. injection Hkeys as Hu Hg Hh.
    exists (page_of p). by rewrite lookup_fmap, Hp. }
  assert (Hsome : ∀ id, is_Some (h_pages (abs d) !! id) → is_Some (h_pages (abs d') !! id)).
  { intros id. cbn. rewrite !lookup_fmap, !fmap_is_Some. apply (f_equal (lookup id)) in Hkeys.
    rewrite !lookup_fmap in Hkeys. destruct (moz_places d' !! id); [by eexists|]. by destruct (moz_places d !! id); [|intros []]. }
  split.
  - intros id pg' (pg & Hp & -> & _ & ->)%Hl. by apply (wf_page _ Hwf).
  - intros i p j q (p' & Hp & -> & _)%Hl (q' & Hq & -> & _)%Hl. by apply (wf_url _ Hwf).
  - intros i p j q (p' & Hp & _ & -> & _)%Hl (q' & Hq & _ & -> & _)%Hl. by apply (wf_guid _ Hwf).
  - intros i v Hv. cbn in Hv. rewrite (sbt_visits _ _ Hsame) in Hv. destruct (wf_visit _ Hwf i v Hv) as [? ?]. auto.
  - intros id t Ht. cbn in Ht. rewrite (sbt_vtombs _ _ Hsame) in Ht. apply Hsome. by eapply (wf_vtomb _ Hwf).
Qed.
Lemma sbt_pre d d' : same_but_tags d d' → hist_pre d → hist_pre d'.
Proof. intros Hsame [? ?]. split; [by eapply sbt_wf|by eapply sbt_stats]. Qed.

(** ** A row of the relation *)
Definition with_row (ins : bool) (x : Z * Z) (s : gset (Z * Z)) : gset (Z * Z) := if ins then s ∪ {[x]} else s ∖ {[x]}.
Definition relation_step (ins : bool) (t p now : Z) (d : PlacesDb) : PlacesDb :=
  bump_bookmarks p (add_foreign_count (if ins then 1 else -1) (Some p) (touch_tag t now (on_tags_relation (with_row ins (t, p)) d))).

Lemma tag_count_step (ins : bool) t p d id :
  (if ins then (t, p) ∉ moz_tags_relation d else (t, p) ∈ moz_tags_relation d) →
  tag_count (on_tags_relation (with_row ins (t, p)) d) id = tag_count d id + (if decide (p = id) then if ins then 1 else -1 else 0).
Proof.
  intros Hx. unfold tag_count. cbn. assert (Hf : ∀ (ins : bool) (s : gset (Z * Z)),
    filter (λ x, x.2 = id) (with_row ins (t, p) s) = if decide (p = id) then with_row ins (t, p) (filter (λ x, x.2 = id) s) else filter (λ x, x.2 = id) s).
  { intros b s. case_decide; destruct b; cbn; set_solver. }
  rewrite Hf. case_decide as Hp; [|lia]. destruct ins; cbn.
  - rewrite size_union; [rewrite size_singleton; lia|]. apply disjoint_singleton_r. by rewrite elem_of_filter; intros [_ ?].
  - assert (Hin : (t, p) ∈ filter (λ x : Z * Z, x.2 = id) (moz_tags_relation d)) by (by apply elem_of_filter).
    rewrite size_difference; [rewrite size_singleton|by apply singleton_subseteq_l].
    assert (Hne : size (filter (λ x : Z * Z, x.2 = id) (moz_tags_relation d)) ≠ 0%nat); [|lia].
    apply size_non_empty_iff. intros Hempty. by apply Hempty, not_elem_of_empty in Hin.
Qed.

Definition tag_names (d : PlacesDb) : gmap Z string := t_tag <$> moz_tags d.
Definition page_urls (d : PlacesDb) : gmap Z string := p_url <$> moz_places d.
(** [d'] is [d] with other tags on its pages. *)
Definition retagged (d d' : PlacesDb) (s : gset (Z * Z)) : Prop :=
  same_but_tags d d' ∧ tag_names d' = tag_names d ∧ moz_tags_relation d' = s.

Lemma relation_step_retags (ins : bool) t p now d :
  (if ins then (t, p) ∉ moz_tags_relation d else (t, p) ∈ moz_tags_relation d) →
  retagged d (relation_step ins t p now d) (with_row ins (t, p) (moz_tags_relation d)).
Proof.
  intros Hx. split; [split|split]; try done; cbn.
  - apply map_eq. intros i. rewrite !lookup_fmap. destruct (decide (p = i)) as [->|]; [rewrite lookup_alter_eq|by rewrite lookup_alter_ne].
    by destruct (moz_places d !! i).
  - apply map_eq. intros i. unfold other_references. rewrite !map_lookup_imap. cbn.
    change (tag_count (relation_step ins t p now d) i) with (tag_count (on_tags_relation (with_row ins (t, p)) d) i).
    rewrite tag_count_step by done. case_decide as Hi; [subst; rewrite lookup_alter_eq|rewrite lookup_alter_ne by done].
    + destruct (moz_places d !! i); cbn; [|done]. f_equal. destruct ins; lia.
    + destruct (moz_places d !! i); cbn; [|done]. f_equal. lia.
  - rewrite <-map_fmap_compose. apply map_fmap_ext. intros i b _. cbn. by destruct (bool_decide _).
  - unfold tag_names. cbn. apply map_eq. intros i. rewrite !lookup_fmap.
    destruct (decide (t = i)) as [->|]; [rewrite lookup_alter_eq|by rewrite lookup_alter_ne]. by destruct (moz_tags d !! i).
Qed.
Lemma retagged_trans d1 d2 d3 s s' : retagged d1 d2 s → retagged d2 d3 s' → retagged d1 d3 s'.
Proof. intros (? & ? & ?) (? & ? & ?). split; [by etrans|]. split; congruence. Qed.
Lemma retagged_same d : retagged d d (moz_tags_relation d).
Proof. done. Qed.

Section statements.
Context {W : Type} `{!UrlLib, !Clock W}.

Lemma relation_triggers_ok (ins : bool) t p d (Q : unit → PlacesDb → Prop) :
  (∀ now, Q tt (relation_step ins t p now d)) →
  ok_post (W:=W) (_ ← db_modify (on_tags_relation (with_row ins (t, p))); relation_triggers (if ins then 1 else -1) t p) d Q.
Proof.
  intros HQ. apply ok_post_bind, ok_post_modify. unfold relation_triggers, sql_now. apply ok_post_bind, ok_post_world. intros now.
  apply ok_post_bind, ok_post_modify. apply ok_post_bind, ok_post_modify. apply ok_post_modify. apply HQ.
Qed.

Lemma insert_relation_retags t p d :
  ok_post (W:=W) (insert_relation t p) d (λ _ d', retagged d d' (moz_tags_relation d ∪ {[(t, p)]})).
Proof.
  unfold insert_relation. apply ok_post_bind, ok_post_get. case_bool_decide as Hx.
  - apply ok_post_ret. split; [done|]. split; [done|]. set_solver.
  - apply (relation_triggers_ok true). intros now. by apply (relation_step_retags true).
Qed.

Lemma delete_relation_rows_retags l d :
  NoDup l → (∀ x, x ∈ l → x ∈ moz_tags_relation d) →
  ok_post (W:=W) (delete_relation_rows l) d (λ _ d', retagged d d' (moz_tags_relation d ∖ list_to_set l)).
Proof.
  revert d. induction l as [|[t p] l IH]; intros d Hnd Hin; cbn [delete_relation_rows].
  - apply ok_post_ret. split; [done|]. split; [done|]. set_solver.
  - apply NoDup_cons in Hnd as [Hx Hnd]. apply ok_post_bind_assoc.
    apply (relation_triggers_ok false). intros now. pose proof (relation_step_retags false t p now d (Hin _ (list_elem_of_here _ _))) as Hstep.
    eapply ok_post_weaken; [apply IH; [done|]|].
    + intros x Hl. destruct Hstep as (_ & _ & ->). cbn. set_solver.
    + intros [] d' Hd'. pose proof (retagged_trans _ _ _ _ _ Hstep Hd') as Ht. destruct Hstep as (_ & _ & Hs). rewrite Hs in Ht.
      replace (moz_tags_relation d ∖ list_to_set ((t, p) :: l)) with (with_row false (t, p) (moz_tags_relation d) ∖ list_to_set l) by (cbn; set_solver).
      exact Ht.
Qed.

Lemma delete_relations_retags sel d :
  ok_post (W:=W) (delete_relations sel) d (λ _ d', retagged d d' (filter (λ x, sel x.1 x.2 = false) (moz_tags_relation d))).
Proof.
  unfold delete_relations. apply ok_post_bind, ok_post_get.
  eapply ok_post_weaken; [apply delete_relation_rows_retags|].
  - apply NoDup_ListNoDup, List.NoDup_filter, NoDup_ListNoDup, NoDup_elements.
  - intros [t p] [Hx _]%list_elem_of_In%filter_In. by apply list_elem_of_In, elem_of_elements in Hx.
  - intros [] d' Hd'. replace (filter _ _) with (moz_tags_relation d ∖ list_to_set (List.filter (λ '(t, p), sel t p) (elements (moz_tags_relation d)))); [done|].
    apply set_eq. intros [t p]. rewrite elem_of_difference, elem_of_list_to_set, list_elem_of_In, filter_In, <-list_elem_of_In, elem_of_elements, elem_of_filter.
    cbn. destruct (sel t p); naive_solver.
Qed.
End statements.

(** ** The tags of URLs

    The abstract state: which URL has which tag. *)
Definition pairs_of (names urls : gmap Z string) (s : gset (Z * Z)) : gset (string * string) :=
  list_to_set (omap (λ '(t, p), n ← names !! t; u ← urls !! p; Some (n, u)) (elements s)).
Definition tag_pairs (d : PlacesDb) : gset (string * string) := pairs_of (tag_names d) (page_urls d) (moz_tags_relation d).

(** Names are unique, and the relation is between rows that are there. *)
Record tags_ok (d : PlacesDb) : Prop := {
  to_name i j n : tag_names d !! i = Some n → tag_names d !! j = Some n → i = j;
  to_rows t p : (t, p) ∈ moz_tags_relation d → is_Some (tag_names d !! t) ∧ is_Some (page_urls d !! p);
}.

Lemma elem_of_pairs n u names urls s :
  (n, u) ∈ pairs_of names urls s ↔ ∃ t p, (t, p) ∈ s ∧ names !! t = Some n ∧ urls !! p = Some u.
Proof.
  unfold pairs_of. rewrite elem_of_list_to_set, list_elem_of_omap. split.
  - intros ([t p] & Hx%elem_of_elements & Hb). exists t, p.
    destruct (names !! t); cbn in Hb; [|done]. destruct (urls !! p); cbn in Hb; [|done]. by injection Hb as -> ->.
  - intros (t & p & Hx & Hn & Hu). exists (t, p). split; [by apply elem_of_elements|]. cbn. by rewrite Hn, Hu.
Qed.
Lemma pairs_ext names names' urls s :
  (∀ t p, (t, p) ∈ s → names' !! t = names !! t) → pairs_of names' urls s = pairs_of names urls s.
Proof.
  intros Hext. apply set_eq. intros [n u]. rewrite !elem_of_pairs.
  split; intros (t & p & Hx & Hn & Hu); exists t, p; split_and!; [done| |done|done| |done].
  - by rewrite <-(Hext t p Hx).
  - by rewrite (Hext t p Hx).
Qed.
Lemma pairs_filter (sel : Z → Z → bool) (P : string * string → Prop) `{!∀ x, Decision (P x)} names urls s :
  (∀ t p n u, names !! t = Some n → urls !! p = Some u → sel t p = false ↔ P (n, u)) →
  pairs_of names urls (filter (λ x, sel x.1 x.2 = false) s) = filter P (pairs_of names urls s).
Proof.
  intros Hsel. apply set_eq. intros [n u]. rewrite elem_of_filter, !elem_of_pairs. split.
  - intros (t & p & [Hs Hx]%elem_of_filter & Hn & Hu). split; [by apply (Hsel t p)|eauto].
  - intros [HP (t & p & Hx & Hn & Hu)]. exists t, p. split; [|done]. apply elem_of_filter. split; [|done]. by apply (Hsel t p n u).
Qed.

Lemma retagged_ok d d' s : retagged d d' s → (∀ x, x ∈ s → x ∈ moz_tags_relation d) → tags_ok d → tags_ok d'.
Proof.
  intros (Hsame & Hn & Hs) Hsub Hok. pose proof (sbt_field p_url _ _ (λ _, eq_refl) Hsame : page_urls d' = page_urls d) as Hu.
  split; rewrite Hn, ?Hu; [apply (to_name _ Hok)|]. intros t p Hx. apply (to_rows _ Hok), Hsub. by rewrite <-Hs.
Qed.
Lemma retagged_pairs d d' s : retagged d d' s → tag_pairs d' = pairs_of (tag_names d) (page_urls d) s.
Proof.
  intros (Hsame & Hn & Hs). unfold tag_pairs. rewrite Hn, Hs. f_equal. exact (sbt_field p_url _ _ (λ _, eq_refl) Hsame).
Qed.

Lemma find_tag_iff d tag t : tags_ok d → find_tag d tag = Some t ↔ tag_names d !! t = Some tag.
Proof.
  intros Hok. unfold find_tag. destruct (select_first _ _) as [[i r]|] eqn:Hsel; cbn.
  - apply select_first_Some in Hsel as [Hr Ht%String.eqb_eq]. assert (Hi : tag_names d !! i = Some tag).
    { unfold tag_names. rewrite lookup_fmap, Hr. cbn. by rewrite Ht. }
    split; [by intros [= <-]|]. intros Hn. by rewrite (to_name _ Hok i t tag).
  - split; [done|]. unfold tag_names. rewrite lookup_fmap. intros (r & Hr & ->)%fmap_Some.
    apply (select_first_None _ _ t r) in Hsel; [|done]. cbn in Hsel. by rewrite String.eqb_refl in Hsel.
Qed.

Section operations.
Context {W : Type} `{!UrlLib, !Clock W}.

Lemma find_place_ok (u : Url) d :
  hist_wf (abs d) → ok_post (W:=W) (find_place u) d (λ o d', d' = d ∧
    ∀ p url, page_urls d !! p = Some url → (o = Some p ↔ url = url_as_str u)).
Proof.
  intros Hwf. unfold find_place. apply ok_post_bind, ok_post_lift. intros hash Hhash.
  apply ok_post_bind, ok_post_get. apply ok_post_ret. split; [done|]. intros p url.
  unfold page_urls. rewrite lookup_fmap. intros (r & Hr & ->)%fmap_Some.
  destruct (select_first _ _) as [[i q]|] eqn:Hsel; cbn.
  - apply select_first_Some in Hsel as [Hq Hh]. rewrite (has_url_eq d _ _ i q) in Hh by done. apply String.eqb_eq in Hh. split.
    + intros [= <-]. congruence.
    + intros Hu. rewrite (wf_url _ Hwf i (page_of q) p (page_of r)); [done|cbn; rewrite lookup_fmap; by simplify_option_eq..|cbn; congruence].
  - split; [done|]. intros Hu. apply (select_first_None _ _ p r) in Hsel; [|done].
    rewrite (has_url_eq d _ _ p r) in Hsel by done. by rewrite Hu, String.eqb_refl in Hsel.
Qed.
Lemma reads_find_place (u : Url) : reads (W:=W) (find_place u).
Proof. repeat (apply reads_bind; [apply reads_lift||apply reads_get|intros ?]). apply reads_ret. Qed.

Lemma insert_tag_ok tag d :
  tags_ok d → ok_post (W:=W) (insert_tag tag) d (λ _ d', same_but_tags d d' ∧ tags_ok d' ∧ tag_pairs d' = tag_pairs d).
Proof.
  intros Hok. unfold insert_tag, sql_now. apply ok_post_bind, ok_post_world. intros now. apply ok_post_modify.
  destruct (find_tag d tag) as [t|] eqn:Hf; [done|].
  assert (Hfresh : tag_names d !! next_rowid (moz_tags d) = None).
  { unfold tag_names. by rewrite lookup_fmap, next_rowid_fresh. }
  assert (Hnames : tag_names (on_tags (λ m, <[next_rowid m:=mkTagRow tag now]> m) d) = <[next_rowid (moz_tags d) := tag]> (tag_names d)).
  { unfold tag_names. cbn. by rewrite fmap_insert. }
  assert (Hnew : ∀ i, tag_names d !! i ≠ Some tag).
  { intros i Hi%find_tag_iff; [congruence|done]. }
  split; [by split|]. split; [split|].
  - rewrite Hnames. intros i j n. rewrite !lookup_insert_Some. intros [[<- <-]|[Hi Hin]] [[<- Hj]|[Hj Hjn]]; [done|by destruct (Hnew j)|by subst; destruct (Hnew i)|].
    by apply (to_name _ Hok _ _ n).
  - rewrite Hnames. intros t p Hx. destruct (to_rows _ Hok t p Hx) as [Ht Hp]. split; [|done]. rewrite lookup_insert_is_Some'. by right.
  - unfold tag_pairs. rewrite Hnames. apply pairs_ext. intros t p Hx. destruct (to_rows _ Hok t p Hx) as [[n Ht] _].
    apply lookup_insert_ne. congruence.
Qed.
End operations.

Inductive TagOp `{!UrlLib} := OTag (url : Url) (tag : string) | OUntag (url : Url) (tag : string) | ORemoveAll (url : Url) | ORemoveTag (tag : string).

Section refinement.
Context {W : Type} `{!UrlLib, !Clock W}.

Definition run_tag_op (o : TagOp) : ST (PlacesDb * W) PlacesError unit :=
  match o with
  | OTag u tag => tag_url u tag
  | OUntag u tag => untag_url u tag
  | ORemoveAll u => remove_all_tags_from_url u
  | ORemoveTag tag => remove_tag tag
  end.
(** What they do to the set of tagged URLs; the first two see tags without the white space around them. *)
Definition tag_spec (o : TagOp) (s s' : gset (string * string)) : Prop :=
  match o with
  | OTag u tag => ∃ t, ensure_valid (validate_tag tag) = Ok t ∧ s' = s ∪ {[(t, url_as_str u)]}
  | OUntag u tag => ∃ t, ensure_valid (validate_tag tag) = Ok t ∧ s' = s ∖ {[(t, url_as_str u)]}
  | ORemoveAll u => s' = filter (λ x, x.2 ≠ url_as_str u) s
  | ORemoveTag tag => s' = filter (λ x, x.1 ≠ tag) s
  end.
Definition tag_post (o : TagOp) (d d' : PlacesDb) : Prop :=
  tags_ok d' ∧ same_but_tags d d' ∧ tag_spec o (tag_pairs d) (tag_pairs d').

(** Rows that are deleted from the relation are pairs that are deleted. *)
Lemma delete_pairs sel (P : string * string → Prop) `{!∀ x, Decision (P x)} d :
  tags_ok d → (∀ t p n u, tag_names d !! t = Some n → page_urls d !! p = Some u → sel t p = false ↔ P (n, u)) →
  ok_post (W:=W) (transaction (delete_relations sel)) d (λ _ d', tags_ok d' ∧ same_but_tags d d' ∧ tag_pairs d' = filter P (tag_pairs d)).
Proof.
  intros Hok Hsel. apply ok_post_transaction. eapply ok_post_weaken; [apply delete_relations_retags|]. intros [] d' Hd'.
  split; [|split; [apply Hd'|]].
  - eapply retagged_ok; [exact Hd'| |done]. set_solver.
  - rewrite (retagged_pairs _ _ _ Hd'). by apply pairs_filter.
Qed.

Lemma tag_url_ok u tag d : hist_pre d → tags_ok d → ok_post (W:=W) (tag_url u tag) d (λ _ d', tag_post (OTag u tag) d d').
Proof.
  intros Hpre Hok. unfold tag_url. apply ok_post_bind, ok_post_lift. intros t Ht. apply ok_post_transaction, ok_post_bind.
  eapply ok_post_weaken; [by apply fetch_page_info_finds|]. intros [info|] d0 [-> Hinfo]; [|apply ok_post_err].
  destruct Hinfo as (p & Hp & Hu). apply ok_post_bind. eapply ok_post_weaken; [by apply insert_tag_ok|].
  intros [] d1 (Hs1 & Hok1 & Hpairs1). apply ok_post_bind, ok_post_get.
  destruct (find_tag d1 t) as [tid|] eqn:Hf; [|apply ok_post_err]. apply find_tag_iff in Hf; [|done].
  assert (Hrow : page_urls d1 !! pi_row_id (page info) = Some (url_as_str u)).
  { unfold page_urls. rewrite (sbt_field p_url _ _ (λ _, eq_refl) Hs1), lookup_fmap, Hp. cbn. by rewrite Hu. }
  eapply ok_post_weaken; [apply insert_relation_retags|]. intros [] d2 Hd2. pose proof Hd2 as (Hs2 & Hn2 & Hr2).
  split; [|split; [by etrans|]].
  - split; rewrite Hn2; [apply (to_name _ Hok1)|]. intros i j. rewrite Hr2.
    change (page_urls d2) with (p_url <$> moz_places d2). rewrite (sbt_field p_url _ _ (λ _, eq_refl) Hs2).
    intros [Hx|Hx%elem_of_singleton]%elem_of_union; [by apply (to_rows _ Hok1)|]. injection Hx as -> ->. split; [by eexists|by eexists].
  - exists t. split; [done|]. rewrite (retagged_pairs _ _ _ Hd2), <-Hpairs1. apply set_eq. intros [n v].
    rewrite elem_of_union, elem_of_singleton. unfold tag_pairs. rewrite !elem_of_pairs. split.
    + intros (i & j & [Hx|Hx%elem_of_singleton]%elem_of_union & Hi & Hj); [left; eauto|]. injection Hx as -> ->. right. congruence.
    + intros [(i & j & Hx & Hij)|[= -> ->]]; [exists i, j; split; [set_solver|done]|]. exists tid, (pi_row_id (page info)). split; [set_solver|done].
Qed.

Lemma untag_url_ok u tag d : hist_pre d → tags_ok d → ok_post (W:=W) (untag_url u tag) d (λ _ d', tag_post (OUntag u tag) d d').
Proof.
  intros [Hwf _] Hok. unfold untag_url. apply ok_post_bind, ok_post_lift. intros t Ht. apply ok_post_bind.
  eapply ok_post_weaken; [by apply find_place_ok|]. intros place d0 [-> Hplace]. apply ok_post_bind, ok_post_get.
  eapply ok_post_weaken; [apply (delete_pairs _ (λ x, x ≠ (t, url_as_str u)))|]; [done| |].
  - intros i p n v Hi Hp. rewrite andb_false_iff, !bool_decide_eq_false, find_tag_iff, (Hplace p v Hp) by done. rewrite Hi.
    destruct (decide (n = t)), (decide (v = url_as_str u)); subst; naive_solver.
  - intros [] d' (Hok' & Hsame & Hpairs). split; [done|]. split; [done|]. exists t. split; [done|]. rewrite Hpairs. set_solver.
Qed.

Lemma remove_all_ok u d : hist_pre d → tags_ok d → ok_post (W:=W) (remove_all_tags_from_url u) d (λ _ d', tag_post (ORemoveAll u) d d').
Proof.
  intros [Hwf _] Hok. unfold remove_all_tags_from_url. apply ok_post_bind.
  eapply ok_post_weaken; [by apply find_place_ok|]. intros place d0 [-> Hplace].
  eapply ok_post_weaken; [by apply (delete_pairs _ (λ x, x.2 ≠ url_as_str u)); [|intros i p n v Hi Hp; rewrite bool_decide_eq_false, (Hplace p v Hp)]|].
  by intros [] d' (Hok' & Hsame & Hpairs).
Qed.

Lemma remove_tag_ok tag d : tags_ok d → ok_post (W:=W) (remove_tag tag) d (λ _ d', tag_post (ORemoveTag tag) d d').
Proof.
  intros Hok. unfold remove_tag. apply ok_post_bind, ok_post_get. destruct (find_tag d tag) as [tid|] eqn:Hf.
  - apply ok_post_transaction, ok_post_bind, ok_post_modify. eapply ok_post_weaken; [apply delete_relations_retags|].
    intros [] d' (Hs & Hn & Hr). cbn in Hr. assert (Hsame : same_but_tags d d') by (destruct Hs; by split).
    assert (Hnames : tag_names d' = delete tid (tag_names d)) by (rewrite Hn; unfold tag_names; cbn; by rewrite fmap_delete).
    pose proof (sbt_field p_url _ _ (λ _, eq_refl) Hsame : page_urls d' = page_urls d) as Hu.
    apply find_tag_iff in Hf; [|done]. split; [split|split; [done|]].
    + rewrite Hnames. intros i j n [_ Hi]%lookup_delete_Some [_ Hj]%lookup_delete_Some. by apply (to_name _ Hok _ _ n).
    + rewrite Hnames, Hu, Hr. intros i p [Hx Hin]%elem_of_filter. cbn in Hx. rewrite lookup_delete_ne by lia. by apply (to_rows _ Hok).
    + cbn. unfold tag_pairs. rewrite Hnames, Hu, Hr. rewrite (pairs_ext (tag_names d)).
      * apply (pairs_filter (λ i _, i =? tid)). intros i p n v Hi Hp. rewrite Z.eqb_neq. cbn. split; [|congruence].
        intros Hne ->. apply Hne. by apply (to_name _ Hok _ _ tag).
      * intros i p [Hx _]%elem_of_filter. cbn in Hx. apply lookup_delete_ne. lia.
  - apply ok_post_ret. split; [done|]. split; [done|]. apply set_eq. intros [n v]. rewrite elem_of_filter. cbn.
    split; [|by intros []]. intros Hx. split; [|done]. intros ->. unfold tag_pairs in Hx. apply elem_of_pairs in Hx as (i & p & _ & Hi & _).
    apply find_tag_iff in Hi; [congruence|done].
Qed.

Lemma run_tag_op_ok o d : hist_pre d → tags_ok d → ok_post (run_tag_op o) d (λ _ d', tag_post o d d').
Proof. intros Hpre Hok. destruct o; [by apply tag_url_ok|by apply untag_url_ok|by apply remove_all_ok|by apply remove_tag_ok]. Qed.

(** C20: tags are a set of pairs of a name and a URL.  Tagging a page that is known adds exactly
    the pair of the tag, without the white space around it, and the URL; untagging removes
    exactly that pair, and the other two operations remove exactly the pairs of the URL, or of
    the tag as it is given.  None touches visits, tombstones, metadata and the other tables, the rest of the
    pages and bookmarks (but for the sync counters of the bookmarks of a page) or the
    references to pages that are not of tags, and one that fails changes nothing. *)
Theorem tags_refine_pairs o d w r d' w' :
  hist_pre d → tags_ok d → run_tag_op o (d, w) = (r, (d', w')) →
  match r with
  | Ok _ => tags_ok d' ∧ hist_pre d' ∧ same_but_tags d d' ∧ tag_spec o (tag_pairs d) (tag_pairs d')
  | _ => d' = d
  end.
Proof.
  intros Hpre Hok Hrun. assert (Hrb : rolls_back (run_tag_op o)).
  { destruct o; cbn; repeat first [apply rolls_back_lift; intros ?|apply rolls_back_transaction
      |apply rolls_back_reads; [apply reads_find_place||apply reads_get|intros ?]].
    destruct (find_tag _ _); [apply rolls_back_transaction|apply rolls_back_of_reads, reads_ret]. }
  destruct r as [[]|e|m]; [|by apply (Hrb _ _ _ _ _ Hrun)..].
  pose proof (run_tag_op_ok o d Hpre Hok w tt d' w' Hrun) as Hpost.
  destruct Hpost as (? & Hsame & ?). split_and!; [done|by eapply sbt_pre|done|done].
Qed.
End refinement.

(** ** The queries *)
Section queries.
Context {W : Type} `{!UrlLib, !Clock W}.

Lemma later_modified_total : Total later_modified.
Proof. intros x y. unfold later_modified. lia. Qed.
Lemma elem_of_selected_rows {A} (sel : Z → bool) (m : gmap Z A) id r :
  (id, r) ∈ List.filter (λ '(id, _), sel id) (rows m) ↔ m !! id = Some r ∧ sel id = true.
Proof. by rewrite list_elem_of_In, filter_In, <-list_elem_of_In, elem_of_rows. Qed.

(** The tags that are listed for a URL are exactly those that it has, each once, from the one
    that was modified last to the one that was modified first. *)
Theorem tags_of_url_are_listed (u : Url) d w :
  hist_pre d → tags_ok d → (∃ h, hash_url (E:=PlacesError) (url_as_str u) = Ok h) →
  ∃ l : list (Z * TagRow),
    get_tags_for_url (W:=W) u (d, w) = (Ok ((λ x, t_tag x.2) <$> l), (d, w)) ∧
    NoDup ((λ x, t_tag x.2) <$> l) ∧ Sorted later_modified l ∧ Forall (λ '(id, r), moz_tags d !! id = Some r) l ∧
    ∀ tag, tag ∈ (λ x, t_tag x.2) <$> l ↔ (tag, url_as_str u) ∈ tag_pairs d.
Proof.
  intros [Hwf _] Hok [h Hh]. assert (Hhash : sql_hash (url_as_str u) = Ok h) by (unfold sql_hash; by rewrite Hh).
  assert (Hrun : ∃ place, find_place (W:=W) u (d, w) = (Ok place, (d, w))).
  { unfold find_place, mbind, ST_bind. rewrite Hhash. cbn. by eexists. }
  destruct Hrun as [place Hrun]. destruct (find_place_ok u d Hwf w place d w Hrun) as [_ Hplace].
  set (of_place t := match place with Some p => bool_decide ((t, p) ∈ moz_tags_relation d) | None => false end).
  set (l := merge_sort later_modified (List.filter (λ '(id, _), of_place id) (rows (moz_tags d)))).
  assert (Hl : ∀ id r, (id, r) ∈ l ↔ moz_tags d !! id = Some r ∧ of_place id = true).
  { intros id r. unfold l. rewrite merge_sort_Permutation. apply elem_of_selected_rows. }
  exists l. split; [|split; [|split; [|split]]].
  - unfold get_tags_for_url. rewrite (st_bind_run _ _ _ _ _ Hrun). unfold mbind, ST_bind. cbn. unfold mret, ST_ret. do 2 f_equal.
    by apply list_fmap_ext; intros ? [? ?].
  - apply NoDup_fmap_2_strong.
    + intros [i a] [j b] [Ha _]%Hl [Hb _]%Hl Heq. cbn in Heq. assert (i = j) as ->; [|congruence].
      apply (to_name _ Hok _ _ (t_tag a)); unfold tag_names; rewrite lookup_fmap; [by rewrite Ha|rewrite Hb; cbn; by rewrite Heq].
    + unfold l. rewrite merge_sort_Permutation. apply NoDup_ListNoDup, List.NoDup_filter, NoDup_ListNoDup, NoDup_rows.
  - unfold l. apply Sorted_merge_sort, later_modified_total.
  - apply Forall_forall. by intros [id r] [? _]%Hl.
  - intros tag. unfold tag_pairs. rewrite list_elem_of_fmap, elem_of_pairs. split.
    + intros ([i r] & -> & [Hr Hof]%Hl). unfold of_place in Hof. destruct place as [p|]; [|done]. apply bool_decide_eq_true in Hof.
      exists i, p. split; [done|]. split; [unfold tag_names; by rewrite lookup_fmap, Hr|].
      destruct (to_rows _ Hok _ _ Hof) as [_ [v Hv]]. rewrite Hv. f_equal. by apply (Hplace p v).
    + intros (i & p & Hx & Hn & Hp). apply (Hplace p) in Hp as Hp'. destruct Hp' as [_ Hp']. specialize (Hp' eq_refl).
      unfold tag_names in Hn. rewrite lookup_fmap in Hn. apply fmap_Some in Hn as (r & Hr & ->). exists (i, r). split; [done|].
      apply Hl. split; [done|]. unfold of_place. rewrite Hp'. by apply bool_decide_eq_true.
Qed.
End queries.

Module ToyTags.
Import ToyPlaces ToyHistory.
Definition run_tag (o : TagOp) (s : PlacesDb * nat) : PlacesDb * nat := snd (run_tag_op (W:=nat) o s).
Definition a_com : Url := "http://a.com/"%string.
Definition b_com : Url := "http://b.com/"%string.
Definition o1 : TagOp := OTag a_com " red ".
Definition o2 : TagOp := OTag a_com "blue".
Definition o3 : TagOp := OTag b_com "red".
Definition o4 : TagOp := OUntag a_com "red".
(** Two pages, two tags, the first with white space around it. *)
Definition g1 : PlacesDb * nat := run_tag o1 s3.
Definition g2 : PlacesDb * nat := run_tag o2 g1.
Definition g3 : PlacesDb * nat := run_tag o3 g2.
Definition g4 : PlacesDb * nat := run_tag o4 g3.

Lemma s3_tags_ok : tags_ok (fst s3).
Proof. split; [intros i j n|intros t p]; vm_compute; by intros ?. Qed.
Lemma tagged_ok o s :
  is_ok (fst (run_tag_op (W:=nat) o s)) = true → hist_pre (fst s) → tags_ok (fst s) → hist_pre (fst (run_tag o s)) ∧ tags_ok (fst (run_tag o s)).
Proof.
  destruct s as [d w]. unfold run_tag. destruct (run_tag_op o (d, w)) as [[[]|e|m] [d' w']] eqn:Hrun; [|done..]. cbn. intros _ Hpre Hok.
  pose proof (run_tag_op_ok o d Hpre Hok w tt d' w' Hrun) as Hpost.
  destruct Hpost as (? & Hsame & _). split; [by eapply sbt_pre|done].
Qed.
Lemma g3_ok : hist_pre (fst g3) ∧ tags_ok (fst g3).
Proof.
  destruct s3_ok as [Hpre _]. pose proof s3_tags_ok as Hok.
  destruct (tagged_ok o1 s3) as [H1 H1']; [vm_compute; reflexivity|done..|].
  destruct (tagged_ok o2 g1) as [H2 H2']; [vm_compute; reflexivity|done..|].
  apply (tagged_ok o3 g2); [vm_compute; reflexivity|done..].
Qed.

Lemma tags_refine_pairs_witness :
  tag_spec o4 (tag_pairs (fst g3)) (tag_pairs (fst g4)) ∧
  elements (tag_pairs (fst g4)) = [("red", "http://b.com/"); ("blue", "http://a.com/")]%string.
Proof.
  split; [|vm_compute; reflexivity].
  assert (Hrun : run_tag_op (W:=nat) o4 (fst g3, snd g3) = (Ok tt, (fst g4, snd g4)))
    by (vm_compute; reflexivity).
  destruct g3_ok as [Hpre Hok]. pose proof (tags_refine_pairs _ _ _ _ _ _ Hpre Hok Hrun) as (_ & _ & _ & Hspec). exact Hspec.
Defined.

Lemma tags_of_url_are_listed_witness :
  (∃ l : list (Z * TagRow), get_tags_for_url (W:=nat) a_com (fst g3, 0%nat) = (Ok ((λ x, t_tag x.2) <$> l), (fst g3, 0%nat)) ∧
    ∀ tag, tag ∈ (λ x, t_tag x.2) <$> l ↔ (tag, "http://a.com/"%string) ∈ tag_pairs (fst g3)) ∧
  fst (get_tags_for_url (W:=nat) a_com (fst g3, 0%nat)) = Ok ["red"; "blue"]%string.
Proof.
  split; [|vm_compute; reflexivity]. destruct g3_ok as [Hpre Hok].
  destruct (tags_of_url_are_listed (W:=nat) a_com (fst g3) 0%nat Hpre Hok) as (l & Hrun & _ & _ & _ & Hl).
  - eexists. vm_compute. reflexivity.
  - exists l. split; [exact Hrun|exact Hl].
Defined.

(** A tag that was added with white space around it is not removed by the same words. *)
Theorem remove_tag_does_not_normalize :
  snd (run_tag_op (W:=nat) (ORemoveTag " red ") g1) = g1 ∧
  elements (tag_pairs (fst g1)) = [("red", "http://a.com/")]%string ∧
  tag_pairs (fst (run_tag (OUntag a_com " red ") g1)) = ∅.
Proof. split_and!; vm_compute; reflexivity. Qed.
End ToyTags.
