(* ===== verification/PushCrypto.v ===== *)
(** * Push: errors, keys and the decryption of messages

    Model of [components/push/src/error.rs] and [crypto.rs].  The elliptic-curve keys and the
    message encryption of the crate [ece], and base64, are parameters. *)

From S2P Require Import Prelude KeyBundle Viaduct.
From Stdlib Require Import Ascii String.
From stdpp Require Import strings list.
Local Open Scope Z_scope.
Local Open Scope list_scope.

(** ** error.rs *)
Module PushErr.
Inductive ErrorKind :=
| GeneralError (s : string)
| InternalError (s : string)
| CryptoError (s : string)
| OpenSSLError (s : string)
| CommunicationError (s : string)
| CommunicationServerError (s : string)
| AlreadyRegisteredError
| StorageError (s : string)
| StorageSqlError (s : string)
| MissingRegistrationTokenError
| TranscodingError (s : string)
| EncryptionError (s : string)
| UrlParseError (s : string).

Definition error_code (self : ErrorKind) : Z :=
  match self with
  | GeneralError _ => 22
  | InternalError _ => 23
  | OpenSSLError _ => 24
  | CommunicationError _ => 25
  | CommunicationServerError _ => 26
  | AlreadyRegisteredError => 27
  | StorageError _ => 28
  | StorageSqlError _ => 29
  | MissingRegistrationTokenError => 30
  | TranscodingError _ => 31
  | EncryptionError _ => 32
  | UrlParseError _ => 33
  | CryptoError _ => 34
  end.
End PushErr.
Import PushErr.

(** ** Code outside the repository *)
Class Ece := {
  (** [LocalKeyPairImpl] with [new], [to_raw], [pub_as_raw], and from a DER-encoded key. *)
  LocalKeyPair : Type;
  kp_new : bytes → res string LocalKeyPair;
  kp_to_raw : LocalKeyPair → bytes;
  kp_pub_as_raw : LocalKeyPair → res string bytes;
  kp_from_der : bytes → res string LocalKeyPair;
  (** [AesGcmEncryptedBlock::new], and the two decryptions. *)
  AesGcmBlock : Type;
  aesgcm_block_new : bytes → bytes → Z → bytes → res string AesGcmBlock;
  aesgcm_decrypt : LocalKeyPair → bytes → AesGcmBlock → res string bytes;
  aes128gcm_decrypt : LocalKeyPair → bytes → bytes → res string bytes;
  (** [base64::decode_config(.., URL_SAFE_NO_PAD)]. *)
  base64_decode_url : string → res string bytes;
}.
(** [LocalKeyPairImpl::generate_random]. *)
Class EceRand `{!Ece} (W : Type) := kp_generate_random : ST W string LocalKeyPair.

(** A key pair is made from its raw private key, which has 32 bytes. *)
Class EceLaws `{!Ece} := {
  kp_new_raw k : kp_new (kp_to_raw k) = Ok k;
  kp_raw_new b k : kp_new b = Ok k → kp_to_raw k = b;
  kp_raw_length k : length (kp_to_raw k) = 32%nat;
}.

Definition SER_AUTH_LENGTH : nat := 16.

(** [b[i]] and [&b[start..end]]. *)
Definition index_u8 (b : bytes) (i : nat) : res ErrorKind nat :=
  match b !! i with Some c => Ok (nat_of_ascii c) | None => Panic "index out of bounds" end.
Definition byte_range (b : bytes) (start end_ : nat) : res ErrorKind bytes :=
  if Nat.leb end_ (length b) then Ok (take (end_ - start) (drop start b)) else Panic "range end index out of range for slice".
(** [n as u8]. *)
Definition as_u8 (n : nat) : ascii := ascii_of_nat (n mod 256).

(** [str::split] and [str::contains]. *)
Fixpoint split_on (p : ascii → bool) (b : bytes) : list bytes :=
  match b with
  | [] => [[]]
  | c :: r =>
      if p c then [] :: split_on p r
      else match split_on p r with [] => [[c]] | h :: t => (c :: h) :: t end
  end.
Fixpoint contains_bytes (needle hay : bytes) : bool :=
  bool_decide (take (length needle) hay = needle) || match hay with [] => false | _ :: r => contains_bytes needle r end.

Section crypto.
Context `{!Ece}.

Record Key := mkKey { k_private : LocalKeyPair; k_public : bytes; k_auth : bytes }.

Definition Key_eq (self other : Key) : bool :=
  bool_decide (kp_to_raw (k_private self) = kp_to_raw (k_private other))
  && bool_decide (k_public self = k_public other) && bool_decide (k_auth self = k_auth other).

Definition serialize (self : Key) : res ErrorKind bytes :=
  let keypv := kp_to_raw (k_private self) in
  let pvlen := length keypv in
  Ok (as_u8 1 :: as_u8 (length (k_auth self)) :: k_auth self ++ as_u8 pvlen :: keypv).

Definition deserialize (raw : bytes) : res ErrorKind Key :=
  version ← index_u8 raw 0;
  if negb (Nat.eqb version 1) then Err (EncryptionError "Unknown Key Serialization version")
  else
    let start := 1%nat in
    l ← index_u8 raw start;
    let start := (start + 1)%nat in
    let end_ := (start + l)%nat in
    auth ← byte_range raw start end_;
    l ← index_u8 raw end_;
    let start := (end_ + 1)%nat in
    let end_ := (start + l)%nat in
    raw_private ← byte_range raw start end_;
    private ← map_err (λ e, EncryptionError ("Could not reinstate key " ++ e)) (kp_new raw_private);
    pubkey ← map_err (λ e, EncryptionError ("Could not dump public key: " ++ e)) (kp_pub_as_raw private);
    Ok (mkKey private pubkey auth).

(** The value of [target] in a header of values [label=value]. *)
Definition is_separator (c : ascii) : bool := Ascii.eqb c "," || Ascii.eqb c ";".
Fixpoint find_value (target : bytes) (items : list bytes) : res ErrorKind (option bytes) :=
  match items with
  | [] => Ok None
  | item :: items =>
      match split_on (Ascii.eqb "="%char) item with
      | name :: kv =>
          if bool_decide (name = target) then
            match kv with
            | value :: _ => Ok match base64_decode_url (string_of_list_ascii value) with Ok v => Some v | _ => None end
            | [] => Panic "index out of bounds"
            end
          else find_value target items
      | [] => Panic "index out of bounds"
      end
  end.
Definition extract_value (str : option string) (target : string) : res ErrorKind (option bytes) :=
  match str with
  | None => Ok None
  | Some val =>
      if negb (contains_bytes (as_bytes target ++ ["="%char]) (as_bytes val)) then Ok None
      else find_value (as_bytes target) (split_on is_separator (as_bytes val))
  end.

Definition get_bytes {W} `{!Rand W} (size : nat) : ST W ErrorKind bytes := st_map_err CryptoError (rand_fill size).

Definition generate_key {W} `{!Rand W, !EceRand W} : ST W ErrorKind Key :=
  key ← st_map_err (λ e, EncryptionError ("Could not generate key: " ++ e)) kp_generate_random;
  auth ← get_bytes SER_AUTH_LENGTH;
  public ← st_lift (map_err (λ e, EncryptionError ("Could not dump public key: " ++ e)) (kp_pub_as_raw key));
  mret (mkKey key public auth).

(** [Result::unwrap]. *)
Definition unwrap_res {E A} (r : res string A) : res E A :=
  match r with Ok a => Ok a | Err e => Panic ("called `Result::unwrap()` on an `Err` value: " ++ e) | Panic m => Panic m end.
Definition test_key (priv_key pub_key auth : string) : res ErrorKind Key :=
  der ← unwrap_res (base64_decode_url priv_key);
  private ← unwrap_res (kp_from_der der);
  public ← unwrap_res (base64_decode_url pub_key);
  auth ← unwrap_res (base64_decode_url auth);
  Ok (mkKey private public auth).

Definition decrypt_aesgcm (key : Key) (content : bytes) (salt crypto_key : option bytes) : res ErrorKind bytes :=
  match crypto_key with
  | None => Err (EncryptionError "Missing public key")
  | Some dh =>
      match salt with
      | None => Err (EncryptionError "Missing salt")
      | Some salt =>
          block ← map_err (λ e, EncryptionError ("Could not create block: " ++ e)) (aesgcm_block_new dh salt 4096 content);
          map_err OpenSSLError (aesgcm_decrypt (k_private key) (k_auth key) block)
      end
  end.
Definition decrypt_aes128gcm (key : Key) (content : bytes) : res ErrorKind bytes :=
  map_err OpenSSLError (aes128gcm_decrypt (k_private key) (k_auth key) content).

(** No character outside ASCII becomes one of the names when it is lowercased. *)
Definition decrypt (key : Key) (body encoding : string) (salt dh : option string) : res ErrorKind bytes :=
  d_salt ← extract_value salt "salt";
  d_dh ← extract_value dh "dh";
  d_body ← map_err (λ e, TranscodingError ("Could not parse incoming body: " ++ e)) (base64_decode_url body);
  let encoding := to_ascii_lowercase encoding in
  if String.eqb encoding "aesgcm" then decrypt_aesgcm key d_body d_salt d_dh
  else if String.eqb encoding "aes128gcm" then decrypt_aes128gcm key d_body
  else Err (EncryptionError "Unknown Content Encoding").
End crypto.

(** ** Serialized keys *)
Lemma u8_length n : (n ≤ 255)%nat → nat_of_ascii (as_u8 n) = n.
Proof. intros Hn. unfold as_u8. rewrite nat_ascii_embedding; [|apply Nat.mod_upper_bound; lia]. apply Nat.mod_small. lia. Qed.
Lemma u8_of_ascii c : as_u8 (nat_of_ascii c) = c.
Proof. unfold as_u8. rewrite Nat.mod_small by apply nat_ascii_bounded. apply ascii_nat_embedding. Qed.
(** Reading from some bytes on. *)
Lemma index_u8_drop a b i : index_u8 (a ++ b) (length a + i) = index_u8 b i.
Proof. unfold index_u8. rewrite lookup_app_r by lia. by replace (length a + i - length a)%nat with i by lia. Qed.
Lemma byte_range_drop a b i j : byte_range (a ++ b) (length a + i) (length a + j) = byte_range b i j.
Proof.
  unfold byte_range. rewrite length_app, drop_app_add. replace (length a + j - (length a + i))%nat with (j - i)%nat by lia.
  by replace (Nat.leb (length a + j) (length a + length b)) with (Nat.leb j (length b)) by (apply eq_true_iff_eq; rewrite !Nat.leb_le; lia).
Qed.
Lemma byte_range_start a b : byte_range (a ++ b) 0 (length a) = Ok a.
Proof.
  unfold byte_range. rewrite length_app, (proj2 (Nat.leb_le _ _)) by lia. by rewrite Nat.sub_0_r, drop_0, take_app_length.
Qed.
Lemma byte_range_inv b n x : byte_range b 0 n = Ok x → b = x ++ drop n b ∧ length x = n.
Proof.
  unfold byte_range. destruct (Nat.leb_spec n (length b)); [|done]. rewrite Nat.sub_0_r, drop_0. intros [= <-].
  by rewrite take_drop, length_take_le.
Qed.
Lemma index_u8_inv b n : index_u8 b 0 = Ok n → ∃ r, b = as_u8 n :: r ∧ (n ≤ 255)%nat.
Proof.
  destruct b as [|c r]; [done|]. intros [= <-]. exists r. rewrite u8_of_ascii. split; [done|]. pose proof (nat_ascii_bounded c). lia.
Qed.

(** The layout of a serialized key. *)
Definition key_bytes (auth private : bytes) : bytes := as_u8 1 :: as_u8 (length auth) :: auth ++ as_u8 (length private) :: private.

Section keys.
Context `{!Ece}.

(** A key whose public part belongs to its private part. *)
Definition key_pair_ok (k : Key) : Prop := kp_pub_as_raw (k_private k) = Ok (k_public k).

Lemma generated_key_ok {W} `{!Rand W, !EceRand W, !RandLaws (W:=W) _} w k w' :
  generate_key (W:=W) w = (Ok k, w') → key_pair_ok k ∧ length (k_auth k) = SER_AUTH_LENGTH.
Proof.
  unfold generate_key, get_bytes, st_map_err, mbind, ST_bind, st_lift. destruct (kp_generate_random w) as [[p|e|m] w1]; cbn; [|done..].
  destruct (rand_fill SER_AUTH_LENGTH w1) as [[a|e|m] w2] eqn:Ha; cbn; [|done..].
  unfold key_pair_ok. destruct (kp_pub_as_raw p) as [pub|e|m] eqn:Hp; cbn; [|done..]. intros [= <- <-]. cbn.
  split; [done|]. by eapply rand_fill_length.
Qed.

Lemma deserialize_bytes a p :
  (length a ≤ 255)%nat → (length p ≤ 255)%nat →
  deserialize (key_bytes a p) =
    (private ← map_err (λ e, EncryptionError ("Could not reinstate key " ++ e)) (kp_new p);
     pubkey ← map_err (λ e, EncryptionError ("Could not dump public key: " ++ e)) (kp_pub_as_raw private);
     Ok (mkKey private pubkey a)).
Proof.
  intros Ha Hp. set (h := [as_u8 1; as_u8 (length a)]). set (r := as_u8 (length p) :: p). set (raw := h ++ a ++ r).
  change (key_bytes a p) with raw. unfold deserialize.
  assert (H1 : index_u8 raw 1 = Ok (length a)) by (unfold index_u8; cbn -[as_u8]; by rewrite u8_length).
  assert (H2 : byte_range raw (1 + 1) (1 + 1 + length a) = Ok a).
  { rewrite <-(byte_range_start a r). apply (byte_range_drop h (a ++ r) 0 (length a)). }
  assert (H3 : index_u8 raw (1 + 1 + length a) = Ok (length p)).
  { replace (1 + 1 + length a)%nat with (length (h ++ a) + 0)%nat by (cbn; lia). unfold raw. rewrite app_assoc, index_u8_drop.
    unfold index_u8. cbn -[as_u8]. by rewrite u8_length. }
  assert (H4 : byte_range raw (1 + 1 + length a + 1) (1 + 1 + length a + 1 + length p) = Ok p).
  { set (h3 := (h ++ a) ++ [as_u8 (length p)]). assert (Hl : length h3 = (1 + 1 + length a + 1)%nat) by (unfold h3; rewrite !length_app; cbn; lia).
    replace raw with (h3 ++ p) by (unfold h3, raw, r; by rewrite <-!app_assoc).
    rewrite <-Hl. rewrite <-(Nat.add_0_r (length h3)) at 1. rewrite byte_range_drop.
    pose proof (byte_range_start p []) as Hs. by rewrite app_nil_r in Hs. }
  change (index_u8 raw 0) with (Ok (E:=ErrorKind) 1%nat). rewrite res_bind_ok. cbn [Nat.eqb negb].
  by rewrite H1, res_bind_ok, H2, res_bind_ok, H3, res_bind_ok, H4, res_bind_ok.
Qed.
Lemma deserialize_inv raw k :
  deserialize raw = Ok k → ∃ p rest, raw = key_bytes (k_auth k) p ++ rest ∧ (length (k_auth k) ≤ 255)%nat ∧
    kp_new p = Ok (k_private k) ∧ key_pair_ok k.
Proof.
  unfold deserialize. intros Hd. apply res_bind_Ok_inv in Hd as (v & Hv & Hd). destruct (Nat.eqb_spec v 1) as [->|]; [|done]. cbn [negb] in Hd.
  apply res_bind_Ok_inv in Hd as (l & Hl & Hd). apply res_bind_Ok_inv in Hd as (a & Ha & Hd).
  apply res_bind_Ok_inv in Hd as (n & Hn & Hd). apply res_bind_Ok_inv in Hd as (p & Hp & Hd).
  apply res_bind_Ok_inv in Hd as (private & Hk & Hd). apply res_bind_Ok_inv in Hd as (pub & Hpub & Hd). injection Hd as <-. cbn.
  apply index_u8_inv in Hv as (r & -> & _). apply (index_u8_inv r) in Hl as (r' & -> & Hl).
  set (h := [as_u8 1; as_u8 l]). change (as_u8 1 :: as_u8 l :: r') with (h ++ r') in *.
  pose proof (byte_range_drop h r' 0 l) as Hd1. change (length h + 0)%nat with (1 + 1)%nat in Hd1.
  change (length h + l)%nat with (1 + 1 + l)%nat in Hd1. rewrite Hd1 in Ha. apply byte_range_inv in Ha as [Hr' Hla]. clear Hd1.
  set (r2 := drop l r') in *. clearbody r2. subst r' l. rewrite app_assoc in *.
  replace (1 + 1 + length a)%nat with (length (h ++ a) + 0)%nat in Hn by (cbn; lia). rewrite index_u8_drop in Hn.
  apply index_u8_inv in Hn as (r3 & -> & Hn).
  set (h3 := (h ++ a) ++ [as_u8 n]). assert (Hh3 : length h3 = (1 + 1 + length a + 1)%nat) by (unfold h3; rewrite !length_app; cbn; lia).
  replace ((h ++ a) ++ as_u8 n :: r3) with (h3 ++ r3) in * by (unfold h3; by rewrite <-!app_assoc).
  rewrite <-Hh3 in Hp. rewrite <-(Nat.add_0_r (length h3)) in Hp at 1. rewrite byte_range_drop in Hp.
  apply byte_range_inv in Hp as [Hr3 Hlp]. exists p, (drop n r3). split_and!; [|done| |].
  - rewrite Hr3 at 1. unfold h3, h, key_bytes. rewrite Hlp. by rewrite <-!app_assoc.
  - by destruct (kp_new p) as [?|?|?]; [injection Hk as ->|..].
  - unfold key_pair_ok. cbn. by destruct (kp_pub_as_raw private) as [?|?|?]; [injection Hpub as ->|..].
Qed.

Lemma serialized_key_reads `{!EceLaws} k :
  key_pair_ok k → (length (k_auth k) ≤ 255)%nat → ∃ raw, serialize k = Ok raw ∧ deserialize raw = Ok k.
Proof.
  destruct k as [p pub a]. intros Hpub Ha. unfold key_pair_ok in Hpub. cbn in *. pose proof (kp_raw_length p) as Hp.
  exists (key_bytes a (kp_to_raw p)). split; [done|]. rewrite deserialize_bytes by lia. rewrite kp_new_raw. cbn. by rewrite Hpub.
Qed.

(** Keys survive storage.  A key whose public part belongs to its private part and whose
    secret has at most 255 bytes, as generated ones do, is read back from its serialized form;
    and whatever is read back is the key that these bytes, up to bytes that may follow, are the
    serialized form of. *)
Theorem key_round_trip `{!EceLaws} :
  (∀ k, key_pair_ok k → (length (k_auth k) ≤ 255)%nat → ∃ raw, serialize k = Ok raw ∧ deserialize raw = Ok k) ∧
  (∀ raw k, deserialize raw = Ok k →
     key_pair_ok k ∧ (length (k_auth k) ≤ 255)%nat ∧ ∃ raw' rest, serialize k = Ok raw' ∧ raw = raw' ++ rest).
Proof.
  split.
  - apply serialized_key_reads.
  - intros raw k (p & rest & -> & Ha & Hp & Hk)%deserialize_inv. split_and!; [done..|]. exists (key_bytes (k_auth k) p), rest.
    split; [|done]. unfold serialize. by rewrite (kp_raw_new _ _ Hp).
Qed.
End keys.

(** ** Values in headers *)
Definition plain (p : ascii → bool) (b : bytes) : Prop := Forall (λ c, p c = false) b.
Lemma split_plain p b : plain p b → split_on p b = [b].
Proof. induction 1 as [|c b Hc _ IH]; cbn; [done|]. by rewrite Hc, IH. Qed.
Lemma split_app p b c r : plain p b → p c = true → split_on p (b ++ c :: r) = b :: split_on p r.
Proof. intros Hb Hc. induction Hb as [|x b Hx _ IH]; cbn; [by rewrite Hc|]. by rewrite Hx, IH. Qed.

Lemma contains_app needle pre post : contains_bytes needle (pre ++ needle ++ post) = true.
Proof.
  induction pre as [|c pre IH]; cbn; [|by rewrite IH, orb_true_r].
  destruct (needle ++ post) as [|x l] eqn:Hl; cbn; rewrite <-?Hl, ?take_app_length, bool_decide_eq_true_2; try done.
Qed.

Section header.
Context `{!Ece}.

(** A header of values, each [label=value], separated by semicolons or commas. *)
Definition item_bytes (x : bytes * bytes) : bytes := x.1 ++ "="%char :: x.2.
Fixpoint header_bytes (first : bytes * bytes) (more : list (ascii * (bytes * bytes))) : bytes :=
  match more with
  | [] => item_bytes first
  | (c, next) :: more => item_bytes first ++ c :: header_bytes next more
  end.
Definition special (c : ascii) : bool := is_separator c || Ascii.eqb "="%char c.
Definition item_ok (x : bytes * bytes) : Prop := plain special x.1 ∧ plain special x.2.

Lemma item_plain x : item_ok x → plain is_separator (item_bytes x).
Proof.
  intros [Hl Hv]. apply Forall_app. split; [|apply Forall_cons; split; [done|]].
  - eapply Forall_impl; [exact Hl|]. by intros c [? _]%orb_false_iff.
  - eapply Forall_impl; [exact Hv|]. by intros c [? _]%orb_false_iff.
Qed.
Lemma split_header first more :
  item_ok first → Forall (λ x, is_separator x.1 = true ∧ item_ok x.2) more →
  split_on is_separator (header_bytes first more) = item_bytes <$> first :: more.*2.
Proof.
  intros Hf Hm. revert first Hf. induction Hm as [|[c next] more [Hc Hn] _ IH]; intros first Hf; cbn.
  - apply split_plain. by apply item_plain.
  - rewrite split_app; [|by apply item_plain|done]. f_equal. by rewrite IH.
Qed.
Lemma split_item x : item_ok x → split_on (Ascii.eqb "="%char) (item_bytes x) = [x.1; x.2].
Proof.
  intros [Hl Hv]. unfold item_bytes. assert (Hp : ∀ b, plain special b → plain (Ascii.eqb "="%char) b).
  { intros b Hb. eapply Forall_impl; [exact Hb|]. by intros c [_ ?]%orb_false_iff. }
  by rewrite split_app, split_plain by (first [done|by apply Hp]).
Qed.
Lemma find_value_spec target items :
  Forall item_ok items → find_value target (item_bytes <$> items) =
    Ok (x ← List.find (λ x, bool_decide (x.1 = target)) items;
        match base64_decode_url (string_of_list_ascii x.2) with Ok v => Some v | _ => None end).
Proof.
  induction 1 as [|x items Hx _ IH]; [done|]. rewrite fmap_cons. cbn [find_value List.find]. rewrite (split_item x Hx).
  destruct (bool_decide (x.1 = target)); [done|]. apply IH.
Qed.

(** A value is found in a header.  In a header of values [label=value], separated by
    semicolons or commas, in which labels and values have none of the three special characters,
    [extract_value] finds and decodes the first value with the label that is asked for, and
    nothing if there is none. *)
Theorem extract_value_finds first more target :
  item_ok first → Forall (λ x, is_separator x.1 = true ∧ item_ok x.2) more →
  extract_value (Some (string_of_list_ascii (header_bytes first more))) target =
    Ok (x ← List.find (λ x, bool_decide (x.1 = as_bytes target)) (first :: more.*2);
        match base64_decode_url (string_of_list_ascii x.2) with Ok v => Some v | _ => None end).
Proof.
  intros Hf Hm. unfold extract_value. unfold as_bytes at 2 4. rewrite String.list_ascii_of_string_of_list_ascii.
  assert (Hok : Forall item_ok (first :: more.*2)).
  { constructor; [done|]. apply Forall_fmap. eapply Forall_impl; [exact Hm|]. by intros ? [_ ?]. }
  rewrite split_header, find_value_spec by done.
  destruct (List.find _ _) as [x|] eqn:Hx; [|by destruct (contains_bytes _ _)].
  apply find_some in Hx as [Hin Hx%bool_decide_eq_true].
  enough (Hc : ∃ pre post, header_bytes first more = pre ++ item_bytes x ++ post).
  { destruct Hc as (pre & post & ->). replace (item_bytes x ++ post) with ((as_bytes target ++ ["="%char]) ++ x.2 ++ post)
      by (unfold item_bytes; rewrite Hx, <-!app_assoc; done). by rewrite contains_app. }
  clear -Hin. revert first Hin. induction more as [|[c next] more IH]; intros first Hin.
  - destruct Hin as [->|[]]. exists [], []. cbn. by rewrite app_nil_r.
  - destruct Hin as [->|Hin]; [by exists [], (c :: header_bytes next more)|].
    destruct (IH next Hin) as (pre & post & Heq). exists (item_bytes first ++ c :: pre), post. cbn. by rewrite Heq, <-app_assoc.
Qed.

(** A label without a value makes it panic, if the label with a value follows. *)
Theorem extract_value_can_panic : extract_value (Some "salt;salt=c2FsdA"%string) "salt" = Panic "index out of bounds".
Proof. reflexivity. Qed.
(** So does reading an empty key. *)
Theorem deserialize_can_panic : deserialize [] = Panic "index out of bounds".
Proof. reflexivity. Qed.
End header.

(** ** Concrete parameters *)
Module ToyEce.
Definition Pair : Type := { b : bytes | Nat.eqb (length b) 32 = true }.
Definition pair_new (b : bytes) : res string Pair :=
  match bool_dec (Nat.eqb (length b) 32) true with left H => Ok (exist _ b H) | right _ => Err "invalid key"%string end.
#[export] Instance toy_ece : Ece := {|
  LocalKeyPair := Pair; kp_new := pair_new; kp_to_raw := λ k, proj1_sig k;
  kp_pub_as_raw := λ k, Ok (rev (proj1_sig k)); kp_from_der := pair_new;
  AesGcmBlock := bytes; aesgcm_block_new := λ dh salt _ content, if bool_decide (dh = salt) then Ok content else Err "bad block"%string;
  aesgcm_decrypt := λ k auth block, Ok (rev block);
  aes128gcm_decrypt := λ k auth content, Ok (rev content);
  base64_decode_url := λ s, if String.eqb s ""%string then Err "empty"%string else Ok (as_bytes s) |}.
#[export] Instance toy_ece_laws : EceLaws.
Proof.
  split.
  - intros [b Hb]. cbn. unfold pair_new. destruct (bool_dec _ _) as [Hb'|]; [|done]. do 2 f_equal. apply Eqdep_dec.UIP_dec, bool_dec.
  - intros b k. cbn. unfold pair_new. destruct (bool_dec _ _); [|done]. by intros [= <-].
  - intros [b Hb]. by apply Nat.eqb_eq.
Qed.

Definition raw_key : bytes := repeat "k"%char 32.
Definition toy_pair : Pair := exist _ raw_key eq_refl.
Definition toy_key : Key := mkKey toy_pair (rev raw_key) (as_bytes "secret").

Lemma key_round_trip_witness : ∃ raw, serialize toy_key = Ok raw ∧ deserialize raw = Ok toy_key ∧ length raw = 41%nat.
Proof.
  destruct (proj1 key_round_trip toy_key) as (raw & Hs & Hd); [reflexivity|vm_compute; lia|].
  exists raw. split; [exact Hs|]. split; [exact Hd|]. by injection Hs as <-.
Defined.

Lemma extract_value_finds_witness :
  extract_value (Some "dh=AAAA;salt=BBBB,salt=CCCC"%string) "salt" = Ok (Some (as_bytes "BBBB")).
Proof.
  refine (extract_value_finds (as_bytes "dh", as_bytes "AAAA")
    [(";"%char, (as_bytes "salt", as_bytes "BBBB")); (","%char, (as_bytes "salt", as_bytes "CCCC"))] "salt" _ _).
  - split; repeat constructor.
  - repeat constructor.
Defined.
End ToyEce.
