(* ===== verification/PushDb.v ===== *)
(** * Push: the store of subscriptions

    Model of [components/push/src/storage]: the tables of [schema.sql], [record.rs], the trait
    [Storage] and its implementation in [db.rs], and their refinement of a map from channels to
    subscriptions. *)

From S2P Require Import Prelude KeyBundle PushCrypto.
From Stdlib Require Import Ascii String.
From stdpp Require Import strings list gmap.
Import PushErr.
Local Open Scope Z_scope.
Local Open Scope list_scope.

(** ** record.rs *)
Record PushRecord := mkPushRecord {
  pr_uaid : string; pr_channel_id : string; pr_endpoint : string; pr_scope : string; pr_key : bytes; pr_ctime : Z;
  pr_app_server_key : option string; pr_native_id : option string }.
Definition pr_set_endpoint (x : string) (r : PushRecord) : PushRecord :=
  mkPushRecord (pr_uaid r) (pr_channel_id r) x (pr_scope r) (pr_key r) (pr_ctime r) (pr_app_server_key r) (pr_native_id r).
Definition pr_set_native_id (x : option string) (r : PushRecord) : PushRecord :=
  mkPushRecord (pr_uaid r) (pr_channel_id r) (pr_endpoint r) (pr_scope r) (pr_key r) (pr_ctime r) (pr_app_server_key r) x.
Definition pr_set_app_server_key (x : option string) (r : PushRecord) : PushRecord :=
  mkPushRecord (pr_uaid r) (pr_channel_id r) (pr_endpoint r) (pr_scope r) (pr_key r) (pr_ctime r) x (pr_native_id r).

(** ** The tables: the primary key of [push_record] is [(uaid, channel_id)]. *)
Record PushDb := mkPushDb { push_record : gmap (string * string) PushRecord; meta_data : gmap string string }.
Definition on_records (f : gmap (string * string) PushRecord → gmap (string * string) PushRecord) (d : PushDb) : PushDb :=
  mkPushDb (f (push_record d)) (meta_data d).
Definition on_meta_data (f : gmap string string → gmap string string) (d : PushDb) : PushDb :=
  mkPushDb (push_record d) (f (meta_data d)).

(** The order in which a query without [ORDER BY] returns its rows. *)
Class RowOrder := row_order : list string → list string.
Class RowOrderLaws `{!RowOrder} := row_order_perm l : row_order l ≡ₚ l.

(** [UNIQUE] constraints, for a row with a key; the values of the row itself do not count. *)
Definition channel_taken (t : gmap (string * string) PushRecord) (k : string * string) (channel_id : string) : bool :=
  existsb (λ '(k', r), negb (bool_decide (k' = k)) && String.eqb (pr_channel_id r) channel_id) (map_to_list t).
Definition endpoint_taken (t : gmap (string * string) PushRecord) (k : string * string) (endpoint : string) : bool :=
  existsb (λ '(k', r), negb (bool_decide (k' = k)) && String.eqb (pr_endpoint r) endpoint) (map_to_list t).
Definition unique_failed {A} (column : string) : ST PushDb ErrorKind A :=
  st_err (StorageSqlError ("UNIQUE constraint failed: push_record." ++ column)).

(** ** db.rs *)
Definition get_record (uaid chid : string) : ST PushDb ErrorKind (option PushRecord) :=
  d ← st_get; mret (push_record d !! (uaid, chid)).

Definition get_record_by_chid (chid : string) : ST PushDb ErrorKind (option PushRecord) :=
  d ← st_get; mret (head (snd <$> List.filter (λ '(_, r), String.eqb (pr_channel_id r) chid) (map_to_list (push_record d)))).

(** The conflict on the primary key is looked at first. *)
Definition put_record (record : PushRecord) : ST PushDb ErrorKind bool :=
  let k := (pr_uaid record, pr_channel_id record) in
  d ← st_get;
  match push_record d !! k with
  | Some _ =>
      if endpoint_taken (push_record d) k (pr_endpoint record) then unique_failed "endpoint"
      else _ ← st_modify (on_records <[k := record]>); mret true
  | None =>
      if channel_taken (push_record d) k (pr_channel_id record) then unique_failed "channel_id"
      else if endpoint_taken (push_record d) k (pr_endpoint record) then unique_failed "endpoint"
      else _ ← st_modify (on_records <[k := record]>); mret true
  end.

Definition delete_record (uaid chid : string) : ST PushDb ErrorKind bool :=
  d ← st_get;
  _ ← st_modify (on_records (delete (uaid, chid)));
  mret (bool_decide (is_Some (push_record d !! (uaid, chid)))).

Definition delete_all_records (uaid : string) : ST PushDb ErrorKind unit :=
  _ ← st_modify (on_records (filter (λ x, x.1.1 ≠ uaid)));
  _ ← st_modify (on_meta_data (delete "uaid"%string));
  st_modify (on_meta_data (delete "auth"%string)).

Definition get_channel_list `{!RowOrder} (uaid : string) : ST PushDb ErrorKind (list string) :=
  d ← st_get;
  mret (row_order ((λ x, x.1.2) <$> map_to_list (filter (λ x, x.1.1 = uaid) (push_record d)))).

Definition update_endpoint (uaid channel_id endpoint : string) : ST PushDb ErrorKind bool :=
  d ← st_get;
  match push_record d !! (uaid, channel_id) with
  | None => mret false
  | Some r =>
      if endpoint_taken (push_record d) (uaid, channel_id) endpoint then unique_failed "endpoint"
      else _ ← st_modify (on_records <[(uaid, channel_id) := pr_set_endpoint endpoint r]>); mret true
  end.

Definition update_native_id (uaid native_id : string) : ST PushDb ErrorKind bool :=
  d ← st_get;
  _ ← st_modify (on_records (map_imap (λ k r, Some (if String.eqb k.1 uaid then pr_set_native_id (Some native_id) r else r))));
  mret (Nat.eqb (size (filter (λ x, x.1.1 = uaid) (push_record d))) 1).

Definition get_meta (key : string) : ST PushDb ErrorKind (option string) := d ← st_get; mret (meta_data d !! key).
Definition set_meta (key value : string) : ST PushDb ErrorKind unit := st_modify (on_meta_data <[key := value]>).

(** ** The subscriptions *)
Section spec.
Abbreviation Subs := (gmap string PushRecord).

(** A table represents the map from the channels to their rows; endpoints are unique. *)
Record represents (d : PushDb) (m : Subs) : Prop := {
  rep_row u c r : push_record d !! (u, c) = Some r → m !! c = Some r ∧ pr_uaid r = u ∧ pr_channel_id r = c;
  rep_sub c r : m !! c = Some r → push_record d !! (pr_uaid r, c) = Some r;
  rep_endpoint c c' r r' : m !! c = Some r → m !! c' = Some r' → pr_endpoint r = pr_endpoint r' → c = c';
}.

Inductive push_op :=
| OpGet (uaid chid : string) | OpGetByChid (chid : string) | OpPut (r : PushRecord) | OpDelete (uaid chid : string)
| OpDeleteAll (uaid : string) | OpUpdateEndpoint (uaid chid endpoint : string) | OpUpdateNativeId (uaid native_id : string).
Inductive push_out := ORecord (o : option PushRecord) | OBool (b : bool) | OUnit.

Definition run_push_op (o : push_op) : ST PushDb ErrorKind push_out :=
  match o with
  | OpGet u c => x ← get_record u c; mret (ORecord x)
  | OpGetByChid c => x ← get_record_by_chid c; mret (ORecord x)
  | OpPut r => b ← put_record r; mret (OBool b)
  | OpDelete u c => b ← delete_record u c; mret (OBool b)
  | OpDeleteAll u => _ ← delete_all_records u; mret OUnit
  | OpUpdateEndpoint u c e => b ← update_endpoint u c e; mret (OBool b)
  | OpUpdateNativeId u n => b ← update_native_id u n; mret (OBool b)
  end.

(** The operations on the map. *)
Definition of_agent (m : Subs) (u c : string) : option PushRecord := r ← m !! c; if String.eqb (pr_uaid r) u then Some r else None.
Definition used_elsewhere (m : Subs) (c e : string) : bool :=
  existsb (λ '(c', r), negb (String.eqb c' c) && String.eqb (pr_endpoint r) e) (map_to_list m).
Definition failed (column : string) : res ErrorKind push_out := Err (StorageSqlError ("UNIQUE constraint failed: push_record." ++ column)).
Definition push_spec (o : push_op) (m : Subs) : res ErrorKind push_out * Subs :=
  match o with
  | OpGet u c => (Ok (ORecord (of_agent m u c)), m)
  | OpGetByChid c => (Ok (ORecord (m !! c)), m)
  | OpPut r =>
      match m !! pr_channel_id r with
      | Some old =>
          if negb (String.eqb (pr_uaid old) (pr_uaid r)) then (failed "channel_id", m)
          else if used_elsewhere m (pr_channel_id r) (pr_endpoint r) then (failed "endpoint", m)
          else (Ok (OBool true), <[pr_channel_id r := r]> m)
      | None =>
          if used_elsewhere m (pr_channel_id r) (pr_endpoint r) then (failed "endpoint", m)
          else (Ok (OBool true), <[pr_channel_id r := r]> m)
      end
  | OpDelete u c =>
      match of_agent m u c with
      | Some _ => (Ok (OBool true), delete c m)
      | None => (Ok (OBool false), m)
      end
  | OpDeleteAll u => (Ok OUnit, filter (λ x, pr_uaid x.2 ≠ u) m)
  | OpUpdateEndpoint u c e =>
      match of_agent m u c with
      | Some r => if used_elsewhere m c e then (failed "endpoint", m) else (Ok (OBool true), <[c := pr_set_endpoint e r]> m)
      | None => (Ok (OBool false), m)
      end
  | OpUpdateNativeId u n =>
      (Ok (OBool (Nat.eqb (size (filter (λ x, pr_uaid x.2 = u) m)) 1)),
       (λ r, if String.eqb (pr_uaid r) u then pr_set_native_id (Some n) r else r) <$> m)
  end.

(** ** The refinement *)
Lemma rep_lookup d m u c : represents d m → push_record d !! (u, c) = of_agent m u c.
Proof.
  intros Hrep. unfold of_agent. destruct (push_record d !! (u, c)) as [r|] eqn:Hr.
  - apply (rep_row _ _ Hrep) in Hr as (Hm & <- & _). rewrite Hm. cbn. by rewrite String.eqb_refl.
  - destruct (m !! c) as [r|] eqn:Hm; [|done]. cbn. destruct (String.eqb_spec (pr_uaid r) u) as [<-|]; [|done].
    apply (rep_sub _ _ Hrep) in Hm. congruence.
Qed.
Lemma rep_endpoint_taken d m u c e : represents d m → (m !! c = None ∨ is_Some (of_agent m u c)) → endpoint_taken (push_record d) (u, c) e = used_elsewhere m c e.
Proof.
  intros Hrep Hc. apply eq_true_iff_eq. unfold endpoint_taken, used_elsewhere. rewrite !existsb_exists. split.
  - intros ([[u' c'] r] & Hin%list_elem_of_In%elem_of_map_to_list & [Hk%negb_true_iff%bool_decide_eq_false He]%andb_true_iff).
    apply (rep_row _ _ Hrep) in Hin as (Hm & Hu & _). exists (c', r). split; [by apply list_elem_of_In, elem_of_map_to_list|].
    rewrite He, andb_true_r. apply negb_true_iff, String.eqb_neq. intros ->. destruct Hc as [|[x Hx]]; [congruence|].
    unfold of_agent in Hx. rewrite Hm in Hx. cbn in Hx. destruct (String.eqb_spec (pr_uaid r) u); congruence.
  - intros ([c' r] & Hin%list_elem_of_In%elem_of_map_to_list & [Hk%negb_true_iff%String.eqb_neq He]%andb_true_iff).
    exists ((pr_uaid r, c'), r). split; [by apply list_elem_of_In, elem_of_map_to_list, (rep_sub _ _ Hrep)|].
    rewrite He, andb_true_r. apply negb_true_iff, bool_decide_eq_false. congruence.
Qed.
Lemma rep_channel_taken d m u c : represents d m → of_agent m u c = None → channel_taken (push_record d) (u, c) c = bool_decide (is_Some (m !! c)).
Proof.
  intros Hrep Hc. apply eq_true_iff_eq. unfold channel_taken. rewrite existsb_exists, bool_decide_eq_true. split.
  - intros ([[u' c'] r] & Hin%list_elem_of_In%elem_of_map_to_list & [_ He%String.eqb_eq]%andb_true_iff).
    apply (rep_row _ _ Hrep) in Hin as (Hm & _ & Hcc). exists r. congruence.
  - intros [r Hm]. exists ((pr_uaid r, c), r). apply (rep_sub _ _ Hrep) in Hm as Hin. split; [by apply list_elem_of_In, elem_of_map_to_list|].
    apply (rep_row _ _ Hrep) in Hin as (_ & _ & ->). rewrite String.eqb_refl, andb_true_r. apply negb_true_iff, bool_decide_eq_false.
    intros [= Hu]. unfold of_agent in Hc. rewrite Hm in Hc. cbn in Hc. by rewrite Hu, String.eqb_refl in Hc.
Qed.

(** A row is written, or replaces one of the same user agent. *)
Lemma rep_insert d m r :
  represents d m → (m !! pr_channel_id r = None ∨ is_Some (of_agent m (pr_uaid r) (pr_channel_id r))) →
  used_elsewhere m (pr_channel_id r) (pr_endpoint r) = false →
  represents (on_records <[(pr_uaid r, pr_channel_id r) := r]> d) (<[pr_channel_id r := r]> m).
Proof.
  intros Hrep Hc He. assert (Hother : ∀ c r', c ≠ pr_channel_id r → m !! c = Some r' → pr_endpoint r' ≠ pr_endpoint r).
  { intros c r' Hne Hm Heq. assert (used_elsewhere m (pr_channel_id r) (pr_endpoint r) = true); [|congruence].
    apply existsb_exists. exists (c, r'). split; [by apply list_elem_of_In, elem_of_map_to_list|].
    apply andb_true_iff. split; [by apply negb_true_iff, String.eqb_neq|by apply String.eqb_eq]. }
  assert (Hagent : ∀ r', m !! pr_channel_id r = Some r' → pr_uaid r' = pr_uaid r).
  { intros r' Hm. destruct Hc as [|[x Hx]]; [congruence|]. unfold of_agent in Hx. rewrite Hm in Hx. cbn in Hx.
    by destruct (String.eqb_spec (pr_uaid r') (pr_uaid r)). }
  split; cbn.
  - intros u c r' [[[= <- <-] <-]|[Hne Hr]]%lookup_insert_Some; [by rewrite lookup_insert_eq|].
    apply (rep_row _ _ Hrep) in Hr as (Hm & Hu & Hcc). split; [|done]. rewrite lookup_insert_ne; [done|].
    intros <-. apply Hne. by rewrite (Hagent _ Hm) in Hu; subst.
  - intros c r' [[<- <-]|[Hne Hm]]%lookup_insert_Some; [by rewrite lookup_insert_eq|].
    rewrite lookup_insert_ne by congruence. by apply (rep_sub _ _ Hrep).
  - intros c c' r1 r2 [[<- <-]|[Hne Hm]]%lookup_insert_Some [[<- <-]|[Hne' Hm']]%lookup_insert_Some Heq; [done| | |].
    + by destruct (Hother c' r2).
    + by destruct (Hother c r1).
    + by apply (rep_endpoint _ _ Hrep _ _ _ _ Hm Hm').
Qed.
Lemma rep_delete d m u c : represents d m → is_Some (of_agent m u c) → represents (on_records (delete (u, c)) d) (delete c m).
Proof.
  intros Hrep [x Hx]. unfold of_agent in Hx. destruct (m !! c) as [r|] eqn:Hm; [|done]. cbn in Hx.
  destruct (String.eqb_spec (pr_uaid r) u) as [<-|]; [|done]. injection Hx as <-. split; cbn.
  - intros u c' r' [Hne Hr]%lookup_delete_Some. apply (rep_row _ _ Hrep) in Hr as (Hm' & Hu & Hc'). split; [|done].
    rewrite lookup_delete_ne; [done|]. intros <-. apply Hne. congruence.
  - intros c' r' [Hne Hm']%lookup_delete_Some. rewrite lookup_delete_ne by congruence. by apply (rep_sub _ _ Hrep).
  - intros c1 c2 r1 r2 [_ H1]%lookup_delete_Some [_ H2]%lookup_delete_Some. by apply (rep_endpoint _ _ Hrep).
Qed.

(** The rows of a user agent. *)
Lemma agent_rows d m u :
  represents d m → filter (λ x, x.1.1 = u) (push_record d) = kmap (λ c, (u, c)) (filter (λ x, pr_uaid x.2 = u) m).
Proof.
  intros Hrep. apply map_eq. intros [u' c]. apply option_eq. intros r.
  rewrite map_lookup_filter_Some, lookup_kmap_Some by apply _. cbn. split.
  - intros [Hr ->]. apply (rep_row _ _ Hrep) in Hr as (Hm & Hu & _). exists c. split; [done|]. by apply map_lookup_filter_Some.
  - intros (c' & [= -> ->] & [Hm Hu]%map_lookup_filter_Some). cbn in Hu. split; [|done]. subst. by apply (rep_sub _ _ Hrep).
Qed.
Lemma other_agents d m u :
  represents d m → represents (on_records (filter (λ x, x.1.1 ≠ u)) d) (filter (λ x, pr_uaid x.2 ≠ u) m).
Proof.
  intros Hrep. split; cbn.
  - intros u' c r [Hr Hu]%map_lookup_filter_Some. apply (rep_row _ _ Hrep) in Hr as (Hm & Hu' & Hc). split; [|done].
    apply map_lookup_filter_Some. cbn in *. split; [done|congruence].
  - intros c r [Hm Hu]%map_lookup_filter_Some. apply map_lookup_filter_Some. split; [by apply (rep_sub _ _ Hrep)|done].
  - intros c1 c2 r1 r2 [H1 _]%map_lookup_filter_Some [H2 _]%map_lookup_filter_Some. by apply (rep_endpoint _ _ Hrep).
Qed.
Lemma rep_native_id d m u n :
  represents d m →
  represents (on_records (map_imap (λ k r, Some (if String.eqb k.1 u then pr_set_native_id (Some n) r else r))) d)
    ((λ r, if String.eqb (pr_uaid r) u then pr_set_native_id (Some n) r else r) <$> m).
Proof.
  intros Hrep. assert (Hf : ∀ b r, pr_uaid (if b : bool then pr_set_native_id (Some n) r else r) = pr_uaid r ∧
    pr_channel_id (if b : bool then pr_set_native_id (Some n) r else r) = pr_channel_id r ∧
    pr_endpoint (if b : bool then pr_set_native_id (Some n) r else r) = pr_endpoint r) by (by intros []).
  split; cbn.
  - intros u' c r. rewrite map_lookup_imap. destruct (push_record d !! (u', c)) as [r0|] eqn:Hr; [|done]. cbn. intros [= <-].
    apply (rep_row _ _ Hrep) in Hr as (Hm & <- & Hc). rewrite lookup_fmap, Hm. cbn. destruct (Hf (String.eqb (pr_uaid r0) u) r0) as (-> & -> & _). done.
  - intros c r. rewrite lookup_fmap. intros (r0 & Hm & ->)%fmap_Some. destruct (Hf (String.eqb (pr_uaid r0) u) r0) as (-> & _).
    rewrite map_lookup_imap, (rep_sub _ _ Hrep c r0 Hm). done.
  - intros c1 c2 r1 r2. rewrite !lookup_fmap. intros (a & Ha & ->)%fmap_Some (b & Hb & ->)%fmap_Some.
    destruct (Hf (String.eqb (pr_uaid a) u) a) as (_ & _ & ->), (Hf (String.eqb (pr_uaid b) u) b) as (_ & _ & ->).
    by apply (rep_endpoint _ _ Hrep).
Qed.
Lemma rep_by_chid d m c :
  represents d m → head (snd <$> List.filter (λ '(_, r), String.eqb (pr_channel_id r) c) (map_to_list (push_record d))) = m !! c.
Proof.
  intros Hrep. set (l := List.filter _ _).
  assert (Hl : ∀ k r, (k, r) ∈ l ↔ push_record d !! k = Some r ∧ pr_channel_id r = c).
  { intros k r. unfold l. by rewrite list_elem_of_In, filter_In, <-list_elem_of_In, elem_of_map_to_list, String.eqb_eq. }
  destruct l as [|[[u c'] r] l'] eqn:El; cbn.
  - destruct (m !! c) as [r|] eqn:Hm; [|done]. apply (rep_sub _ _ Hrep) in Hm as Hr.
    destruct (rep_row _ _ Hrep _ _ _ Hr) as (_ & _ & Hc). assert (Hin : ((pr_uaid r, c), r) ∈ l) by (by rewrite El; apply Hl).
    rewrite El in Hin. by apply not_elem_of_nil in Hin.
  - destruct (proj1 (Hl (u, c') r) (list_elem_of_here _ _)) as [Hr <-]. apply (rep_row _ _ Hrep) in Hr as (Hm & _ & ->). done.
Qed.

Lemma put_refines d m r :
  represents d m → ∃ d', put_record r d = (match (push_spec (OpPut r) m).1 with Ok _ => Ok true | Err e => Err e | Panic x => Panic x end, d') ∧
    represents d' (push_spec (OpPut r) m).2 ∧ meta_data d' = meta_data d.
Proof.
  intros Hrep. unfold put_record, mbind, ST_bind, st_get. cbn. rewrite (rep_lookup d m) by done.
  destruct (of_agent m (pr_uaid r) (pr_channel_id r)) as [x|] eqn:Hx.
  - rewrite (rep_endpoint_taken d m) by (by eauto). pose proof Hx as Hx'. unfold of_agent in Hx'.
    destruct (m !! pr_channel_id r) as [old|] eqn:Hm; [|done]. cbn in Hx'. destruct (String.eqb (pr_uaid old) (pr_uaid r)); [|done]. cbn.
    destruct (used_elsewhere _ _ _) eqn:He; [by exists d|]. eexists. split; [reflexivity|]. split; [|done]. apply rep_insert; [done|by eauto|done].
  - rewrite (rep_channel_taken d m) by done. pose proof Hx as Hx'. unfold of_agent in Hx'.
    destruct (m !! pr_channel_id r) as [old|] eqn:Hm; cbn.
    + cbn in Hx'. destruct (String.eqb (pr_uaid old) (pr_uaid r)); [done|]. by exists d.
    + rewrite (rep_endpoint_taken d m) by (first [done|by left]). destruct (used_elsewhere _ _ _) eqn:He; [by exists d|].
      eexists. split; [reflexivity|]. split; [|done]. apply rep_insert; [done|by left|done].
Qed.

(** C21: the table of subscriptions, whose key is the pair of a user agent and a channel, is a map
    from channels to subscriptions in which no two have the same endpoint: every operation
    returns what the operation on the map returns, errors included, and leaves a table that
    represents its result; a channel of one user agent is never handed to another. *)
Theorem push_db_refines_map o d m :
  represents d m → ∃ d', run_push_op o d = ((push_spec o m).1, d') ∧ represents d' (push_spec o m).2.
Proof.
  intros Hrep. destruct o as [u c|c|r|u c|u|u c e|u n]; cbn [run_push_op].
  - exists d. unfold get_record, mbind, ST_bind. cbn. by rewrite (rep_lookup d m).
  - exists d. unfold get_record_by_chid, mbind, ST_bind. cbn. by rewrite (rep_by_chid d m).
  - destruct (put_refines d m r Hrep) as (d' & Hrun & Hrep' & _). exists d'. split; [|done]. unfold mbind, ST_bind. rewrite Hrun.
    cbn [push_spec]. unfold failed. destruct (m !! _); [destruct (negb _); [done|]|]; by destruct (used_elsewhere _ _ _).
  - unfold delete_record, mbind, ST_bind. cbn. rewrite (rep_lookup d m) by done. eexists. split.
    + destruct (of_agent m u c); reflexivity.
    + destruct (of_agent m u c) as [x|] eqn:Hx; cbn; [by apply rep_delete|]. replace (on_records (delete (u, c)) d) with d; [done|].
      unfold on_records. rewrite delete_id by (by rewrite (rep_lookup d m)). by destruct d.
  - eexists. split; [reflexivity|]. by apply (other_agents d m u) in Hrep as [? ? ?]; split.
  - unfold update_endpoint, mbind, ST_bind. cbn. rewrite (rep_lookup d m) by done. destruct (of_agent m u c) as [x|] eqn:Hx; [|by exists d].
    rewrite (rep_endpoint_taken d m) by (by eauto). destruct (used_elsewhere m c e) eqn:He; [by exists d|]. eexists. split; [reflexivity|].
    assert (Hxm : pr_uaid x = u ∧ pr_channel_id x = c).
    { pose proof Hx as Hx'. rewrite <-(rep_lookup d m) in Hx' by done. by apply (rep_row _ _ Hrep) in Hx' as (_ & -> & ->). }
    destruct Hxm as [<- <-]. apply (rep_insert d m (pr_set_endpoint e x)); [done|right; by eauto|done].
  - unfold update_native_id, mbind, ST_bind. cbn. eexists. split; [|by apply rep_native_id].
    rewrite (agent_rows d m u) by done. rewrite <-!length_map_to_list, map_to_list_kmap by apply _. by rewrite length_fmap.
Qed.

(** The channels of a user agent. *)
Lemma channel_list_refines `{!RowOrder, !RowOrderLaws} u d m l d' :
  represents d m → get_channel_list u d = (Ok l, d') → d' = d ∧ l ≡ₚ (map_to_list (filter (λ x, pr_uaid x.2 = u) m)).*1.
Proof.
  intros Hrep. unfold get_channel_list, mbind, ST_bind. cbn. intros [= <- <-]. split; [done|]. rewrite row_order_perm.
  rewrite (agent_rows d m u) by done. rewrite (map_to_list_kmap _ _). rewrite <-list_fmap_compose. done.
Qed.
End spec.

Module ToyPushDb.
Definition rec (u c e : string) : PushRecord := mkPushRecord u c e "scope" (as_bytes "key") 7 None None.
Definition empty_push : PushDb := mkPushDb ∅ ∅.
Definition d1 : PushDb := snd (put_record (rec "agent" "c1" "http://push/1") empty_push).
Definition d2 : PushDb := snd (put_record (rec "agent" "c2" "http://push/2") d1).
Lemma empty_represents : represents empty_push ∅.
Proof. split; cbn; intros *; by rewrite lookup_empty. Qed.
Lemma d2_represents : ∃ m, represents d2 m ∧ m !! "c1"%string = Some (rec "agent" "c1" "http://push/1").
Proof.
  destruct (put_refines _ _ (rec "agent" "c1" "http://push/1") empty_represents) as (d' & Hrun & Hrep & _).
  destruct (put_refines _ _ (rec "agent" "c2" "http://push/2") Hrep) as (d'' & Hrun' & Hrep' & _).
  unfold d2, d1. rewrite Hrun. cbn [snd]. rewrite Hrun'. eexists. split; [exact Hrep'|]. reflexivity.
Qed.

(** Another user agent cannot take the channel. *)
Lemma push_db_refines_map_witness :
  (∃ m, represents d2 m ∧ ∃ d', run_push_op (OpPut (rec "other" "c1" "http://push/3")) d2 = (failed "channel_id", d')) ∧
  snd (run_push_op (OpPut (rec "other" "c1" "http://push/3")) d2) = d2.
Proof.
  split; [|vm_compute; reflexivity]. destruct d2_represents as (m & Hrep & Hm). exists m. split; [exact Hrep|].
  destruct (push_db_refines_map (OpPut (rec "other" "c1" "http://push/3")) d2 m Hrep) as (d' & Hrun & _).
  exists d'. rewrite Hrun. cbn. by rewrite Hm.
Defined.

(** The new id is stored for both channels, and the result is that of no change. *)
Theorem update_of_several_reports_none :
  fst (update_native_id "agent" "token" d2) = Ok false ∧
  pr_native_id <$> push_record (snd (update_native_id "agent" "token" d2)) !! ("agent", "c1")%string = Some (Some "token"%string).
Proof. split; vm_compute; reflexivity. Qed.
End ToyPushDb.
