(* ===== verification/Push.v ===== *)
(** * Push: the connection to the server and the manager of subscriptions

    Model of [components/push/src/config.rs], [communications.rs] and [subscriber.rs]. *)

From S2P Require Import Prelude KeyBundle Sync15Types Viaduct Token PushCrypto PushDb.
From Stdlib Require Import Ascii String.
From stdpp Require Import strings list gmap pretty.
Import PushErr.
Local Open Scope Z_scope.
Local Open Scope list_scope.

(** ** config.rs *)
Record PushConfiguration := mkPushConfiguration {
  server_host : string; socket_protocol : option string; http_protocol : option string; bridge_type : option string;
  registration_id : option string; vapid_key : option string; enabled : bool; ping_interval : Z; sender_id : string;
  database_path : option string }.
Definition default_config : PushConfiguration :=
  mkPushConfiguration "push.services.mozilla.com" None (Some "https"%string) (Some "fcm"%string)
    (Some "deafbeef00000000"%string) None true 1800 "" None.
Definition set_registration_id (x : option string) (c : PushConfiguration) : PushConfiguration :=
  mkPushConfiguration (server_host c) (socket_protocol c) (http_protocol c) (bridge_type c) x (vapid_key c) (enabled c)
    (ping_interval c) (sender_id c) (database_path c).

(** ** Code outside the repository: serde_json, and the formats of errors *)
Class PushSerde `{!UrlLib} := {
  (** A [serde_json::Value], read from bytes, and [v[key].as_str()]. *)
  PushValue : Type;
  value_from_slice : bytes → res string PushValue;
  value_str : PushValue → string → option string;
  (** The payload of a channel list: the user agent and its channels. *)
  payload_from_slice : bytes → res string (string * list string);
  body_to_vec : gmap string string → res string bytes;
  bytes_to_string : bytes → res string string;
  utf8_lossy : bytes → string;
  debug_str : string → string;
  debug_viaduct : ViaductError → string;
  debug_response : Response → string;
  debug_error : ErrorKind → string;
}.

(** ** communications.rs *)
Record RegisterResponse := mkRegisterResponse {
  rr_uaid : string; rr_channel_id : string; rr_secret : option string; rr_endpoint : string; rr_senderid : option string }.
Record ConnectHttp := mkConnectHttp { c_options : PushConfiguration; c_uaid : option string; c_auth : option string }.

Definition is_none {A} (o : option A) : bool := match o with None => true | Some _ => false end.
(** [Option::unwrap]. *)
Definition unwrap {E A} (o : option A) : res E A :=
  match o with Some a => Ok a | None => Panic "called `Option::unwrap()` on a `None` value" end.

Definition connect (options : PushConfiguration) (uaid auth : option string) : res ErrorKind ConnectHttp :=
  if negb (is_none (socket_protocol options)) && negb (is_none (http_protocol options))
  then Err (CommunicationError "Both socket and HTTP protocols cannot be set.")
  else if negb (is_none (socket_protocol options)) then Err (CommunicationError "Unsupported")
  else if negb (is_none (bridge_type options)) && is_none (registration_id options)
  then Err (CommunicationError "Missing Registration ID, please register with OS first")
  else Ok (mkConnectHttp options uaid auth).

Definition TEST_UAID : string := "abad1d3a00000000aabbccdd00000000".
Definition TEST_AUTH : string := "LsuUOBKVQRY6-l7_Ajo-Ag".
Definition CONFLICT : Z := 409.

Section connection.
Context {W : Type} `{!UrlLib, !Http W, !PushSerde}.
Abbreviation CONN := (ST (ConnectHttp * W) ErrorKind).

Definition conn_get : CONN ConnectHttp := λ '(c, w), (Ok c, (c, w)).
Definition conn_set (c : ConnectHttp) : CONN unit := λ '(_, w), (Ok tt, (c, w)).

Definition headers (self : ConnectHttp) : res ErrorKind (list Header) :=
  match c_auth self with
  | Some auth =>
      map_err (λ e, CommunicationError ("Header error: " +:+ debug_viaduct e))
        (Headers.insert AUTHORIZATION ("webpush " +:+ auth) Headers.new)
  | None => Ok Headers.new
  end.

(** [Request::send], with the message of a failure. *)
Definition send_request (message : string) (rq : Request) : CONN Response :=
  λ '(c, w), let '(r, w) := send rq w in (map_err (λ e, CommunicationServerError (message +:+ debug_viaduct e)) r, (c, w)).
Definition parse (url : string) : res ErrorKind Url := map_err UrlParseError (url_parse url).

(** The URL of the registration at the server. *)
Definition registration (http host bridge sender : string) : string :=
  http +:+ "://" +:+ host +:+ "/v1/" +:+ bridge +:+ "/" +:+ sender +:+ "/registration".

Definition subscribe (channel_id : string) : CONN RegisterResponse :=
  self ← conn_get;
  let options := c_options self in
  if is_none (http_protocol options) || is_none (bridge_type options)
  then st_err (CommunicationError "Bridge type or application id not set.")
  else
    bridge ← st_lift (unwrap (bridge_type options));
    http ← st_lift (unwrap (http_protocol options));
    let url := registration http (server_host options) bridge (sender_id options) in
    let url := match c_uaid self with Some uaid => url +:+ "/" +:+ uaid +:+ "/subscription" | None => url end in
    token ← st_lift (unwrap (registration_id options));
    let body : gmap string string := <["channelID" := channel_id]> {["token" := token]} in
    let body := match vapid_key options with Some k => <["key" := k]> body | None => body end in
    if String.eqb (sender_id options) "test" then
      _ ← conn_set (mkConnectHttp options (Some TEST_UAID) (Some TEST_AUTH));
      mret (mkRegisterResponse TEST_UAID "deadbeef00000000decafbad00000000" (Some TEST_AUTH)
              "http://push.example.com/test/opaque" (Some (sender_id options)))
    else
      url ← st_lift (parse url);
      hs ← st_lift (headers self);
      rq ← st_lift (Request.json (body_to_vec body) (Request.headers hs (Request.post url)));
      requested ← send_request "Could not fetch endpoint: " rq;
      if Response.is_server_error requested then st_err (CommunicationServerError "General Server error")
      else if Response.is_client_error requested then
        if rs_status requested =? CONFLICT then st_err AlreadyRegisteredError
        else st_err (CommunicationError ("Unhandled client error " +:+ pretty (rs_status requested) +:+ " : " +:+ debug_str (utf8_lossy (rs_body requested))))
      else
        response ← st_lift (map_err (λ e, CommunicationServerError ("Could not parse response: " +:+ e))
                              (value_from_slice (rs_body requested)));
        let uaid := match c_uaid self with Some u => Some u | None => value_str response "uaid" end in
        let auth := match c_auth self with Some a => Some a | None => value_str response "secret" end in
        _ ← conn_set (mkConnectHttp options uaid auth);
        uaid ← st_lift (unwrap uaid);
        channel_id ← st_lift (unwrap (value_str response "channelID"));
        endpoint ← st_lift (unwrap (value_str response "endpoint"));
        mret (mkRegisterResponse uaid channel_id auth endpoint (value_str response "senderid")).

Definition unsubscribe (channel_id : option string) : CONN bool :=
  self ← conn_get;
  match c_auth self, c_uaid self with
  | None, _ => st_err (CommunicationError "Connection is unauthorized")
  | _, None => st_err (CommunicationError "No UAID set")
  | Some _, Some uaid =>
      let options := c_options self in
      http ← st_lift (unwrap (http_protocol options));
      bridge ← st_lift (unwrap (bridge_type options));
      let url := registration http (server_host options) bridge (sender_id options) +:+ "/" +:+ uaid in
      let url := match channel_id with Some c => url +:+ "/subscription/" +:+ c | None => url end in
      if String.eqb (sender_id options) "test" then mret true
      else
        url ← st_lift (parse url);
        hs ← st_lift (headers self);
        _ ← send_request "Could not unsubscribe: " (Request.headers hs (Request.delete url));
        mret true
  end.

Definition update (new_token : string) : CONN bool :=
  self ← conn_get;
  if String.eqb (sender_id (c_options self)) "test" then
    _ ← conn_set (mkConnectHttp (c_options self) (Some TEST_UAID) (Some TEST_AUTH)); mret true
  else
    match c_auth self, c_uaid self with
    | None, _ => st_err (CommunicationError "Connection is unauthorized")
    | _, None => st_err (CommunicationError "No UAID set")
    | Some _, Some uaid =>
        let options := set_registration_id (Some new_token) (c_options self) in
        let self := mkConnectHttp options (c_uaid self) (c_auth self) in
        _ ← conn_set self;
        http ← st_lift (unwrap (http_protocol options));
        bridge ← st_lift (unwrap (bridge_type options));
        url ← st_lift (parse (registration http (server_host options) bridge (sender_id options) +:+ "/" +:+ uaid));
        rq ← st_lift (Request.json (body_to_vec {["token" := new_token]}) (Request.put url));
        hs ← st_lift (headers self);
        _ ← send_request "Could not update token: " (Request.headers hs rq);
        mret true
    end.

Definition channel_list : CONN (list string) :=
  self ← conn_get;
  match c_auth self, c_uaid self with
  | None, _ => st_err (CommunicationError "Connection is unauthorized")
  | _, None => st_err (CommunicationError "No UAID set")
  | Some _, Some uaid =>
      let options := c_options self in
      if is_none (bridge_type options) then st_err (CommunicationError "No Bridge Type set")
      else
        bridge ← st_lift (unwrap (bridge_type options));
        let http := default "https"%string (http_protocol options) in
        url ← st_lift (parse (registration http (server_host options) bridge (sender_id options) +:+ "/" +:+ uaid));
        hs ← st_lift (headers self);
        request ← send_request "Could not fetch channel list: " (Request.headers hs (Request.get url));
        if Response.is_server_error request then st_err (CommunicationServerError "Server error")
        else if Response.is_client_error request then st_err (CommunicationError ("Unhandled client error " +:+ debug_response request))
        else
          payload ← st_lift (map_err (λ e, CommunicationServerError ("Could not fetch channel_list: Bad Response " +:+ e))
                               (payload_from_slice (rs_body request)));
          if negb (String.eqb (fst payload) uaid) then st_err (CommunicationServerError "Invalid Response from server")
          else mret (snd payload)
  end.

(** [broadcast_subscribe] and [broadcasts]. *)
Definition broadcast_subscribe {A B} (_ : A) : CONN B := st_err (CommunicationError "Unsupported").
Definition broadcasts {B} : CONN B := st_err (CommunicationError "Unsupported").

Definition verify_connection (channels : list string) : CONN bool :=
  self ← conn_get;
  if is_none (c_auth self) then st_err (CommunicationError "Connection uninitiated")
  else if String.eqb (sender_id (c_options self)) "test" then mret false
  else
    remote ← channel_list;
    mret (bool_decide (remote = channels)).
End connection.

(** ** subscriber.rs *)
Record PushManager := mkPushManager { pm_config : PushConfiguration; pm_conn : ConnectHttp; pm_store : PushDb }.

Module PushManager.
Section manager.
Context {W : Type} `{!UrlLib, !Http W, !PushSerde, !Ece, !EceRand W, !Rand W, !Clock W, !RowOrder}.
Abbreviation PM := (ST (PushManager * W) ErrorKind).

Definition get : PM PushManager := λ '(pm, w), (Ok pm, (pm, w)).
Definition conn {A} (c : ST (ConnectHttp * W) ErrorKind A) : PM A := λ '(pm, w),
  let '(r, (k, w)) := c (pm_conn pm, w) in (r, (mkPushManager (pm_config pm) k (pm_store pm), w)).
Definition store {A} (c : ST PushDb ErrorKind A) : PM A := λ '(pm, w),
  let '(r, d) := c (pm_store pm) in (r, (mkPushManager (pm_config pm) (pm_conn pm) d, w)).
Definition world {A} (c : ST W ErrorKind A) : PM A := λ '(pm, w), let '(r, w) := c w in (r, (pm, w)).

(** On the database that was opened. *)
Definition new (config : PushConfiguration) (db : PushDb) : res ErrorKind PushManager :=
  c ← connect config (meta_data db !! "uaid"%string) (meta_data db !! "auth"%string);
  Ok (mkPushManager config c db).

(** [Timestamp::now] of [storage/types.rs], in milliseconds, and [PushRecord::new]. *)
Definition timestamp_now : ST W ErrorKind Z := λ w, let '(t, w) := system_now w in (Ok (Z.max 0 t / 1000000), w).
Definition PushRecord_new (uaid chid endpoint scope : string) (key : Key) : ST W ErrorKind PushRecord :=
  raw ← st_lift (match serialize key with Err _ => Panic "called `Result::unwrap()` on an `Err` value" | r => r end);
  ctime ← timestamp_now;
  mret (mkPushRecord uaid chid endpoint scope raw ctime None None).

Definition subscription_key (config : PushConfiguration) : ST W ErrorKind Key :=
  if String.eqb (sender_id config) "test" then
    st_lift (test_key
      "MHcCAQEEIKiZMcVhlVccuwSr62jWN4YPBrPmPKotJUWl1id0d2ifoAoGCCqGSM49AwEHoUQDQgAEFwl1-zUa0zLKYVO23LqUgZZEVesS0k_jQN_SA69ENHgPwIpWCoTq-VhHu0JiSwhF0oPUzEM-FBWYoufO6J97nQ"
      "BBcJdfs1GtMyymFTtty6lIGWRFXrEtJP40Df0gOvRDR4D8CKVgqE6vlYR7tCYksIRdKD1MxDPhQVmKLnzuife50"
      "LsuUOBKVQRY6-l7_Ajo-Ag")
  else
    st_match generate_key (λ r, match r with Err _ => Panic "called `Result::unwrap()` on an `Err` value" | r => r end).

(** The subscription that is stored for a channel. *)
Definition known_subscription (channel_id reg_token : string) : PM (option (RegisterResponse * Key)) :=
  self ← get;
  match c_uaid (pm_conn self) with
  | None => mret None
  | Some uaid =>
      found ← store (get_record uaid channel_id);
      match found with
      | None => mret None
      | Some record =>
          secret ← store (get_meta "auth");
          key ← st_lift (deserialize (pr_key record));
          mret (Some (mkRegisterResponse uaid (pr_channel_id record) secret (pr_endpoint record) (Some reg_token), key))
      end
  end.

Definition subscribe (channel_id scope : string) : PM (RegisterResponse * Key) :=
  self ← get;
  reg_token ← st_lift (unwrap (registration_id (pm_config self)));
  known ← known_subscription channel_id reg_token;
  match known with
  | Some r => mret r
  | None =>
      info ← conn (Push.subscribe channel_id);
      key ← world (subscription_key (pm_config self));
      record ← world (PushRecord_new (rr_uaid info) (rr_channel_id info) (rr_endpoint info) scope key);
      let record := pr_set_native_id (Some reg_token) (pr_set_app_server_key (vapid_key (pm_config self)) record) in
      _ ← store (put_record record);
      stored ← store (get_meta "uaid");
      _ ← match stored with
          | Some _ => mret tt
          | None =>
              _ ← store (set_meta "uaid" (rr_uaid info));
              match rr_secret info with Some secret => store (set_meta "auth" secret) | None => mret tt end
          end;
      mret (info, key)
  end.

Definition unsubscribe (channel_id : option string) : PM bool :=
  self ← get;
  if is_none (c_uaid (pm_conn self)) then st_err (GeneralError "No subscriptions created yet.")
  else
    result ← conn (Push.unsubscribe channel_id);
    uaid ← st_lift (unwrap (c_uaid (pm_conn self)));
    chid ← st_lift (unwrap channel_id);
    _ ← store (delete_record uaid chid);
    mret result.

Definition update (new_token : string) : PM bool :=
  self ← get;
  if is_none (c_uaid (pm_conn self)) then st_err (GeneralError "No subscriptions created yet.")
  else
    result ← conn (Push.update new_token);
    self ← get;
    uaid ← st_lift (unwrap (c_uaid (pm_conn self)));
    _ ← store (update_native_id uaid new_token);
    mret result.

Definition verify_connection : PM bool :=
  self ← get;
  match c_uaid (pm_conn self) with
  | None => mret true
  | Some uaid =>
      channels ← store (get_channel_list uaid);
      conn (Push.verify_connection channels)
  end.

Definition decrypt (uaid chid body encoding : string) (dh salt : option string) : PM string :=
  self ← get;
  match fst (get_record uaid chid (pm_store self)) with
  | Err e => st_err (StorageError (debug_error e))
  | Panic m => st_lift (Panic m)
  | Ok (Some val) =>
      key ← st_lift (deserialize (pr_key val));
      match PushCrypto.decrypt key body encoding salt dh with
      | Err e => st_err (EncryptionError (debug_error e))
      | Panic m => st_lift (Panic m)
      | Ok v => st_lift (map_err TranscodingError (bytes_to_string v))
      end
  | Ok None => st_err (StorageError ("No record for uaid:chid " +:+ debug_str uaid +:+ ":" +:+ debug_str chid))
  end.

Fixpoint regenerate (uaid : string) (channels : list string) (results : gmap string string) : PM (gmap string string) :=
  match channels with
  | [] => mret results
  | channel :: channels =>
      info ← conn (Push.subscribe channel);
      _ ← store (update_endpoint uaid channel (rr_endpoint info));
      regenerate uaid channels (<[channel := rr_endpoint info]> results)
  end.
Definition regenerate_endpoints : PM (gmap string string) :=
  self ← get;
  match c_uaid (pm_conn self) with
  | None => st_err (GeneralError "No subscriptions defined yet.")
  | Some uaid =>
      channels ← store (get_channel_list uaid);
      if String.eqb (sender_id (pm_config self)) "test" then
        mret {["deadbeef00000000decafbad00000000"%string := "http://push.example.com/test/obscure"%string]}
      else regenerate uaid channels ∅
  end.

Definition get_record_by_chid (chid : string) : PM (option PushRecord) := store (PushDb.get_record_by_chid chid).
End manager.
End PushManager.
