(* ===== verification/PushSpec.v ===== *)
(** * Push: what the manager does

    The subscriptions that are handed out are remembered, and every request goes to the
    configured server with the secret of the user agent. *)

From S2P Require Import Prelude Database KeyBundle Sync15Types Viaduct Token Client PushCrypto PushDb Push.
From Stdlib Require Import Ascii String.
From stdpp Require Import strings list gmap.
Import PushErr.
Local Open Scope Z_scope.
Local Open Scope list_scope.

(** ** Subscriptions are remembered *)
Section remembered.
Context {W : Type} `{!UrlLib, !Http W, !PushSerde, !Ece, !EceRand W, !Rand W, !Clock W, !RowOrder}.

(** The steps of a call that succeeds. *)
Lemma bind_Ok_inv {S E A B} (c : ST S E A) (k : A → ST S E B) s b s' :
  (c ≫= k) s = (Ok b, s') → ∃ a s1, c s = (Ok a, s1) ∧ k a s1 = (Ok b, s').
Proof. unfold mbind, ST_bind. destruct (c s) as [[a|e|m] s1]; [|done..]. by exists a, s1. Qed.

Lemma subscribe_sets_uaid chid (c : ConnectHttp) (w : W) info c' w' :
  Push.subscribe chid (c, w) = (Ok info, (c', w')) → c_uaid c' = Some (rr_uaid info).
Proof.
  unfold Push.subscribe. intros (self & s & [= <- <-] & Hrun)%bind_Ok_inv. destruct (_ || _); [done|].
  apply bind_Ok_inv in Hrun as (b & s1 & [= _ <-] & Hrun). apply bind_Ok_inv in Hrun as (h & s2 & [= _ <-] & Hrun).
  apply bind_Ok_inv in Hrun as (t & s3 & [= _ <-] & Hrun). destruct (String.eqb _ _).
  { apply bind_Ok_inv in Hrun as ([] & s4 & [= <-] & Hrun). by injection Hrun as <- <- <-. }
  do 3 apply bind_Ok_inv in Hrun as (? & ? & [= _ <-] & Hrun). apply bind_Ok_inv in Hrun as (resp & [c1 w1] & _ & Hrun).
  destruct (Response.is_server_error resp); [done|]. destruct (Response.is_client_error resp); [by destruct (_ =? _)|].
  apply bind_Ok_inv in Hrun as (v & s4 & [= _ <-] & Hrun). apply bind_Ok_inv in Hrun as ([] & s5 & [= <-] & Hrun).
  apply bind_Ok_inv in Hrun as (u & s6 & [= Hu <-] & Hrun). do 2 apply bind_Ok_inv in Hrun as (? & ? & [= _ <-] & Hrun).
  injection Hrun as <- <- <-. cbn. by destruct (match c_uaid c with Some _ => _ | None => _ end); [injection Hu as ->|].
Qed.
Lemma put_record_stores r d b d' : put_record r d = (Ok b, d') → d' = on_records <[(pr_uaid r, pr_channel_id r) := r]> d.
Proof.
  unfold put_record, mbind, ST_bind, st_get. cbn. destruct (push_record d !! _).
  - destruct (endpoint_taken _ _ _); [done|]. by intros [= _ <-].
  - destruct (channel_taken _ _ _); [done|]. destruct (endpoint_taken _ _ _); [done|]. by intros [= _ <-].
Qed.

Lemma store_Ok_inv {A} (c : ST PushDb ErrorKind A) pm (w : W) a pm' w' :
  PushManager.store c (pm, w) = (Ok a, (pm', w')) → ∃ d, c (pm_store pm) = (Ok a, d) ∧ pm' = mkPushManager (pm_config pm) (pm_conn pm) d ∧ w' = w.
Proof. unfold PushManager.store. destruct (c (pm_store pm)) as [r d]. intros [= -> <- <-]. by exists d. Qed.
Lemma world_Ok_inv {A} (c : ST W ErrorKind A) pm (w : W) a pm' w' :
  PushManager.world c (pm, w) = (Ok a, (pm', w')) → c w = (Ok a, w') ∧ pm' = pm.
Proof. unfold PushManager.world. destruct (c w) as [r w1]. by intros [= -> <- <-]. Qed.
Lemma conn_Ok_inv {A} (c : ST (ConnectHttp * W) ErrorKind A) pm (w : W) a pm' w' :
  PushManager.conn c (pm, w) = (Ok a, (pm', w')) → ∃ k, c (pm_conn pm, w) = (Ok a, (k, w')) ∧ pm' = mkPushManager (pm_config pm) k (pm_store pm).
Proof. unfold PushManager.conn. destruct (c (pm_conn pm, w)) as [r [k w1]]. intros [= -> <- <-]. by exists k. Qed.

(** What the manager knows of a channel. *)
Lemma known_subscription_run chid tok pm (w : W) :
  PushManager.known_subscription chid tok (pm, w) =
    (match c_uaid (pm_conn pm) ≫= λ u, push_record (pm_store pm) !! (u, chid) with
     | None => Ok None
     | Some r => key ← deserialize (pr_key r);
         Ok (Some (mkRegisterResponse (default ""%string (c_uaid (pm_conn pm))) (pr_channel_id r)
                     (meta_data (pm_store pm) !! "auth"%string) (pr_endpoint r) (Some tok), key))
     end, (pm, w)).
Proof.
  destruct pm as [cfg [o u a] [t m]]. unfold PushManager.known_subscription, PushManager.store, get_record, get_meta, mbind, ST_bind, st_get, st_lift. cbn.
  destruct u as [u|]; [|done]. cbn. destruct (t !! (u, chid)) as [r|]; [|done]. cbn. by destruct (deserialize (pr_key r)).
Qed.
Lemma subscribe_known chid scope tok pm (w : W) r key :
  registration_id (pm_config pm) = Some tok → c_uaid (pm_conn pm) ≫= (λ u, push_record (pm_store pm) !! (u, chid)) = Some r →
  deserialize (pr_key r) = Ok key →
  PushManager.subscribe chid scope (pm, w) =
    (Ok (mkRegisterResponse (default ""%string (c_uaid (pm_conn pm))) (pr_channel_id r) (meta_data (pm_store pm) !! "auth"%string)
           (pr_endpoint r) (Some tok), key), (pm, w)).
Proof.
  intros Htok Hr Hkey. unfold PushManager.subscribe. rewrite (st_bind_run _ _ _ pm (pm, w)) by done.
  rewrite (st_bind_run _ _ _ tok (pm, w)) by (unfold st_lift; by rewrite Htok).
  erewrite st_bind_run; [|rewrite known_subscription_run, Hr, Hkey; reflexivity]. done.
Qed.

(** A new subscription is in the store. *)
Lemma subscribe_stores `{!EceLaws, !RandLaws (W:=W) _} chid scope pm (w : W) info key pm' w' :
  sender_id (pm_config pm) ≠ "test"%string → PushManager.subscribe chid scope (pm, w) = (Ok (info, key), (pm', w')) →
  ∃ tok r, registration_id (pm_config pm') = Some tok ∧ c_uaid (pm_conn pm') = Some (rr_uaid info) ∧
    (∃ c, (c = chid ∨ c = rr_channel_id info) ∧ push_record (pm_store pm') !! (rr_uaid info, c) = Some r) ∧
    pr_channel_id r = rr_channel_id info ∧ deserialize (pr_key r) = Ok key ∧ pr_endpoint r = rr_endpoint info.
Proof.
  intros Hne. unfold PushManager.subscribe. intros (self & s & [= <- <-] & Hrun)%bind_Ok_inv.
  apply bind_Ok_inv in Hrun as (tok & s1 & [= Htok <-] & Hrun). unfold unwrap in Htok.
  destruct (registration_id (pm_config pm)) as [tok'|] eqn:Hreg; [|done]. injection Htok as ->.
  apply bind_Ok_inv in Hrun as (known & s2 & Hk & Hrun). rewrite known_subscription_run in Hk.
  destruct (c_uaid (pm_conn pm) ≫= _) as [r|] eqn:Hr.
  - destruct (deserialize (pr_key r)) as [k|e|m] eqn:Hd; [|done..]. injection Hk as <- <-. injection Hrun as <- <- <- <-. exists tok, r.
    destruct (c_uaid (pm_conn pm)) as [u|] eqn:Hu; [|done]. cbn in Hr |- *. split_and!; try done. exists chid. by split; [left|].
  - injection Hk as <- <-. apply bind_Ok_inv in Hrun as (i & [pm1 w1] & (c' & Hsub & ->)%conn_Ok_inv & Hrun).
    apply subscribe_sets_uaid in Hsub.
    apply bind_Ok_inv in Hrun as (k & [? w2] & [Hkey ->]%world_Ok_inv & Hrun).
    apply bind_Ok_inv in Hrun as (rec & [? w3] & [Hrec ->]%world_Ok_inv & Hrun).
    apply bind_Ok_inv in Hrun as (b & [? ?] & (d & Hput%put_record_stores & -> & ->)%store_Ok_inv & Hrun).
    apply bind_Ok_inv in Hrun as (stored & [? ?] & (d' & Hmeta & -> & ->)%store_Ok_inv & Hrun). injection Hmeta as <- <-. cbn in *.
    apply bind_Ok_inv in Hrun as ([] & [pm2 w4] & Hset & Hrun). injection Hrun as <- <- <- <-.
    assert (Hpm2 : pm_config pm2 = pm_config pm ∧ pm_conn pm2 = c' ∧ push_record (pm_store pm2) = push_record d).
    { destruct (meta_data d !! _); [by injection Hset as <- <-|].
      apply bind_Ok_inv in Hset as ([] & [? ?] & (d1 & [= <-] & -> & ->)%store_Ok_inv & Hset). destruct (rr_secret i).
      - apply store_Ok_inv in Hset as (d2 & [= <-] & -> & _). done.
      - by injection Hset as <- _. }
    destruct Hpm2 as (-> & -> & Hrows). rewrite Hput in Hrows.
    assert (Hk2 : key_pair_ok k ∧ length (k_auth k) = SER_AUTH_LENGTH).
    { unfold PushManager.subscription_key in Hkey. destruct (String.eqb_spec (sender_id (pm_config pm)) "test") as [|_]; [done|].
      unfold st_match in Hkey. destruct (generate_key w1) as [[k'|e|m] w1'] eqn:Hgen; [|done..]. injection Hkey as -> ->.
      by eapply generated_key_ok. }
    destruct Hk2 as [Hpair Hlen]. destruct (serialized_key_reads k Hpair) as (raw & Hser & Hde); [unfold SER_AUTH_LENGTH in Hlen; lia|].
    unfold PushManager.PushRecord_new in Hrec. apply bind_Ok_inv in Hrec as (raw' & ? & Hraw & Hrec). rewrite Hser in Hraw. injection Hraw as <- <-.
    apply bind_Ok_inv in Hrec as (t & ? & _ & [= <- _]). cbn in Hrows. eexists tok, _. split; [done|]. split; [done|]. split.
    { exists (rr_channel_id i). split; [by right|]. rewrite Hrows. cbn. by rewrite lookup_insert_eq. }
    done.
Qed.

(** A subscription is remembered.  After a channel was subscribed to, subscribing to it again
    gives the same endpoint and the same key, whatever happens in the outside world: no request
    is sent, no key is generated and nothing is stored. *)
Theorem subscription_is_remembered `{!EceLaws, !RandLaws (W:=W) _} chid scope pm (w : W) info key pm' w' :
  sender_id (pm_config pm) ≠ "test"%string → PushManager.subscribe chid scope (pm, w) = (Ok (info, key), (pm', w')) →
  rr_channel_id info = chid → ∀ scope' w2, ∃ secret tok,
    PushManager.subscribe chid scope' (pm', w2) =
      (Ok (mkRegisterResponse (rr_uaid info) chid secret (rr_endpoint info) (Some tok), key), (pm', w2)).
Proof.
  intros Hne Hrun Hc scope' w2. destruct (subscribe_stores chid scope pm w info key pm' w' Hne Hrun) as (tok & r & Htok & Hu & (c & Hcc & Hr) & Hrc & Hkey & He).
  exists (meta_data (pm_store pm') !! "auth"%string), tok. assert (c = chid) as -> by (destruct Hcc; congruence).
  rewrite (subscribe_known chid scope' tok pm' w2 r key Htok); [|by rewrite Hu|done]. by rewrite Hu, Hrc, Hc, He.
Qed.
End remembered.

(** ** Requests *)
Section requests.
Context {W : Type} `{!UrlLib, !Http W, !PushSerde, !Ece, !EceRand W, !Rand W, !Clock W, !RowOrder}.
Abbreviation World := (W * list Request)%type.
Definition quiet_rand_bytes (R : Rand W) : Rand World := λ n '(w, log), let '(r, w) := rand_fill n w in (r, (w, log)).
Definition quiet_key_pairs (R : EceRand W) : EceRand World := λ '(w, log), let '(r, w) := kp_generate_random w in (r, (w, log)).
Local Existing Instances logged_http quiet_clock quiet_rand_bytes quiet_key_pairs.

Context (auth : string) (server : PushConfiguration).

(** The connection of a user agent that is registered. *)
Definition registered (c : ConnectHttp) : Prop :=
  c_auth c = Some auth ∧ set_registration_id None (c_options c) = set_registration_id None server.
(** The request carries the secret and goes to the registrations of the configured server. *)
Definition authorised_push (rq : Request) : Prop :=
  Headers.get AUTHORIZATION (rq_headers rq) = Some (trim ("webpush " +:+ auth)) ∧
  ∃ bridge rest, bridge_type server = Some bridge ∧
    url_parse (registration (default "https"%string (http_protocol server)) (server_host server) bridge (sender_id server) +:+ rest) = Ok (rq_url rq).

(** Calls that keep the registration and only send such requests, for a state with a connection. *)
Definition guarded {S A} (p : S → ConnectHttp) (c : ST (S * World) ErrorKind A) : Prop :=
  ∀ s w log r s' w' log', c (s, (w, log)) = (r, (s', (w', log'))) → registered (p s) →
    registered (p s') ∧ ∃ new, log' = log ++ new ∧ Forall authorised_push new.

Lemma guarded_pure {S A} (p : S → ConnectHttp) (f : S * World → res ErrorKind A) : guarded p (λ s, (f s, s)).
Proof. intros s w log r s' w' log' [= <- <- <- <-] Hreg. split; [done|]. exists []. by rewrite app_nil_r. Qed.
Lemma guarded_bind {S A B} (p : S → ConnectHttp) (c : ST (S * World) ErrorKind A) (k : A → ST (S * World) ErrorKind B) :
  guarded p c → (∀ a, guarded p (k a)) → guarded p (c ≫= k).
Proof.
  intros Hc Hk s w log r s' w' log' Hrun Hreg. unfold mbind, ST_bind in Hrun.
  destruct (c (s, (w, log))) as [[a|e|m] [s1 [w1 log1]]] eqn:Hcr.
  - destruct (Hc _ _ _ _ _ _ _ Hcr Hreg) as [Hreg1 (n1 & -> & Hn1)]. destruct (Hk a _ _ _ _ _ _ _ Hrun Hreg1) as [Hreg2 (n2 & -> & Hn2)].
    split; [done|]. exists (n1 ++ n2). by rewrite app_assoc, Forall_app.
  - injection Hrun as <- <- <- <-. by eapply Hc.
  - injection Hrun as <- <- <- <-. by eapply Hc.
Qed.
Lemma guarded_get {B} (k : ConnectHttp → ST (ConnectHttp * World) ErrorKind B) :
  (∀ self, registered self → guarded id (k self)) → guarded id (conn_get ≫= k).
Proof. intros Hk s w log r s' w' log' Hrun Hreg. exact (Hk s Hreg s w log r s' w' log' Hrun Hreg). Qed.
Lemma guarded_set c : registered c → guarded id (conn_set (W:=World) c).
Proof. intros Hc s w log r s' w' log' [= <- <- <- <-] _. split; [done|]. exists []. by rewrite app_nil_r. Qed.
Lemma guarded_send m rq : authorised_push rq → guarded id (send_request (W:=World) m rq).
Proof.
  intros Hrq s w log r s' w' log' Hrun Hreg. unfold send_request, send, logged_http, Token.send in Hrun.
  destruct (_ rq w) as [r1 w1]. injection Hrun as <- <- <- <-. split; [done|]. exists [rq]. by rewrite Forall_singleton.
Qed.

(** The headers of requests. *)
Lemma headers_registered c hs : registered c → headers c = Ok hs → hs = [mkHeader (mkHeaderName "authorization") (trim ("webpush " +:+ auth))].
Proof.
  intros [Ha _]. unfold headers. rewrite Ha. unfold Headers.insert, Headers.new, Header.new. cbn -[trim is_valid_header_value].
  destruct (is_valid_header_value _); [|done]. by intros [= <-].
Qed.
Lemma json_request b rq rq' :
  Request.json (E:=ErrorKind) b rq = Ok rq' →
  rq_url rq' = rq_url rq ∧ (rq_headers rq' = rq_headers rq ∨
    rq_headers rq' = rq_headers rq ++ [mkHeader (mkHeaderName "content-type") "application/json"]).
Proof.
  assert (Hct : Header.new (NName (mkHeaderName "content-type")) "application/json" =
    Ok (mkHeader (mkHeaderName "content-type") "application/json")) by (vm_compute; reflexivity).
  unfold Request.json, Headers.insert_if_missing. destruct b as [bs|e|m]; [|done..]. destruct (existsb _ _); cbn [negb].
  - intros [= <-]. split; [done|by left].
  - rewrite Hct. cbn [mbind res_bind]. intros [= <-]. split; [done|by right].
Qed.
Lemma push_request_headers v m u b rq :
  let hs := [mkHeader (mkHeaderName "authorization") v] in
  (rq = Request.headers hs (Request.new m u) ∨ Request.json (E:=ErrorKind) b (Request.headers hs (Request.new m u)) = Ok rq ∨
   ∃ rq', Request.json (E:=ErrorKind) b (Request.new m u) = Ok rq' ∧ rq = Request.headers hs rq') →
  rq_url rq = u ∧ Headers.get AUTHORIZATION (rq_headers rq) = Some v.
Proof.
  intros hs [->|[[-> [->| ->]]%json_request|(rq' & [Hu Hh]%json_request & ->)]]; [by split..|].
  split; [done|]. cbn [rq_headers Request.headers]. by destruct Hh as [->| ->].
Qed.
Lemma options_registered c bridge http rest u hs m b rq :
  registered c → bridge_type (c_options c) = Some bridge → http = default "https"%string (http_protocol (c_options c)) →
  parse (registration http (server_host (c_options c)) bridge (sender_id (c_options c)) +:+ rest) = Ok u → headers c = Ok hs →
  (rq = Request.headers hs (Request.new m u) ∨ Request.json (E:=ErrorKind) b (Request.headers hs (Request.new m u)) = Ok rq ∨
   ∃ rq', Request.json (E:=ErrorKind) b (Request.new m u) = Ok rq' ∧ rq = Request.headers hs rq') →
  authorised_push rq.
Proof.
  intros Hreg Hb -> Hu Hhs Hrq. pose proof (headers_registered c hs Hreg Hhs) as ->. apply push_request_headers in Hrq as [Hurl Hget].
  split; [done|]. destruct Hreg as [_ Ho]. exists bridge, rest. rewrite Hurl. unfold parse in Hu.
  pose proof (f_equal http_protocol Ho) as E1. pose proof (f_equal server_host Ho) as E2.
  pose proof (f_equal bridge_type Ho) as E3. pose proof (f_equal sender_id Ho) as E4. cbn in E1, E2, E3, E4.
  rewrite <-E1, <-E2, <-E3, <-E4. split; [done|]. by destruct (url_parse _); [injection Hu as ->|..].
Qed.

(** The calls of the connection. *)
Hypothesis real_sender : sender_id server ≠ "test"%string.

Lemma guarded_lift {S A B} (p : S → ConnectHttp) (r : res ErrorKind A) (k : A → ST (S * World) ErrorKind B) :
  (∀ a, r = Ok a → guarded p (k a)) → guarded p (st_lift r ≫= k).
Proof.
  intros Hk. destruct r as [a|e|m]; [exact (Hk a eq_refl)|..].
  - apply (guarded_pure p (λ _, Err e)).
  - apply (guarded_pure p (λ _, Panic m)).
Qed.
Lemma guarded_ret {S A} (p : S → ConnectHttp) (a : A) : guarded p (mret (M:=ST (S * World) ErrorKind) a).
Proof. apply (guarded_pure p (λ _, Ok a)). Qed.
Lemma guarded_err {S A} (p : S → ConnectHttp) e : guarded p (A:=A) (st_err e : ST (S * World) ErrorKind A).
Proof. apply (guarded_pure p (λ _, Err e)). Qed.
Lemma registered_sender c : registered c → String.eqb (sender_id (c_options c)) "test" = false.
Proof.
  intros [_ Ho]. apply String.eqb_neq. intros Ht. apply real_sender. rewrite <-Ht.
  symmetry. exact (f_equal sender_id Ho).
Qed.
Lemma unwrap_inv {A} (o : option A) a : unwrap (E:=ErrorKind) o = Ok a → o = Some a.
Proof. destruct o; [by intros [= ->]|done]. Qed.
Lemma append_nil_r (x : string) : x = (x +:+ "")%string.
Proof. induction x as [|c x IH]; [done|]. exact (f_equal (String c) IH). Qed.
Lemma append_assoc (x y z : string) : ((x +:+ y) +:+ z)%string = (x +:+ (y +:+ z))%string.
Proof. induction x as [|c x IH]; [done|]. exact (f_equal (String c) IH). Qed.

Lemma subscribe_guarded chid : guarded id (Push.subscribe (W:=World) chid).
Proof.
  unfold Push.subscribe. apply guarded_get. intros self Hself. destruct (_ || _); [apply guarded_err|].
  apply guarded_lift. intros bridge Hb%unwrap_inv. apply guarded_lift. intros http Hh%unwrap_inv. apply guarded_lift. intros token _.
  rewrite (registered_sender _ Hself). apply guarded_lift. intros u Hu. apply guarded_lift. intros hs Hhs. apply guarded_lift. intros rq Hrq.
  apply guarded_bind.
  - apply guarded_send. destruct (c_uaid self) as [uaid|].
    + eapply options_registered; [done|exact Hb| |exact Hu|exact Hhs|right; left; exact Hrq]. by rewrite Hh.
    + rewrite (append_nil_r (registration _ _ _ _)) in Hu. eapply options_registered; [done|exact Hb| |exact Hu|exact Hhs|right; left; exact Hrq].
      by rewrite Hh.
  - intros resp. destruct (Response.is_server_error resp); [apply guarded_err|].
    destruct (Response.is_client_error resp); [destruct (_ =? _); apply guarded_err|].
    apply guarded_lift. intros v _. apply guarded_bind.
    + apply guarded_set. destruct Hself as [Ha Ho]. split; [|done]. cbn. by rewrite Ha.
    + intros []. do 3 (apply guarded_lift; intros ? _). apply guarded_ret.
Qed.
Lemma unsubscribe_guarded chid : guarded id (Push.unsubscribe (W:=World) chid).
Proof.
  unfold Push.unsubscribe. apply guarded_get. intros self Hself. destruct (c_auth self); [|apply guarded_err].
  destruct (c_uaid self) as [uaid|]; [|apply guarded_err]. apply guarded_lift. intros http Hh%unwrap_inv. apply guarded_lift. intros bridge Hb%unwrap_inv.
  rewrite (registered_sender _ Hself). apply guarded_lift. intros u Hu. apply guarded_lift. intros hs Hhs.
  apply guarded_bind; [|intros _; apply guarded_ret]. apply guarded_send. destruct chid as [c|]; rewrite ?append_assoc in Hu.
  - eapply (options_registered self bridge http _ u hs _ (Ok [])); [done|exact Hb|by rewrite Hh|exact Hu|exact Hhs|by left].
  - eapply (options_registered self bridge http _ u hs _ (Ok [])); [done|exact Hb|by rewrite Hh|exact Hu|exact Hhs|by left].
Qed.
Lemma update_guarded tok : guarded id (Push.update (W:=World) tok).
Proof.
  unfold Push.update. apply guarded_get. intros self Hself. rewrite (registered_sender _ Hself).
  destruct (c_auth self) as [a|] eqn:Ha; [|apply guarded_err]. destruct (c_uaid self) as [uaid|]; [|apply guarded_err].
  set (self' := mkConnectHttp _ _ _). assert (Hself' : registered self') by (destruct Hself as [Ha' Ho]; split; cbn; [congruence|done]).
  apply guarded_bind; [by apply guarded_set|]. intros []. apply guarded_lift. intros http Hh%unwrap_inv. apply guarded_lift. intros bridge Hb%unwrap_inv.
  apply guarded_lift. intros u Hu. apply guarded_lift. intros rq Hrq. apply guarded_lift. intros hs Hhs.
  apply guarded_bind; [|intros _; apply guarded_ret]. apply guarded_send.
  eapply (options_registered self' bridge http _ u hs _); [done|exact Hb|cbn in Hh |- *; by rewrite Hh|exact Hu|exact Hhs|].
  right. right. exists rq. split; [exact Hrq|done].
Qed.
Lemma channel_list_guarded : guarded id (channel_list (W:=World)).
Proof.
  unfold channel_list. apply guarded_get. intros self Hself. destruct (c_auth self); [|apply guarded_err].
  destruct (c_uaid self) as [uaid|]; [|apply guarded_err]. destruct (is_none _); [apply guarded_err|].
  apply guarded_lift. intros bridge Hb%unwrap_inv. apply guarded_lift. intros u Hu. apply guarded_lift. intros hs Hhs. apply guarded_bind.
  - apply guarded_send. eapply (options_registered self bridge _ _ u hs _ (Ok [])); [done|exact Hb|done|exact Hu|exact Hhs|by left].
  - intros resp. destruct (Response.is_server_error resp); [apply guarded_err|]. destruct (Response.is_client_error resp); [apply guarded_err|].
    apply guarded_lift. intros [u' l] _. destruct (negb _); [apply guarded_err|apply guarded_ret].
Qed.
Lemma verify_guarded channels : guarded id (Push.verify_connection (W:=World) channels).
Proof.
  unfold Push.verify_connection. apply guarded_get. intros self Hself. destruct (is_none _); [apply guarded_err|].
  rewrite (registered_sender _ Hself). apply guarded_bind; [apply channel_list_guarded|]. intros l. apply guarded_ret.
Qed.

(** The calls of the manager. *)
Lemma guarded_conn {A} (c : ST (ConnectHttp * World) ErrorKind A) : guarded id c → guarded pm_conn (PushManager.conn c).
Proof.
  intros Hc pm w log r pm' w' log' Hrun Hreg. unfold PushManager.conn in Hrun.
  destruct (c (pm_conn pm, (w, log))) as [r1 [k [w1 log1]]] eqn:Hr. injection Hrun as <- <- <- <-. by eapply (Hc (pm_conn pm)).
Qed.
Lemma guarded_store {A} (c : ST PushDb ErrorKind A) : guarded pm_conn (PushManager.store (W:=World) c).
Proof.
  intros pm w log r pm' w' log' Hrun Hreg. unfold PushManager.store in Hrun. destruct (c (pm_store pm)) as [r1 d].
  injection Hrun as <- <- <- <-. split; [done|]. exists []. by rewrite app_nil_r.
Qed.
Lemma guarded_manager {B} (k : PushManager → ST (PushManager * World) ErrorKind B) :
  (∀ pm, guarded pm_conn (k pm)) → guarded pm_conn (PushManager.get ≫= k).
Proof. intros Hk pm w log r pm' w' log' Hrun Hreg. exact (Hk pm pm w log r pm' w' log' Hrun Hreg). Qed.

(** The innermost call that is matched on. *)
Ltac destruct_run :=
  match goal with
  | |- context [match ?c with (_, _) => _ end] => lazymatch c with context [match _ with (_, _) => _ end] => fail | _ => destruct c end
  end.

(** Calls that leave the log as it is. *)
Definition silent_call {A} (c : ST World ErrorKind A) : Prop := ∀ w log r w' log', c (w, log) = (r, (w', log')) → log' = log.
Lemma silent_call_bind {A B} (c : ST World ErrorKind A) (k : A → ST World ErrorKind B) :
  silent_call c → (∀ a, silent_call (k a)) → silent_call (c ≫= k).
Proof.
  intros Hc Hk w log r w' log'. unfold mbind, ST_bind. destruct (c (w, log)) as [[a|e|m] [w1 log1]] eqn:Hr; apply Hc in Hr as ->.
  - apply Hk.
  - by intros [= _ _ <-].
  - by intros [= _ _ <-].
Qed.
Lemma silent_value {A} (f : res ErrorKind A) : silent_call (λ s, (f, s)).
Proof. by intros w log r w' log' [= _ _ <-]. Qed.
Lemma silent_generate : silent_call generate_key.
Proof.
  apply silent_call_bind; [|intros key; apply silent_call_bind; [|intros a; apply silent_call_bind; [apply silent_value|intros p; apply (silent_value (Ok _))]]].
  - intros w log r w' log'. unfold st_map_err, kp_generate_random, quiet_key_pairs, PushCrypto.kp_generate_random. destruct_run. by intros [= _ _ <-].
  - intros w log r w' log'. unfold get_bytes, st_map_err, rand_fill, quiet_rand_bytes, KeyBundle.rand_fill. destruct_run. by intros [= _ _ <-].
Qed.
Lemma silent_key cfg : silent_call (PushManager.subscription_key cfg).
Proof.
  unfold PushManager.subscription_key. destruct (String.eqb _ _); [apply silent_value|]. intros w log r w' log'.
  unfold st_match. destruct (generate_key (w, log)) as [r1 [w1 log1]] eqn:Hg. apply silent_generate in Hg as ->. by intros [= _ _ <-].
Qed.
Lemma silent_record u c e sc k : silent_call (PushManager.PushRecord_new u c e sc k).
Proof.
  apply silent_call_bind; [apply silent_value|]. intros raw. apply silent_call_bind; [|intros t; apply (silent_value (Ok _))].
  intros w log r w' log'. unfold PushManager.timestamp_now, system_now, quiet_clock, Token.system_now. destruct_run. by intros [= _ _ <-].
Qed.
Lemma guarded_world {A} (c : ST World ErrorKind A) : silent_call c → guarded pm_conn (PushManager.world c).
Proof.
  intros Hc pm w log r pm' w' log' Hrun Hreg. unfold PushManager.world in Hrun. destruct (c (w, log)) as [r1 [w1 log1]] eqn:Hr.
  apply Hc in Hr as ->. injection Hrun as <- <- <- <-. split; [done|]. exists []. by rewrite app_nil_r.
Qed.
Lemma manager_subscribe_guarded chid scope : guarded pm_conn (PushManager.subscribe (W:=World) chid scope).
Proof.
  apply guarded_manager. intros pm. apply guarded_lift. intros tok _. apply guarded_bind.
  - apply guarded_manager. intros pm1. destruct (c_uaid (pm_conn pm1)); [|apply guarded_ret]. apply guarded_bind; [apply guarded_store|].
    intros [rec|]; [|apply guarded_ret]. apply guarded_bind; [apply guarded_store|]. intros secret. apply guarded_lift. intros key _. apply guarded_ret.
  - intros [known|]; [apply guarded_ret|]. apply guarded_bind; [apply guarded_conn, subscribe_guarded|]. intros info.
    apply guarded_bind; [apply guarded_world, silent_key|]. intros key. apply guarded_bind; [apply guarded_world, silent_record|]. intros rec.
    apply guarded_bind; [apply guarded_store|]. intros _. apply guarded_bind; [apply guarded_store|]. intros stored.
    apply guarded_bind; [|intros _; apply guarded_ret]. destruct stored; [apply guarded_ret|].
    apply guarded_bind; [apply guarded_store|]. intros _. destruct (rr_secret info); [apply guarded_store|apply guarded_ret].
Qed.
Lemma regenerate_guarded u l : ∀ results, guarded pm_conn (PushManager.regenerate (W:=World) u l results).
Proof.
  induction l as [|c l IH]; intros results; [apply guarded_ret|]. cbn [PushManager.regenerate].
  apply guarded_bind; [apply guarded_conn, subscribe_guarded|]. intros info. apply guarded_bind; [apply guarded_store|]. intros _. apply IH.
Qed.

Inductive manager_call :=
| CSubscribe (chid scope : string) | CUnsubscribe (chid : option string) | CUpdate (token : string) | CVerify | CRegenerate.
Definition run_manager_call (o : manager_call) : ST (PushManager * World) ErrorKind unit :=
  match o with
  | CSubscribe chid scope => _ ← PushManager.subscribe chid scope; mret tt
  | CUnsubscribe chid => _ ← PushManager.unsubscribe chid; mret tt
  | CUpdate tok => _ ← PushManager.update tok; mret tt
  | CVerify => _ ← PushManager.verify_connection; mret tt
  | CRegenerate => _ ← PushManager.regenerate_endpoints; mret tt
  end.
Lemma run_manager_call_guarded o : guarded pm_conn (run_manager_call o).
Proof.
  destruct o as [chid scope|chid|tok| |]; (apply guarded_bind; [|intros _; apply guarded_ret]).
  - apply manager_subscribe_guarded.
  - apply guarded_manager. intros pm. destruct (is_none _); [apply guarded_err|]. apply guarded_bind; [apply guarded_conn, unsubscribe_guarded|].
    intros b. do 2 (apply guarded_lift; intros ? _). apply guarded_bind; [apply guarded_store|]. intros _. apply guarded_ret.
  - apply guarded_manager. intros pm. destruct (is_none _); [apply guarded_err|]. apply guarded_bind; [apply guarded_conn, update_guarded|].
    intros b. apply guarded_manager. intros pm1. apply guarded_lift. intros u _. apply guarded_bind; [apply guarded_store|]. intros _. apply guarded_ret.
  - apply guarded_manager. intros pm. destruct (c_uaid _); [|apply guarded_ret]. apply guarded_bind; [apply guarded_store|].
    intros l. apply guarded_conn, verify_guarded.
  - apply guarded_manager. intros pm. destruct (c_uaid _); [|apply guarded_err]. apply guarded_bind; [apply guarded_store|].
    intros l. destruct (String.eqb _ _); [apply guarded_ret|apply regenerate_guarded].
Qed.

(** Calls one after the other, whatever each returns. *)
Fixpoint run_manager_calls (l : list manager_call) (s : PushManager * World) : PushManager * World :=
  match l with [] => s | o :: l => run_manager_calls l (snd (run_manager_call o s)) end.

(** C22: once the user agent is registered, every request that any sequence of calls of the
    manager makes carries the secret that the server gave, and goes to the registrations of
    the configured server; also when calls fail or panic. *)
Theorem push_requests_are_authorised calls pm w log pm' w' log' :
  registered (pm_conn pm) → run_manager_calls calls (pm, (w, log)) = (pm', (w', log')) →
  registered (pm_conn pm') ∧ ∃ new, log' = log ++ new ∧ Forall authorised_push new.
Proof.
  revert pm w log. induction calls as [|o calls IH]; intros pm w log Hreg Hrun.
  - injection Hrun as <- <- <-. split; [done|]. exists []. by rewrite app_nil_r.
  - cbn in Hrun. destruct (run_manager_call o (pm, (w, log))) as [r [pm1 [w1 log1]]] eqn:Ho. cbn in Hrun.
    destruct (run_manager_call_guarded o _ _ _ _ _ _ _ Ho Hreg) as [Hreg1 (n1 & -> & Hn1)].
    destruct (IH _ _ _ Hreg1 Hrun) as [Hreg2 (n2 & -> & Hn2)]. split; [done|]. exists (n1 ++ n2). by rewrite app_assoc, Forall_app.
Qed.
End requests.

(** ** A concrete server *)
Module ToyPush.
Import ToyEce.
#[export] Instance toy_push_urls : UrlLib := {|
  Url := string; url_parse := Ok; url_join := λ u s, Ok (u +:+ s); url_as_str := λ u, u; url_eqb := String.eqb; url_path := λ u, u;
  url_query := λ _, None; url_host_str := λ _, None; url_port_or_known_default := λ _, None; url_pop_segment := Some;
  url_extend_segments := λ u _, Some u; url_append_pairs := λ u _, u; url_clear_query := λ u, u |}.
(** It answers a registration with the channel of the request, and knows two channels. *)
#[export] Instance toy_push_serde : PushSerde := {|
  PushValue := string; value_from_slice := λ b, Ok (string_of_list_ascii b);
  value_str := λ v k, (if String.eqb k "uaid" then Some "agent" else if String.eqb k "secret" then Some "secret" else
    if String.eqb k "channelID" then Some v else if String.eqb k "endpoint" then Some ("http://push/" +:+ v) else None)%string;
  payload_from_slice := λ _, Ok ("agent", ["c2"; "c1"])%string;
  body_to_vec := λ m, Ok (as_bytes (default "" (m !! "channelID")))%string;
  bytes_to_string := λ b, Ok (string_of_list_ascii b); utf8_lossy := string_of_list_ascii; debug_str := λ s, s;
  debug_viaduct := viaduct_display; debug_response := λ _, ""%string; debug_error := λ _, ""%string |}.
(** The status is that of the world, which counts the keys and reads of the clock. *)
Definition Wt : Type := Z * nat.
#[export] Instance toy_push_http : Http Wt :=
  λ rq w, (Ok (mkResponse (rq_method rq) (rq_url rq) (fst w) [] (default [] (rq_body rq))), w).
#[export] Instance toy_push_rand : Rand Wt := λ n w, (Ok (repeat "r"%char n), w).
#[export] Instance toy_push_rand_laws : RandLaws toy_push_rand.
Proof. intros n w b w' [= <- <-]. apply repeat_length. Qed.
#[export] Instance toy_push_pairs : EceRand Wt := λ w, (Ok toy_pair, (fst w, S (snd w))).
#[export] Instance toy_push_clock : Clock Wt := λ w, (Z.of_nat (snd w) * 1000000000, (fst w, S (snd w))).
#[export] Instance toy_push_order : RowOrder := λ l, l.

Definition config : PushConfiguration :=
  mkPushConfiguration "push" None (Some "https"%string) (Some "fcm"%string) (Some "token1"%string) None true 1800 "sender" None.
Definition pm0 : PushManager := mkPushManager config (mkConnectHttp config None None) (mkPushDb ∅ ∅).
Definition ok : Wt := (200, 0%nat).
Definition s1 : PushManager * Wt := snd (PushManager.subscribe "c1" "" (pm0, ok)).
Definition s2 : PushManager * Wt := snd (PushManager.subscribe "c2" "" s1).
Definition info1 : RegisterResponse := mkRegisterResponse "agent" "c1" (Some "secret"%string) "http://push/c1" None.
Definition key1 : Key := mkKey toy_pair (rev raw_key) (repeat "r"%char 16).

Lemma subscription_is_remembered_witness :
  ∃ secret tok, PushManager.subscribe "c1" "other" (fst s1, (500, 7%nat)) =
    (Ok (mkRegisterResponse "agent" "c1" secret "http://push/c1" (Some tok), key1), (fst s1, (500, 7%nat))).
Proof.
  refine (subscription_is_remembered "c1" "" pm0 ok info1 key1 (fst s1) (snd s1) _ _ eq_refl "other" (500, 7%nat)).
  - discriminate.
  - vm_compute. reflexivity.
Defined.

Lemma push_requests_are_authorised_witness :
  ∃ new, snd (snd (run_manager_calls [CSubscribe "c3" ""; CVerify; CUpdate "token2"; CUnsubscribe (Some "c1"%string)] (fst s1, (snd s1, [])))) = [] ++ new ∧
    Forall (authorised_push "secret" config) new ∧ length new = 4%nat.
Proof.
  set (calls := [CSubscribe "c3" ""; CVerify; CUpdate "token2"; CUnsubscribe (Some "c1"%string)]).
  destruct (run_manager_calls calls (fst s1, (snd s1, []))) as [pm' [w' log']] eqn:Hrun.
  assert (Hlen : length log' = 4%nat).
  { replace log' with (snd (snd (run_manager_calls calls (fst s1, (snd s1, []))))) by (by rewrite Hrun). vm_compute. reflexivity. }
  destruct (push_requests_are_authorised "secret" config ltac:(discriminate) calls (fst s1) (snd s1) [] pm' w' log') as [_ (new & Heq & Hnew)].
  - split; vm_compute; reflexivity.
  - exact Hrun.
  - exists new. split; [exact Heq|]. split; [exact Hnew|]. rewrite Heq in Hlen. exact Hlen.
Defined.

(** Unsubscribing from all channels, which the connection supports, panics. *)
Theorem unsubscribe_without_channel_panics :
  fst (PushManager.unsubscribe None s1) = Panic "called `Option::unwrap()` on a `None` value".
Proof. vm_compute. reflexivity. Qed.
(** The server refuses, and the subscription is dropped. *)
Theorem failed_unsubscribe_is_success :
  let r := PushManager.unsubscribe (Some "c1"%string) (fst s1, (500, 7%nat)) in
  fst r = Ok true ∧ push_record (pm_store (fst (snd r))) = ∅.
Proof. vm_compute. split; reflexivity. Qed.
(** Both sides know the same two channels. *)
Theorem verification_depends_on_order :
  fst (PushManager.verify_connection s2) = Ok false ∧ fst (get_channel_list "agent" (pm_store (fst s2))) = Ok ["c1"; "c2"]%string ∧
  fst (channel_list (pm_conn (fst s2), snd s2)) = Ok ["c2"; "c1"]%string.
Proof. vm_compute. split_and!; reflexivity. Qed.
(** The subscriptions made after an update are stored with the token from before it. *)
Theorem update_is_forgotten :
  let s := snd (PushManager.subscribe "c2" "" (snd (PushManager.update "token2" s1))) in
  registration_id (c_options (pm_conn (fst s))) = Some "token2"%string ∧
  pr_native_id <$> push_record (pm_store (fst s)) !! ("agent", "c2")%string = Some (Some "token1"%string).
Proof. vm_compute. split; reflexivity. Qed.
End ToyPush.
