(* ===== verification/Ffi.v ===== *)
(** * FFI support: errors, conversions and the calls that cross the boundary

    Model of [components/support/ffi/src/error.rs], of [call_with_result] and its variants in
    [lib.rs], of [rust_string_to_c] and of [into_ffi.rs].  A C string is a Rust string without
    NUL, and a null pointer is [None]; the memory behind the pointers is not modelled. *)

From S2P Require Import Prelude.
From Stdlib Require Import Ascii String.
From stdpp Require Import strings.
Local Open Scope Z_scope.

(** ** string.rs *)
Fixpoint has_nul (s : string) : bool :=
  match s with EmptyString => false | String c s => Ascii.eqb c "000"%char || has_nul s end.

(** What cannot fail with an error, but can panic. *)
Abbreviation panics A := (res Empty_set A).
Definition CStr : Type := option string.
Definition rust_string_to_c (rust_string : string) : panics CStr :=
  if has_nul rust_string then Panic "Error: Rust string contained an interior null byte." else Ok (Some rust_string).

(** ** error.rs *)
Module ErrorCode.
Definition SUCCESS : Z := 0.
Definition PANIC : Z := -1.
Definition INVALID_HANDLE : Z := -1000.

Definition new (code : Z) : panics Z :=
  _ ← rassert ((INVALID_HANDLE <? code) && negb (code =? PANIC) && negb (code =? SUCCESS)) "Error: The ErrorCodes are reserved";
  Ok code.
Definition is_success (self : Z) : bool := self =? 0.
End ErrorCode.

Record ExternError := mkExternError { ee_code : Z; ee_message : CStr }.

Module ExternError.
Definition new_error (code : Z) (message : string) : panics ExternError :=
  _ ← rassert (negb (ErrorCode.is_success code)) "Attempted to construct a success ExternError with a message";
  message ← rust_string_to_c message;
  Ok (mkExternError code message).
Definition success : ExternError := mkExternError ErrorCode.SUCCESS None.
(** From the payload of a panic: a [&str], a [String], or a value of any other type. *)
Inductive PanicPayload := PStr (s : string) | PString (s : string) | POther.
Definition from_panic (e : PanicPayload) : panics ExternError :=
  let message := match e with PStr s => s | PString s => s | POther => "Unknown panic!"%string end in
  new_error ErrorCode.PANIC message.
End ExternError.

(** ** into_ffi.rs *)
Class IntoFfi (R V : Type) := { ffi_default : V; into_ffi_value : R → panics V }.
#[global] Hint Mode IntoFfi ! - : typeclass_instances.
#[export] Instance IntoFfi_String : IntoFfi string CStr := {| ffi_default := None; into_ffi_value := rust_string_to_c |}.
#[export] Instance IntoFfi_Option {T V} `{!IntoFfi T V} : IntoFfi (option T) V :=
  {| ffi_default := ffi_default (R:=T) (V:=V);
     into_ffi_value (o : option T) := match o with Some s => into_ffi_value (R:=T) (V:=V) s | None => Ok (ffi_default (R:=T) (V:=V)) end |}.
#[export] Instance IntoFfi_bool : IntoFfi bool Z := {| ffi_default := 0; into_ffi_value (b : bool) := Ok (if b then 1 else 0) |}.
#[export] Instance IntoFfi_unit : IntoFfi unit unit := {| ffi_default := tt; into_ffi_value := Ok |}.
(** The integers. *)
#[export] Instance IntoFfi_int : IntoFfi Z Z := {| ffi_default := 0; into_ffi_value := Ok |}.

(** [Into<ExternError>]. *)
Class IntoExtern (E : Type) := into_extern : E → panics ExternError.
(** The fields of [ExternError] are private: outside of the crate an error is made by
    [new_error], with a code and a message of the caller's. *)
Class ByNewError (E : Type) `{!IntoExtern E} :=
  into_extern_new : ∀ e : E, ∃ code message, into_extern e = ExternError.new_error code message.
#[export] Instance IntoExtern_refl : IntoExtern ExternError := Ok.

(** ** lib.rs *)

(** How a call ends: it returns a value and has written the error, or the process is aborted,
    or a panic leaves the function. *)
Inductive ffi_exit (V : Type) := Returned (out_error : ExternError) (v : V) | Aborted | Unwound (payload : string).
Arguments Returned {V}.
Arguments Aborted {V}.
Arguments Unwound {V}.

Section call.
Context {S R V E : Type} `{!IntoFfi R V, !IntoExtern E}.

(** The closure that is run under [catch_unwind].  The panics of the model are those of the
    macros, whose payload is a message. *)
Definition guarded_call (callback : ST S E R) : ST S Empty_set (ExternError * V) := λ s,
  let '(r, s) := callback s in
  (match r with
   | Ok v => v ← into_ffi_value v; Ok (ExternError.success, v)
   | Err e => e ← into_extern e; Ok (e, ffi_default (R:=R))
   | Panic m => Panic m
   end, s).

Definition call_with_result_impl (callback : ST S E R) (abort_on_panic : bool) (s : S) : ffi_exit V * S :=
  let '(r, s) := guarded_call callback s in
  (match r with
   | Ok (err, o) => Returned err o
   | Err e => match e with end
   | Panic e =>
       if abort_on_panic then Aborted
       else match ExternError.from_panic (ExternError.PString e) with
            | Ok err => Returned err (ffi_default (R:=R))
            | Err e => match e with end
            | Panic m => Unwound m
            end
   end, s).

Definition call_with_result (callback : ST S E R) : S → ffi_exit V * S := call_with_result_impl callback false.
End call.

Definition call_with_output {S R V} `{!IntoFfi R V} (callback : ST S Empty_set R) : S → ffi_exit V * S :=
  call_with_result (E:=ExternError) (λ s, let '(r, s) := callback s in (match r with Ok v => Ok v | Err e => match e with end | Panic m => Panic m end, s)).

(** ** What a caller sees *)
Section report.
Context {S R V E : Type} `{!IntoFfi R V, !IntoExtern E, !ByNewError E}.

Lemma new_error_ok code message : ErrorCode.is_success code = false → has_nul message = false →
  ExternError.new_error code message = Ok (mkExternError code (Some message)).
Proof. intros Hc Hm. unfold ExternError.new_error, rust_string_to_c. by rewrite Hc, Hm. Qed.
(** An error that [new_error] made has a code other than 0, and its message. *)
Lemma new_error_inv code message err : ExternError.new_error code message = Ok err →
  err = mkExternError code (Some message) ∧ ErrorCode.is_success code = false.
Proof.
  unfold ExternError.new_error, rust_string_to_c. destruct (ErrorCode.is_success code); [done|].
  destruct (has_nul message); [done|]. by intros [= <-].
Qed.

(** What is reported of a panic. *)
Definition panic_error (m : string) : ExternError := mkExternError ErrorCode.PANIC (Some m).

(** C26: over the FFI, failure and success are told apart.  A call always returns, in the state the
    callback left, unless the message of a panic has a NUL (then a panic leaves the call, see
    [nul_in_panic_message_unwinds]).  If the callback succeeds and its value can be converted, that value is
    returned, with the code 0 and no message; if it returns an error, the code and the message
    of that error are reported; and a panic, of the callback or of a
    conversion, is reported with the code for panics and its message; with an error goes the
    default value.  The code is 0 exactly in the first case: an
    error made by [new_error] never has it. *)
Theorem call_reports_outcome (callback : ST S E R) s r s' :
  callback s = (r, s') →
  (∀ m, fst (guarded_call callback s) = Panic m → has_nul m = false) →
  ∃ err v, call_with_result callback s = (Returned err v, s') ∧
    match r with
    | Ok a => into_ffi_value a = Ok v ∧ err = ExternError.success ∨
        ∃ m, into_ffi_value (R:=R) (V:=V) a = Panic m ∧ err = panic_error m ∧ v = ffi_default (R:=R)
    | Err e => v = ffi_default (R:=R) ∧
        ((into_extern e = Ok err ∧ is_Some (ee_message err)) ∨
         (∃ m, into_extern e = Panic m ∧ err = panic_error m))
    | Panic m => v = ffi_default (R:=R) ∧ err = panic_error m
    end ∧
    (ErrorCode.is_success (ee_code err) = true ↔ err = ExternError.success ∧ ∃ a, r = Ok a ∧ into_ffi_value a = Ok v).
Proof.
  intros Hr Hnul. unfold call_with_result, call_with_result_impl. unfold guarded_call in *. rewrite Hr in *. cbn [fst] in Hnul.
  assert (Hpanic : ∀ m, has_nul m = false → ExternError.from_panic (ExternError.PString m) = Ok (panic_error m)).
  { intros m Hm. by apply new_error_ok. }
  destruct r as [a|e|m].
  - destruct (into_ffi_value a) as [v|[]|m] eqn:Ha; cbn -[ExternError.from_panic].
    + exists ExternError.success, v. split; [done|]. split; [by left|]. split; [|done]. intros _. split; [done|]. by exists a.
    + rewrite (Hpanic m (Hnul m eq_refl)). eexists _, _. split; [done|]. split; [right; by exists m|]. split; [done|]. by intros [[=] _].
  - destruct (into_extern_new e) as (code & message & Hnew). destruct (into_extern e) as [err|[]|m] eqn:He; cbn -[ExternError.from_panic].
    + symmetry in Hnew. destruct (new_error_inv _ _ _ Hnew) as [-> Hc]. eexists _, _. split; [done|].
      split; [split; [done|]; left; by split|]. cbn. rewrite Hc. split; [done|]. intros [_ (a & [=] & _)].
    + rewrite (Hpanic m (Hnul m eq_refl)). eexists _, _. split; [done|]. split; [split; [done|]; right; by exists m|]. split; [done|]. by intros [[=] _].
  - rewrite (Hpanic m (Hnul m eq_refl)). eexists _, _. split; [done|]. split; [done|]. split; [done|]. by intros [[=] _].
Qed.
End report.

(** A callback on a counter that fails when the counter is not positive. *)
Inductive ToyError := NotPositive (what : string).
#[export] Instance ToyError_into_extern : IntoExtern ToyError := λ '(NotPositive what), ExternError.new_error 1 what.
#[export] Instance ToyError_by_new_error : ByNewError ToyError.
Proof. intros [what]. by exists 1, what. Qed.
Definition toy_callback : ST Z ToyError string := λ n,
  (if 0 <? n then Ok "value"%string else Err (NotPositive "counter"), n + 1).
Lemma call_reports_outcome_witness :
  call_with_result toy_callback 1 = (Returned ExternError.success (Some "value"%string), 2) ∧
  call_with_result toy_callback 0 = (Returned (mkExternError 1 (Some "counter"%string)) None, 1).
Proof.
  split.
  - destruct (call_reports_outcome toy_callback 1 (Ok "value"%string) 2 eq_refl) as (err & v & Hc & [([= <-] & ->)|(m & [=] & _)] & _).
    + discriminate.
    + exact Hc.
  - destruct (call_reports_outcome toy_callback 0 (Err (NotPositive "counter")) 1 eq_refl)
      as (err & v & Hc & (-> & [([= <-] & _)|(m & [=] & _)]) & _).
    + discriminate.
    + exact Hc.
Defined.

(** A panic whose message has a NUL leaves the call: the conversion of its message panics
    outside of [catch_unwind]. *)
Theorem nul_in_panic_message_unwinds :
  call_with_result (S:=unit) (E:=ExternError) (R:=unit) (λ s, (Panic (String "000"%char ""), s)) tt =
    (Unwound "Error: Rust string contained an interior null byte.", tt).
Proof. reflexivity. Qed.
