(* ===== verification/ConcurrentMap.v ===== *)
(** * The concurrent handle map

    Model of [ConcurrentHandleMap] of [components/support/ffi/src/handle_map.rs], an
    [RwLock<HandleMap<Mutex<T>>>], with the calls that cross the FFI.  The first part has what
    each method does when it runs alone, poisoning included; the second part interleaves the
    calls of several threads, with the locks they take.

    A callback is modelled as a function of the item it is given: it ends, and it does not call the map
    again.  A closure of the source may capture the map; one that calls it for the same item would
    wait for ever for the mutex it holds itself, and one that writes to it for its own read
    lock.  The theorems on threads say nothing of such callbacks. *)

From S2P Require Import Prelude HandleMap Ffi.
From Stdlib Require Import String.
From stdpp Require Import gmap list.
Local Open Scope Z_scope.

(** [impl From<HandleError> for ExternError], with the messages of the errors. *)
Definition HandleError_display (e : HandleError) : string :=
  match e with
  | NullHandle => "Tried to use a null handle (this object has probably been closed)"
  | InvalidHandle => "u64 could not encode a valid Handle"
  | StaleVersion => "Handle has stale version number"
  | IndexPastEnd => "Handle references a index past the end of this HandleMap"
  | WrongMap => "Handle is from a different map"
  end.
#[export] Instance HandleError_into_extern : IntoExtern HandleError :=
  λ e, ExternError.new_error ErrorCode.INVALID_HANDLE (HandleError_display e).
#[export] Instance HandleError_by_new_error : ByNewError HandleError.
Proof. intros e. by eexists _, _. Qed.
#[export] Instance IntoFfi_Handle : IntoFfi Handle Z := {| ffi_default := 0; into_ffi_value (h : Handle) := Ok (into_u64 h) |}.

(** The operator [?] on a result whose error is converted. *)
Definition question {E F A} (from : E → panics F) (r : res E A) : res F A :=
  match r with
  | Ok a => Ok a
  | Err e => match from e with Ok f => Err f | Err x => match x with end | Panic m => Panic m end
  | Panic m => Panic m
  end.

(** ** The map *)
Record Mutex (T : Type) := mkMutex { poisoned : bool; inner : T }.
Arguments mkMutex {T}.
Arguments poisoned {T}.
Arguments inner {T}.
Record ConcurrentHandleMap (T : Type) := mkCMap { map_poisoned : bool; map : HandleMap (Mutex T) }.
Arguments mkCMap {T}.
Arguments map_poisoned {T}.
Arguments map {T}.

Definition POISON : string := "called `Result::unwrap()` on an `Err` value: PoisonError { inner: .. }".
(** [Mutex::into_inner().ok()]. *)
Definition into_inner {T} (m : Mutex T) : option T := if poisoned m then None else Some (inner m).

Module ConcurrentHandleMap.
Section ops.
Context {T : Type} (debug : bool).
Abbreviation CM := (ST (ConcurrentHandleMap T)).

Definition new {E} (counter : Z) : res E (ConcurrentHandleMap T * Z) :=
  '(m, counter) ← HandleMap.new counter; Ok (mkCMap false m, counter).

(** What is done while the write lock is held: a panic poisons the lock.  The map that is left
    then is never read again. *)
Definition with_write {E A} (f : HandleMap (Mutex T) → res E (A * HandleMap (Mutex T))) : CM E A := λ c,
  if map_poisoned c then (Panic POISON, c)
  else match f (map c) with
       | Ok (a, m) => (Ok a, mkCMap false m)
       | Err e => (Err e, c)
       | Panic s => (Panic s, mkCMap true (map c))
       end.

Definition insert {E} (v : T) : CM E Handle := with_write (HandleMap.insert debug (mkMutex false v)).
Definition delete (h : Handle) : CM HandleError unit := with_write (HandleMap.delete debug h).
Definition delete_u64 (h : Z) : CM HandleError unit := h ← st_lift (from_u64 h); delete h.
Definition remove (h : Handle) : CM HandleError (option T) :=
  with_write (λ m, '(mutex, m) ← HandleMap.remove debug h m; Ok (into_inner mutex, m)).
Definition remove_u64 (h : Z) : CM HandleError (option T) := h ← st_lift (from_u64 h); remove h.

(** The write through the guard of an item's mutex. *)
Definition store (h : Handle) (mtx : Mutex T) (c : ConcurrentHandleMap T) : ConcurrentHandleMap T :=
  match HandleMap.get_mut h (λ _, mtx) (map c) with Ok (_, m) => mkCMap (map_poisoned c) m | _ => c end.
(** The callback under the guard; a panic poisons the mutex. *)
Definition run_callback {E R} (h : Handle) (callback : ST T E R) (mtx : Mutex T) : CM E R := λ c,
  let '(r, v) := callback (inner mtx) in (r, store h (mkMutex (is_panic r) v) c).

Definition get_mut {E R} (from : HandleError → panics E) (h : Handle) (callback : ST T E R) : CM E R := λ c,
  if map_poisoned c then (Panic POISON, c)
  else match question from (HandleMap.get (map c) h) with
       | Ok mtx => if poisoned mtx then (Panic POISON, c) else run_callback h callback mtx c
       | Err e => (Err e, c)
       | Panic m => (Panic m, c)
       end.
Definition by_ref {E R} (callback : T → res E R) : ST T E R := λ v, (callback v, v).
Definition get {E R} (from : HandleError → panics E) (h : Handle) (callback : T → res E R) : CM E R :=
  get_mut from h (by_ref callback).
Definition get_mut_u64 {E R} (from : HandleError → panics E) (u : Z) (callback : ST T E R) : CM E R :=
  h ← st_lift (question from (from_u64 u)); get_mut from h callback.
Definition get_u64 {E R} (from : HandleError → panics E) (u : Z) (callback : T → res E R) : CM E R :=
  h ← st_lift (question from (from_u64 u)); get from h callback.

(** *** The calls for the FFI *)
Definition call_with_result_mut {E R V} `{!IntoFfi R V, !IntoExtern E} (h : Z) (callback : ST T E R) :
    ConcurrentHandleMap T → ffi_exit V * ConcurrentHandleMap T :=
  Ffi.call_with_result (E:=ExternError) (R:=R)
    (get_mut_u64 into_extern h (λ v, let '(r, v) := callback v in (question into_extern r, v))).
Definition call_with_result {E R V} `{!IntoFfi R V, !IntoExtern E} (h : Z) (callback : T → res E R) :
    ConcurrentHandleMap T → ffi_exit V * ConcurrentHandleMap T :=
  call_with_result_mut (R:=R) h (by_ref callback).
(** A closure that cannot fail, as one whose error type is [HandleError]. *)
Definition infallible {A} (r : panics A) : res HandleError A :=
  match r with Ok a => Ok a | Err e => match e with end | Panic m => Panic m end.
Definition call_with_output {R V} `{!IntoFfi R V} (h : Z) (callback : T → panics R) :
    ConcurrentHandleMap T → ffi_exit V * ConcurrentHandleMap T :=
  call_with_result (R:=R) h (λ v, infallible (callback v)).
Definition call_with_output_mut {R V} `{!IntoFfi R V} (h : Z) (callback : T → panics R * T) :
    ConcurrentHandleMap T → ffi_exit V * ConcurrentHandleMap T :=
  call_with_result_mut (R:=R) h (λ v, let '(r, v) := callback v in (infallible r, v)).
Definition insert_with_result {E} `{!IntoExtern E} (constructor : res E T) :
    ConcurrentHandleMap T → ffi_exit Z * ConcurrentHandleMap T :=
  Ffi.call_with_result (E:=ExternError) (to_insert ← st_lift (question into_extern constructor); insert to_insert).
Definition insert_with_output (constructor : panics T) : ConcurrentHandleMap T → ffi_exit Z * ConcurrentHandleMap T :=
  insert_with_result (infallible constructor).
End ops.
End ConcurrentHandleMap.

(** ** Reading and writing through handles *)
Definition slot (h : Handle) : nat := Z.to_nat (HandleMap.index h).

Section handles.
Context {T : Type}.
Implicit Types (m : HandleMap T) (h : Handle).

(** The map after a write to the item of a handle that resolves. *)
Definition put_item (m : HandleMap T) (i : nat) (x : T) : HandleMap T :=
  mkHandleMap (id m) (first_free m) (num_entries m) (alter (λ e, mkEntry (version e) (Active x)) i (entries m)).

Lemma check_handle_index m h i : check_handle m h = Ok i → i = HandleMap.index h.
Proof.
  unfold check_handle. destruct (negb _); [done|]. destruct (_ <=? _); [done|].
  intros (e & _ & Hc)%res_bind_Ok_inv. destruct (negb _); [done|]. destruct (negb _); by simplify_eq.
Qed.
Lemma check_handle_put m i x h : check_handle (put_item m i x) h = check_handle m h.
Proof.
  unfold check_handle, entry_at. cbn. rewrite length_alter. destruct (negb _); [done|]. destruct (_ <=? _); [done|].
  destruct (decide (i = Z.to_nat (HandleMap.index h))) as [->|Hne].
  - rewrite list_lookup_alter_eq. by destruct (entries m !! _).
  - by rewrite list_lookup_alter_ne.
Qed.

Lemma get_inv m h x : HandleMap.get m h = Ok x →
  ∃ e, check_handle m h = Ok (HandleMap.index h) ∧ entries m !! slot h = Some e ∧ state e = Active x.
Proof.
  unfold HandleMap.get. intros (i & Hc & Hg)%res_bind_Ok_inv. pose proof (check_handle_index _ _ _ Hc) as ->.
  apply res_bind_Ok_inv in Hg as (e & He & Hg). unfold entry_at in He. fold (slot h) in *.
  destruct (entries m !! slot h) as [e'|]; simplify_eq. exists e. split_and!; [done..|].
  destruct (state e); cbn in Hg; congruence.
Qed.
Lemma get_mut_ok m h x f : HandleMap.get m h = Ok x → HandleMap.get_mut h f m = Ok (x, put_item m (slot h) (f x)).
Proof.
  intros (e & Hc & He & Hs)%get_inv. unfold HandleMap.get_mut. rewrite Hc, res_bind_ok. unfold entry_at.
  fold (slot h). rewrite He, res_bind_ok, Hs. cbn. unfold put_item. do 3 f_equal. symmetry.
  apply list_eq. intros j. destruct (decide (slot h = j)) as [<-|Hne].
  - rewrite list_lookup_alter_eq, He, list_lookup_insert_eq; [done|]. by eapply lookup_lt_Some.
  - by rewrite list_lookup_alter_ne, list_lookup_insert_ne.
Qed.
(** A write is seen through the handles of its slot, and through no other. *)
Lemma get_put m h0 y0 x h : HandleMap.get m h0 = Ok y0 → HandleMap.get (put_item m (slot h0) x) h =
  match HandleMap.get m h with Ok y => Ok (if decide (slot h = slot h0) then x else y) | r => r end.
Proof.
  intros (e & _ & He & Hs)%get_inv. unfold HandleMap.get. rewrite check_handle_put.
  destruct (check_handle m h) as [j| |] eqn:Hc; [|done..].
  rewrite (check_handle_index _ _ _ Hc), !res_bind_ok. unfold entry_at. fold (slot h). cbn [entries put_item].
  destruct (decide (slot h = slot h0)) as [->|Hne].
  - rewrite list_lookup_alter_eq, He. cbn. by rewrite Hs.
  - rewrite list_lookup_alter_ne by done. destruct (entries m !! slot h); [|done].
    rewrite !res_bind_ok. by destruct (get_item _).
Qed.
Lemma valid_put m h x y : valid m → HandleMap.get m h = Ok y → valid (put_item m (slot h) x).
Proof.
  intros [fl Hwf] (e & _ & He & Hs)%get_inv. exists fl.
  assert (Hlk : ∀ i e', entries (put_item m (slot h) x) !! i = Some e' →
    ∃ e0, entries m !! i = Some e0 ∧ version e' = version e0 ∧ is_occupied (state e') = is_occupied (state e0)).
  { intros i e'. cbn. destruct (decide (slot h = i)) as [<-|Hne].
    - rewrite list_lookup_alter_eq, He. cbn. intros [= <-]. exists e. by rewrite Hs.
    - rewrite list_lookup_alter_ne by done. eauto. }
  destruct Hwf as [H1 H2 H3 H4 H5 H6 H7 H8]. constructor; try done.
  - eapply chain_mono; [|exact H2]. intros i Hi. cbn. apply list_lookup_alter_ne. intros Heq. rewrite <-Heq in Hi.
    apply (H4 _ _ He) in Hi. by rewrite Hs in Hi.
  - intros i e' (e0 & He0 & _ & ->)%Hlk. by apply H4.
  - unfold capacity. cbn. by rewrite length_alter.
  - unfold capacity. cbn. by rewrite length_alter.
  - intros i e' (e0 & He0 & -> & ->)%Hlk. by apply (H7 i).
Qed.

End handles.

(** ** Threads *)
Section threads.
Context {T E R : Type} (debug : bool) (from : HandleError → panics E).
Abbreviation Map := (ConcurrentHandleMap T).

Inductive call := CInsert (v : T) | CDelete (h : Handle) | CRemove (h : Handle) | CGetMut (h : Handle) (callback : ST T E R).
Inductive output := OHandle (h : Handle) | OUnit | OItem (o : option T) | OVal (r : R).

(** What a call does when it runs alone. *)
Definition run_call (k : call) : ST Map E output := λ c,
  match k with
  | CInsert v => let '(r, c) := ConcurrentHandleMap.insert debug v c in (OHandle <$> r, c)
  | CDelete h => let '(r, c) := ConcurrentHandleMap.delete debug h c in ((λ _, OUnit) <$> question from r, c)
  | CRemove h => let '(r, c) := ConcurrentHandleMap.remove debug h c in (OItem <$> question from r, c)
  | CGetMut h callback => let '(r, c) := ConcurrentHandleMap.get_mut from h callback c in (OVal <$> r, c)
  end.
Fixpoint run_seq (ks : list call) (c : Map) : list (res E output) * Map :=
  match ks with
  | [] => ([], c)
  | k :: ks => let '(r, c) := run_call k c in let '(rs, c) := run_seq ks c in (r :: rs, c)
  end.

(** A thread makes one call.  It has not begun; holds the write lock; holds the read lock; holds
    the read lock and the mutex of an item, and runs its callback; or has returned. *)
Inductive thread :=
| TStart (k : call) | TWriting (k : call) | TReading (h : Handle) (callback : ST T E R)
| TLocked (h : Handle) (callback : ST T E R) | TDone (r : res E output).
Record Conf := mkConf { shared : Map; thread_of : list thread }.

(** The locks a thread holds: the write lock, a read lock, the mutex of the item of a slot. *)
Definition writing (x : thread) : bool := match x with TWriting _ => true | _ => false end.
Definition reading (x : thread) : bool := match x with TReading _ _ | TLocked _ _ => true | _ => false end.
Definition locks (x : thread) : option nat := match x with TLocked h _ => Some (slot h) | _ => None end.
Definition is_write (k : call) : bool := match k with CGetMut _ _ => false | _ => true end.

(** The shared map and a thread after a step. *)
Definition next (c : Conf) (t : nat) (x : thread) (s : Map) : Conf := mkConf s (<[t := x]> (thread_of c)).

(** The label of a step: the thread that makes it, and whether its call returns with it. *)
Inductive event := Inside (t : nat) | Return (t : nat).
Definition event_thread (e : event) : nat := match e with Inside t | Return t => t end.

(** One step of one thread.  The step with which a call returns releases its locks; a lock is
    only taken when the locks of the others allow it. *)
Inductive cstep : Conf → event → Conf → Prop :=
| step_write_lock c t k :
    thread_of c !! t = Some (TStart k) → is_write k = true →
    Forall (λ x, writing x = false ∧ reading x = false) (thread_of c) →
    cstep c (Inside t) (next c t (TWriting k) (shared c))
| step_write c t k r s :
    thread_of c !! t = Some (TWriting k) → run_call k (shared c) = (r, s) → cstep c (Return t) (next c t (TDone r) s)
| step_read_lock c t h callback :
    thread_of c !! t = Some (TStart (CGetMut h callback)) → Forall (λ x, writing x = false) (thread_of c) →
    cstep c (Inside t) (next c t (TReading h callback) (shared c))
| step_read_poisoned c t h callback :
    thread_of c !! t = Some (TReading h callback) → map_poisoned (shared c) = true →
    cstep c (Return t) (next c t (TDone (Panic POISON)) (shared c))
| step_refused c t h callback e :
    thread_of c !! t = Some (TReading h callback) → map_poisoned (shared c) = false →
    question from (HandleMap.get (map (shared c)) h) = Err e →
    cstep c (Return t) (next c t (TDone (Err e)) (shared c))
| step_get_panic c t h callback m :
    thread_of c !! t = Some (TReading h callback) → map_poisoned (shared c) = false →
    question from (HandleMap.get (map (shared c)) h) = Panic m →
    cstep c (Return t) (next c t (TDone (Panic m)) (shared c))
| step_lock c t h callback mtx :
    thread_of c !! t = Some (TReading h callback) → map_poisoned (shared c) = false →
    HandleMap.get (map (shared c)) h = Ok mtx → Forall (λ x, locks x ≠ Some (slot h)) (thread_of c) →
    cstep c (Inside t) (next c t (TLocked h callback) (shared c))
| step_poisoned c t h callback mtx :
    thread_of c !! t = Some (TLocked h callback) → HandleMap.get (map (shared c)) h = Ok mtx → poisoned mtx = true →
    cstep c (Return t) (next c t (TDone (Panic POISON)) (shared c))
| step_callback c t h callback mtx r s :
    thread_of c !! t = Some (TLocked h callback) → HandleMap.get (map (shared c)) h = Ok mtx → poisoned mtx = false →
    ConcurrentHandleMap.run_callback h callback mtx (shared c) = (r, s) →
    cstep c (Return t) (next c t (TDone (OVal <$> r)) s).

(** Runs, with the labels of their steps. *)
Inductive csteps : Conf → list event → Conf → Prop :=
| csteps_refl c : csteps c [] c
| csteps_snoc c1 l c2 e c3 : csteps c1 l c2 → cstep c2 e c3 → csteps c1 (l ++ [e]) c3.

Definition start (s : Map) (calls : list call) : Conf := mkConf s (TStart <$> calls).

(** *** The locks exclude each other, and what a thread has looked up stays there *)
Record locks_ok (c : Conf) : Prop := {
  lo_write t t' k x : thread_of c !! t = Some (TWriting k) → thread_of c !! t' = Some x → t' ≠ t → writing x = false ∧ reading x = false;
  lo_kind t k : thread_of c !! t = Some (TWriting k) → is_write k = true;
  lo_slot t t' x x' i : thread_of c !! t = Some x → thread_of c !! t' = Some x' → locks x = Some i → locks x' = Some i → t = t';
  lo_found t h callback : thread_of c !! t = Some (TLocked h callback) →
    map_poisoned (shared c) = false ∧ ∃ mtx, HandleMap.get (map (shared c)) h = Ok mtx;
}.

Lemma locks_ok_next c t x y s :
  locks_ok c → thread_of c !! t = Some x →
  (∀ k, y = TWriting k → is_write k = true ∧ Forall (λ x, writing x = false ∧ reading x = false) (thread_of c)) →
  (reading y = true → reading x = true ∨ Forall (λ x, writing x = false) (thread_of c)) →
  (∀ i, locks y = Some i → Forall (λ x, locks x ≠ Some i) (thread_of c)) →
  (∀ t' h callback, (if decide (t' = t) then Some y else thread_of c !! t') = Some (TLocked h callback) →
     map_poisoned s = false ∧ ∃ mtx, HandleMap.get (map s) h = Ok mtx) →
  locks_ok (next c t y s).
Proof.
  intros Hok Hx Hw Hr Hl Hf.
  assert (Hlk : ∀ t', (<[t := y]> (thread_of c)) !! t' = if decide (t' = t) then Some y else thread_of c !! t').
  { intros t'. case_decide as Ht; [subst; apply list_lookup_insert_eq; by eapply lookup_lt_Some|by apply list_lookup_insert_ne]. }
  constructor; cbn [shared thread_of next]; setoid_rewrite Hlk.
  - intros t1 t2 k z H1 H2 Hne. case_decide as Ht1; case_decide as Ht2; simplify_eq.
    + split; [destruct z as [|k'| | |]; try done; by apply (Forall_lookup_1 _ _ _ _ (proj2 (Hw k' eq_refl))) in H1 as [? _]|].
      destruct (reading z) eqn:Hz; [|done]. destruct (Hr eq_refl) as [Hxr|Hall].
      * destruct (lo_write c Hok t1 t k x H1 Hx) as [_ ?]; [done|congruence].
      * by apply (Forall_lookup_1 _ _ _ _ Hall) in H1.
    + destruct (Hw k eq_refl) as [_ Hall]. by apply (Forall_lookup_1 _ _ _ _ Hall H2).
    + by eapply lo_write.
  - intros t1 k H1. case_decide; simplify_eq; [by apply (Hw k)|by eapply lo_kind].
  - intros t1 t2 x1 x2 i H1 H2 L1 L2. case_decide as Ht1; case_decide as Ht2; simplify_eq; [done| | |by eapply lo_slot].
    + by apply (Forall_lookup_1 _ _ _ _ (Hl i L2)) in H1.
    + by apply (Forall_lookup_1 _ _ _ _ (Hl i L1)) in H2.
  - intros t1 h callback H1. by eapply Hf.
Qed.

Lemma store_ok h mtx x (c : Map) :
  HandleMap.get (map c) h = Ok mtx → ConcurrentHandleMap.store h x c = mkCMap (map_poisoned c) (put_item (map c) (slot h) x).
Proof. intros Hg. unfold ConcurrentHandleMap.store. by rewrite (get_mut_ok _ _ _ _ Hg). Qed.

(** The items that are found are still found after a write to one of them. *)
Lemma stored_found h0 mtx x h (c : Map) : HandleMap.get (map c) h0 = Ok mtx →
  map_poisoned c = false ∧ (∃ y, HandleMap.get (map c) h = Ok y) →
  map_poisoned (ConcurrentHandleMap.store h0 x c) = false ∧ ∃ y, HandleMap.get (map (ConcurrentHandleMap.store h0 x c)) h = Ok y.
Proof.
  intros Hg [Hp [y Hy]]. rewrite (store_ok _ _ _ _ Hg). cbn. split; [done|].
  rewrite (get_put _ _ _ _ h Hg), Hy. by eexists.
Qed.

Lemma locks_ok_step c e c' : locks_ok c → cstep c e c' → locks_ok c'.
Proof.
  intros Hok Hst. assert (Hf := lo_found c Hok).
  destruct Hst as [c t k Hx Hk Hall|c t k r s Hx Hrun|c t h cb Hx Hall|c t h cb Hx Hp|c t h cb e Hx Hp Hg|c t h cb m Hx Hp Hg
    |c t h cb mtx Hx Hp Hg Hall|c t h cb mtx Hx Hg Hp|c t h cb mtx r s Hx Hg Hp Hrun];
    apply (locks_ok_next _ _ _ _ _ Hok Hx); try done; try (intros t' h' cb' Hl; case_decide; simplify_eq; by eauto).
  - intros k' [= <-]. done.
  - intros t' h' cb' Hl. case_decide; [done|]. by destruct (lo_write c Hok t t' k _ Hx Hl).
  - by right.
  - by left.
  - by intros i [= <-].
  - intros t' h' cb' Hl. case_decide; [done|]. unfold ConcurrentHandleMap.run_callback in Hrun. destruct (cb (inner mtx)) as [r' v].
    injection Hrun as <- <-. eapply stored_found; [done|]. by eauto.
Qed.
Lemma locks_ok_start s calls : locks_ok (start s calls).
Proof.
  assert (Hs : ∀ t x, (TStart <$> calls) !! t = Some x → ∃ k, x = TStart k).
  { intros t x (k & -> & _)%list_lookup_fmap_Some. by exists k. }
  constructor; cbn; intros; repeat match goal with Hx : (_ <$> _) !! _ = Some _ |- _ => apply Hs in Hx as [? ?] end; by simplify_eq.
Qed.

(** *** A call takes effect when it returns *)
(** The call a thread was given, if it has not returned. *)
Definition pending (x : thread) : option call :=
  match x with
  | TStart k | TWriting k => Some k
  | TReading h callback | TLocked h callback => Some (CGetMut h callback)
  | TDone _ => None
  end.

Lemma step_returns c t c' : locks_ok c → cstep c (Return t) c' →
  ∃ x k r, thread_of c !! t = Some x ∧ pending x = Some k ∧ run_call k (shared c) = (r, shared c') ∧ c' = next c t (TDone r) (shared c').
Proof.
  intros Hok Hst. inversion Hst as [|? ? k r s Hx Hrun| |? ? h cb Hx Hp|? ? h cb e Hx Hp Hg|? ? h cb m Hx Hp Hg| |? ? h cb mtx Hx Hg Hp|? ? h cb mtx r s Hx Hg Hp Hrun]; subst;
    eexists _, _, _; (split; [exact Hx|]; split; [reflexivity|]; split; [|reflexivity]); cbn [run_call next shared]; [done|..];
    unfold ConcurrentHandleMap.get_mut; rewrite ?Hp; try by rewrite ?Hg.
  - destruct (lo_found c Hok _ _ _ Hx) as [-> _]. rewrite Hg. cbn. by rewrite Hp.
  - destruct (lo_found c Hok _ _ _ Hx) as [-> _]. rewrite Hg. cbn. by rewrite Hp, Hrun.
Qed.
Lemma step_inside c t c' : cstep c (Inside t) c' →
  ∃ x y k, thread_of c !! t = Some x ∧ c' = next c t y (shared c) ∧ pending x = Some k ∧ pending y = Some k.
Proof. inversion 1; subst; eexists _, _, _; (split; [eassumption|]); by split_and!. Qed.

(** The calls in the order in which they returned, run one after the other, give the same results
    and the same map. *)
Definition linearized (calls : list call) (s : Map) (order : list nat) (c : Conf) : Prop :=
  ∃ ks rs, Forall2 (λ t k, calls !! t = Some k) order ks ∧ run_seq ks s = (rs, shared c) ∧
    Forall2 (λ t r, thread_of c !! t = Some (TDone r)) order rs.
Definition returned (l : list event) : list nat := omap (λ e, match e with Return t => Some t | Inside _ => None end) l.

Lemma run_seq_snoc ks k s rs s1 r s2 : run_seq ks s = (rs, s1) → run_call k s1 = (r, s2) → run_seq (ks ++ [k]) s = (rs ++ [r], s2).
Proof.
  revert s rs. induction ks as [|k0 ks IH]; intros s rs Hs Hr; cbn in *.
  - injection Hs as <- <-. by rewrite Hr.
  - destruct (run_call k0 s) as [r0 s0]. destruct (run_seq ks s0) as [rs0 s3] eqn:Hks. injection Hs as <- <-. by rewrite (IH _ _ Hks Hr).
Qed.

Lemma next_lookup c t x y s t' z :
  thread_of c !! t = Some x → thread_of (next c t y s) !! t' = Some z ↔ (t' = t ∧ z = y) ∨ (t' ≠ t ∧ thread_of c !! t' = Some z).
Proof.
  intros Hx. cbn. rewrite list_lookup_insert_Some. apply lookup_lt_Some in Hx. split.
  - intros [(<- & <- & _)|[Hne Hz]]; [by left|right; by split; [apply not_eq_sym|]].
  - intros [[-> ->]|[Hne Hz]]; [by left|right; by split; [apply not_eq_sym|]].
Qed.

Lemma done_next c t x y s k order rs : thread_of c !! t = Some x → pending x = Some k →
  Forall2 (λ t r, thread_of c !! t = Some (TDone r)) order rs → Forall2 (λ u r, thread_of (next c t y s) !! u = Some (TDone r)) order rs.
Proof.
  intros Hx Hk Hall. eapply Forall2_impl; [exact Hall|]. intros t' r Hr. apply (next_lookup c t x); [done|]. right.
  split; [|done]. intros ->. rewrite Hx in Hr. by injection Hr as ->.
Qed.

Lemma run_linearizes s calls l c : csteps (start s calls) l c →
  locks_ok c ∧ linearized calls s (returned l) c ∧ NoDup (returned l) ∧
  (∀ t x, thread_of c !! t = Some x → match pending x with Some k => calls !! t = Some k ∧ t ∉ returned l | None => t ∈ returned l end).
Proof.
  remember (start s calls) as c0 eqn:Hc0. induction 1 as [c|c1 l c2 e c3 Hrun IH Hst]; subst.
  - split; [apply locks_ok_start|]. split; [by exists [], []|]. split; [constructor|].
    intros t x (k & -> & Hk)%list_lookup_fmap_Some. cbn. split; [done|]. apply not_elem_of_nil.
  - destruct (IH eq_refl) as (Hok & (ks & rs & Hks & Hrs & Hdone) & Hnd & Hth). clear IH.
    split; [by eapply locks_ok_step|]. unfold returned. rewrite omap_app. fold (returned l). destruct e as [t|t]; cbn; [rewrite app_nil_r|].
    + destruct (step_inside _ _ _ Hst) as (x & y & k & Hx & Hc3 & Hk & Hy). split; [|split; [done|]].
      * exists ks, rs. split; [done|]. rewrite Hc3. split; [done|]. by eapply done_next.
      * rewrite Hc3. intros t' x' [[-> ->]|[Hne Hx']]%(next_lookup c2 t x); [|by apply Hth|done].
        rewrite Hy. specialize (Hth t x Hx). by rewrite Hk in Hth.
    + destruct (step_returns _ _ _ Hok Hst) as (x & k & r & Hx & Hk & Hr & Hc3).
      pose proof (Hth t x Hx) as Htx. rewrite Hk in Htx. destruct Htx as [Hcall Hnew]. split; [|split].
      * exists (ks ++ [k]), (rs ++ [r]). split; [by apply Forall2_app; [|constructor]|].
        split; [by eapply run_seq_snoc|]. rewrite Hc3. apply Forall2_app; [|constructor; [|constructor]].
        -- by eapply done_next.
        -- apply (next_lookup c2 t x); [done|]. by left.
      * apply NoDup_app. split; [done|]. split; [|apply NoDup_singleton]. set_solver.
      * rewrite Hc3. intros t' x' [[-> ->]|[Hne Hx']]%(next_lookup c2 t x); [cbn; set_solver| |done].
        specialize (Hth t' x' Hx'). destruct (pending x'); set_solver.
Qed.

(** *** Calls return *)
Definition cost (x : thread) : nat :=
  match x with TStart _ => 3 | TWriting _ | TReading _ _ => 2 | TLocked _ _ => 1 | TDone _ => 0 end.
(** The steps of a thread in a run. *)
Definition steps_of (t : nat) (l : list event) : nat := length (filter (λ e, event_thread e = t) l).

Lemma step_cost c e c' : cstep c e c' →
  ∃ x y, thread_of c !! event_thread e = Some x ∧ c' = next c (event_thread e) y (shared c') ∧ (cost y < cost x)%nat.
Proof. destruct 1; (eexists _, _; split; [eassumption|]; split; [reflexivity|]; cbn; lia). Qed.

Lemma find_thread (P : thread → bool) c : (∃ t x, thread_of c !! t = Some x ∧ P x = true) ∨ Forall (λ x, P x = false) (thread_of c).
Proof.
  destruct (decide (Exists (λ x, P x = true) (thread_of c))) as [He|Hn].
  - left. apply Exists_exists in He as (x & [t Ht]%list_elem_of_lookup & Hx). eauto.
  - right. apply not_Exists_Forall in Hn; [|apply _]. eapply Forall_impl; [exact Hn|]. intros x Hx. cbn in Hx. by destruct (P x).
Qed.
(** A thread that has the lock it needs next can go on. *)
Lemma writer_moves c t k : thread_of c !! t = Some (TWriting k) → ∃ e c', cstep c e c'.
Proof. intros Hx. destruct (run_call k (shared c)) as [r s] eqn:Hrun. eexists _, _. by eapply step_write. Qed.
Lemma locked_moves c t h cb : locks_ok c → thread_of c !! t = Some (TLocked h cb) → ∃ e c', cstep c e c'.
Proof.
  intros Hok Hx. destruct (lo_found c Hok _ _ _ Hx) as [_ [mtx Hg]]. destruct (poisoned mtx) eqn:Hp.
  - eexists _, _. by eapply step_poisoned.
  - destruct (ConcurrentHandleMap.run_callback h cb mtx (shared c)) as [r s] eqn:Hrun. eexists _, _. by eapply step_callback.
Qed.
Lemma reader_moves c t h cb :
  thread_of c !! t = Some (TReading h cb) → Forall (λ x, locks x = None) (thread_of c) → ∃ e c', cstep c e c'.
Proof.
  intros Hx Hno. destruct (map_poisoned (shared c)) eqn:Hp; [eexists _, _; by eapply step_read_poisoned|].
  destruct (HandleMap.get (map (shared c)) h) as [mtx|e|m] eqn:Hg.
  - eexists _, _. eapply step_lock; [done..|]. eapply Forall_impl; [exact Hno|]. cbn. intros x ->. done.
  - destruct (from e) as [e'|[]|m] eqn:He; eexists _, _; [eapply step_refused|eapply step_get_panic]; try done; by rewrite Hg; cbn; rewrite He.
  - eexists _, _. eapply step_get_panic; [done..|]. by rewrite Hg.
Qed.
Definition locking (x : thread) : bool := match x with TLocked _ _ => true | _ => false end.
Definition done_b (x : thread) : bool := match x with TDone _ => true | _ => false end.
Lemma some_thread_moves c t x : locks_ok c → thread_of c !! t = Some x → done_b x = false → ∃ e c', cstep c e c'.
Proof.
  intros Hok Hx Hd. destruct (find_thread writing c) as [(t1 & [] & H1 & ?)|Hw]; [done|by eapply writer_moves|done..|].
  destruct (find_thread locking c) as [(t1 & [] & H1 & ?)|Hl]; [done..|by eapply locked_moves|done|].
  assert (Hno : Forall (λ x, locks x = None) (thread_of c)). { eapply Forall_impl; [exact Hl|]. by intros []. }
  destruct (find_thread reading c) as [(t1 & [] & H1 & ?)|Hr]; [done..|by eapply reader_moves| |done|].
  { by apply (Forall_lookup_1 _ _ _ _ Hl) in H1. }
  destruct x as [k| | | |]; [|by apply (Forall_lookup_1 _ _ _ _ Hw) in Hx|by apply (Forall_lookup_1 _ _ _ _ Hr) in Hx..|done].
  destruct (is_write k) eqn:Hk.
  - eexists _, _. eapply step_write_lock; [done..|]. by apply Forall_and.
  - destruct k; try done. eexists _, _. by eapply step_read_lock.
Qed.
Lemma run_cost s calls l c t : csteps (start s calls) l c →
  (steps_of t l + from_option cost 3 (thread_of c !! t) ≤ 3)%nat.
Proof.
  remember (start s calls) as c0 eqn:Hc0. induction 1 as [c|c1 l c2 e c3 Hrun IH Hst]; subst.
  - cbn. rewrite list_lookup_fmap. by destruct (calls !! t).
  - specialize (IH eq_refl). destruct (step_cost _ _ _ Hst) as (x & y & Hx & -> & Hlt).
    unfold steps_of in *. rewrite filter_app, length_app, filter_cons, filter_nil. cbn [next thread_of].
    destruct (decide (event_thread e = t)) as [<-|Hne]; cbn.
    + rewrite Hx in IH. rewrite list_lookup_insert_eq by (by eapply lookup_lt_Some). cbn in *. lia.
    + rewrite list_lookup_insert_ne by done. lia.
Qed.

Lemma run_started s calls l c : csteps (start s calls) l c → Forall (λ e, event_thread e < length calls)%nat l.
Proof.
  intros Hrun. enough (Hl : length (thread_of c) = length calls ∧ Forall (λ e, event_thread e < length calls)%nat l) by apply Hl.
  remember (start s calls) as c0 eqn:Hc0. induction Hrun as [c|c1 l c2 e c3 Hrun IH Hst]; subst.
  - cbn. by rewrite length_fmap.
  - destruct (IH eq_refl) as [Hlen Hall]. destruct (step_cost _ _ _ Hst) as (x & y & Hx & -> & _). cbn. rewrite length_insert.
    split; [done|]. apply Forall_app. split; [done|]. constructor; [|constructor]. rewrite <-Hlen. by eapply lookup_lt_Some.
Qed.

(** C8: calls of any number of threads on a map, interleaved in any way the locks allow, take
    effect one after the other, in the order in which they return: run alone in that order they
    give the same results, panics included, and leave the same map.  A call that returned
    before another began is before it in the order. *)
Theorem concurrent_calls_linearize s calls l c :
  csteps (start s calls) l c →
  linearized calls s (returned l) c ∧ NoDup (returned l) ∧
  ∀ t x, thread_of c !! t = Some x → t ∈ returned l ↔ ∃ r, x = TDone r.
Proof.
  intros (_ & Hlin & Hnd & Hth)%run_linearizes. split; [done|]. split; [done|]. intros t x Hx. specialize (Hth t x Hx).
  destruct x as [| | | |r]; cbn in Hth; (split; [intros Hin|intros [r' Hr]; try discriminate Hr]); try done; try by destruct Hth.
  by exists r.
Qed.

(** C24: no deadlock.  However the threads are scheduled, each of them takes at most three steps
    (and only the threads that were started take any), and as
    long as one has not returned, one can make a step, poisoned locks included: when no step is
    possible, every call has returned.  The callbacks end and do not call the map. *)
Theorem concurrent_calls_return s calls l c :
  csteps (start s calls) l c →
  (∀ t, steps_of t l ≤ 3)%nat ∧ Forall (λ e, event_thread e < length calls)%nat l ∧
  ((∀ e c', ¬ cstep c e c') → Forall (λ x, ∃ r, x = TDone r) (thread_of c)).
Proof.
  intros Hrun. split; [intros t; pose proof (run_cost _ _ _ _ t Hrun); lia|]. split; [by eapply run_started|]. intros Hstuck.
  destruct (run_linearizes _ _ _ _ Hrun) as (Hok & _). apply Forall_lookup. intros t x Hx.
  destruct (done_b x) eqn:Hd; [destruct x; try done; by eexists|].
  destruct (some_thread_moves c t x Hok Hx Hd) as (e & c' & Hst). by destruct (Hstuck e c').
Qed.
End threads.

(** ** Panics stay in their call *)
Section containment.
Context {T : Type} (debug : bool).
Implicit Types (c : ConcurrentHandleMap T) (h : Handle).

(** A callback that panics, called over the FFI, is reported with the code for panics and its
    message.  The map is not poisoned and what the other handles refer to is as before; the
    handle itself panics, and is reported, at every later call, until it is removed, which
    gives no item back. *)
Theorem callback_panic_is_contained {E R V} `{!IntoFfi R V, !IntoExtern E} u h mtx (callback : ST T E R) m v c :
  fits 64 u → from_u64 u = Ok h → valid (map c) → map_poisoned c = false →
  HandleMap.get (map c) h = Ok mtx → poisoned mtx = false → callback (inner mtx) = (Panic m, v) → has_nul m = false →
  ∃ c', ConcurrentHandleMap.call_with_result_mut (R:=R) u callback c =
          (Returned (mkExternError ErrorCode.PANIC (Some m)) (ffi_default (R:=R)), c') ∧
    map_poisoned c' = false ∧ valid (map c') ∧
    (∀ h', slot h' ≠ slot h → HandleMap.get (map c') h' = HandleMap.get (map c) h') ∧
    (∀ callback' : ST T E R, ConcurrentHandleMap.call_with_result_mut (R:=R) u callback' c' =
       (Returned (mkExternError ErrorCode.PANIC (Some POISON)) (ffi_default (R:=R)), c')) ∧
    ∃ c'', ConcurrentHandleMap.remove debug h c' = (Ok None, c'') ∧ map_poisoned c'' = false.
Proof.
  intros Hu Hh Hv Hp Hg Hm Hcb Hnul.
  assert (Hc' := store_ok h mtx (mkMutex true v) c Hg). rewrite Hp in Hc'.
  set (c' := ConcurrentHandleMap.store h (mkMutex true v) c) in *.
  assert (Hgp := λ h', get_put (map c) h mtx (mkMutex true v) h' Hg).
  assert (Hv' : valid (map c')) by (rewrite Hc'; by eapply valid_put).
  assert (Hg' : HandleMap.get (map c') h = Ok (mkMutex true v)) by (rewrite Hc'; cbn [map]; rewrite Hgp, Hg; by rewrite decide_True).
  exists c'. split_and!.
  - unfold ConcurrentHandleMap.call_with_result_mut, Ffi.call_with_result, call_with_result_impl, guarded_call,
      ConcurrentHandleMap.get_mut_u64. rewrite Hh. unfold mbind, ST_bind. cbn [question st_lift]. unfold ConcurrentHandleMap.get_mut.
    rewrite Hp, Hg. cbn [question]. rewrite Hm. unfold ConcurrentHandleMap.run_callback. rewrite Hcb. cbn [question is_panic].
    unfold ExternError.from_panic, ExternError.new_error, rust_string_to_c. cbn. by rewrite Hnul.
  - by rewrite Hc'.
  - done.
  - intros h' Hne. rewrite Hc'. cbn [map]. rewrite Hgp. destruct (HandleMap.get (map c) h'); [|done..]. by rewrite decide_False.
  - intros callback'. unfold ConcurrentHandleMap.call_with_result_mut, Ffi.call_with_result, call_with_result_impl, guarded_call,
      ConcurrentHandleMap.get_mut_u64. rewrite Hh. unfold mbind, ST_bind. cbn [question st_lift]. unfold ConcurrentHandleMap.get_mut.
    rewrite Hg'. rewrite Hc'. reflexivity.
  - destruct handle_u64_round_trip as (_ & Hrt & _).
    destruct (remove_effect (map c') h (mkMutex true v) Hv') as (m' & Hrem & _); [by apply (Hrt u)|done|].
    exists (mkCMap false m'). unfold ConcurrentHandleMap.remove, ConcurrentHandleMap.with_write. rewrite (Hrem debug).
    rewrite Hc'. done.
Qed.
End containment.

(** ** Concrete runs *)
Module ToyThreads.
Definition m0 : HandleMap (Mutex Z) := mkHandleMap 1 1 1
  [mkEntry 2 (Active (mkMutex false 10)); mkEntry 1 (InFreeList 2); mkEntry 1 (InFreeList 3); mkEntry 1 EndOfFreeList].
Definition c0 : ConcurrentHandleMap Z := mkCMap false m0.
Definition h0 : Handle := mkHandle 1 2 0.
Abbreviation cb := (ST Z ExternError Z).
Definition double : cb := λ n, (Ok n, n * 2).
Definition add_one : cb := λ n, (Ok n, n + 1).
Definition fail : cb := λ n, (Panic "oops", n).
Definition calls : list call := [CGetMut h0 add_one; CGetMut h0 double].

(** The first thread takes its read lock first, the second one the mutex. *)
Lemma toy_threads_run : ∃ c, csteps (R:=Z) false into_extern (start c0 calls) [Inside 0; Inside 1; Inside 1; Return 1; Inside 0; Return 0] c ∧
  thread_of c = [TDone (Ok (OVal 20)); TDone (Ok (OVal 10))].
Proof.
  eexists. split.
  - eapply (csteps_snoc _ _ _ [Inside 0; Inside 1; Inside 1; Return 1; Inside 0]).
    { eapply (csteps_snoc _ _ _ [Inside 0; Inside 1; Inside 1; Return 1]).
      { eapply (csteps_snoc _ _ _ [Inside 0; Inside 1; Inside 1]).
        { eapply (csteps_snoc _ _ _ [Inside 0; Inside 1]).
          { eapply (csteps_snoc _ _ _ [Inside 0]).
            { eapply (csteps_snoc _ _ _ []); [apply csteps_refl|].
              eapply (step_read_lock _ _ _ 0); [reflexivity|repeat constructor]. }
            eapply (step_read_lock _ _ _ 1); [reflexivity|repeat constructor]. }
          eapply (step_lock _ _ _ 1); [reflexivity..|]. repeat constructor; discriminate. }
        eapply (step_callback _ _ _ 1); reflexivity. }
      eapply (step_lock _ _ _ 0); [reflexivity..|]. repeat constructor; discriminate. }
    eapply (step_callback _ _ _ 0); reflexivity.
  - reflexivity.
Qed.

Lemma concurrent_calls_linearize_witness : ∃ c l,
  csteps (R:=Z) false into_extern (start c0 calls) l c ∧ returned l = [1; 0]%nat ∧ linearized false into_extern calls c0 [1; 0]%nat c.
Proof.
  destruct toy_threads_run as (c & Hrun & _). exists c. eexists. split; [exact Hrun|]. split; [reflexivity|].
  exact (proj1 (concurrent_calls_linearize _ _ _ _ _ _ Hrun)).
Defined.
Lemma concurrent_calls_return_witness : ∃ c l,
  csteps (R:=Z) false into_extern (start c0 calls) l c ∧ length l = 6%nat ∧ ∀ t, (steps_of t l ≤ 3)%nat.
Proof.
  destruct toy_threads_run as (c & Hrun & _). exists c. eexists. split; [exact Hrun|]. split; [reflexivity|].
  exact (proj1 (concurrent_calls_return _ _ _ _ _ _ Hrun)).
Defined.

Lemma m0_valid : valid m0.
Proof.
  exists [1; 2; 3]%nat. constructor.
  - by exists 1%nat, [2; 3]%nat.
  - cbn. split; [by exists 1|]. split; [by exists 1|by exists 1].
  - by apply (bool_decide_unpack _).
  - intros [|[|[|[|i]]]] e He; simplify_eq/=; set_solver.
  - done.
  - done.
  - intros [|[|[|[|i]]]] e He; simplify_eq/=; done.
  - done.
Qed.
Lemma callback_panic_is_contained_witness : ∃ c',
  ConcurrentHandleMap.call_with_result_mut (R:=Z) (into_u64 h0) fail c0 = (Returned (mkExternError (-1) (Some "oops"%string)) 0, c') ∧
  map_poisoned c' = false.
Proof.
  destruct (callback_panic_is_contained (R:=Z) false (into_u64 h0) h0 (mkMutex false 10) fail "oops" 10 c0) as (c' & Hc & Hp & _).
  - by vm_compute.
  - by vm_compute.
  - exact m0_valid.
  - reflexivity.
  - reflexivity.
  - reflexivity.
  - reflexivity.
  - reflexivity.
  - exists c'. split; [exact Hc|exact Hp].
Defined.
End ToyThreads.
