(* ===== verification/FxaConfig.v ===== *)
(** * Firefox Accounts: errors, helpers and the configuration

    Model of [components/fxa-client/src/errors.rs], [util.rs], [scopes.rs] and [config.rs], for
    the default features of the crate.  JSON, URLs, base64, SHA-256 and the HTTP backend are
    parameters. *)

From S2P Require Import Prelude Sync15Types KeyBundle Viaduct Token PushCrypto.
From Stdlib Require Import Ascii String.
From stdpp Require Import strings list gmap pretty.
Local Open Scope Z_scope.
Local Open Scope list_scope.

(** ** errors.rs *)
Module FxaErr.
Inductive ErrorKind :=
| UnknownOAuthState
| TokenWithoutKeys
| NotMarried
| MultipleScopesRequested
| NoCachedToken (scope : string)
| NoScopedKey (scope : string)
| NoRefreshToken
| RefreshTokenNotPresent
| DeviceUnregistered
| UnknownTargetDevice (id : string)
| UnrecoverableServerError (s : string)
| InvalidOAuthScopeValue (s : string)
| IllegalState (s : string)
| UnknownCommand (s : string)
| EmptyOAuthScopeNames
| BadKeyLength (name : string) (got expected : Z)
| XorLengthMismatch (a b : Z)
| AudienceURLWithoutHost
| OriginMismatch
| JWTSignatureValidationFailed
| KeyGenerationFailed
| PublicKeyComputationFailed
| KeyAgreementFailed
| MismatchedKeys
| KeyImportFailed
| AEADOpenFailure
| RngFailure
| HmacMismatch
| UnsupportedCommand (s : string)
| RemoteError (code errno : Z) (error message info : string)
| CryptoError (s : string)
| EceError (s : string)
| HexDecodeError (s : string)
| OpensslError (s : string)
| Base64Decode (s : string)
| JsonError (s : string)
| UTF8DecodeError (s : string)
| RequestError (e : ViaductError)
| MalformedUrl (s : string)
| UnexpectedStatus (method url : string) (status : Z)
| SyncError (e : Sync15Types.ErrorKind)
| HawkError (s : string)
| ProtobufDecodeError (s : string).
End FxaErr.
Import FxaErr.

(** ** Code outside the repository *)
(** [serde_json]: a [Value] is indexed ([v[key]]), read and built; types have a derived reader
    and writer. *)
Class FxaJson := {
  Value : Type;
  v_index : Value → string → Value;
  v_as_str : Value → option string;
  v_as_u64 : Value → option Z;
  v_string : string → Value;
  v_object : list (string * Value) → Value;
  v_to_string : Value → string;
}.
Class FromJson (T : Type) := from_slice : bytes → res string T.
Class ToJson (T : Type) := to_json : T → res string string.
#[global] Hint Mode FromJson ! : typeclass_instances.
#[global] Hint Mode ToJson ! : typeclass_instances.
Class FromValue `{!FxaJson} (T : Type) := of_value : Value → res string T.
(** The fragment of a URL. *)
Class UrlFragment `{!UrlLib} := {
  url_fragment : Url → option string;
  url_set_fragment : option string → Url → Url;
}.
(** [rc_crypto::digest] with SHA-256, and base64 with the URL-safe alphabet and no padding. *)
Class Sha256 := sha256 : bytes → res string bytes.
Class Base64Url := base64_encode_url : bytes → string.

(** ** util.rs and scopes.rs *)
Definition PROFILE : string := "profile".
Definition OLD_SYNC : string := "https://identity.mozilla.com/apps/oldsync".

Section util.
Context {W : Type} `{!Clock W, !Rand W, !Base64Url}.

(** [SystemTime::now().duration_since(UNIX_EPOCH)], in nanoseconds. *)
Definition since_epoch {E} (fail : res E Z) : ST W E Z := λ w,
  let '(t, w) := system_now w in (if t <? 0 then fail else Ok t, w).
Definition now {E} : ST W E Z := t ← since_epoch (Panic "Something is very wrong."); mret (t / 1000000).
Definition now_secs {E} : ST W E Z := t ← since_epoch (Panic "Something is very wrong."); mret (t / NANOS).
Definition random_base64_url_string (len : nat) : ST W ErrorKind string :=
  out ← st_map_err (λ _, RngFailure) (rand_fill len); mret (base64_encode_url out).
End util.

Definition xor_byte (a b : ascii) : ascii :=
  ascii_of_nat (Z.to_nat (Z.lxor (Z.of_nat (nat_of_ascii a)) (Z.of_nat (nat_of_ascii b)))).
Definition xored_with (self other : bytes) : res ErrorKind bytes :=
  if negb (Nat.eqb (length self) (length other))
  then Err (XorLengthMismatch (bytes_len self) (bytes_len other))
  else Ok (zip_with xor_byte self other).

(** ** config.rs *)
Record ClientConfigurationResponse := mkClientConfigurationResponse {
  auth_server_base_url : string; oauth_server_base_url : string; profile_server_base_url : string; sync_tokenserver_base_url : string }.
Record OpenIdConfigurationResponse := mkOpenIdConfigurationResponse {
  oid_authorization_endpoint : string; oid_issuer : string; oid_jwks_uri : string; oid_token_endpoint : string;
  oid_userinfo_endpoint : string }.
Record RemoteConfig := mkRemoteConfig {
  rc_auth_url : string; rc_oauth_url : string; rc_profile_url : string; rc_token_server_endpoint_url : string;
  rc_authorization_endpoint : string; rc_issuer : string; rc_jwks_uri : string; rc_token_endpoint : string;
  rc_userinfo_endpoint : string }.
(** [remote_config] is a [RefCell]: the methods of a shared configuration change it. *)
Record Config := mkConfig {
  cfg_content_url : string; cfg_remote_config : option RemoteConfig; client_id : string; redirect_uri : string }.

Module Config.
Definition new (content_url client_id redirect_uri : string) : Config := mkConfig content_url None client_id redirect_uri.
Definition release : string → string → Config := new "https://accounts.firefox.com".
Definition stable_dev : string → string → Config := new "https://stable.dev.lcip.org".
Definition stage_dev : string → string → Config := new "https://accounts.stage.mozaws.net".
Definition init (content_url auth_url oauth_url profile_url token_server_endpoint_url authorization_endpoint issuer jwks_uri
    token_endpoint userinfo_endpoint client_id redirect_uri : string) : Config :=
  mkConfig content_url
    (Some (mkRemoteConfig auth_url oauth_url profile_url token_server_endpoint_url authorization_endpoint issuer jwks_uri
             token_endpoint userinfo_endpoint)) client_id redirect_uri.

Section config.
Context {W : Type} `{!UrlLib, !Http W, !FromJson ClientConfigurationResponse, !FromJson OpenIdConfigurationResponse}.
Abbreviation CFG := (ST (Config * W) ErrorKind).

Definition get : CFG Config := λ '(c, w), (Ok c, (c, w)).
Definition set_remote (rc : RemoteConfig) : CFG unit := λ '(c, w),
  (Ok tt, (mkConfig (cfg_content_url c) (Some rc) (client_id c) (redirect_uri c), w)).
Definition world {A} (c : ST W ErrorKind A) : CFG A := λ '(cfg, w), let '(r, w) := c w in (r, (cfg, w)).

Definition parse (s : string) : res ErrorKind Url := map_err MalformedUrl (url_parse s).
Definition join (path : string) (u : Url) : res ErrorKind Url := map_err MalformedUrl (url_join u path).
Definition unexpected (e : Method * Url * Z) : ErrorKind :=
  let '(m, u, s) := e in UnexpectedStatus (Method.as_str m) (url_as_str u) s.
(** [Request::get(url).send()?.require_success()?.json()?]. *)
Definition fetch {T} `{!FromJson T} (u : Url) : CFG T :=
  resp ← world (st_map_err RequestError (send (Request.get u)));
  resp ← st_lift (map_err unexpected (Response.require_success resp));
  st_lift (map_err JsonError (from_slice (rs_body resp))).

Definition remote_config : CFG RemoteConfig :=
  self ← get;
  match cfg_remote_config self with
  | Some rc => mret rc
  | None =>
      u ← st_lift (parse (cfg_content_url self));
      config_url ← st_lift (join ".well-known/fxa-client-configuration" u);
      resp ← fetch (T:=ClientConfigurationResponse) config_url;
      u ← st_lift (parse (cfg_content_url self));
      openid_config_url ← st_lift (join ".well-known/openid-configuration" u);
      openid_resp ← fetch (T:=OpenIdConfigurationResponse) openid_config_url;
      let rc := mkRemoteConfig
        (auth_server_base_url resp +:+ "/") (oauth_server_base_url resp +:+ "/") (profile_server_base_url resp +:+ "/")
        (sync_tokenserver_base_url resp +:+ "/") (oid_authorization_endpoint openid_resp) (oid_issuer openid_resp)
        (oid_jwks_uri openid_resp) (auth_server_base_url resp +:+ "/v1/oauth/token") (oid_userinfo_endpoint openid_resp) in
      _ ← set_remote rc;
      mret rc
  end.

Definition content_url : CFG Url := self ← get; st_lift (parse (cfg_content_url self)).
Definition content_url_path (path : string) : CFG Url := u ← content_url; st_lift (join path u).
(** A URL of the remote configuration. *)
Definition remote_url (f : RemoteConfig → string) : CFG Url := rc ← remote_config; st_lift (parse (f rc)).
Definition auth_url : CFG Url := remote_url rc_auth_url.
Definition auth_url_path (path : string) : CFG Url := u ← auth_url; st_lift (join path u).
Definition profile_url : CFG Url := remote_url rc_profile_url.
Definition profile_url_path (path : string) : CFG Url := u ← profile_url; st_lift (join path u).
Definition oauth_url : CFG Url := remote_url rc_oauth_url.
Definition oauth_url_path (path : string) : CFG Url := u ← oauth_url; st_lift (join path u).
Definition token_server_endpoint_url : CFG Url := remote_url rc_token_server_endpoint_url.
Definition authorization_endpoint : CFG Url := remote_url rc_authorization_endpoint.
Definition issuer : CFG Url := remote_url rc_issuer.
Definition jwks_uri : CFG Url := remote_url rc_jwks_uri.
Definition token_endpoint : CFG Url := remote_url rc_token_endpoint.
Definition userinfo_endpoint : CFG Url := remote_url rc_userinfo_endpoint.
End config.
End Config.

(** Instances for the witnesses: a value is its text. *)
Module ToyFxa.
#[export] Instance toy_fxa_json : FxaJson := {|
  Value := string; v_index := λ v k, v; v_as_str := Some; v_as_u64 := λ _, None; v_string := λ s, s;
  v_object := λ l, foldr (λ '(k, v) s, k +:+ ":" +:+ v +:+ ";" +:+ s) "" l; v_to_string := λ v, v |}%string.
#[export] Instance toy_sha256 : Sha256 := λ b, Ok (take 32 (b ++ repeat "0"%char 32)).
#[export] Instance toy_base64url : Base64Url := string_of_list_ascii.
End ToyFxa.
