(* ===== verification/FxaClient.v ===== *)
(** * Firefox Accounts: the requests to the servers

    Model of [components/fxa-client/src/http_client.rs].  [FxAClient] is the trait of that name:
    the account uses a client through it. *)

From S2P Require Import Prelude Sync15Types KeyBundle Viaduct Token PushCrypto FxaConfig.
From Stdlib Require Import Ascii String.
From stdpp Require Import strings list gmap pretty.
Import FxaErr.
Local Open Scope Z_scope.
Local Open Scope list_scope.

(** ** Responses *)
Record OAuthTokenResponse := mkOAuthTokenResponse {
  keys_jwe : option string; tr_refresh_token : option string; expires_in : Z; tr_scope : string; access_token : string }.
Record ProfileResponse := mkProfileResponse {
  uid : string; email : string; locale : string; display_name : option string; avatar : string; avatar_default : bool;
  amr_values : list string; two_factor_authentication : bool }.
Record ResponseAndETag (T : Type) := mkResponseAndETag { re_response : T; re_etag : option string }.
Arguments mkResponseAndETag {T}.
Arguments re_response {T}.
Arguments re_etag {T}.
Record PushSubscription := mkPushSubscription { endpoint : string; public_key : string; auth_key : string }.
Inductive DeviceType := Desktop | Mobile | UnknownType.
Record DeviceLocation := mkDeviceLocation { city : option string; country : option string; loc_state : option string; state_code : option string }.
Record DeviceResponseCommon := mkDeviceResponseCommon {
  dev_id : string; dev_display_name : string; dev_type : DeviceType; dev_push_subscription : option PushSubscription;
  available_commands : gmap string string; push_endpoint_expired : bool }.
Abbreviation UpdateDeviceResponse := DeviceResponseCommon.
Record GetDeviceResponse := mkGetDeviceResponse {
  dev_common : DeviceResponseCommon; is_current_device : bool; dev_location : DeviceLocation; last_access_time : option Z }.

Section messages.
Context `{!FxaJson}.
Record CommandData := mkCommandData { cd_command : string; cd_payload : Value; cd_sender : option string }.
Record PendingCommand := mkPendingCommand { pc_index : Z; pc_data : CommandData }.
Record PendingCommandsResponse := mkPendingCommandsResponse { pcr_index : Z; pcr_last : option bool; messages : list PendingCommand }.
End messages.

(** ** Updates of the device: an absent field, a null, or a value *)
Record DeviceUpdateRequest := mkDeviceUpdateRequest {
  upd_display_name : option (option string); upd_device_type : option (option DeviceType);
  upd_push_subscription : option PushSubscription; upd_available_commands : option (option (gmap string string)) }.

Module DeviceUpdateRequestBuilder.
Definition new : DeviceUpdateRequest := mkDeviceUpdateRequest None None None None.
Definition push_subscription (s : PushSubscription) (b : DeviceUpdateRequest) : DeviceUpdateRequest :=
  mkDeviceUpdateRequest (upd_display_name b) (upd_device_type b) (Some s) (upd_available_commands b).
Definition available_commands (m : gmap string string) (b : DeviceUpdateRequest) : DeviceUpdateRequest :=
  mkDeviceUpdateRequest (upd_display_name b) (upd_device_type b) (upd_push_subscription b) (Some (Some m)).
Definition clear_available_commands (b : DeviceUpdateRequest) : DeviceUpdateRequest :=
  mkDeviceUpdateRequest (upd_display_name b) (upd_device_type b) (upd_push_subscription b) (Some None).
Definition display_name (n : string) (b : DeviceUpdateRequest) : DeviceUpdateRequest :=
  mkDeviceUpdateRequest (Some (Some n)) (upd_device_type b) (upd_push_subscription b) (upd_available_commands b).
Definition clear_display_name (b : DeviceUpdateRequest) : DeviceUpdateRequest :=
  mkDeviceUpdateRequest (Some None) (upd_device_type b) (upd_push_subscription b) (upd_available_commands b).
Definition device_type (t : DeviceType) (b : DeviceUpdateRequest) : DeviceUpdateRequest :=
  mkDeviceUpdateRequest (upd_display_name b) (Some (Some t)) (upd_push_subscription b) (upd_available_commands b).
End DeviceUpdateRequestBuilder.

(** ** The trait *)
Class FxAClient `{!FxaJson} (W : Type) := {
  oauth_token_with_code : string → string → ST (Config * W) ErrorKind OAuthTokenResponse;
  oauth_token_with_refresh_token : string → list string → ST (Config * W) ErrorKind OAuthTokenResponse;
  destroy_oauth_token : string → ST (Config * W) ErrorKind unit;
  profile : string → option string → ST (Config * W) ErrorKind (option (ResponseAndETag ProfileResponse));
  pending_commands : string → Z → option Z → ST (Config * W) ErrorKind PendingCommandsResponse;
  invoke_command : string → string → string → Value → ST (Config * W) ErrorKind unit;
  devices : string → ST (Config * W) ErrorKind (list GetDeviceResponse);
  update_device : string → DeviceUpdateRequest → ST (Config * W) ErrorKind UpdateDeviceResponse;
}.

(** ** The client over HTTP *)
Definition NOT_MODIFIED : Z := 304.
Definition IF_NONE_MATCH : NameArg := NName (mkHeaderName "if-none-match").
Definition ETAG : NameArg := NName (mkHeaderName "etag").
Definition QUOTE : string := String (ascii_of_nat 34) EmptyString.
Definition bearer_token (token : string) : string := "Bearer " +:+ token.
(** [str::join]. *)
Fixpoint join_with (sep : string) (l : list string) : string :=
  match l with [] => "" | [x] => x | x :: l => x +:+ sep +:+ join_with sep l end.

Module Client.
Section client.
Context {W : Type} `{!UrlLib, !Http W, !FxaJson, !FromJson ClientConfigurationResponse, !FromJson OpenIdConfigurationResponse}.
Context `{!FromJson Value, !FromJson OAuthTokenResponse, !FromJson ProfileResponse, !FromJson PendingCommandsResponse}.
Context `{!FromJson (list GetDeviceResponse), !FromJson UpdateDeviceResponse, !ToJson DeviceUpdateRequest}.
Abbreviation CFG := (ST (Config * W) ErrorKind).

Definition make_request (request : Request) : CFG Response :=
  resp ← Config.world (st_map_err RequestError (send request));
  if Response.is_success resp || (rs_status resp =? NOT_MODIFIED) then mret resp
  else
    match from_slice (T:=Value) (rs_body resp) with
    | Ok json =>
        let text key := default ""%string (v_as_str (v_index json key)) in
        st_err (RemoteError (default 0 (v_as_u64 (v_index json "code"))) (default 0 (v_as_u64 (v_index json "errno")))
                  (text "error"%string) (text "message"%string) (text "info"%string))
    | Err _ =>
        match Response.require_success resp with
        | Err e => st_err (Config.unexpected e)
        | Ok _ => st_lift (Panic "called `Result::unwrap_err()` on an `Ok` value")
        | Panic m => st_lift (Panic m)
        end
    | Panic m => st_lift (Panic m)
    end.
(** [make_request(..)?.json()?]. *)
Definition request_json {T} `{!FromJson T} (request : Request) : CFG T :=
  resp ← make_request request; st_lift (map_err JsonError (from_slice (rs_body resp))).
(** [Request::json] with a [Value], and [Request::header] with [?]. *)
Definition with_json (body : Value) (rq : Request) : res ErrorKind Request := Request.json (Ok (as_bytes (v_to_string body))) rq.
Definition with_header (name : NameArg) (val : string) (rq : Request) : res ErrorKind Request :=
  map_err RequestError (Request.header name val rq).
Definition with_bearer (token : string) : Request → res ErrorKind Request := with_header AUTHORIZATION (bearer_token token).

Definition make_oauth_token_request (body : Value) : CFG OAuthTokenResponse :=
  url ← Config.token_endpoint;
  rq ← st_lift (with_json body (Request.post url));
  request_json rq.

Definition profile (access_token : string) (etag : option string) : CFG (option (ResponseAndETag ProfileResponse)) :=
  url ← Config.userinfo_endpoint;
  request ← st_lift (with_bearer access_token (Request.get url));
  request ← st_lift (match etag with
                     | Some etag => with_header IF_NONE_MATCH (QUOTE +:+ etag +:+ QUOTE) request
                     | None => Ok request
                     end);
  resp ← make_request request;
  if rs_status resp =? NOT_MODIFIED then mret None
  else
    let etag := Headers.get ETAG (rs_headers resp) in
    response ← st_lift (map_err JsonError (from_slice (rs_body resp)));
    mret (Some (mkResponseAndETag response etag)).

Definition oauth_token_with_code (code code_verifier : string) : CFG OAuthTokenResponse :=
  config ← Config.get;
  make_oauth_token_request (v_object [("code", v_string code); ("client_id", v_string (client_id config));
    ("code_verifier", v_string code_verifier)]%string).

Definition oauth_token_with_refresh_token (refresh_token : string) (scopes : list string) : CFG OAuthTokenResponse :=
  config ← Config.get;
  make_oauth_token_request (v_object [("grant_type", v_string "refresh_token"); ("client_id", v_string (client_id config));
    ("refresh_token", v_string refresh_token); ("scope", v_string (join_with " " scopes))]%string).

Definition destroy_oauth_token (token : string) : CFG unit :=
  url ← Config.oauth_url_path "v1/destroy";
  rq ← st_lift (with_json (v_object [("token", v_string token)]%string) (Request.post url));
  _ ← make_request rq;
  mret tt.

Definition pending_commands (refresh_token : string) (index : Z) (limit : option Z) : CFG PendingCommandsResponse :=
  url ← Config.auth_url_path "v1/account/device/commands";
  request ← st_lift (with_bearer refresh_token (Request.get url));
  let request := Request.query [("index"%string, pretty index)] request in
  let request := match limit with Some limit => Request.query [("limit"%string, pretty limit)] request | None => request end in
  request_json request.

Definition invoke_command (refresh_token command target : string) (payload : Value) : CFG unit :=
  let body := v_object [("command", v_string command); ("target", v_string target); ("payload", payload)]%string in
  url ← Config.auth_url_path "v1/account/devices/invoke_command";
  request ← st_lift (with_bearer refresh_token (Request.post url));
  request ← st_lift (with_header CONTENT_TYPE "application/json" request);
  _ ← make_request (Request.body (as_bytes (v_to_string body)) request);
  mret tt.

Definition devices (refresh_token : string) : CFG (list GetDeviceResponse) :=
  url ← Config.auth_url_path "v1/account/devices";
  request ← st_lift (with_bearer refresh_token (Request.get url));
  request_json request.

Definition update_device (refresh_token : string) (update : DeviceUpdateRequest) : CFG UpdateDeviceResponse :=
  url ← Config.auth_url_path "v1/account/device";
  request ← st_lift (with_bearer refresh_token (Request.post url));
  request ← st_lift (with_header CONTENT_TYPE "application/json" request);
  body ← st_lift (map_err JsonError (to_json update));
  request_json (Request.body (as_bytes body) request).

#[export] Instance Client_FxAClient : FxAClient W := {|
  FxaClient.oauth_token_with_code := oauth_token_with_code;
  FxaClient.oauth_token_with_refresh_token := oauth_token_with_refresh_token;
  FxaClient.destroy_oauth_token := destroy_oauth_token;
  FxaClient.profile := profile;
  FxaClient.pending_commands := pending_commands;
  FxaClient.invoke_command := invoke_command;
  FxaClient.devices := devices;
  FxaClient.update_device := update_device;
|}.
End client.
End Client.
