(* ===== verification/FxaAccount.v ===== *)
(** * Firefox Accounts: the account

    Model of [components/fxa-client/src/lib.rs], [oauth.rs], [scoped_keys.rs], [profile.rs],
    [device.rs], [send_tab.rs], [commands/send_tab.rs] and [state_persistence.rs], for the default
    features of the crate, over an arbitrary client. *)

From S2P Require Import Prelude Sync15Types KeyBundle Bso Viaduct Token PushCrypto FxaConfig FxaClient.
From Stdlib Require Import Ascii String.
From stdpp Require Import strings list gmap pretty.
Import FxaErr.
Local Open Scope Z_scope.
Local Open Scope list_scope.

(** ** Code outside the repository *)
(** [ring]: ECDH over P-256 with ephemeral keys, and AES-256-GCM. *)
Class Ring := {
  EphemeralPrivateKey : Type;
  compute_public_key : EphemeralPrivateKey → res unit bytes;
  (** The shared secret with a peer's public key. *)
  agree_ephemeral : EphemeralPrivateKey → bytes → res unit bytes;
  (** [OpeningKey::new] for AES-256-GCM, and opening with a nonce and additional data. *)
  OpeningKey : Type;
  opening_key_new : bytes → res unit OpeningKey;
  aes_256_gcm_open : OpeningKey → bytes → bytes → bytes → res unit bytes;
}.
Class RingRand `{!Ring} (W : Type) := ephemeral_generate : ST W unit EphemeralPrivateKey.
(** [ece]: encryption to a public key and a secret, and fresh keys. *)
Class EceSend `{!Ece} (W : Type) := {
  aes128gcm_encrypt : bytes → bytes → bytes → ST W string bytes;
  generate_keypair_and_auth_secret : ST W string (LocalKeyPair * bytes);
}.
(** [hex]. *)
Class Hex := { hex_encode : bytes → string; hex_decode : string → res string bytes }.
(** The order of iteration of a [HashSet]. *)
Class HashOrder := hash_iter : gset string → list string.
Class HashOrderLaws `{!HashOrder} := hash_iter_perm s : hash_iter s ≡ₚ elements s.

(** ** scoped_keys.rs *)
Record ScopedKey := mkScopedKey { kty : string; sk_scope : string; sk_k : string; kid : string }.

(** [assert!] and [unwrap] in code that returns errors. *)
Definition expect {E A} (msg : string) (o : option A) : res E A := match o with Some a => Ok a | None => Panic msg end.
Definition UNWRAP_NONE : string := "called `Option::unwrap()` on a `None` value".

(** [BigEndian::write_u32]. *)
Definition to_32b_buf (n : Z) : bytes :=
  (λ k, ascii_of_nat (Z.to_nat ((n / 256 ^ k) mod 256))) <$> [3; 2; 1; 0].

Section scoped_keys.
Context `{!Ring, !Ece, !Base64Url, !Sha256, !FxaJson, !FromJson Value}.

Definition key_bytes (self : ScopedKey) : res ErrorKind bytes := map_err Base64Decode (base64_decode_url (sk_k self)).

Record ScopedKeysFlow := mkScopedKeysFlow { private_key : EphemeralPrivateKey }.
Definition with_random_key {W} `{!RingRand W} : ST W ErrorKind ScopedKeysFlow :=
  k ← st_map_err (λ _, KeyGenerationFailed) ephemeral_generate; mret (mkScopedKeysFlow k).

Definition generate_keys_jwk (self : ScopedKeysFlow) : res ErrorKind string :=
  pub ← map_err (λ _, PublicKeyComputationFailed) (compute_public_key (private_key self));
  _ ← rassert (Nat.eqb (length pub) (1 + 32 + 32)) "assertion failed: `(left == right)`";
  _ ← rassert (bool_decide (head pub = Some (ascii_of_nat 4))) "assertion failed: `(left == right)`";
  let x := base64_encode_url (take 32 (drop 1 pub)) in
  let y := base64_encode_url (drop 33 pub) in
  Ok (v_to_string (v_object [("crv", v_string "P-256"); ("kty", v_string "EC"); ("x", v_string x); ("y", v_string y)]%string)).

(** The key of ConcatKDF: one iteration, since the key is not longer than a digest. *)
Definition concat_kdf (header : Value) (z : bytes) : res ErrorKind bytes :=
  alg ← expect UNWRAP_NONE (v_as_str (v_index header "enc"));
  let apu := default ""%string (v_as_str (v_index header "apu")) in
  let apv := default ""%string (v_as_str (v_index header "apv")) in
  let field s := to_32b_buf (wrap 32 (string_len s)) ++ as_bytes s in
  map_err CryptoError (sha256 (to_32b_buf 1 ++ z ++ field alg ++ field apu ++ field apv ++ to_32b_buf 256)).

(** [segments[i]]. *)
Definition segment (segments : list bytes) (i : nat) : res ErrorKind string :=
  string_of_list_ascii <$> expect "index out of bounds" (segments !! i).
Definition decode_url (s : string) : res ErrorKind bytes := map_err Base64Decode (base64_decode_url s).
Definition is_str (v : Value) (s : string) : bool := bool_decide (v_as_str v = Some s).
Definition ASSERT_EQ : string := "assertion failed: `(left == right)`".

Definition decrypt_keys_jwe (self : ScopedKeysFlow) (jwe : string) : res ErrorKind string :=
  let segments := split_on (Ascii.eqb "."%char) (as_bytes jwe) in
  s0 ← segment segments 0;
  header ← decode_url s0;
  protected_header ← map_err JsonError (from_slice (T:=Value) header);
  let epk := v_index protected_header "epk" in
  _ ← rassert (is_str (v_index epk "kty") "EC") ASSERT_EQ;
  _ ← rassert (is_str (v_index epk "crv") "P-256") ASSERT_EQ;
  x ← expect UNWRAP_NONE (v_as_str (v_index epk "x"));
  x ← decode_url x;
  y ← expect UNWRAP_NONE (v_as_str (v_index epk "y"));
  y ← decode_url y;
  _ ← rassert (Nat.eqb (length x) 32) ASSERT_EQ;
  _ ← rassert (Nat.eqb (length y) 32) ASSERT_EQ;
  let peer_pub_key := ascii_of_nat 4 :: x ++ y in
  z ← map_err (λ _, KeyAgreementFailed) (agree_ephemeral (private_key self) peer_pub_key);
  secret ← concat_kdf protected_header z;
  s1 ← segment segments 1;
  _ ← rassert (String.eqb s1 "") ASSERT_EQ;
  s2 ← segment segments 2;
  iv ← decode_url s2;
  s3 ← segment segments 3;
  ciphertext ← decode_url s3;
  s4 ← segment segments 4;
  auth_tag ← decode_url s4;
  _ ← rassert (Nat.eqb (length auth_tag) 16) ASSERT_EQ;
  _ ← rassert (Nat.eqb (length iv) 12) ASSERT_EQ;
  opening_key ← map_err (λ _, KeyImportFailed) (opening_key_new secret);
  plaintext ← map_err (λ _, AEADOpenFailure) (aes_256_gcm_open opening_key iv (as_bytes s0) (ciphertext ++ auth_tag));
  map_err UTF8DecodeError (Utf8.from_utf8 plaintext).
End scoped_keys.

(** ** The state *)
Inductive Capability := SendTab.
#[export] Instance Capability_eq_dec : EqDecision Capability.
Proof. solve_decision. Defined.
#[export] Instance Capability_countable : Countable Capability.
Proof. apply (inj_countable' (λ _, tt) (λ _, SendTab)). by intros []. Defined.

Record RefreshToken := mkRefreshToken { rt_token : string; rt_scopes : gset string }.
Record AccessTokenInfo := mkAccessTokenInfo { ati_scope : string; ati_token : string; ati_key : option ScopedKey; ati_expires_at : Z }.
Record StateV2 := mkStateV2 {
  config : Config; refresh_token : option RefreshToken; scoped_keys : gmap string ScopedKey; last_handled_command : option Z;
  commands_data : gmap string string; device_capabilities : gset Capability }.
Record CachedResponse (T : Type) := mkCachedResponse { cr_response : T; cached_at : Z; cr_etag : string }.
Arguments mkCachedResponse {T}.
Arguments cr_response {T}.
Arguments cached_at {T}.
Arguments cr_etag {T}.
Record OAuthFlow `{!Ring} := mkOAuthFlow { scoped_keys_flow : option ScopedKeysFlow; code_verifier : string }.
Record FirefoxAccount `{!Ring} := mkFirefoxAccount {
  state : StateV2; access_token_cache : gmap string AccessTokenInfo; flow_store : gmap string OAuthFlow;
  profile_cache : option (CachedResponse ProfileResponse) }.

Definition set_config (c : Config) (s : StateV2) : StateV2 :=
  mkStateV2 c (refresh_token s) (scoped_keys s) (last_handled_command s) (commands_data s) (device_capabilities s).
Definition set_refresh_token (t : option RefreshToken) (s : StateV2) : StateV2 :=
  mkStateV2 (config s) t (scoped_keys s) (last_handled_command s) (commands_data s) (device_capabilities s).
Definition set_scoped_keys (k : gmap string ScopedKey) (s : StateV2) : StateV2 :=
  mkStateV2 (config s) (refresh_token s) k (last_handled_command s) (commands_data s) (device_capabilities s).
Definition set_last_handled_command (i : option Z) (s : StateV2) : StateV2 :=
  mkStateV2 (config s) (refresh_token s) (scoped_keys s) i (commands_data s) (device_capabilities s).
Definition set_commands_data (m : gmap string string) (s : StateV2) : StateV2 :=
  mkStateV2 (config s) (refresh_token s) (scoped_keys s) (last_handled_command s) m (device_capabilities s).
Definition set_device_capabilities (c : gset Capability) (s : StateV2) : StateV2 :=
  mkStateV2 (config s) (refresh_token s) (scoped_keys s) (last_handled_command s) (commands_data s) c.

Section setters.
Context `{!Ring}.
Definition on_state (f : StateV2 → StateV2) (a : FirefoxAccount) : FirefoxAccount :=
  mkFirefoxAccount _ (f (state a)) (access_token_cache a) (flow_store a) (profile_cache a).
Definition on_token_cache (f : gmap string AccessTokenInfo → gmap string AccessTokenInfo) (a : FirefoxAccount) : FirefoxAccount :=
  mkFirefoxAccount _ (state a) (f (access_token_cache a)) (flow_store a) (profile_cache a).
Definition on_flow_store (f : gmap string OAuthFlow → gmap string OAuthFlow) (a : FirefoxAccount) : FirefoxAccount :=
  mkFirefoxAccount _ (state a) (access_token_cache a) (f (flow_store a)) (profile_cache a).
Definition set_profile_cache (p : option (CachedResponse ProfileResponse)) (a : FirefoxAccount) : FirefoxAccount :=
  mkFirefoxAccount _ (state a) (access_token_cache a) (flow_store a) p.

Definition from_state (s : StateV2) : FirefoxAccount := mkFirefoxAccount _ s ∅ ∅ None.
Definition with_config (c : Config) : FirefoxAccount := from_state (mkStateV2 c None ∅ None ∅ ∅).
Definition new (content_url client_id redirect_uri : string) : FirefoxAccount :=
  with_config (Config.new content_url client_id redirect_uri).
End setters.

(** ** commands/send_tab.rs *)
Definition COMMAND_NAME : string := "https://identity.mozilla.com/cmd/open-uri".
Record TabHistoryEntry := mkTabHistoryEntry { tab_title : string; tab_url : string }.
Record SendTabPayload := mkSendTabPayload { entries : list TabHistoryEntry }.
Record EncryptedSendTabPayload := mkEncryptedSendTabPayload { encrypted : string }.
Record PrivateSendTabKeys := mkPrivateSendTabKeys { psk_public_key : bytes; psk_private_key : bytes; psk_auth_secret : bytes }.
Record SendTabKeysPayload := mkSendTabKeysPayload { skp_kid : string; skp_iv : string; skp_hmac : string; skp_ciphertext : string }.
Record PublicSendTabKeys := mkPublicSendTabKeys { pub_public_key : string; pub_auth_secret : string }.

Definition single_tab (title url : string) : SendTabPayload := mkSendTabPayload [mkTabHistoryEntry title url].

(** [splitn(2, '-')], its second part. *)
Fixpoint after_dash (s : string) : option string :=
  match s with EmptyString => None | String c s => if Ascii.eqb c "-" then Some s else after_dash s end.

Class ToValue `{!FxaJson} (T : Type) := into_value : T → res string Value.

Section send_tab_crypto.
Context {W : Type} `{!Ece, !EceSend W, !Base64Url, !Hex, !Crypto, !Rand W, !SerdeJson, !Serde PublicSendTabKeys, !FxaJson}.
Context `{!FromJson SendTabPayload, !ToJson SendTabPayload, !FromJson SendTabKeysPayload, !ToJson SendTabKeysPayload, !ToValue EncryptedSendTabPayload}.

Definition extract_oldsync_key_components (oldsync_key : ScopedKey) : res ErrorKind (bytes * bytes) :=
  if negb (String.eqb (sk_scope oldsync_key) OLD_SYNC)
  then Err (IllegalState "Only oldsync scoped keys are supported at the moment.")
  else
    kxcs ← expect "index out of bounds" (after_dash (kid oldsync_key));
    kxcs ← decode_url kxcs;
    ksync ← key_bytes oldsync_key;
    Ok (ksync, kxcs).

Definition EncryptedSendTabPayload_decrypt (self : EncryptedSendTabPayload) (keys : PrivateSendTabKeys) : res ErrorKind SendTabPayload :=
  encrypted ← decode_url (encrypted self);
  private_key ← map_err EceError (kp_new (psk_private_key keys));
  decrypted ← map_err EceError (aes128gcm_decrypt private_key (psk_auth_secret keys) encrypted);
  map_err JsonError (from_slice decrypted).

Definition SendTabPayload_encrypt (self : SendTabPayload) (keys : PublicSendTabKeys) : ST W ErrorKind EncryptedSendTabPayload :=
  bytes ← st_lift (map_err JsonError (to_json self));
  public_key ← st_lift (decode_url (pub_public_key keys));
  auth_secret ← st_lift (decode_url (pub_auth_secret keys));
  encrypted ← st_map_err EceError (aes128gcm_encrypt public_key auth_secret (as_bytes bytes));
  mret (mkEncryptedSendTabPayload (base64_encode_url encrypted)).

Definition PrivateSendTabKeys_from_random : ST W ErrorKind PrivateSendTabKeys :=
  '(key_pair, auth_secret) ← st_map_err EceError generate_keypair_and_auth_secret;
  let private_key := kp_to_raw key_pair in
  public_key ← st_lift (map_err EceError (kp_pub_as_raw key_pair));
  mret (mkPrivateSendTabKeys public_key private_key auth_secret).

Definition SendTabKeysPayload_decrypt (self : SendTabKeysPayload) (scoped_key : ScopedKey) : res ErrorKind PublicSendTabKeys :=
  '(ksync, kxcs) ← extract_oldsync_key_components scoped_key;
  kid ← map_err HexDecodeError (hex_decode (skp_kid self));
  if negb (bool_decide (kid = kxcs)) then Err MismatchedKeys
  else
    key ← map_err SyncError (KeyBundle.from_ksync_bytes ksync);
    let encrypted_bso := mkEncryptedPayload (skp_iv self) (skp_hmac self) (skp_ciphertext self) in
    map_err SyncError (EncryptedPayload.decrypt_and_parse_payload encrypted_bso key).

Definition PublicSendTabKeys_encrypt (self : PublicSendTabKeys) (scoped_key : ScopedKey) : ST W ErrorKind SendTabKeysPayload :=
  '(ksync, kxcs) ← st_lift (extract_oldsync_key_components scoped_key);
  key ← st_lift (map_err SyncError (KeyBundle.from_ksync_bytes ksync));
  encrypted_payload ← st_map_err SyncError (EncryptedPayload.from_cleartext_payload key self);
  mret (mkSendTabKeysPayload (hex_encode kxcs) (ep_iv encrypted_payload) (ep_hmac encrypted_payload) (ep_ciphertext encrypted_payload)).
Definition as_command_data (self : PublicSendTabKeys) (scoped_key : ScopedKey) : ST W ErrorKind string :=
  encrypted_public_keys ← PublicSendTabKeys_encrypt self scoped_key;
  st_lift (map_err JsonError (to_json encrypted_public_keys)).
Definition PublicSendTabKeys_from (internal : PrivateSendTabKeys) : PublicSendTabKeys :=
  mkPublicSendTabKeys (base64_encode_url (psk_public_key internal)) (base64_encode_url (psk_auth_secret internal)).

Definition build_send_command (scoped_key : ScopedKey) (target : GetDeviceResponse) (send_tab_payload : SendTabPayload) : ST W ErrorKind Value :=
  command ← st_lift (ok_or (UnsupportedCommand COMMAND_NAME) (available_commands (dev_common target) !! COMMAND_NAME));
  bundle ← st_lift (map_err JsonError (from_slice (T:=SendTabKeysPayload) (as_bytes command)));
  public_keys ← st_lift (SendTabKeysPayload_decrypt bundle scoped_key);
  encrypted_payload ← SendTabPayload_encrypt send_tab_payload public_keys;
  st_lift (map_err JsonError (into_value encrypted_payload)).
End send_tab_crypto.

(** ** FirefoxAccount *)
Definition OAUTH_MIN_TIME_LEFT : Z := 60.
Definition PROFILE_FRESHNESS_THRESHOLD : Z := 120000.
Inductive AccountEvent := TabReceived (sender : option GetDeviceResponse) (payload : SendTabPayload).
Record CommandReceivedPushPayload := mkCommandReceivedPushPayload { cr_command : string; cr_index : Z; cr_sender : string; cr_url : string }.
Inductive PushPayload := CommandReceived (p : CommandReceivedPushPayload).

Module FirefoxAccount.
Section account.
(** [checks]: whether the build checks arithmetic for overflow; [ios]: the target. *)
Context (checks ios : bool) {W : Type}.
Context `{!UrlLib, !Http W, !UrlFragment, !FxaJson, !Clock W, !Rand W, !Base64Url, !Sha256, !Ring, !RingRand W, !HashOrder}.
Context `{!FromJson ClientConfigurationResponse, !FromJson OpenIdConfigurationResponse, !FxAClient W}.
Context `{!Ece, !EceSend W, !Hex, !Crypto, !SerdeJson, !Serde PublicSendTabKeys, !FromJson Value, !FromJson (list (string * Value)), !FromValue ScopedKey}.
Context `{!FromJson SendTabPayload, !ToJson SendTabPayload, !FromJson SendTabKeysPayload, !ToJson SendTabKeysPayload}.
Context `{!ToValue EncryptedSendTabPayload, !FromValue EncryptedSendTabPayload, !FromJson PrivateSendTabKeys, !ToJson PrivateSendTabKeys, !FromJson PushPayload}.
Abbreviation ACC := (ST (FirefoxAccount * W) ErrorKind).

Definition get : ACC FirefoxAccount := λ '(a, w), (Ok a, (a, w)).
Definition modify (f : FirefoxAccount → FirefoxAccount) : ACC unit := λ '(a, w), (Ok tt, (f a, w)).
Definition world {A} (c : ST W ErrorKind A) : ACC A := λ '(a, w), let '(r, w) := c w in (r, (a, w)).
(** A call of the client with the configuration, which it may complete. *)
Definition client {A} (c : ST (Config * W) ErrorKind A) : ACC A := λ '(a, w),
  let '(r, (cfg, w)) := c (config (state a), w) in (r, (on_state (set_config cfg) a, w)).
(** A call whose error is only logged. *)
Definition warn {A} (c : ACC A) : ACC unit := λ s,
  let '(r, s) := c s in (match r with Panic m => Panic m | _ => Ok tt end, s).

(** *** lib.rs, scoped_keys.rs *)
Definition get_refresh_token : ACC string :=
  self ← get;
  match refresh_token (state self) with Some t => mret (rt_token t) | None => st_err NoRefreshToken end.
Definition get_scoped_key (scope : string) : ACC ScopedKey :=
  self ← get; st_lift (ok_or (NoScopedKey scope) (scoped_keys (state self) !! scope)).

(** *** oauth.rs *)
Definition has_space (s : string) : bool := existsb (Ascii.eqb " ") (as_bytes s).

Definition cached_token (scope : string) : ACC (option AccessTokenInfo) :=
  self ← get;
  match access_token_cache self !! scope with
  | Some oauth_info =>
      t ← world now_secs;
      mret (if t + OAUTH_MIN_TIME_LEFT <? ati_expires_at oauth_info then Some oauth_info else None)
  | None => mret None
  end.

Definition get_access_token (scope : string) : ACC AccessTokenInfo :=
  if has_space scope then st_err MultipleScopesRequested
  else
    cached ← cached_token scope;
    match cached with
    | Some oauth_info => mret oauth_info
    | None =>
        self ← get;
        resp ← match refresh_token (state self) with
               | Some rt =>
                   if bool_decide (scope ∈ rt_scopes rt) then client (oauth_token_with_refresh_token (rt_token rt) [scope])
                   else st_err (NoCachedToken scope)
               | None => st_err (NoCachedToken scope)
               end;
        t ← world (since_epoch (Err (IllegalState "Current date before Unix Epoch.")));
        expires_at ← st_lift (uadd checks 64 (t / NANOS) (expires_in resp));
        self ← get;
        let token_info := mkAccessTokenInfo (tr_scope resp) (access_token resp) (scoped_keys (state self) !! scope) expires_at in
        _ ← modify (on_token_cache <[scope := token_info]>);
        mret token_info
    end.

Definition oauth_flow (url : Url) (scopes : list string) (wants_keys : bool) : ACC string :=
  st ← world (random_base64_url_string 16);
  code_verifier ← world (random_base64_url_string 43);
  code_challenge ← st_lift (map_err CryptoError (sha256 (as_bytes code_verifier)));
  let code_challenge := base64_encode_url code_challenge in
  self ← get;
  let url := url_append_pairs url
    [("client_id", client_id (config (state self))); ("redirect_uri", redirect_uri (config (state self)));
     ("scope", join_with " " scopes); ("state", st); ("code_challenge_method", "S256"); ("code_challenge", code_challenge);
     ("access_type", "offline")]%string in
  '(url, flow) ← (if wants_keys then
      flow ← world with_random_key;
      jwk_json ← st_lift (generate_keys_jwk flow);
      let keys_jwk := base64_encode_url (as_bytes jwk_json) in
      mret (url_append_pairs url [("keys_jwk"%string, keys_jwk)], Some flow)
    else mret (url, None));
  _ ← modify (on_flow_store <[st := mkOAuthFlow _ flow code_verifier]>);
  mret (url_as_str url).

Definition begin_pairing_flow (pairing_url : string) (scopes : list string) : ACC string :=
  url ← client (Config.content_url_path "/pair/supp");
  pairing_url ← st_lift (Config.parse pairing_url);
  if negb (bool_decide (url_host_str url = url_host_str pairing_url)) then st_err OriginMismatch
  else oauth_flow (url_set_fragment (url_fragment pairing_url) url) scopes true.

Definition begin_oauth_flow (scopes : list string) (wants_keys : bool) : ACC string :=
  url ← client Config.authorization_endpoint;
  let url := url_append_pairs url [("action", "email"); ("response_type", "code")]%string in
  self ← get;
  let scopes := match refresh_token (state self) with
                | Some rt => hash_iter (list_to_set scopes ∪ rt_scopes rt)
                | None => scopes
                end in
  oauth_flow url scopes wants_keys.

(** *** device.rs *)
Definition get_devices : ACC (list GetDeviceResponse) := t ← get_refresh_token; client (devices t).
Definition get_current_device : ACC (option GetDeviceResponse) := l ← get_devices; mret (List.find is_current_device l).
Definition do_update_device (update : DeviceUpdateRequest) : ACC UpdateDeviceResponse :=
  t ← get_refresh_token; client (update_device t update).
Definition replace_device (name : string) (type : DeviceType) (sub : option PushSubscription) (cmds : gmap string string)
    : ACC UpdateDeviceResponse :=
  let builder := DeviceUpdateRequestBuilder.available_commands cmds (DeviceUpdateRequestBuilder.device_type type
    (DeviceUpdateRequestBuilder.display_name name DeviceUpdateRequestBuilder.new)) in
  do_update_device (match sub with Some s => DeviceUpdateRequestBuilder.push_subscription s builder | None => builder end).
Definition set_device_name (name : string) : ACC UpdateDeviceResponse :=
  do_update_device (DeviceUpdateRequestBuilder.display_name name DeviceUpdateRequestBuilder.new).
Definition clear_device_name : ACC UpdateDeviceResponse :=
  do_update_device (DeviceUpdateRequestBuilder.clear_display_name DeviceUpdateRequestBuilder.new).
Definition set_push_subscription (sub : PushSubscription) : ACC UpdateDeviceResponse :=
  do_update_device (DeviceUpdateRequestBuilder.push_subscription sub DeviceUpdateRequestBuilder.new).
Definition register_command (command value : string) : ACC UpdateDeviceResponse :=
  do_update_device (DeviceUpdateRequestBuilder.available_commands {[command := value]} DeviceUpdateRequestBuilder.new).
Definition unregister_command (_ : string) : ACC UpdateDeviceResponse :=
  do_update_device (DeviceUpdateRequestBuilder.available_commands ∅ DeviceUpdateRequestBuilder.new).
Definition clear_commands : ACC UpdateDeviceResponse :=
  do_update_device (DeviceUpdateRequestBuilder.clear_available_commands DeviceUpdateRequestBuilder.new).
Definition do_invoke_command (command : string) (target : GetDeviceResponse) (payload : Value) : ACC unit :=
  t ← get_refresh_token; client (invoke_command t command (dev_id (dev_common target)) payload).

(** *** oauth.rs: the end of a flow *)
Fixpoint store_scoped_keys (l : list (string * Value)) : ACC unit :=
  match l with
  | [] => mret tt
  | (scope, key) :: l =>
      scoped_key ← st_lift (map_err JsonError (of_value (T:=ScopedKey) key));
      _ ← modify (on_state (λ s, set_scoped_keys (<[scope := scoped_key]> (scoped_keys s)) s));
      store_scoped_keys l
  end.
Definition handle_keys (flow : option ScopedKeysFlow) (jwe : option string) : ACC unit :=
  match jwe with
  | Some jwe =>
      match flow with
      | None => st_err (UnrecoverableServerError "Got a JWE without sending a JWK.")
      | Some flow =>
          decrypted_keys ← st_lift (decrypt_keys_jwe flow jwe);
          scoped_keys ← st_lift (map_err JsonError (from_slice (T:=list (string * Value)) (as_bytes decrypted_keys)));
          store_scoped_keys scoped_keys
      end
  | None => match flow with Some _ => st_err TokenWithoutKeys | None => mret tt end
  end.
(** The device of the old refresh token is destroyed with it, and is registered again. *)
Definition replace_old_token (old : RefreshToken) : ACC unit :=
  device_info ← get_current_device;
  _ ← warn (client (destroy_oauth_token (rt_token old)));
  match device_info with
  | Some d =>
      let c := dev_common d in
      warn (replace_device (dev_display_name c) (dev_type c) (dev_push_subscription c) (available_commands c))
  | None => mret tt
  end.
Definition split_scopes (s : string) : gset string :=
  list_to_set (string_of_list_ascii <$> split_on (Ascii.eqb " "%char) (as_bytes s)).

Definition complete_oauth_flow (code st : string) : ACC unit :=
  self ← get;
  match flow_store self !! st with
  | None => st_err UnknownOAuthState
  | Some flow =>
      _ ← modify (on_flow_store (delete st));
      resp ← client (oauth_token_with_code code (code_verifier flow));
      _ ← handle_keys (scoped_keys_flow flow) (keys_jwe resp);
      _ ← warn (client (destroy_oauth_token (access_token resp)));
      new_token ← st_lift (ok_or RefreshTokenNotPresent (tr_refresh_token resp));
      self ← get;
      _ ← match refresh_token (state self) with Some old => replace_old_token old | None => mret tt end;
      modify (on_state (set_refresh_token (Some (mkRefreshToken new_token (split_scopes (tr_scope resp))))))
  end.

(** *** profile.rs *)
Definition get_profile (ignore_cache : bool) : ACC ProfileResponse :=
  self ← get;
  fresh ← match profile_cache self with
          | Some c => if ignore_cache then mret false else t ← world now; mret (t <? cached_at c + PROFILE_FRESHNESS_THRESHOLD)
          | None => mret false
          end;
  match profile_cache self, (fresh : bool) with
  | Some c, true => mret (cr_response c)
  | cache, _ =>
      token ← get_access_token PROFILE;
      resp ← client (profile (ati_token token) (cr_etag <$> cache));
      match resp with
      | Some r =>
          _ ← match re_etag r with
              | Some etag => t ← world now; modify (set_profile_cache (Some (mkCachedResponse (re_response r) t etag)))
              | None => mret tt
              end;
          mret (re_response r)
      | None =>
          self ← get;
          _ ← modify (set_profile_cache None);
          match profile_cache self with
          | Some c =>
              t ← world now;
              _ ← modify (set_profile_cache (Some (mkCachedResponse (cr_response c) t (cr_etag c))));
              mret (cr_response c)
          | None => st_err (UnrecoverableServerError "Got a 304 without having sent an eTag.")
          end
      end
  end.

(** *** lib.rs: pages *)
Definition get_token_server_endpoint_url : ACC Url := client Config.token_server_endpoint_url.
Definition get_connection_success_url : ACC Url :=
  url ← client (Config.content_url_path "connect_another_device");
  mret (url_append_pairs url [("showSuccessMessage", "true")]%string).
Definition add_account_identifiers_to_url (url : Url) : ACC Url :=
  p ← get_profile false;
  mret (url_append_pairs url [("uid"%string, uid p); ("email"%string, email p)]).
Definition get_manage_account_url (entrypoint : string) : ACC Url :=
  url ← client (Config.content_url_path "settings");
  add_account_identifiers_to_url (url_append_pairs url [("entrypoint"%string, entrypoint)]).
Definition get_manage_devices_url (entrypoint : string) : ACC Url :=
  url ← client (Config.content_url_path "settings/clients");
  add_account_identifiers_to_url (url_append_pairs url [("entrypoint"%string, entrypoint)]).

(** *** send_tab.rs *)
Definition generate_send_tab_command_data : ACC string :=
  self ← get;
  own_keys ← match commands_data (state self) !! COMMAND_NAME with
             | Some s => st_lift (map_err JsonError (from_slice (T:=PrivateSendTabKeys) (as_bytes s)))
             | None =>
                 keys ← world PrivateSendTabKeys_from_random;
                 s ← st_lift (map_err JsonError (to_json keys));
                 _ ← modify (on_state (λ st, set_commands_data (<[COMMAND_NAME := s]> (commands_data st)) st));
                 mret keys
             end;
  oldsync_key ← get_scoped_key OLD_SYNC;
  world (as_command_data (PublicSendTabKeys_from own_keys) oldsync_key).

Definition send_tab (target_device_id title url : string) : ACC unit :=
  devices ← get_devices;
  target ← st_lift (ok_or (UnknownTargetDevice target_device_id)
             (List.find (λ d, String.eqb (dev_id (dev_common d)) target_device_id) devices));
  let payload := single_tab title url in
  oldsync_key ← get_scoped_key OLD_SYNC;
  command_payload ← world (build_send_command oldsync_key target payload);
  do_invoke_command COMMAND_NAME target command_payload.

Definition handle_send_tab_command (sender : option GetDeviceResponse) (payload : Value)
    : ACC (option GetDeviceResponse * SendTabPayload) :=
  self ← get;
  send_tab_key ← match commands_data (state self) !! COMMAND_NAME with
                 | Some s => st_lift (map_err JsonError (from_slice (T:=PrivateSendTabKeys) (as_bytes s)))
                 | None => st_err (IllegalState "Cannot find send-tab keys. Has initialize_device been called before?")
                 end;
  encrypted_payload ← st_lift (map_err JsonError (of_value (T:=EncryptedSendTabPayload) payload));
  tab ← st_lift (EncryptedSendTabPayload_decrypt encrypted_payload send_tab_key);
  mret (sender, tab).

(** *** device.rs: capabilities and commands *)
Fixpoint capability_commands (l : list Capability) (cmds : gmap string string) : ACC (gmap string string) :=
  match l with
  | [] => mret cmds
  | SendTab :: l =>
      c ← generate_send_tab_command_data;
      _ ← modify (on_state (λ s, set_device_capabilities ({[SendTab]} ∪ device_capabilities s) s));
      capability_commands l (<[COMMAND_NAME := c]> cmds)
  end.
Definition initialize_device (name : string) (type : DeviceType) (capabilities : list Capability) : ACC unit :=
  commands ← capability_commands capabilities ∅;
  _ ← do_update_device (DeviceUpdateRequestBuilder.available_commands commands (DeviceUpdateRequestBuilder.device_type type
        (DeviceUpdateRequestBuilder.display_name name DeviceUpdateRequestBuilder.new)));
  mret tt.
Fixpoint register_capabilities (l : list Capability) : ACC unit :=
  match l with
  | [] => mret tt
  | SendTab :: l =>
      c ← generate_send_tab_command_data;
      _ ← register_command COMMAND_NAME c;
      register_capabilities l
  end.
Definition ensure_capabilities : ACC unit := self ← get; register_capabilities (elements (device_capabilities (state self))).

Definition parse_command (data : CommandData) (devices : list GetDeviceResponse) : ACC (option GetDeviceResponse * SendTabPayload) :=
  let sender := s ← cd_sender data; List.find (λ d, String.eqb (dev_id (dev_common d)) s) devices in
  if String.eqb (cd_command data) COMMAND_NAME then handle_send_tab_command sender (cd_payload data)
  else st_err (UnknownCommand (cd_command data)).
(** Commands that cannot be read are logged and left out. *)
Fixpoint parse_commands (l : list CommandData) (devices : list GetDeviceResponse) : ACC (list AccountEvent) := λ s,
  match l with
  | [] => (Ok [], s)
  | data :: l =>
      match parse_command data devices s with
      | (Ok (sender, tab), s) => (events ← parse_commands l devices; mret (TabReceived sender tab :: events)) s
      | (Err _, s) => parse_commands l devices s
      | (Panic m, s) => (Panic m, s)
      end
  end.
Definition parse_commands_messages (messages : list PendingCommand) : ACC (list AccountEvent) :=
  let commands := pc_data <$> messages in
  devices ← get_devices;
  parse_commands commands devices.
Definition fetch_and_parse_commands (index : Z) (limit : option Z) : ACC (list AccountEvent) :=
  t ← get_refresh_token;
  pending ← client (pending_commands t index limit);
  match messages pending with
  | [] => mret []
  | l =>
      account_events ← parse_commands_messages l;
      _ ← modify (on_state (set_last_handled_command (Some (pcr_index pending))));
      mret account_events
  end.
Definition poll_device_commands : ACC (list AccountEvent) :=
  self ← get;
  index ← st_lift (uadd checks 64 (default 0 (last_handled_command (state self))) 1);
  fetch_and_parse_commands index None.
(** [pop]: the last event. *)
Definition fetch_device_command (index : Z) : ACC AccountEvent :=
  account_events ← fetch_and_parse_commands index (Some 1);
  st_lift (ok_or (IllegalState "Index fetch came out empty.") (last account_events)).
Definition handle_push_message (payload : string) : ACC (list AccountEvent) :=
  payload ← st_lift (map_err JsonError (from_slice (T:=PushPayload) (as_bytes payload)));
  match payload with
  | CommandReceived p =>
      if ios then cmd ← fetch_device_command (cr_index p); mret [cmd] else poll_device_commands
  end.
End account.
End FirefoxAccount.

(** ** state_persistence.rs *)
Record V1Config := mkV1Config {
  v1_content_url : string; v1_auth_url : string; v1_oauth_url : string; v1_profile_url : string;
  v1_token_server_endpoint_url : string; v1_authorization_endpoint : string; v1_issuer : string; v1_jwks_uri : string;
  v1_token_endpoint : string; v1_userinfo_endpoint : string }.
Record V1AuthInfo := mkV1AuthInfo {
  v1_access_token : string; v1_keys : option string; v1_refresh_token : option string; v1_expires_at : Z; v1_scopes : list string }.
(** The values of the map [oauth_cache], in the order in which it is iterated. *)
Record StateV1 := mkStateV1 { v1_client_id : string; v1_redirect_uri : string; v1_config : V1Config; oauth_cache : list V1AuthInfo }.
Inductive PersistedState := V1 (s : StateV1) | V2 (s : StateV2).

Section persistence.
Context `{!FxaJson, !FromJson PersistedState, !ToJson PersistedState, !FromJson (list (string * Value)), !FromValue ScopedKey}.

Fixpoint insert_keys (l : list (string * Value)) (all : gmap string ScopedKey) : res ErrorKind (gmap string ScopedKey) :=
  match l with
  | [] => Ok all
  | (scope, key) :: l =>
      scoped_key ← map_err JsonError (of_value (T:=ScopedKey) key);
      insert_keys l (<[scope := scoped_key]> all)
  end.
Fixpoint collect_v1 (l : list V1AuthInfo) (tokens : list V1AuthInfo) (keys : gmap string ScopedKey)
    : res ErrorKind (list V1AuthInfo * gmap string ScopedKey) :=
  match l with
  | [] => Ok (tokens, keys)
  | t :: l =>
      let tokens := match v1_refresh_token t with Some _ => tokens ++ [t] | None => tokens end in
      keys ← match v1_keys t with
             | Some s => m ← map_err JsonError (from_slice (T:=list (string * Value)) (as_bytes s)); insert_keys m keys
             | None => Ok keys
             end;
      collect_v1 l tokens keys
  end.
(** [max_by]: the last of the largest. *)
Fixpoint max_by_expiry (best : V1AuthInfo) (l : list V1AuthInfo) : V1AuthInfo :=
  match l with
  | [] => best
  | t :: l => max_by_expiry (if v1_expires_at best <=? v1_expires_at t then t else best) l
  end.
Definition newest (l : list V1AuthInfo) : option V1AuthInfo :=
  match l with [] => None | t :: l => Some (max_by_expiry t l) end.

Definition upgrade_v1 (s : StateV1) : res ErrorKind StateV2 :=
  '(tokens, keys) ← collect_v1 (oauth_cache s) [] ∅;
  refresh ← match newest tokens with
            | None => Ok None
            | Some t =>
                token ← expect "all_refresh_tokens should only contain access tokens with refresh tokens" (v1_refresh_token t);
                Ok (Some (mkRefreshToken token (list_to_set (v1_scopes t))))
            end;
  let c := v1_config s in
  Ok (mkStateV2
    (Config.init (v1_content_url c) (v1_auth_url c) (v1_oauth_url c) (v1_profile_url c) (v1_token_server_endpoint_url c)
       (v1_authorization_endpoint c) (v1_issuer c) (v1_jwks_uri c) (v1_token_endpoint c) (v1_userinfo_endpoint c)
       (v1_client_id s) (v1_redirect_uri s))
    refresh keys None ∅ ∅).
Definition upgrade_state (in_state : PersistedState) : res ErrorKind StateV2 :=
  match in_state with V1 s => upgrade_v1 s | V2 s => Ok s end.
Definition state_from_json (data : string) : res ErrorKind StateV2 :=
  stored_state ← map_err JsonError (from_slice (T:=PersistedState) (as_bytes data)); upgrade_state stored_state.
Definition state_to_json (s : StateV2) : res ErrorKind string := map_err JsonError (to_json (V2 s)).

(** [FirefoxAccount::from_json] and [to_json]. *)
Definition account_from_json `{!Ring} (data : string) : res ErrorKind FirefoxAccount := s ← state_from_json data; Ok (from_state s).
Definition account_to_json `{!Ring} (a : FirefoxAccount) : res ErrorKind string := state_to_json (state a).
End persistence.
