(* ===== verification/LoginSm.v ===== *)
(** * Firefox Accounts: sessions and the login state machine

    Model of [components/fxa-client/src/login_sm.rs], [browser_id.rs],
    [http_client/browser_id.rs], its [hawk_request.rs] and [jwt_utils.rs], which the feature
    [browserid] enables. *)

From S2P Require Import Prelude Sync15Types KeyBundle Viaduct Token PushCrypto FxaConfig FxaClient FxaAccount.
From Stdlib Require Import Ascii String.
From stdpp Require Import strings list gmap pretty.
Import FxaErr.
Local Open Scope Z_scope.
Local Open Scope list_scope.

(** ** Code outside the repository, and [rsa.rs] around it *)
(** The trait [BrowserIDKeyPair] with its implementation over OpenSSL. *)
Class KeyPairs `{!FxaJson} := {
  RSABrowserIDKeyPair : Type;
  kp_algo : RSABrowserIDKeyPair → string;
  kp_sign : RSABrowserIDKeyPair → bytes → res ErrorKind bytes;
  kp_public_json : RSABrowserIDKeyPair → res ErrorKind Value;
}.
Class KeyPairRand `{!FxaJson, !KeyPairs} (W : Type) := key_pair : Z → ST W ErrorKind RSABrowserIDKeyPair.
(** [rc_crypto::hkdf::expand] over NSS: key, info and length. *)
Class Hkdf := hkdf_expand : bytes → bytes → nat → res string bytes.
(** The header of the crate [hawk] for a method, a URL, the body if there is one, and credentials. *)
Class HawkHeader `{!UrlLib} (W : Type) := hawk_header : string → Url → option string → string → bytes → ST W string string.
Class UrlOrigin `{!UrlLib} := { url_scheme : Url → string; url_port : Url → option Z }.

(** ** http_client/browser_id.rs *)
Definition KEY_LENGTH : nat := 32.
Definition HKDF_SALT : bytes := repeat Ascii.zero 32.
Definition SIGN_DURATION_MS : Z := 24 * 60 * 60 * 1000.
Definition kw (name : string) : bytes := as_bytes ("identity.mozilla.com/picl/v1/" +:+ name).
Definition slice (b : bytes) (i j : nat) : bytes := take (j - i) (drop i b).

Record LoginResponse := mkLoginResponse { lr_uid : string; lr_session_token : string; lr_verified : bool }.
Record RecoveryEmailStatusResponse := mkRecoveryEmailStatusResponse { res_email : string; res_verified : bool }.
Record AccountStatusResponse := mkAccountStatusResponse { exists_account : bool }.
Record SignResponse := mkSignResponse { sr_certificate : string }.
Record KeysResponse := mkKeysResponse { wrap_kb : bytes }.

Section derive.
Context `{!Crypto, !Hkdf, !Sha256, !Hex, !UrlLib, !UrlOrigin}.
(** [rc_crypto::hkdf::extract_and_expand]. *)
Definition extract_and_expand (salt secret info : bytes) (len : nat) : res string bytes :=
  prk ← RcCrypto.sign salt secret; hkdf_expand prk info len.
Definition derive_hkdf_sha256_key (ikm salt info : bytes) (len : nat) : res ErrorKind bytes :=
  map_err CryptoError (extract_and_expand salt ikm info len).
Definition derive_sync_key (kb : bytes) : res ErrorKind bytes := derive_hkdf_sha256_key kb [] (kw "oldsync") (KEY_LENGTH * 2).
Definition compute_client_state (kb : bytes) : res ErrorKind string :=
  d ← map_err CryptoError (sha256 kb); Ok (hex_encode (take 16 d)).
Definition derive_key_from_session_token (session_token : bytes) : res ErrorKind bytes :=
  derive_hkdf_sha256_key session_token HKDF_SALT (kw "sessionToken") (KEY_LENGTH * 2).
Definition get_oauth_audience (oauth_url : Url) : res ErrorKind string :=
  host ← ok_or AudienceURLWithoutHost (url_host_str oauth_url);
  Ok (match url_port oauth_url with
      | Some port => url_scheme oauth_url +:+ "://" +:+ host +:+ ":" +:+ pretty port
      | None => url_scheme oauth_url +:+ "://" +:+ host
      end).
End derive.

(** The trait [FxABrowserIDClient], as far as the state machine and the account use it. *)
Class BrowserIDClient `{!FxaJson, !KeyPairs} (W : Type) := {
  keys : bytes → ST (Config * W) ErrorKind KeysResponse;
  sign : bytes → RSABrowserIDKeyPair → ST (Config * W) ErrorKind SignResponse;
}.

(** ** jwt_utils.rs *)
Section jwt.
Context {W : Type} `{!FxaJson, !KeyPairs, !Clock W, !Base64Url}.
(** [json!(n)] for an unsigned integer. *)
Context (v_u64 : Z → Value).
Definition DEFAULT_ASSERTION_ISSUER : string := "127.0.0.1".
Definition DEFAULT_ASSERTION_DURATION : Z := 60 * 60 * 1000.
Definition encode_and_sign (payload : string) (key_pair : RSABrowserIDKeyPair) : res ErrorKind string :=
  let headers_str := v_to_string (v_object [("alg"%string, v_string (kp_algo key_pair))]) in
  let message := base64_encode_url (as_bytes headers_str) +:+ "." +:+ base64_encode_url (as_bytes payload) in
  signature ← kp_sign key_pair (as_bytes message);
  Ok (message +:+ "." +:+ base64_encode_url signature).
Definition create_assertion_full (key_pair : RSABrowserIDKeyPair) (certificate audience issuer : string) (issued_at expires_at : Z)
    : res ErrorKind string :=
  let payload := v_to_string (v_object [("aud", v_string audience); ("iss", v_string issuer); ("iat", v_u64 issued_at);
                                        ("exp", v_u64 expires_at)]%string) in
  assertion ← encode_and_sign payload key_pair;
  Ok (certificate +:+ "~" +:+ assertion).
Definition create_assertion (key_pair : RSABrowserIDKeyPair) (certificate audience : string) : ST W ErrorKind string :=
  issued_at ← now;
  st_lift (create_assertion_full key_pair certificate audience DEFAULT_ASSERTION_ISSUER issued_at
             (issued_at + DEFAULT_ASSERTION_DURATION)).
End jwt.

(** ** The client over HTTP, with Hawk *)
Module BrowserID.
Section browser_id.
Context {W : Type} `{!UrlLib, !Http W, !FxaJson, !FromJson ClientConfigurationResponse, !FromJson OpenIdConfigurationResponse}.
Context `{!FromJson Value, !KeyPairs, !KeyPairRand W, !Hkdf, !Sha256, !Hex, !HawkHeader W, !Crypto, !Clock W, !Base64Url, !UrlOrigin}.
Context `{!FromJson LoginResponse, !FromJson AccountStatusResponse, !FromJson RecoveryEmailStatusResponse, !FromJson SignResponse, !FromJson OAuthTokenResponse}.
Context (v_u64 : Z → Value).
Abbreviation CFG := (ST (Config * W) ErrorKind).

(** [HawkRequestBuilder::new(method, url, key).body(body).build()]; the keys it is given have at
    least 64 bytes. *)
Definition hawk_request (method : Method) (url : Url) (key : bytes) (body : option Value) : CFG Request :=
  let body := v_to_string <$> body in
  header ← Config.world (st_map_err HawkError
             (hawk_header (Method.as_str method) url body (hex_encode (take KEY_LENGTH key)) (slice key KEY_LENGTH (2 * KEY_LENGTH))));
  request ← st_lift (Client.with_header AUTHORIZATION ("Hawk " +:+ header) (Request.new method url));
  match body with
  | Some body =>
      request ← st_lift (Client.with_header CONTENT_TYPE "application/json" request);
      mret (Request.body (as_bytes body) request)
  | None => mret request
  end.

Definition login (email auth_pwd : string) (get_keys : bool) : CFG LoginResponse :=
  url ← Config.auth_url_path "v1/account/login";
  let parameters := v_object [("email", v_string email); ("authPW", v_string auth_pwd)]%string in
  request ← st_lift (Client.with_json parameters
              (Request.query [("keys", if get_keys then "true" else "false")]%string (Request.post url)));
  Client.request_json request.
Definition account_status (uid : string) : CFG AccountStatusResponse :=
  url ← Config.auth_url_path "v1/account/status";
  Client.request_json (Request.query [("uid"%string, uid)] (Request.get url)).

Definition keys (key_fetch_token : bytes) : CFG KeysResponse :=
  url ← Config.auth_url_path "v1/account/keys";
  key ← st_lift (derive_hkdf_sha256_key key_fetch_token HKDF_SALT (kw "keyFetchToken") (KEY_LENGTH * 3));
  let key_request_key := slice key (KEY_LENGTH * 2) (KEY_LENGTH * 3) in
  request ← hawk_request Method.Get url key None;
  json ← Client.request_json (T:=Value) request;
  bundle ← st_lift (expect "Invalid JSON" (v_as_str (v_index json "bundle")));
  data ← st_lift (map_err HexDecodeError (hex_decode bundle));
  if negb (Nat.eqb (length data) (3 * KEY_LENGTH)) then st_err (BadKeyLength "bundle" 96 (bytes_len data))
  else
    let ciphertext := slice data 0 (KEY_LENGTH * 2) in
    let mac_code := slice data (KEY_LENGTH * 2) (KEY_LENGTH * 3) in
    bytes ← st_lift (derive_hkdf_sha256_key key_request_key HKDF_SALT (kw "account/keys") (KEY_LENGTH * 3));
    let hmac_key := slice bytes 0 KEY_LENGTH in
    let xor_key := slice bytes KEY_LENGTH (KEY_LENGTH * 3) in
    _ ← st_lift (map_err (λ _, HmacMismatch) (RcCrypto.verify hmac_key ciphertext mac_code));
    xored_bytes ← st_lift (xored_with ciphertext xor_key);
    mret (mkKeysResponse (slice xored_bytes KEY_LENGTH (KEY_LENGTH * 2))).

Definition recovery_email_status (session_token : bytes) : CFG RecoveryEmailStatusResponse :=
  url ← Config.auth_url_path "v1/recovery_email/status";
  key ← st_lift (derive_key_from_session_token session_token);
  request ← hawk_request Method.Get url key None;
  Client.request_json request.
Definition sign (session_token : bytes) (key_pair : RSABrowserIDKeyPair) : CFG SignResponse :=
  public_key_json ← st_lift (kp_public_json key_pair);
  let parameters := v_object [("publicKey", public_key_json); ("duration", v_u64 SIGN_DURATION_MS)]%string in
  key ← st_lift (derive_key_from_session_token session_token);
  url ← Config.auth_url_path "v1/certificate/sign";
  request ← hawk_request Method.Post url key (Some parameters);
  Client.request_json request.
Definition oauth_token_with_session_token (session_token : bytes) (scopes : list string) : CFG OAuthTokenResponse :=
  oauth_url ← Config.oauth_url;
  audience ← st_lift (get_oauth_audience oauth_url);
  pair ← Config.world (key_pair 1024);
  certificate ← sign session_token pair;
  assertion ← Config.world (create_assertion v_u64 pair (sr_certificate certificate) audience);
  config ← Config.get;
  let parameters := v_object [("assertion", v_string assertion); ("client_id", v_string (client_id config));
                              ("response_type", v_string "token"); ("scope", v_string (join_with " " scopes))]%string in
  key ← st_lift (derive_key_from_session_token session_token);
  url ← Config.authorization_endpoint;
  request ← hawk_request Method.Post url key (Some parameters);
  Client.request_json request.
#[export] Instance Client_BrowserID : BrowserIDClient W := {| LoginSm.keys := keys; LoginSm.sign := sign |}.
End browser_id.
End BrowserID.

(** ** login_sm.rs *)
Record BaseState := mkBaseState { bs_uid : string; bs_email : string }.
Record ReadyForKeysState := mkReadyForKeysState {
  rfk_base : BaseState; rfk_session_token : bytes; key_fetch_token : bytes; unwrap_kb : bytes }.
Record TokenAndKeysState := mkTokenAndKeysState { tk_base : BaseState; tk_session_token : bytes; sync_key : bytes; xcs : string }.

Section machine.
Context `{!FxaJson, !KeyPairs}.
Record TokenKeysAndKeyPairState := mkTokenKeysAndKeyPairState {
  token_and_keys : TokenAndKeysState; state_key_pair : RSABrowserIDKeyPair; key_pair_expires_at : Z }.
Record MarriedState := mkMarriedState {
  token_keys_and_key_pair : TokenKeysAndKeyPairState; certificate : string; certificate_expires_at : Z }.
Inductive LoginState :=
| Married (s : MarriedState)
| CohabitingBeforeKeyPair (s : TokenAndKeysState)
| CohabitingAfterKeyPair (s : TokenKeysAndKeyPairState)
| EngagedBeforeVerified (s : ReadyForKeysState)
| EngagedAfterVerified (s : ReadyForKeysState)
| Separated (s : BaseState)
| Unknown.
(** [std::mem::discriminant]. *)
Definition discriminant (s : LoginState) : nat :=
  match s with
  | Married _ => 0 | CohabitingBeforeKeyPair _ => 1 | CohabitingAfterKeyPair _ => 2 | EngagedBeforeVerified _ => 3
  | EngagedAfterVerified _ => 4 | Separated _ => 5 | Unknown => 6
  end.

Definition into_separated (self : LoginState) : res ErrorKind LoginState :=
  match self with
  | Married s => Ok (Separated (tk_base (token_and_keys (token_keys_and_key_pair s))))
  | CohabitingBeforeKeyPair s => Ok (Separated (tk_base s))
  | CohabitingAfterKeyPair s => Ok (Separated (tk_base (token_and_keys s)))
  | EngagedBeforeVerified s => Ok (Separated (rfk_base s))
  | EngagedAfterVerified s => Ok (Separated (rfk_base s))
  | Separated s => Ok (Separated s)
  | Unknown => Panic "Insane state."
  end.
(** browser_id.rs: [session_token_from_state]. *)
Definition session_token_from_state (s : LoginState) : option bytes :=
  match s with
  | Separated _ | Unknown => None
  | EngagedBeforeVerified s | EngagedAfterVerified s => Some (rfk_session_token s)
  | CohabitingBeforeKeyPair s => Some (tk_session_token s)
  | CohabitingAfterKeyPair s => Some (tk_session_token (token_and_keys s))
  | Married s => Some (tk_session_token (token_and_keys (token_keys_and_key_pair s)))
  end.

Context {W : Type} `{!Clock W, !KeyPairRand W, !BrowserIDClient W, !Crypto, HK : !Hkdf, !Sha256, !Hex}.
Abbreviation SM := (ST (Config * W) ErrorKind).
Definition DAY_MS : Z := 24 * 3600 * 1000.

(** A [match] on the result of a call; a panic is not caught. *)
Definition on_result {A B} (c : SM A) (f : res ErrorKind A → SM B) : SM B := λ s,
  let '(r, s) := c s in match r with Panic m => (Panic m, s) | _ => f r s end.
Definition clock : SM Z := Config.world now.

Definition handle_ready_for_key_state (same : ReadyForKeysState → LoginState) (st : ReadyForKeysState) : SM LoginState :=
  on_result (keys (key_fetch_token st)) (λ resp,
    match resp with
    | Ok resp =>
        match xored_with (wrap_kb resp) (unwrap_kb st) with
        | Ok kb =>
            sync_key ← st_lift (derive_sync_key kb);
            xcs ← st_lift (compute_client_state kb);
            mret (CohabitingBeforeKeyPair (mkTokenAndKeysState (rfk_base st) (rfk_session_token st) sync_key xcs))
        | _ => mret (same st)
        end
    | Err (RemoteError _ 104 _ _ _) => mret (same st)
    | Err (RemoteError _ _ _ _ _) => mret (Separated (rfk_base st))
    | _ => mret (same st)
    end).

Definition advance_one (from : LoginState) : SM LoginState :=
  match from with
  | Married st =>
      t ← clock;
      if key_pair_expires_at (token_keys_and_key_pair st) <? t
      then mret (CohabitingBeforeKeyPair (token_and_keys (token_keys_and_key_pair st)))
      else if certificate_expires_at st <? t then mret (CohabitingAfterKeyPair (token_keys_and_key_pair st))
      else mret (Married st)
  | CohabitingBeforeKeyPair st =>
      on_result (Config.world (key_pair 2048)) (λ r,
        match r with
        | Ok kp => t ← clock; mret (CohabitingAfterKeyPair (mkTokenKeysAndKeyPairState st kp (t + 30 * DAY_MS)))
        | _ => mret (Separated (tk_base st))
        end)
  | CohabitingAfterKeyPair st =>
      on_result (sign (tk_session_token (token_and_keys st)) (state_key_pair st)) (λ resp,
        match resp with
        | Ok resp => t ← clock; mret (Married (mkMarriedState st (sr_certificate resp) (t + DAY_MS)))
        | Err (RemoteError _ _ _ _ _) => mret (Separated (tk_base (token_and_keys st)))
        | _ => mret (CohabitingAfterKeyPair st)
        end)
  | EngagedBeforeVerified st => handle_ready_for_key_state EngagedBeforeVerified st
  | EngagedAfterVerified st => handle_ready_for_key_state EngagedAfterVerified st
  | Separated _ | Unknown => mret from
  end.

(** The loop; [None] is out of fuel. *)
Fixpoint advance_loop (fuel : nat) (cur : LoginState) (s : Config * W) : option (res ErrorKind LoginState * (Config * W)) :=
  match fuel with
  | O => None
  | S fuel =>
      match advance_one cur s with
      | (Ok st, s) => if Nat.eqb (discriminant cur) (discriminant st) then Some (Ok st, s) else advance_loop fuel st s
      | r => Some r
      end
  end.
Definition advance (from : LoginState) (s : Config * W) : option (res ErrorKind LoginState * (Config * W)) := advance_loop 7 from s.

(** ** browser_id.rs: the account's login state; it is [Unknown] while the machine runs *)
Definition account_advance (st : LoginState) (s : Config * W) : option (res ErrorKind unit * (LoginState * (Config * W))) :=
  match advance st s with
  | Some (Ok st, s) => Some (Ok tt, (st, s))
  | Some (Err e, s) => Some (Err e, (Unknown, s))
  | Some (Panic m, s) => Some (Panic m, (Unknown, s))
  | None => None
  end.
Record SyncKeys := mkSyncKeys { sk_sync_key : string; sk_xcs : string }.
Definition get_sync_keys (st : LoginState) (s : Config * W) : option (res ErrorKind SyncKeys * (LoginState * (Config * W))) :=
  match account_advance st s with
  | Some (Ok _, (st, s)) =>
      Some (match st with
            | Married m => let k := token_and_keys (token_keys_and_key_pair m) in Ok (mkSyncKeys (hex_encode (sync_key k)) (xcs k))
            | _ => Err NotMarried
            end, (st, s))
  | Some (Err e, s) => Some (Err e, s)
  | Some (Panic m, s) => Some (Panic m, s)
  | None => None
  end.
(** [generate_assertion]. *)
Definition generate_assertion `{!Base64Url} (v_u64 : Z → Value) (audience : string) (st : LoginState) (s : Config * W)
    : option (res ErrorKind string * (LoginState * (Config * W))) :=
  match account_advance st s with
  | Some (Ok _, (st, s)) =>
      Some (match st with
            | Married m =>
                let '(r, s) := Config.world (create_assertion v_u64 (state_key_pair (token_keys_and_key_pair m)) (certificate m) audience) s in
                (r, (st, s))
            | _ => (Err NotMarried, (st, s))
            end)
  | Some (Err e, s) => Some (Err e, s)
  | Some (Panic m, s) => Some (Panic m, s)
  | None => None
  end.

(** [FirefoxAccount::from_credentials]: the login state. *)
Record WebChannelResponse := mkWebChannelResponse {
  wc_uid : string; wc_email : string; wc_verified : bool; wc_session_token : string; wc_key_fetch_token : string; wc_unwrap_kb : string }.
Definition from_credentials (c : WebChannelResponse) : res ErrorKind LoginState :=
  session_token ← map_err HexDecodeError (hex_decode (wc_session_token c));
  key_fetch_token ← map_err HexDecodeError (hex_decode (wc_key_fetch_token c));
  unwrap_kb ← map_err HexDecodeError (hex_decode (wc_unwrap_kb c));
  let d := mkReadyForKeysState (mkBaseState (wc_uid c) (wc_email c)) session_token key_fetch_token unwrap_kb in
  Ok (if wc_verified c then EngagedAfterVerified d else EngagedBeforeVerified d).
End machine.

(** ** The machine settles *)
Section settles.
Context `{!FxaJson, !KeyPairs} {W : Type} `{!Clock W, !KeyPairRand W, !BrowserIDClient W, !Crypto, HK : !Hkdf, !Sha256, !Hex}.
Implicit Types st : LoginState.

Definition base_of st : option BaseState :=
  match st with
  | Married s => Some (tk_base (token_and_keys (token_keys_and_key_pair s)))
  | CohabitingBeforeKeyPair s => Some (tk_base s)
  | CohabitingAfterKeyPair s => Some (tk_base (token_and_keys s))
  | EngagedBeforeVerified s | EngagedAfterVerified s => Some (rfk_base s)
  | Separated s => Some s
  | Unknown => None
  end.
(** A bound on the steps that are left, if no clock reading is after [hi]. *)
Definition rank (hi : Z) st : nat :=
  match st with
  | Unknown | Separated _ => 1
  | Married m =>
      match (hi <=? key_pair_expires_at (token_keys_and_key_pair m))%Z, (hi <=? certificate_expires_at m)%Z with
      | true, true => 1 | true, false => 3 | false, true => 4 | false, false => 6
      end
  | CohabitingAfterKeyPair s => if (hi <=? key_pair_expires_at s)%Z then 2 else 5
  | CohabitingBeforeKeyPair _ => 3
  | EngagedBeforeVerified _ | EngagedAfterVerified _ => 4
  end.

(** The account is the same, and the session as long as there is one. *)
Definition same_account st st' : Prop :=
  base_of st' = base_of st ∧ (session_token_from_state st' = None ∨ session_token_from_state st' = session_token_from_state st).
(** The key pair of [st'] was not expired at the time [lo], or it is the one of [st], which
    waited for its certificate already: such a state is kept without a look at the expiry. *)
Definition key_pair_fresh (lo : Z) st st' : Prop :=
  match st' with
  | CohabitingAfterKeyPair a => lo ≤ key_pair_expires_at a ∨ st = st'
  | _ => True
  end.
(** A state [st'] in which the machine, started in [st], may stop. *)
Definition fresh (lo : Z) st st' : Prop :=
  match st' with
  | Married m => lo ≤ key_pair_expires_at (token_keys_and_key_pair m) ∧ lo ≤ certificate_expires_at m
  | CohabitingBeforeKeyPair _ => False
  | _ => key_pair_fresh lo st st'
  end.

Context (lo : Z) (Hclock : ∀ w : W, lo ≤ fst (system_now w) / 1000000 ≤ lo + DAY_MS).

Lemma clock_window (s : Config * W) t s' : clock s = (Ok t, s') → lo ≤ t ≤ lo + DAY_MS.
Proof.
  destruct s as [c w]. unfold clock, Config.world, now, since_epoch, mbind, ST_bind.
  pose proof (Hclock w) as Hw. destruct (system_now w) as [n w']. cbn in *. destruct (n <? 0); [done|]. by intros [= <- _].
Qed.

(** A step does not change the kind of the state, or comes closer to the end. *)
Definition good_step st st' : Prop :=
  same_account st st' ∧ key_pair_fresh lo st st' ∧
  ((discriminant st = discriminant st' ∧ fresh lo st st') ∨
                         (discriminant st ≠ discriminant st' ∧ (rank (lo + DAY_MS) st' < rank (lo + DAY_MS) st)%nat)).

Lemma ready_step same (rs : ReadyForKeysState) s st' s' :
  same = EngagedBeforeVerified ∨ same = EngagedAfterVerified →
  handle_ready_for_key_state same rs s = (Ok st', s') → good_step (same rs) st'.
Proof.
  intros Hsame. unfold handle_ready_for_key_state, on_result. destruct (keys (key_fetch_token rs) s) as [resp s1].
  assert (Hst : good_step (same rs) (same rs)) by (destruct Hsame as [-> | ->]; repeat split; cbn; auto).
  assert (Hsep : good_step (same rs) (Separated (rfk_base rs))).
  { destruct Hsame as [-> | ->]; repeat split; cbn; auto; right; split; (done || lia). }
  destruct resp as [resp|e|]; [| |done].
  - destruct (xored_with _ _) as [kb| |]; [|by intros [= <- _]..]. unfold mbind, ST_bind, st_lift.
    destruct (derive_sync_key kb); [|done..]. destruct (compute_client_state kb); [|done..]. intros [= <- _].
    destruct Hsame as [-> | ->]; repeat split; cbn; auto; right; split; (done || lia).
  - destruct e; try by intros [= <- _]. destruct (decide (errno = 104)) as [->|Hne]; [by intros [= <- _]|].
    intros Hr. assert (st' = Separated (rfk_base rs)) as ->; [|done].
    repeat match type of Hr with context [match ?x with _ => _ end] => destruct x; try done end; by injection Hr.
Qed.

Lemma clock_bind {B} (k : Z → ST (Config * W) ErrorKind B) s b s' :
  (t ← clock; k t) s = (Ok b, s') → ∃ t s1, lo ≤ t ≤ lo + DAY_MS ∧ k t s1 = (Ok b, s').
Proof.
  unfold mbind, ST_bind. destruct (clock s) as [[t|e|m] s1] eqn:Ht; [|done..]. intros Hk.
  exists t, s1. split; [by eapply clock_window|done].
Qed.

Lemma advance_one_step st s st' s' : advance_one st s = (Ok st', s') → good_step st st'.
Proof.
  destruct st as [m|b|a|r|r|b|]; cbn [advance_one].
  - intros (t & s1 & Ht & Hk)%clock_bind. destruct m as [[k kp ke] cert ce]. cbn in Hk |- *.
    unfold good_step, same_account. destruct (Z.ltb_spec ke t); [|destruct (Z.ltb_spec ce t)]; injection Hk as <- _; cbn.
    + split; [by auto|]. split; [done|]. right. split; [done|]. destruct (Z.leb_spec (lo + DAY_MS) ke), (Z.leb_spec (lo + DAY_MS) ce); lia.
    + split; [by auto|]. split; [left; lia|]. right. split; [done|]. destruct (Z.leb_spec (lo + DAY_MS) ke), (Z.leb_spec (lo + DAY_MS) ce); lia.
    + split; [by auto|]. split; [done|]. left. split; [done|]. lia.
  - unfold on_result. destruct (Config.world (key_pair 2048) s) as [[kp|e|m] s1]; [| |done].
    + intros (t & s2 & Ht & [= <- _])%clock_bind. split; [by split; auto|]. split; [left; cbn; unfold DAY_MS in *; lia|]. right. cbn. split; [done|].
      destruct (Z.leb_spec (lo + DAY_MS) (t + 30 * DAY_MS)); [lia|]. unfold DAY_MS in *. lia.
    + intros [= <- _]. split; [by split; auto|]. split; [done|]. right. cbn. split; [done|lia].
  - unfold on_result. destruct (sign _ _ s) as [[resp|e|m] s1]; [| |done].
    + intros (t & s2 & Ht & [= <- _])%clock_bind. split; [by split; auto|]. split; [done|]. right. cbn. split; [done|].
      destruct (Z.leb_spec (lo + DAY_MS) (t + DAY_MS)); [|lia]. destruct (Z.leb_spec (lo + DAY_MS) (key_pair_expires_at a)); lia.
    + intros He. assert (st' = CohabitingAfterKeyPair a ∨ st' = Separated (tk_base (token_and_keys a))) as [-> | ->].
      { destruct e; injection He as <- _; auto. }
      * split; [by split; auto|]. split; [by right|]. left. split; [done|by right].
      * split; [by split; auto|]. split; [done|]. right. cbn. split; [done|]. destruct (_ <=? _); lia.
  - intros Hr. by eapply (ready_step EngagedBeforeVerified); [left|].
  - intros Hr. by eapply (ready_step EngagedAfterVerified); [right|].
  - intros [= <- _]. split; [by split; auto|]. split; [done|]. by left.
  - intros [= <- _]. split; [by split; auto|]. split; [done|]. by left.
Qed.

Lemma fresh_trans st st1 st2 : key_pair_fresh lo st st1 → fresh lo st1 st2 → fresh lo st st2.
Proof. destruct st2; cbn; try done. intros Hkp [Hlo| ->]; [by left|exact Hkp]. Qed.

Lemma advance_loop_settles fuel st s : (rank (lo + DAY_MS) st ≤ fuel)%nat →
  ∃ r s', advance_loop fuel st s = Some (r, s') ∧ ∀ st', r = Ok st' → same_account st st' ∧ fresh lo st st'.
Proof.
  revert st s. induction fuel as [|fuel IH]; intros st s Hr.
  { exfalso. destruct st as [m| |a| | | |]; cbn in Hr; repeat case_match; lia. }
  cbn. destruct (advance_one st s) as [[st1|e|m] s1] eqn:Hst; [|by eexists _, _..].
  destruct (advance_one_step _ _ _ _ Hst) as (Hsame & Hkp & [[Hd Hf]|[Hd Hlt]]).
  - rewrite (proj2 (Nat.eqb_eq _ _) Hd). eexists _, _. split; [done|]. by intros st' [= <-].
  - rewrite (proj2 (Nat.eqb_neq _ _) Hd). destruct (IH st1 s1) as (r & s' & Hrun & Hok); [lia|]. exists r, s'. split; [done|].
    intros st' Heq. destruct (Hok st' Heq) as [[Hb Hs] Hf]. split; [|by eapply fresh_trans]. destruct Hsame as [Hb1 Hs1]. split; [congruence|].
    destruct Hs as [Hs|Hs]; [by left|]. destruct Hs1 as [Hs1|Hs1]; [left|right]; congruence.
Qed.

(** C10: whatever the servers answer, advancing the login state ends, if the clock does not move
    by more than a day meanwhile: after at most six steps.  The state it reaches is of the
    same account and has the same session or none; it is not one that waits for a key pair; if
    it is married, neither the key pair nor the certificate was expired when the machine
    began; and if it waits for a certificate, its key pair was not expired either, unless the
    machine began in that very state, which it keeps when the signing fails without a look at the expiry (see
    [expired_key_pair_is_kept]). *)
Theorem login_advance_settles st (s : Config * W) :
  ∃ r s', advance st s = Some (r, s') ∧ ∀ st', r = Ok st' → same_account st st' ∧ fresh lo st st'.
Proof. apply advance_loop_settles. destruct st as [m| |a| | | |]; cbn; repeat case_match; lia. Qed.
End settles.

Module ToyLogin.
Import ToyFxa ToyCrypto.
#[export] Instance toy_key_pairs : KeyPairs := {|
  RSABrowserIDKeyPair := string; kp_algo := λ _, "RS256"%string; kp_sign := λ _ b, Ok b; kp_public_json := λ k, Ok k |}.
(** The world counts the key pairs that were made; the clock stands still. *)
#[export] Instance toy_login_clock : Clock nat := λ w, (1000 * 1000000, w).
#[export] Instance toy_key_pair_rand : KeyPairRand nat := λ _ w, (Ok "pair"%string, S w).
#[export] Instance toy_login_hex : Hex := {| hex_encode := string_of_list_ascii; hex_decode := λ s, Ok (as_bytes s) |}.
#[export] Instance toy_browser_id : BrowserIDClient nat := {|
  keys := λ _ s, (Ok (mkKeysResponse (repeat "k"%char 32)), s); sign := λ _ _ s, (Ok (mkSignResponse "cert"), s) |}.
Definition toy_hkdf : Hkdf := λ key info n, Ok (repeat "d"%char n).
Definition failing_hkdf : Hkdf := λ _ _ _, Err "NSS"%string.

Definition credentials : WebChannelResponse :=
  mkWebChannelResponse "uid" "user@example.com" true "session" "fetch" "01234567890123456789012345678901".
Definition signed_in : LoginState :=
  EngagedAfterVerified (mkReadyForKeysState (mkBaseState "uid" "user@example.com") (as_bytes "session") (as_bytes "fetch")
    (as_bytes "01234567890123456789012345678901")).
Definition cfg : Config := Config.release "client" "redirect".
Definition is_married (st : LoginState) : bool := match st with Married _ => true | _ => false end.

(** A new sign-in gets its keys, a key pair and a certificate in one call. *)
Lemma login_advance_settles_witness :
  from_credentials credentials = Ok signed_in ∧
  ∃ st s', advance (HK:=toy_hkdf) signed_in (cfg, 0%nat) = Some (Ok st, s') ∧ is_married st = true ∧
    same_account signed_in st ∧ fresh 1000 signed_in st.
Proof.
  split; [reflexivity|].
  assert (Hclock : ∀ w : nat, 1000 ≤ fst (system_now w) / 1000000 ≤ 1000 + DAY_MS) by (intros w; vm_compute; split; discriminate).
  destruct (login_advance_settles (HK:=toy_hkdf) 1000 Hclock signed_in (cfg, 0%nat)) as (r & s' & Hrun & Hok).
  destruct r as [st|e|m]; [|vm_compute in Hrun; discriminate Hrun..].
  exists st, s'. split; [exact Hrun|]. split.
  - vm_compute in Hrun. injection Hrun as <- _. reflexivity.
  - exact (Hok st eq_refl).
Defined.

(** A state that waits for the certificate of a key pair that has expired stays as it is when
    the server cannot be reached. *)
Definition offline_browser_id : BrowserIDClient nat := {|
  keys := λ _ s, (Err (RequestError (NetworkError "offline")), s); sign := λ _ _ s, (Err (RequestError (NetworkError "offline")), s) |}.
Theorem expired_key_pair_is_kept keys :
  let waiting := CohabitingAfterKeyPair (mkTokenKeysAndKeyPairState keys "pair"%string 0) in
  advance (HK:=toy_hkdf) (BrowserIDClient0:=offline_browser_id) waiting (cfg, 0%nat) = Some (Ok waiting, (cfg, 0%nat)) ∧
  fst (system_now 0%nat) / 1000000 = 1000.
Proof. split; reflexivity. Qed.

(** An error of the machine signs the account out: the state is lost with its session. *)
Theorem failed_advance_forgets_session :
  get_sync_keys (HK:=failing_hkdf) signed_in (cfg, 0%nat) = Some (Err (CryptoError "NSS"), (Unknown, (cfg, 0%nat))) ∧
  session_token_from_state signed_in = Some (as_bytes "session") ∧ session_token_from_state Unknown = None.
Proof. vm_compute. split_and!; reflexivity. Qed.
End ToyLogin.
