(* ===== verification/FxaSpec.v ===== *)
(** * Firefox Accounts: theorems

    What the account of [FxaAccount] promises: OAuth flows are those of an abstract machine in
    which a verifier is exchanged at most once and only for its own state; access tokens are
    served from the cache while they are fresh; a tab that is sent to a device is the one the
    device receives; and the old persisted state keeps its newest refresh token. *)

From S2P Require Import Prelude Sync15Types KeyBundle Bso Viaduct Token PushCrypto FxaConfig FxaClient FxaAccount.
From Stdlib Require Import Ascii String.
From stdpp Require Import strings list gmap pretty.
Import FxaErr.
Local Open Scope Z_scope.
Local Open Scope list_scope.

(** ** Calls that do not change what is observed of the state *)
Section keeps.
Context {S O : Type} (obs : S → O).
Definition keeps {E A} (c : ST S E A) : Prop := ∀ s, obs (snd (c s)) = obs s.
Lemma keeps_ret {E A} (a : A) : keeps (E:=E) (mret a).
Proof. done. Qed.
Lemma keeps_lift {E A} (r : res E A) : keeps (st_lift r).
Proof. done. Qed.
Lemma keeps_err {E A} (e : E) : keeps (A:=A) (st_err e).
Proof. done. Qed.
Lemma keeps_bind {E A B} (c : ST S E A) (k : A → ST S E B) : keeps c → (∀ a, keeps (k a)) → keeps (c ≫= k).
Proof.
  intros Hc Hk s. unfold mbind, ST_bind. pose proof (Hc s) as Hq. destruct (c s) as [[a| |] s1]; cbn in *; [|done..].
  by rewrite Hk.
Qed.
Lemma keeps_map_err {E F A} (f : E → F) (c : ST S E A) : keeps c → keeps (st_map_err f c).
Proof. intros Hc s. unfold st_map_err. pose proof (Hc s) as Hq. by destruct (c s). Qed.
End keeps.
Create HintDb keeps.
#[export] Hint Resolve keeps_ret keeps_lift keeps_err keeps_map_err : keeps.
Ltac keeps_step :=
  match goal with
  | |- ∀ _, _ => intro
  | |- keeps _ (mbind _ _) => apply keeps_bind
  | |- keeps _ (match ?x with _ => _ end) => destruct x
  | |- keeps _ (if ?x then _ else _) => destruct x
  | |- keeps _ (let _ := _ in _) => cbv zeta
  | |- keeps _ _ => solve [auto with keeps]
  end.
Ltac keeps_tac := repeat keeps_step.

(** ** The exchanges of codes for tokens, observed in the world

    [exchanges] is a view of the world that every call of the outside leaves as it is, except
    the request that exchanges an authorisation code with a verifier, which is added to it. *)
Class Exchanges `{!UrlLib, !FxaJson} (W : Type) `{!Http W, !Clock W, !Rand W, !Ring, !RingRand W, !Ece, !EceSend W, !FxAClient W} := {
  exchanges : W → list (string * string);
  send_quiet rq : keeps exchanges (send rq);
  clock_quiet w : exchanges (snd (system_now w)) = exchanges w;
  rand_quiet n : keeps exchanges (rand_fill n);
  ephemeral_quiet : keeps exchanges ephemeral_generate;
  ece_encrypt_quiet k s m : keeps exchanges (aes128gcm_encrypt k s m);
  ece_generate_quiet : keeps exchanges generate_keypair_and_auth_secret;
  refresh_quiet t l : keeps (exchanges ∘ snd) (oauth_token_with_refresh_token t l);
  destroy_quiet t : keeps (exchanges ∘ snd) (destroy_oauth_token t);
  profile_quiet t e : keeps (exchanges ∘ snd) (profile t e);
  pending_quiet t i l : keeps (exchanges ∘ snd) (pending_commands t i l);
  invoke_quiet t c d v : keeps (exchanges ∘ snd) (invoke_command t c d v);
  devices_quiet t : keeps (exchanges ∘ snd) (devices t);
  update_quiet t u : keeps (exchanges ∘ snd) (update_device t u);
  exchange_logged code v s : exchanges (snd (snd (oauth_token_with_code code v s))) = exchanges (snd s) ++ [(code, v)];
}.
#[export] Hint Resolve send_quiet rand_quiet ephemeral_quiet ece_encrypt_quiet ece_generate_quiet refresh_quiet destroy_quiet
  profile_quiet pending_quiet invoke_quiet devices_quiet update_quiet : keeps.

(** ** The abstract machine of OAuth flows *)
(** What a call did: began a flow with a state and a verifier, exchanged a code, or neither. *)
Inductive FlowEvent := Begun (st v : string) | Exchanged (code st v : string) | Neither.
Definition begun (e : FlowEvent) : option string := match e with Begun _ v => Some v | _ => None end.
Definition exchanged (e : FlowEvent) : option (string * string) := match e with Exchanged code _ v => Some (code, v) | _ => None end.

(** The calls of an account. *)
Inductive AccountCall :=
| CBeginPairing (pairing_url : string) (scopes : list string)
| CBeginOAuth (scopes : list string) (wants_keys : bool)
| CComplete (code st : string)
| CAccessToken (scope : string)
| CProfile (ignore_cache : bool)
| CManageAccount (entrypoint : string)
| CManageDevices (entrypoint : string)
| CConnectionSuccess
| CTokenServer
| CDevices
| CSetDeviceName (name : string)
| CClearDeviceName
| CSetPushSubscription (s : PushSubscription)
| CInitializeDevice (name : string) (type : DeviceType) (l : list Capability)
| CEnsureCapabilities
| CSendTab (target title url : string)
| CPollCommands
| CPushMessage (payload : string).
Definition begins (c : AccountCall) : bool := match c with CBeginPairing _ _ | CBeginOAuth _ _ => true | _ => false end.

Section flows.
Context (checks ios : bool) {W : Type}.
Context `{!UrlLib, !Http W, !UrlFragment, !FxaJson, !Clock W, !Rand W, !Base64Url, !Sha256, !Ring, !RingRand W, !HashOrder}.
Context `{!FromJson ClientConfigurationResponse, !FromJson OpenIdConfigurationResponse, !FxAClient W}.
Context `{!Ece, !EceSend W, !Hex, !Crypto, !SerdeJson, !Serde PublicSendTabKeys, !FromJson Value, !FromJson (list (string * Value)), !FromValue ScopedKey}.
Context `{!FromJson SendTabPayload, !ToJson SendTabPayload, !FromJson SendTabKeysPayload, !ToJson SendTabKeysPayload}.
Context `{!ToValue EncryptedSendTabPayload, !FromValue EncryptedSendTabPayload, !FromJson PrivateSendTabKeys, !ToJson PrivateSendTabKeys, !FromJson PushPayload}.
Context `{!Exchanges W}.
Abbreviation ACC := (ST (FirefoxAccount * W) ErrorKind).
Import FirefoxAccount.

(** A call, with the URL it returns if it is the beginning of a flow. *)
Definition done_with {A} (c : ACC A) : ACC (option string) := _ ← c; mret None.
Definition run_call (c : AccountCall) : ACC (option string) :=
  match c with
  | CBeginPairing u l => url ← begin_pairing_flow u l; mret (Some url)
  | CBeginOAuth l k => url ← begin_oauth_flow l k; mret (Some url)
  | CComplete code st => done_with (complete_oauth_flow code st)
  | CAccessToken s => done_with (get_access_token checks s)
  | CProfile b => done_with (get_profile checks b)
  | CManageAccount e => done_with (get_manage_account_url checks e)
  | CManageDevices e => done_with (get_manage_devices_url checks e)
  | CConnectionSuccess => done_with get_connection_success_url
  | CTokenServer => done_with get_token_server_endpoint_url
  | CDevices => done_with get_devices
  | CSetDeviceName n => done_with (set_device_name n)
  | CClearDeviceName => done_with clear_device_name
  | CSetPushSubscription s => done_with (set_push_subscription s)
  | CInitializeDevice n t l => done_with (initialize_device n t l)
  | CEnsureCapabilities => done_with ensure_capabilities
  | CSendTab d t u => done_with (send_tab d t u)
  | CPollCommands => done_with (poll_device_commands checks)
  | CPushMessage p => done_with (handle_push_message checks ios p)
  end.
(** A sequence of calls, whatever their results are. *)
Fixpoint run_account (cs : list AccountCall) (s : FirefoxAccount * W) : list (res ErrorKind (option string)) * (FirefoxAccount * W) :=
  match cs with
  | [] => ([], s)
  | c :: cs => let '(r, s) := run_call c s in let '(rs, s) := run_account cs s in (r :: rs, s)
  end.

(** The URL of a flow has its state and the challenge of its verifier. *)
Definition flow_url (url st v : string) : Prop :=
  ∃ u cid redirect scopes digest u', sha256 (as_bytes v) = Ok digest ∧ url = url_as_str u' ∧
    (let pairs := [("client_id", cid); ("redirect_uri", redirect); ("scope", scopes); ("state", st); ("code_challenge_method", "S256");
                   ("code_challenge", base64_encode_url digest); ("access_type", "offline")]%string in
     u' = url_append_pairs u pairs ∨ ∃ jwk, u' = url_append_pairs (url_append_pairs u pairs) [("keys_jwk"%string, jwk)]).

(** A step of the machine: its state has the verifiers of the flows that are open. *)
Inductive flow_step (p : gmap string string) : AccountCall → res ErrorKind (option string) → FlowEvent → gmap string string → Prop :=
| step_begin c url st v : begins c = true → flow_url url st v → flow_step p c (Ok (Some url)) (Begun st v) (<[st := v]> p)
| step_fails c r : begins c = true → is_ok r = false → flow_step p c r Neither p
| step_exchange code st v r : p !! st = Some v → flow_step p (CComplete code st) r (Exchanged code st v) (delete st p)
| step_unknown code st : p !! st = None → flow_step p (CComplete code st) (Err UnknownOAuthState) Neither p
| step_other c r : begins c = false → (∀ code st, c ≠ CComplete code st) → flow_step p c r Neither p.
Inductive flow_steps : gmap string string → list AccountCall → list (res ErrorKind (option string)) → list FlowEvent → gmap string string → Prop :=
| steps_nil p : flow_steps p [] [] [] p
| steps_cons p c r e p1 cs rs es p2 : flow_step p c r e p1 → flow_steps p1 cs rs es p2 → flow_steps p (c :: cs) (r :: rs) (e :: es) p2.

(** *** The calls that have nothing to do with flows *)
Abbreviation logged := (exchanges ∘ snd : Config * W → list (string * string)).
Definition flows_view (s : FirefoxAccount * W) : gmap string OAuthFlow * list (string * string) := (flow_store (fst s), exchanges (snd s)).

Lemma keeps_config_world {A} (c : ST W ErrorKind A) : keeps exchanges c → keeps logged (Config.world c).
Proof. intros Hc [cfg w]. unfold Config.world. pose proof (Hc w) as Hq. by destruct (c w). Qed.
Lemma keeps_config_get : keeps logged Config.get.
Proof. by intros [cfg w]. Qed.
Lemma keeps_set_remote rc : keeps logged (Config.set_remote rc).
Proof. by intros [cfg w]. Qed.
Hint Resolve keeps_config_world keeps_config_get keeps_set_remote : keeps.
Lemma keeps_fetch {T} `{!FromJson T} u : keeps logged (Config.fetch (T:=T) u).
Proof. unfold Config.fetch. keeps_tac. Qed.
Hint Resolve keeps_fetch : keeps.
Lemma keeps_remote_config : keeps logged Config.remote_config.
Proof. unfold Config.remote_config. keeps_tac. Qed.
Hint Resolve keeps_remote_config : keeps.
Lemma keeps_remote_url f : keeps logged (Config.remote_url f).
Proof. unfold Config.remote_url. keeps_tac. Qed.
Lemma keeps_content_url_path p : keeps logged (Config.content_url_path p).
Proof. unfold Config.content_url_path, Config.content_url. keeps_tac. Qed.
Hint Resolve keeps_remote_url keeps_content_url_path : keeps.

Lemma keeps_get : keeps flows_view get.
Proof. by intros [a w]. Qed.
Lemma keeps_modify f : (∀ a, flow_store (f a) = flow_store a) → keeps flows_view (modify f).
Proof. intros Hf [a w]. unfold flows_view. cbn. by rewrite Hf. Qed.
Lemma keeps_world {A} (c : ST W ErrorKind A) : keeps exchanges c → keeps flows_view (world c).
Proof. intros Hc [a w]. unfold world, flows_view. pose proof (Hc w) as Hq. destruct (c w). cbn in *. by rewrite Hq. Qed.
Lemma keeps_client {A} (c : ST (Config * W) ErrorKind A) : keeps logged c → keeps flows_view (client c).
Proof.
  intros Hc [a w]. unfold client, flows_view. pose proof (Hc (config (state a), w)) as Hq. destruct (c _) as [r [cfg w']]. cbn in *.
  by rewrite Hq.
Qed.
Lemma keeps_warn {A} (c : ACC A) : keeps flows_view c → keeps flows_view (warn c).
Proof. intros Hc s. unfold warn. pose proof (Hc s) as Hq. destruct (c s) as [r s']. by destruct r. Qed.
Hint Resolve keeps_get keeps_modify keeps_world keeps_client keeps_warn : keeps.

Lemma keeps_since_epoch {E} (f : res E Z) : keeps exchanges (since_epoch f).
Proof. intros w. unfold since_epoch. pose proof (clock_quiet w) as Hq. by destruct (system_now w). Qed.
Hint Resolve keeps_since_epoch : keeps.
Lemma keeps_now {E} : keeps exchanges (now (E:=E)).
Proof. unfold now. keeps_tac. Qed.
Lemma keeps_now_secs {E} : keeps exchanges (now_secs (E:=E)).
Proof. unfold now_secs. keeps_tac. Qed.
Lemma keeps_random n : keeps exchanges (random_base64_url_string n).
Proof. unfold random_base64_url_string. keeps_tac. Qed.
Lemma keeps_random_key : keeps exchanges with_random_key.
Proof. unfold with_random_key. keeps_tac. Qed.
Hint Resolve keeps_now keeps_now_secs keeps_random keeps_random_key : keeps.
Lemma keeps_get_refresh_token : keeps flows_view get_refresh_token.
Proof. unfold get_refresh_token. keeps_tac. Qed.
Lemma keeps_get_scoped_key s : keeps flows_view (get_scoped_key s).
Proof. unfold get_scoped_key. keeps_tac. Qed.
Hint Resolve keeps_get_refresh_token keeps_get_scoped_key : keeps.
Lemma keeps_cached_token s : keeps flows_view (cached_token s).
Proof. unfold cached_token. keeps_tac. Qed.
Hint Resolve keeps_cached_token : keeps.
Lemma keeps_get_access_token s : keeps flows_view (get_access_token checks s).
Proof. unfold get_access_token. keeps_tac. Qed.
Hint Resolve keeps_get_access_token : keeps.
Lemma keeps_get_profile b : keeps flows_view (get_profile checks b).
Proof. unfold get_profile. keeps_tac. Qed.
Hint Resolve keeps_get_profile : keeps.
Lemma keeps_get_devices : keeps flows_view get_devices.
Proof. unfold get_devices. keeps_tac. Qed.
Lemma keeps_do_update_device u : keeps flows_view (do_update_device u).
Proof. unfold do_update_device. keeps_tac. Qed.
Hint Resolve keeps_get_devices keeps_do_update_device : keeps.
Lemma keeps_add_identifiers u : keeps flows_view (add_account_identifiers_to_url checks u).
Proof. unfold add_account_identifiers_to_url. keeps_tac. Qed.
Hint Resolve keeps_add_identifiers : keeps.

Lemma keeps_encrypt_rand_iv key m : keeps exchanges (KeyBundle.encrypt_bytes_rand_iv key m).
Proof.
  intros w. unfold KeyBundle.encrypt_bytes_rand_iv. pose proof (rand_quiet 16 w) as Hq. by destruct (rand_fill 16 w) as [[]].
Qed.
Hint Resolve keeps_encrypt_rand_iv : keeps.
Lemma keeps_from_cleartext_payload key (k : PublicSendTabKeys) : keeps exchanges (EncryptedPayload.from_cleartext_payload key k).
Proof. unfold EncryptedPayload.from_cleartext_payload. keeps_tac. Qed.
Hint Resolve keeps_from_cleartext_payload : keeps.
Lemma keeps_as_command_data k sk : keeps exchanges (as_command_data k sk).
Proof. unfold as_command_data, PublicSendTabKeys_encrypt. keeps_tac. Qed.
Lemma keeps_keys_from_random : keeps exchanges PrivateSendTabKeys_from_random.
Proof. unfold PrivateSendTabKeys_from_random. keeps_tac. Qed.
Lemma keeps_build_send_command k d p : keeps exchanges (build_send_command k d p).
Proof. unfold build_send_command, SendTabPayload_encrypt. keeps_tac. Qed.
Hint Resolve keeps_as_command_data keeps_keys_from_random keeps_build_send_command : keeps.
Lemma keeps_generate_command_data : keeps flows_view generate_send_tab_command_data.
Proof. unfold generate_send_tab_command_data. keeps_tac. Qed.
Lemma keeps_send_tab d t u : keeps flows_view (send_tab d t u).
Proof. unfold send_tab, do_invoke_command. keeps_tac. Qed.
Hint Resolve keeps_generate_command_data keeps_send_tab : keeps.
Lemma keeps_capability_commands l m : keeps flows_view (capability_commands l m).
Proof. revert m. induction l as [|[] l IH]; intros m; cbn; keeps_tac. Qed.
Lemma keeps_register_capabilities l : keeps flows_view (register_capabilities l).
Proof. induction l as [|[] l IH]; cbn; unfold register_command; keeps_tac. Qed.
Hint Resolve keeps_capability_commands keeps_register_capabilities : keeps.

Lemma keeps_parse_command d l : keeps flows_view (parse_command d l).
Proof. unfold parse_command, handle_send_tab_command. keeps_tac. Qed.
Lemma keeps_parse_commands l ds : keeps flows_view (parse_commands l ds).
Proof.
  induction l as [|d l IH]; intros s; cbn; [done|]. pose proof (keeps_parse_command d ds s) as Hp.
  destruct (parse_command d ds s) as [[[sender tab]|e|m] s1]; cbn in Hp; [|by rewrite IH|done].
  rewrite <-Hp. revert s1 Hp. change (∀ s1, flows_view s1 = flows_view s →
    flows_view (snd ((events ← parse_commands l ds; mret (TabReceived sender tab :: events)) s1)) = flows_view s1).
  intros s1 _. apply keeps_bind; [exact IH|]. intros. apply keeps_ret.
Qed.
Hint Resolve keeps_parse_commands : keeps.
Lemma keeps_fetch_and_parse i l : keeps flows_view (fetch_and_parse_commands i l).
Proof. unfold fetch_and_parse_commands, parse_commands_messages. keeps_tac. Qed.
Hint Resolve keeps_fetch_and_parse : keeps.
Lemma keeps_handle_push_message p : keeps flows_view (handle_push_message checks ios p).
Proof. unfold handle_push_message, fetch_device_command, poll_device_commands. keeps_tac. Qed.
Hint Resolve keeps_handle_push_message : keeps.

Lemma keeps_store_scoped_keys l : keeps flows_view (store_scoped_keys l).
Proof. induction l as [|[scope key] l IH]; cbn; keeps_tac. Qed.
Hint Resolve keeps_store_scoped_keys : keeps.
Lemma keeps_handle_keys f j : keeps flows_view (handle_keys f j).
Proof. unfold handle_keys. keeps_tac. Qed.
Lemma keeps_replace_old_token t : keeps flows_view (replace_old_token t).
Proof. unfold replace_old_token, get_current_device, replace_device. keeps_tac. Qed.
Hint Resolve keeps_handle_keys keeps_replace_old_token : keeps.

(** A call that neither begins nor completes a flow. *)
Lemma keeps_other c : begins c = false → (∀ code st, c ≠ CComplete code st) → keeps flows_view (run_call c).
Proof.
  intros Hb Hc. destruct c; try done; [by exfalso; eapply Hc|..]; cbn [run_call]; unfold done_with, get_manage_account_url,
    get_manage_devices_url, get_connection_success_url, get_token_server_endpoint_url, Config.token_server_endpoint_url,
    set_device_name, clear_device_name, set_push_subscription, initialize_device, ensure_capabilities, poll_device_commands; keeps_tac.
Qed.

(** *** The calls of flows *)
Definition verifiers (s : FirefoxAccount * W) : gmap string string := code_verifier <$> flow_store (fst s).
(** A call failed and changed nothing, or began a flow. *)
Definition begin_outcome (s : FirefoxAccount * W) (r : res ErrorKind string) (s' : FirefoxAccount * W) : Prop :=
  (is_ok r = false ∧ flows_view s' = flows_view s) ∨
  (∃ url st v, r = Ok url ∧ flow_url url st v ∧ exchanges (snd s') = exchanges (snd s) ∧ verifiers s' = <[st := v]> (verifiers s)).
Definition begin_flow (c : ACC string) : Prop := ∀ s, begin_outcome s (fst (c s)) (snd (c s)).

Lemma begin_bind {A} (c : ACC A) (k : A → ACC string) : keeps flows_view c → (∀ a, begin_flow (k a)) → begin_flow (c ≫= k).
Proof.
  intros Hc Hk s. unfold mbind, ST_bind. pose proof (Hc s) as Hq. destruct (c s) as [[a|e|m] s1]; cbn in Hq; [|by left..].
  destruct (Hk a s1) as [[Hf Hv]|(url & st & v & Hr & Hu & He & Hv)].
  - left. split; [done|]. by rewrite Hv.
  - right. exists url, st, v. injection Hq as Hq1 Hq2. split_and!; [done..|by rewrite He|]. rewrite Hv. unfold verifiers. by rewrite Hq1.
Qed.
Lemma begin_err e : begin_flow (st_err e).
Proof. intros s. by left. Qed.
Lemma begin_lift {A} (r : res ErrorKind A) (k : A → ACC string) : (∀ a, r = Ok a → begin_flow (k a)) → begin_flow (st_lift r ≫= k).
Proof. intros Hk s. destruct r as [a|e|m]; [by apply Hk|by left..]. Qed.
Lemma begin_assoc {A B} (c : ACC A) (f : A → ACC B) (k : B → ACC string) :
  begin_flow (c ≫= λ x, f x ≫= k) → begin_flow ((c ≫= f) ≫= k).
Proof. intros Hc s. specialize (Hc s). unfold mbind, ST_bind in *. by destruct (c s) as [[]]. Qed.
Lemma begin_store (u : Url) st flow v : flow_url (url_as_str u) st v →
  begin_flow (_ ← modify (on_flow_store <[st := mkOAuthFlow _ flow v]>); mret (url_as_str u)).
Proof. intros Hu [a w]. right. exists (url_as_str u), st, v. split_and!; [done..|]. exact (fmap_insert code_verifier (flow_store a) st (mkOAuthFlow _ flow v)). Qed.

Lemma oauth_flow_begins url scopes k : begin_flow (oauth_flow url scopes k).
Proof.
  unfold oauth_flow. apply begin_bind; [by keeps_tac|]. intros st. apply begin_bind; [by keeps_tac|]. intros v.
  apply begin_lift. intros digest Hd. assert (Hsha : sha256 (as_bytes v) = Ok digest).
  { destruct (sha256 (as_bytes v)); [|done..]. by injection Hd as ->. }
  apply begin_bind; [by keeps_tac|]. intros self. cbv zeta. destruct k.
  - apply begin_assoc, begin_bind; [by keeps_tac|]. intros flow. apply begin_assoc, begin_lift. intros jwk _. apply begin_store.
    eexists _, _, _, _, digest, _. split_and!; [done..|]. right. by eexists.
  - apply begin_store. eexists _, _, _, _, digest, _. split_and!; [done..|]. by left.
Qed.
Lemma begin_pairing_begins u l : begin_flow (begin_pairing_flow u l).
Proof.
  unfold begin_pairing_flow. do 2 (apply begin_bind; [by keeps_tac|]; intros ?). destruct (negb _); [apply begin_err|apply oauth_flow_begins].
Qed.
Lemma begin_oauth_begins l k : begin_flow (begin_oauth_flow l k).
Proof.
  unfold begin_oauth_flow, Config.authorization_endpoint. do 2 (apply begin_bind; [by keeps_tac|]; intros ?). apply oauth_flow_begins.
Qed.

Lemma complete_unknown code st s : verifiers s !! st = None → complete_oauth_flow code st s = (Err UnknownOAuthState, s).
Proof.
  destruct s as [a w]. unfold verifiers. rewrite lookup_fmap. intros Hn. unfold complete_oauth_flow, mbind at 1, ST_bind. cbn.
  cbn in Hn. by destruct (flow_store a !! st).
Qed.
Lemma complete_exchanges code st v s : verifiers s !! st = Some v →
  let s' := snd (complete_oauth_flow code st s) in
  exchanges (snd s') = exchanges (snd s) ++ [(code, v)] ∧ verifiers s' = delete st (verifiers s).
Proof.
  destruct s as [a w]. unfold verifiers at 1. rewrite lookup_fmap. intros Hv. apply fmap_Some in Hv as (flow & Hf & ->).
  cut (flows_view (snd (complete_oauth_flow code st (a, w))) = (delete st (flow_store a), exchanges w ++ [(code, code_verifier flow)])).
  { intros Hs. injection Hs as Hs1 Hs2. cbv zeta. split; [done|]. unfold verifiers. rewrite Hs1. apply fmap_delete. }
  assert (Hlog := exchange_logged code (code_verifier flow) (config (state a), w)).
  unfold complete_oauth_flow. unfold mbind at 1, ST_bind at 1. cbn. cbn in Hf. rewrite Hf.
  unfold mbind at 1, ST_bind at 1. cbn. unfold mbind at 1, ST_bind at 1. unfold client at 1. cbn.
  destruct (oauth_token_with_code _ _ _) as [r [cfg w1]]. cbn in Hlog.
  destruct r as [resp|e|m]; [|unfold flows_view; cbn; by rewrite Hlog..].
  match goal with |- flows_view (snd (?c ?s)) = _ => assert (Hk : keeps flows_view c) by keeps_tac; rewrite (Hk s) end.
  unfold flows_view. cbn. by rewrite Hlog.
Qed.

(** One call is a step of the machine. *)
Lemma run_call_step c s : let '(r, s') := run_call c s in
  ∃ e, flow_step (verifiers s) c r e (verifiers s') ∧ exchanges (snd s') = exchanges (snd s) ++ option_list (exchanged e).
Proof.
  assert (Hsame : ∀ s', flows_view s' = flows_view s → verifiers s' = verifiers s ∧ exchanges (snd s') = exchanges (snd s) ++ []).
  { intros s' Hv. injection Hv as Hv1 Hv2. rewrite app_nil_r. unfold verifiers. by rewrite Hv1. }
  assert (Hbegin : ∀ b, begins c = true → run_call c = (url ← b; mret (Some url)) → begin_flow b →
    let '(r, s') := run_call c s in
    ∃ e, flow_step (verifiers s) c r e (verifiers s') ∧ exchanges (snd s') = exchanges (snd s) ++ option_list (exchanged e)).
  { intros b Hc Hrun Hb. rewrite Hrun. unfold mbind, ST_bind. specialize (Hb s). destruct (b s) as [r s1]. cbn in Hb.
    destruct Hb as [[Hr Hv]|(url & st & v & -> & Hu & He & Hv)].
    - destruct (Hsame _ Hv) as [Hv1 Hv2]. destruct r; [done|..]; rewrite Hv1; (exists Neither; split; [by apply step_fails|done]).
    - exists (Begun st v). cbn. rewrite Hv, app_nil_r. split; [by apply step_begin|done]. }
  destruct (begins c) eqn:Hc.
  { destruct c; try done; (eapply Hbegin; [done..|]); [apply begin_pairing_begins|apply begin_oauth_begins]. }
  assert ((∃ code st, c = CComplete code st) ∨ (∀ code st, c ≠ CComplete code st)) as [(code & st & ->)|Hother].
  { destruct c; try (by right); left; eauto. }
  - cbn [run_call]. unfold done_with, mbind, ST_bind. destruct (verifiers s !! st) as [v|] eqn:Hst.
    + destruct (complete_exchanges code st v s Hst) as [He Hv]. destruct (complete_oauth_flow code st s) as [r s1]. cbn in He, Hv.
      destruct r; (exists (Exchanged code st v); cbn; rewrite Hv; split; [by apply step_exchange|done]).
    + rewrite complete_unknown by done. exists Neither. cbn. rewrite app_nil_r. split; [by apply step_unknown|done].
  - pose proof (keeps_other c Hc Hother s) as Hv. destruct (run_call c s) as [r s1]. cbn [snd] in Hv. destruct (Hsame _ Hv) as [Hv1 Hv2].
    exists Neither. cbn. rewrite Hv1. split; [by apply step_other|done].
Qed.

(** *** What the machine guarantees *)
Definition open_verifiers (p : gmap string string) : list string := snd <$> map_to_list p.
Lemma open_insert st v p : open_verifiers (<[st := v]> p) ⊆+ v :: open_verifiers p.
Proof.
  unfold open_verifiers. destruct (p !! st) as [v0|] eqn:Hp.
  - rewrite <-insert_delete_eq, map_to_list_insert by apply lookup_delete_eq. cbn. apply submseteq_skip.
    rewrite <-(map_to_list_delete p st v0) by done. cbn. by apply submseteq_cons.
  - by rewrite map_to_list_insert.
Qed.
Lemma machine_exchanges_once p cs rs es p' : flow_steps p cs rs es p' →
  (snd <$> omap exchanged es) ++ open_verifiers p' ⊆+ open_verifiers p ++ omap begun es.
Proof.
  induction 1 as [p|p c r e p1 cs rs es p2 Hstep _ IH]; [by rewrite app_nil_r|].
  destruct Hstep as [c url st v _ _|c r _ _|code st v r Hst|code st _|c r _ _]; cbn; [|exact IH| |exact IH..].
  - etrans; [exact IH|]. etrans; [apply submseteq_app; [apply (open_insert st v p)|done]|]. cbn.
    by rewrite Permutation_middle.
  - etrans; [apply submseteq_skip, IH|]. rewrite app_comm_cons. apply submseteq_app; [|done]. unfold open_verifiers.
    by rewrite <-(map_to_list_delete p st v).
Qed.

(** C7: whatever is called, and however the servers and the requests fail, the account's OAuth
    flows are those of a machine that keeps the verifiers of the open flows.  A beginning that
    succeeds opens a flow, and its URL has the state and the SHA-256 challenge of the verifier;
    completing a flow exchanges the code with the verifier kept for that state, and
    closes the flow; for a state that is not open it fails without a request.  So every
    exchange uses a verifier of a flow that was open or was begun, each at most once. *)
Theorem oauth_flows_refine cs s : let '(rs, s') := run_account cs s in
  ∃ es, flow_steps (verifiers s) cs rs es (verifiers s') ∧ exchanges (snd s') = exchanges (snd s) ++ omap exchanged es ∧
    (snd <$> omap exchanged es) ⊆+ open_verifiers (verifiers s) ++ omap begun es.
Proof.
  assert (Hrun : let '(rs, s') := run_account cs s in
    ∃ es, flow_steps (verifiers s) cs rs es (verifiers s') ∧ exchanges (snd s') = exchanges (snd s) ++ omap exchanged es).
  { revert s. induction cs as [|c cs IH]; intros s; cbn; [exists []; split; [constructor|by rewrite app_nil_r]|].
    pose proof (run_call_step c s) as Hstep. destruct (run_call c s) as [r s1]. destruct Hstep as (e & Hstep & Hlog).
    specialize (IH s1). destruct (run_account cs s1) as [rs s2]. destruct IH as (es & Hsteps & Hlog2).
    exists (e :: es). split; [by econstructor|]. rewrite Hlog2, Hlog. cbn. destruct (exchanged e); cbn; by rewrite <-app_assoc. }
  destruct (run_account cs s) as [rs s']. destruct Hrun as (es & Hsteps & Hlog). exists es. split_and!; [done..|].
  etrans; [|by eapply machine_exchanges_once]. by apply submseteq_inserts_r.
Qed.
End flows.

(** ** Access tokens *)
Section access_tokens.
Context (checks : bool) {W : Type} `{!FxaJson, !Clock W, !Ring, !FxAClient W}.
Import FirefoxAccount.

(** [w] is the world after the lookup in the cache of [s], which has no token for the scope with
    more than a minute left. *)
Definition not_cached (scope : string) (s : FirefoxAccount * W) (w : W) : Prop :=
  match access_token_cache (fst s) !! scope with
  | None => w = snd s
  | Some old => ∃ t, now_secs (E:=ErrorKind) (snd s) = (Ok t, w) ∧ ati_expires_at old ≤ t + 60
  end.

(** The server granted a token of the account's refresh token for the scope, after the lookup; it
    expires the seconds of the reply after the reading of the clock that follows the reply, and it
    is all that the call changes beside what the client does. *)
Definition granted (scope : string) (s : FirefoxAccount * W) (info : AccessTokenInfo) (s' : FirefoxAccount * W) : Prop :=
  ∃ rt resp w a1 w1 t w2, refresh_token (state (fst s)) = Some rt ∧ scope ∈ rt_scopes rt ∧ not_cached scope s w ∧
    client (oauth_token_with_refresh_token (rt_token rt) [scope]) (fst s, w) = (Ok resp, (a1, w1)) ∧
    now_secs (E:=ErrorKind) w1 = (Ok t, w2) ∧ uadd (E:=ErrorKind) checks 64 t (expires_in resp) = Ok (ati_expires_at info) ∧
    ati_token info = access_token resp ∧ ati_scope info = tr_scope resp ∧ ati_key info = scoped_keys (state a1) !! scope ∧
    s' = (on_token_cache <[scope := info]> a1, w2).

Lemma cached_token_run scope (a : FirefoxAccount) (w : W) info t w2 : access_token_cache a !! scope = Some info →
  now_secs (E:=ErrorKind) w = (Ok t, w2) → t + OAUTH_MIN_TIME_LEFT < ati_expires_at info →
  cached_token scope (a, w) = (Ok (Some info), (a, w2)).
Proof.
  intros Hc Ht Hlt. unfold cached_token. unfold mbind at 1, ST_bind at 1. cbn [get]. rewrite Hc. unfold mbind, ST_bind, world.
  rewrite Ht. by rewrite (proj2 (Z.ltb_lt _ _) Hlt).
Qed.
Lemma cached_token_inv scope (a : FirefoxAccount) (w : W) r s1 : cached_token scope (a, w) = (r, s1) →
  fst s1 = a ∧ match r with
               | Ok (Some info) => access_token_cache a !! scope = Some info ∧
                   ∃ t w2, now_secs (E:=ErrorKind) w = (Ok t, w2) ∧ t + OAUTH_MIN_TIME_LEFT < ati_expires_at info
               | Ok None => not_cached scope (a, w) (snd s1)
               | _ => True
               end.
Proof.
  unfold not_cached. cbn [fst snd]. unfold cached_token. unfold mbind at 1, ST_bind at 1. cbn [get]. destruct (access_token_cache a !! scope) as [i|]; [|by intros [= <- <-]].
  unfold mbind, ST_bind, world. destruct (now_secs w) as [[t|e|m] w2] eqn:Ht; intros [= <- <-]; [|done..]. split; [done|].
  destruct (Z.ltb_spec (t + OAUTH_MIN_TIME_LEFT) (ati_expires_at i)); [split; [done|]; by exists t, w2|].
  exists t. by split.
Qed.

(** C25: the access token that a call returns is one of the cache with more than a minute left,
    or the one the server granted for this scope, with the account's refresh token, which has
    the scope, and which then expires the seconds of the reply after the time at which it came; it is kept, and as long as more than a minute of it is left, asking for it again
    returns the same token without a request.  Without a token in the cache and a refresh token
    for the scope there is no request. *)
Theorem access_tokens_are_kept scope (s : FirefoxAccount * W) :
  (∀ info s', get_access_token checks scope s = (Ok info, s') →
     ((access_token_cache (fst s) !! scope = Some info ∧
       ∃ t w2, now_secs (E:=ErrorKind) (snd s) = (Ok t, w2) ∧ t + 60 < ati_expires_at info) ∨ granted scope s info s') ∧
     ∀ w t w2, now_secs (E:=ErrorKind) w = (Ok t, w2) → t + 60 < ati_expires_at info →
       get_access_token checks scope (fst s', w) = (Ok info, (fst s', w2))) ∧
  (access_token_cache (fst s) !! scope = None →
   (∀ rt, refresh_token (state (fst s)) = Some rt → scope ∉ rt_scopes rt) →
   get_access_token checks scope s = (Err (if has_space scope then MultipleScopesRequested else NoCachedToken scope), s)).
Proof.
  destruct s as [a w]. cbn [fst snd]. split.
  - intros info s'. unfold get_access_token at 1. destruct (has_space scope) eqn:Hsp; [done|].
    assert (Hagain : ∀ a', access_token_cache a' !! scope = Some info → ∀ w t w2, now_secs (E:=ErrorKind) w = (Ok t, w2) →
      t + 60 < ati_expires_at info → get_access_token checks scope (a', w) = (Ok info, (a', w2))).
    { intros a' Hc' w' t w2 Ht Hlt. unfold get_access_token. rewrite Hsp. unfold mbind at 1, ST_bind at 1.
      by rewrite (cached_token_run scope a' w' info t w2). }
    unfold mbind at 1, ST_bind at 1. destruct (cached_token scope (a, w)) as [r [a1 w1]] eqn:Hc.
    destruct (cached_token_inv _ _ _ _ _ Hc) as [Ha1 Hcase]. cbn in Ha1. subst a1. destruct r as [[i|]|e|m]; [| |done..].
    + intros [= <- <-]. destruct Hcase as [Hi Hfresh]. split; [by left|]. by apply Hagain.
    + unfold mbind at 1, ST_bind at 1. cbn [get]. destruct (refresh_token (state a)) as [rt|] eqn:Hrt; [|done].
      destruct (bool_decide_reflect (scope ∈ rt_scopes rt)) as [Hin|]; [|done].
      unfold mbind at 1, ST_bind at 1. destruct (client _ (a, w1)) as [[resp|e|m] [a2 w2]] eqn:Hcl; [|done..].
      unfold mbind at 1, ST_bind at 1, world, since_epoch. destruct (system_now w2) as [t w3] eqn:Hnow. destruct (t <? 0) eqn:Hneg; [done|].
      unfold mbind at 1, ST_bind at 1, st_lift. destruct (uadd checks 64 (t / NANOS) (expires_in resp)) as [ex|e|m] eqn:Hex; [|done..].
      intros [= <- <-]. split; [|apply Hagain; apply lookup_insert_eq]. right.
      exists rt, resp, w1, a2, w2, (t / NANOS), w3. split_and!; try done.
      unfold now_secs, mbind, ST_bind, since_epoch. by rewrite Hnow, Hneg.
  - intros Hnone Hrt. unfold get_access_token. destruct (has_space scope); [done|]. unfold cached_token, mbind, ST_bind. cbn.
    rewrite Hnone. cbn. destruct (refresh_token (state a)) as [rt|] eqn:Ha; [|done]. by rewrite bool_decide_eq_false_2 by auto.
Qed.
End access_tokens.

(** ** The first persisted format *)
Section migration.
Context `{!FxaJson, !FromJson (list (string * Value)), !FromValue ScopedKey}.
Implicit Types t : V1AuthInfo.

Lemma max_by_expiry_in best l : max_by_expiry best l = best ∨ max_by_expiry best l ∈ l.
Proof.
  revert best. induction l as [|t l IH]; intros best; cbn; [by left|].
  destruct (IH (if v1_expires_at best <=? v1_expires_at t then t else best)) as [->|Hin]; [|right; by right].
  destruct (_ <=? _); [right; by left|by left].
Qed.
Lemma max_by_expiry_max best l t : t = best ∨ t ∈ l → v1_expires_at t ≤ v1_expires_at (max_by_expiry best l).
Proof.
  revert best t. induction l as [|t1 l IH]; intros best t; cbn; [by intros [->|Hin%elem_of_nil]|].
  set (b := if v1_expires_at best <=? v1_expires_at t1 then t1 else best).
  assert (Hb : v1_expires_at best ≤ v1_expires_at b ∧ v1_expires_at t1 ≤ v1_expires_at b).
  { subst b. destruct (Z.leb_spec (v1_expires_at best) (v1_expires_at t1)); lia. }
  pose proof (IH b b (or_introl eq_refl)). intros [->|[->|Hin]%elem_of_cons]; [lia..|]. apply IH. by right.
Qed.

(** The keys that a text of keys contains. *)
Definition key_of (t : V1AuthInfo) (scope : string) (k : ScopedKey) : Prop :=
  ∃ text m v, v1_keys t = Some text ∧ from_slice (T:=list (string * Value)) (as_bytes text) = Ok m ∧ (scope, v) ∈ m ∧
    of_value (T:=ScopedKey) v = Ok k.
Lemma insert_keys_spec l all all' : insert_keys l all = Ok all' →
  (∀ scope k, all' !! scope = Some k → all !! scope = Some k ∨ ∃ v, (scope, v) ∈ l ∧ of_value (T:=ScopedKey) v = Ok k) ∧
  (∀ scope, is_Some (all !! scope) ∨ (∃ v, (scope, v) ∈ l) → is_Some (all' !! scope)).
Proof.
  revert all. induction l as [|[sc v] l IH]; intros all; cbn.
  { intros [= <-]. split; [by left|]. by intros scope [?|[v ?%elem_of_nil]]. }
  destruct (of_value v) as [k| |] eqn:Hk; [|done..]. cbn. intros [H1 H2]%IH. split.
  - intros scope k1 Hs. destruct (H1 _ _ Hs) as [Hi|(v1 & Hin & Hv)].
    + destruct (decide (sc = scope)) as [->|Hne]; [|rewrite lookup_insert_ne in Hi by done; by left].
      rewrite lookup_insert_eq in Hi. injection Hi as ->. right. exists v. split; [by left|done].
    + right. exists v1. split; [by right|done].
  - intros scope [Hs|[v1 [[= -> ->]|Hin]%elem_of_cons]]; apply H2.
    + left. destruct (decide (sc = scope)) as [->|Hne]; [rewrite lookup_insert_eq|rewrite lookup_insert_ne by done]; by eauto.
    + left. rewrite lookup_insert_eq. by eauto.
    + right. by eauto.
Qed.
Lemma collect_v1_spec l tokens keys tokens' keys' : collect_v1 l tokens keys = Ok (tokens', keys') →
  (∀ t, t ∈ tokens' ↔ t ∈ tokens ∨ (t ∈ l ∧ v1_refresh_token t ≠ None)) ∧
  (∀ scope k, keys' !! scope = Some k → keys !! scope = Some k ∨ ∃ t, t ∈ l ∧ key_of t scope k).
Proof.
  revert tokens keys. induction l as [|t l IH]; intros tokens keys; cbn.
  { intros [= <- <-]. split; [|by left]. intros t. split; [by left|]. by intros [?|[?%elem_of_nil _]]. }
  set (tokens1 := match v1_refresh_token t with Some _ => tokens ++ [t] | None => tokens end).
  assert (Htok : ∀ t', t' ∈ tokens1 ↔ t' ∈ tokens ∨ (t' = t ∧ v1_refresh_token t ≠ None)).
  { intros t'. subst tokens1. destruct (v1_refresh_token t); [rewrite elem_of_app, list_elem_of_singleton|]; naive_solver. }
  destruct (match v1_keys t with Some s => _ | None => _ end) as [keys1| |] eqn:Hk; [|done..]. cbn. intros [H1 H2]%IH. split.
  - intros t'. rewrite H1, Htok, elem_of_cons. naive_solver.
  - intros scope k Hs. destruct (H2 _ _ Hs) as [Hi|(t1 & Hin & Ht1)]; [|right; exists t1; split; [by right|done]].
    destruct (v1_keys t) as [text|] eqn:Htext; [|injection Hk as <-; by left].
    destruct (from_slice (as_bytes text)) as [m| |] eqn:Hm; [|done..]. cbn in Hk.
    destruct (proj1 (insert_keys_spec _ _ _ Hk) _ _ Hi) as [?|(v & Hv & Hval)]; [by left|].
    right. exists t. split; [by left|]. by exists text, m, v.
Qed.

(** A state of the first format is upgraded to one with the refresh token that expires last,
    with its scopes, of those in the old cache (or none if there is none), with keys that were in
    the old cache, and with the old configuration; the refresh token it looks for is there. *)
Theorem upgrade_keeps_newest_token (s : StateV1) :
  (∀ s2, upgrade_v1 s = Ok s2 →
     match refresh_token s2 with
     | Some rt => ∃ t, t ∈ oauth_cache s ∧ v1_refresh_token t = Some (rt_token rt) ∧ rt_scopes rt = list_to_set (v1_scopes t) ∧
                    ∀ t', t' ∈ oauth_cache s → v1_refresh_token t' ≠ None → v1_expires_at t' ≤ v1_expires_at t
     | None => ∀ t, t ∈ oauth_cache s → v1_refresh_token t = None
     end ∧
     (∀ scope k, scoped_keys s2 !! scope = Some k → ∃ t, t ∈ oauth_cache s ∧ key_of t scope k) ∧
     client_id (config s2) = v1_client_id s ∧ redirect_uri (config s2) = v1_redirect_uri s ∧
     rc_token_endpoint <$> cfg_remote_config (config s2) = Some (v1_token_endpoint (v1_config s))) ∧
  (∀ c, collect_v1 (oauth_cache s) [] ∅ = Ok c → ∃ s2, upgrade_v1 s = Ok s2).
Proof.
  unfold upgrade_v1. destruct (collect_v1 (oauth_cache s) [] ∅) as [[tokens keys]| |] eqn:Hc; cbn; [|by split..].
  destruct (collect_v1_spec _ _ _ _ _ Hc) as [Htok Hkeys].
  assert (Hk : ∀ scope k, keys !! scope = Some k → ∃ t, t ∈ oauth_cache s ∧ key_of t scope k).
  { intros scope k Hs. destruct (Hkeys _ _ Hs) as [Hi|?]; [by rewrite lookup_empty in Hi|done]. }
  destruct tokens as [|t l]; cbn.
  { split; [|by eauto]. intros s2 [= <-]. cbn. split; [|by auto]. intros t Ht.
    destruct (v1_refresh_token t) eqn:Hr; [|done]. exfalso. apply (proj1 (elem_of_nil t)), Htok. right. by rewrite Hr. }
  set (b := max_by_expiry t l). assert (Hb : b ∈ oauth_cache s ∧ v1_refresh_token b ≠ None).
  { assert (Hin : b ∈ t :: l) by (destruct (max_by_expiry_in t l) as [Heq|?]; [subst b; rewrite Heq; by left|by right]).
    apply Htok in Hin as [?%elem_of_nil|?]; done. }
  destruct (v1_refresh_token b) as [token|] eqn:Hr; [|by destruct Hb]. cbn. split; [|by eauto].
  intros s2 [= <-]. cbn. split; [|by auto]. exists b. split_and!; [apply Hb|done..|]. intros t' Ht' Hr'.
  apply max_by_expiry_max. apply elem_of_cons. apply Htok. by right.
Qed.
End migration.

(** ** Sending a tab *)
(** Documented behaviour of the libraries: what is written parses back, and what is encrypted to
    the public key of a pair and a secret decrypts with the pair and the secret. *)
Class SendTabLaws {W : Type} `{!Ece, !EceSend W, !Base64Url, !Hex, !SerdeJson, !Serde PublicSendTabKeys, !FxaJson}
    `{!FromJson SendTabPayload, !ToJson SendTabPayload, !FromJson SendTabKeysPayload, !ToJson SendTabKeysPayload}
    `{!ToValue EncryptedSendTabPayload, !FromValue EncryptedSendTabPayload, !FromJson PrivateSendTabKeys, !ToJson PrivateSendTabKeys} := {
  public_keys_serde (k : PublicSendTabKeys) s : to_string k = Ok s → Utf8.is_utf8 (as_bytes s) = true ∧ from_str s = Ok k;
  private_keys_json (k : PrivateSendTabKeys) s : to_json k = Ok s → from_slice (as_bytes s) = Ok k;
  keys_payload_json (k : SendTabKeysPayload) s : to_json k = Ok s → from_slice (as_bytes s) = Ok k;
  tab_payload_json (p : SendTabPayload) s : to_json p = Ok s → from_slice (as_bytes s) = Ok p;
  encrypted_tab_value (e : EncryptedSendTabPayload) v : into_value e = Ok v → of_value v = Ok e;
  base64url_round_trip b : base64_decode_url (base64_encode_url b) = Ok b;
  hex_round_trip b : hex_decode (hex_encode b) = Ok b;
  ece_round_trip kp pub secret m (w : W) c w' : kp_pub_as_raw kp = Ok pub → aes128gcm_encrypt pub secret m w = (Ok c, w') →
    aes128gcm_decrypt kp secret c = Ok m;
}.

Section send_tab.
Context {W : Type} `{!Ece, !EceSend W, !Base64Url, !Hex, !Crypto, !Rand W, !SerdeJson, !Serde PublicSendTabKeys, !FxaJson, !Ring}.
Context `{!FromJson SendTabPayload, !ToJson SendTabPayload, !FromJson SendTabKeysPayload, !ToJson SendTabKeysPayload}.
Context `{!ToValue EncryptedSendTabPayload, !FromValue EncryptedSendTabPayload, !FromJson PrivateSendTabKeys, !ToJson PrivateSendTabKeys}.
Context `{!EceLaws, !CryptoLaws, !SendTabLaws (W:=W)}.
Import FirefoxAccount.

Definition matching_keys (k : PrivateSendTabKeys) : Prop :=
  ∃ kp, kp_to_raw kp = psk_private_key k ∧ kp_pub_as_raw kp = Ok (psk_public_key k).
(** The keys that the account has stored for the command, if any, are those of a pair. *)
Definition stored_keys_ok (a : FirefoxAccount) : Prop :=
  ∀ s, commands_data (state a) !! COMMAND_NAME = Some s → ∃ k, from_slice (as_bytes s) = Ok k ∧ matching_keys k.

Lemma from_random_matches (w : W) k w' : PrivateSendTabKeys_from_random w = (Ok k, w') → matching_keys k.
Proof.
  unfold PrivateSendTabKeys_from_random, mbind, ST_bind, st_map_err, st_lift.
  destruct (generate_keypair_and_auth_secret w) as [[[kp secret]| |] w1]; cbn; [|done..].
  destruct (kp_pub_as_raw kp) as [pub| |] eqn:Hp; cbn; [|done..]. intros [= <- _]. by exists kp.
Qed.

(** After its command data is generated, the account has the keys that the data is made of. *)
Lemma generate_stores a (w : W) cmd a1 w1 : stored_keys_ok a → generate_send_tab_command_data (a, w) = (Ok cmd, (a1, w1)) →
  ∃ s k sk w0 w0', commands_data (state a1) !! COMMAND_NAME = Some s ∧ from_slice (as_bytes s) = Ok k ∧ matching_keys k ∧
    scoped_keys (state a) !! OLD_SYNC = Some sk ∧ as_command_data (PublicSendTabKeys_from k) sk w0 = (Ok cmd, w0').
Proof.
  intros Hok. unfold generate_send_tab_command_data. unfold mbind at 1, ST_bind at 1. cbn [get].
  assert (Hend : ∀ k a2 (w2 : W), scoped_keys (state a2) = scoped_keys (state a) →
    (oldsync_key ← get_scoped_key OLD_SYNC; world (as_command_data (PublicSendTabKeys_from k) oldsync_key)) (a2, w2) = (Ok cmd, (a1, w1)) →
    a1 = a2 ∧ ∃ sk w0 w0', scoped_keys (state a) !! OLD_SYNC = Some sk ∧ as_command_data (PublicSendTabKeys_from k) sk w0 = (Ok cmd, w0')).
  { intros k a2 w2 Hsk. unfold get_scoped_key, mbind, ST_bind. cbn. rewrite Hsk.
    destruct (scoped_keys (state a) !! OLD_SYNC) as [sk|]; cbn; [|done].
    destruct (as_command_data (PublicSendTabKeys_from k) sk w2) as [r w3] eqn:Hr. intros [= -> -> ->]. split; [done|]. by exists sk, w2, w1. }
  unfold mbind at 1, ST_bind at 1. destruct (commands_data (state a) !! COMMAND_NAME) as [s|] eqn:Hs.
  - destruct (Hok s Hs) as (k & Hk & Hm). unfold st_lift. rewrite Hk. cbn [map_err]. intros Hrun.
    destruct (Hend k a w eq_refl Hrun) as [-> (sk & w0 & w0' & Hsk & Hcmd)]. by exists s, k, sk, w0, w0'.
  - unfold mbind at 1, ST_bind at 1, world at 1.
    destruct (PrivateSendTabKeys_from_random w) as [[k| |] w2] eqn:Hk; [|done..].
    unfold mbind at 1, ST_bind at 1, st_lift. destruct (to_json k) as [s| |] eqn:Hj; cbn [map_err]; [|done..]. intros Hrun.
    destruct (Hend k (on_state (λ st, set_commands_data (<[COMMAND_NAME := s]> (commands_data st)) st) a) w2 eq_refl Hrun)
      as [-> (sk & w0 & w0' & Hsk & Hcmd)].
    exists s, k, sk, w0, w0'. split_and!; [apply lookup_insert_eq|by apply private_keys_json|by eapply from_random_matches|done..].
Qed.

(** Another device with the same key of the account reads the public keys in the command data. *)
Lemma command_data_read k sk (w : W) cmd w' : as_command_data k sk w = (Ok cmd, w') →
  ∃ bundle, from_slice (as_bytes cmd) = Ok bundle ∧ SendTabKeysPayload_decrypt bundle sk = Ok k.
Proof.
  unfold as_command_data, PublicSendTabKeys_encrypt, mbind, ST_bind, st_lift, st_map_err.
  destruct (extract_oldsync_key_components sk) as [[ksync kxcs]| |] eqn:Hc; [|done..].
  destruct (KeyBundle.from_ksync_bytes ksync) as [key| |] eqn:Hkey; cbn; [|done..].
  destruct (EncryptedPayload.from_cleartext_payload key k w) as [[ep| |] w1] eqn:Hep; cbn; [|done..].
  destruct (to_json _) as [s| |] eqn:Hj; cbn; [|done..]. intros [= -> ->].
  eexists. split; [by apply keys_payload_json|]. unfold SendTabKeysPayload_decrypt. rewrite Hc. cbn. rewrite hex_round_trip. cbn.
  rewrite bool_decide_eq_true_2 by done. cbn. rewrite Hkey. cbn. destruct ep as [iv hm ct]. cbn.
  by rewrite (encrypted_round_trip key k w (mkEncryptedPayload iv hm ct) w' (public_keys_serde k) Hep).
Qed.

(** What is encrypted to the public keys of a device, it decrypts. *)
Lemma tab_round_trip k p (w : W) e w' : matching_keys k → SendTabPayload_encrypt p (PublicSendTabKeys_from k) w = (Ok e, w') →
  EncryptedSendTabPayload_decrypt e k = Ok p.
Proof.
  intros (kp & Hraw & Hpub). unfold SendTabPayload_encrypt, mbind, ST_bind, st_lift, st_map_err.
  destruct (to_json p) as [s| |] eqn:Hj; cbn; [|done..]. unfold decode_url. rewrite !base64url_round_trip. cbn.
  destruct (aes128gcm_encrypt _ _ _ w) as [[c| |] w1] eqn:Hc; cbn; [|done..]. intros [= <- _].
  unfold EncryptedSendTabPayload_decrypt, decode_url. cbn. rewrite base64url_round_trip. cbn. rewrite <-Hraw, kp_new_raw. cbn.
  rewrite (ece_round_trip _ _ _ _ _ _ _ Hpub Hc). cbn. by rewrite (tab_payload_json _ _ Hj).
Qed.

(** C9: a tab that is sent arrives.  Let a device generate the data of its command, from the keys
    it has stored or from new ones, and let another device of the account, with the same
    sync key, see it: that device reads the first one's public keys in the data, and the
    command it builds for a tab is one that the first device reads as that tab, from that sender. *)
Theorem sent_tab_is_received a (w : W) cmd a1 w1 sk : stored_keys_ok a →
  generate_send_tab_command_data (a, w) = (Ok cmd, (a1, w1)) → scoped_keys (state a) !! OLD_SYNC = Some sk →
  (∃ bundle k, from_slice (as_bytes cmd) = Ok bundle ∧ SendTabKeysPayload_decrypt bundle sk = Ok (PublicSendTabKeys_from k) ∧
     matching_keys k) ∧
  stored_keys_ok a1 ∧
  ∀ target tab (w2 : W) v w3 sender (w4 : W), available_commands (dev_common target) !! COMMAND_NAME = Some cmd →
    build_send_command sk target tab w2 = (Ok v, w3) →
    handle_send_tab_command sender v (a1, w4) = (Ok (sender, tab), (a1, w4)).
Proof.
  intros Hok Hgen Hsk. destruct (generate_stores _ _ _ _ _ Hok Hgen) as (s & k & sk' & w0 & w0' & Hs & Hk & Hm & Hsk' & Hcmd).
  rewrite Hsk in Hsk'. injection Hsk' as <-. destruct (command_data_read _ _ _ _ _ Hcmd) as (bundle & Hb & Hdec).
  split_and!; [by exists bundle, k| |].
  - intros s' Hs'. rewrite Hs in Hs'. injection Hs' as <-. by exists k.
  - intros target tab w2 v w3 sender w4 Htarget. unfold build_send_command, mbind, ST_bind, st_lift.
    rewrite Htarget. cbn. rewrite Hb. cbn. rewrite Hdec.
    destruct (SendTabPayload_encrypt tab (PublicSendTabKeys_from k) w2) as [[e| |] w5] eqn:He; [|done..].
    destruct (into_value e) as [v'| |] eqn:Hv; cbn; [|done..]. intros [= -> _].
    unfold handle_send_tab_command, mbind, ST_bind. cbn. rewrite Hs. unfold st_lift. rewrite Hk. cbn.
    rewrite (encrypted_tab_value _ _ Hv). cbn. by rewrite (tab_round_trip _ _ _ _ _ Hm He).
Qed.
End send_tab.

(** ** Witnesses *)
Module ToyAccount.
Import ToyFxa ToyCrypto ToyEce FirefoxAccount.
(** The world: the codes that were exchanged, a counter for what is random, and the requests. *)
Record World := mkWorld { tw_exchanges : list (string * string); tw_count : nat; tw_log : list string }.
Definition log_request (s : string) (w : World) : World := mkWorld (tw_exchanges w) (tw_count w) (tw_log w ++ [s]).
Definition draw (w : World) : World := mkWorld (tw_exchanges w) (S (tw_count w)) (tw_log w).

#[export] Instance toy_account_urls : UrlLib := {|
  Url := string; url_parse := Ok; url_join := λ u s, Ok (u +:+ s); url_as_str := λ u, u; url_eqb := String.eqb; url_path := λ u, u;
  url_query := λ _, None; url_host_str := λ _, None; url_port_or_known_default := λ _, None; url_pop_segment := Some;
  url_extend_segments := λ u _, Some u; url_clear_query := λ u, u;
  url_append_pairs := λ u l, foldl (λ u '(k, v), u +:+ "&" +:+ k +:+ "=" +:+ v) u l |}%string.
#[export] Instance toy_fragments : UrlFragment := {| url_fragment := λ _, None; url_set_fragment := λ _ u, u |}.
#[export] Instance toy_account_http : Http World := λ rq w, (Err (NetworkError "offline"), w).
#[export] Instance toy_account_clock : Clock World := λ w, (1000 * NANOS, w).
#[export] Instance toy_account_rand : Rand World := λ n w, (Ok (repeat (ascii_of_nat (97 + tw_count w mod 26)) n), draw w).
#[export] Instance toy_ring : Ring := {|
  EphemeralPrivateKey := unit; compute_public_key := λ _, Ok (repeat (ascii_of_nat 4) 65); agree_ephemeral := λ _ b, Ok b;
  OpeningKey := bytes; opening_key_new := Ok; aes_256_gcm_open := λ _ _ _ c, Ok c |}.
#[export] Instance toy_ring_rand : RingRand World := λ w, (Ok tt, draw w).
#[export] Instance toy_hash_order : HashOrder := elements.
#[export] Instance toy_client_configuration : FromJson ClientConfigurationResponse := λ _, Err "json"%string.
#[export] Instance toy_openid_configuration : FromJson OpenIdConfigurationResponse := λ _, Err "json"%string.
#[export] Instance toy_hex : Hex := {| hex_encode := string_of_list_ascii; hex_decode := λ s, Ok (as_bytes s) |}.
#[export] Instance toy_account_ece : Ece := {|
  LocalKeyPair := Pair; kp_new := pair_new; kp_to_raw := λ k, proj1_sig k; kp_pub_as_raw := λ k, Ok (rev (proj1_sig k));
  kp_from_der := pair_new; AesGcmBlock := bytes; aesgcm_block_new := λ _ _ _ content, Ok content;
  aesgcm_decrypt := λ k auth block, Ok (rev block); aes128gcm_decrypt := λ k auth content, Ok (rev content);
  base64_decode_url := λ s, Ok (as_bytes s) |}.
#[export] Instance toy_account_ece_laws : EceLaws (H:=toy_account_ece).
Proof. split; [exact (@kp_new_raw toy_ece _)|exact (@kp_raw_new toy_ece _)|exact (@kp_raw_length toy_ece _)]. Qed.
#[export] Instance toy_ece_send : EceSend World := {|
  aes128gcm_encrypt := λ _ _ m w, (Ok (rev m), draw w);
  generate_keypair_and_auth_secret := λ w, (Ok (toy_pair, as_bytes "secret"), draw w) |}.

(** Records are written as their fields, separated; only those that read back are written. *)
Definition fields (sep : ascii) (b : bytes) : list bytes := split_on (Ascii.eqb sep) b.
Definition joined (sep : ascii) (l : list bytes) : string := join_with (String sep "") (string_of_list_ascii <$> l).
Definition checked {A} `{!EqDecision A} (sep : ascii) (write : A → list bytes) (read : list bytes → res string A) (a : A) : res string string :=
  let s := joined sep (write a) in
  if bool_decide (Utf8.is_utf8 (as_bytes s) = true ∧ read (fields sep (as_bytes s)) = Ok a) then Ok s else Err "not supported"%string.
Lemma checked_inv {A} `{!EqDecision A} sep write read (a : A) s : checked sep write read a = Ok s →
  Utf8.is_utf8 (as_bytes s) = true ∧ read (fields sep (as_bytes s)) = Ok a.
Proof. unfold checked. case_bool_decide as Hc; [|done]. by intros [= <-]. Qed.

#[export] Instance toy_public_eq : EqDecision PublicSendTabKeys.
Proof. solve_decision. Defined.
#[export] Instance toy_private_eq : EqDecision PrivateSendTabKeys.
Proof. solve_decision. Defined.
#[export] Instance toy_keys_payload_eq : EqDecision SendTabKeysPayload.
Proof. solve_decision. Defined.
#[export] Instance toy_entry_eq : EqDecision TabHistoryEntry.
Proof. solve_decision. Defined.
#[export] Instance toy_tab_eq : EqDecision SendTabPayload.
Proof. solve_decision. Defined.
Abbreviation str := string_of_list_ascii.
Definition bad {A} : res string A := Err "json"%string.

#[export] Instance toy_account_serde_json : SerdeJson := {|
  JsonValue := unit; json_string := λ _, tt; json_bool := λ _, tt; json_object := λ _, tt; json_int := λ _, tt;
  from_value_i32 := λ _, bad; from_value_u32 := λ _, bad |}.
Definition read_public (l : list bytes) : res string PublicSendTabKeys :=
  match l with [a; b] => Ok (mkPublicSendTabKeys (str a) (str b)) | _ => bad end.
#[export] Instance toy_public_serde : Serde PublicSendTabKeys := {|
  to_string := checked "," (λ k, [as_bytes (pub_public_key k); as_bytes (pub_auth_secret k)]) read_public;
  from_str := λ s, read_public (fields "," (as_bytes s)); to_value := λ _, Ok tt; from_value := λ _, bad |}.
Definition read_private (l : list bytes) : res string PrivateSendTabKeys :=
  match l with [a; b; c] => Ok (mkPrivateSendTabKeys a b c) | _ => bad end.
#[export] Instance toy_private_from : FromJson PrivateSendTabKeys := λ b, read_private (fields "|" b).
#[export] Instance toy_private_to : ToJson PrivateSendTabKeys :=
  checked "|" (λ k, [psk_public_key k; psk_private_key k; psk_auth_secret k]) read_private.
Definition read_keys_payload (l : list bytes) : res string SendTabKeysPayload :=
  match l with [a; b; c; d] => Ok (mkSendTabKeysPayload (str a) (str b) (str c) (str d)) | _ => bad end.
#[export] Instance toy_keys_payload_from : FromJson SendTabKeysPayload := λ b, read_keys_payload (fields "|" b).
#[export] Instance toy_keys_payload_to : ToJson SendTabKeysPayload :=
  checked "|" (λ k, as_bytes <$> [skp_kid k; skp_iv k; skp_hmac k; skp_ciphertext k]) read_keys_payload.
Definition read_tab (l : list bytes) : res string SendTabPayload :=
  match l with [a; b] => Ok (mkSendTabPayload [mkTabHistoryEntry (str a) (str b)]) | _ => bad end.
#[export] Instance toy_tab_from : FromJson SendTabPayload := λ b, read_tab (fields "|" b).
#[export] Instance toy_tab_to : ToJson SendTabPayload :=
  checked "|" (λ p, e ← entries p; [as_bytes (tab_title e); as_bytes (tab_url e)]) read_tab.
#[export] Instance toy_encrypted_to : ToValue EncryptedSendTabPayload := λ e, Ok (encrypted e).
#[export] Instance toy_encrypted_from : FromValue EncryptedSendTabPayload := λ v, Ok (mkEncryptedSendTabPayload v).
#[export] Instance toy_value : FromJson Value := λ b, Ok (str b).
#[export] Instance toy_values : FromJson (list (string * Value)) := λ b, Ok [(OLD_SYNC, str b)].
#[export] Instance toy_scoped_key : FromValue ScopedKey := λ v, Ok (mkScopedKey "oct" OLD_SYNC v "1-kid").
#[export] Instance toy_push_payload : FromJson PushPayload := λ _, bad.

Definition this_device : GetDeviceResponse :=
  mkGetDeviceResponse (mkDeviceResponseCommon "id" "phone" Mobile None ∅ false) true (mkDeviceLocation None None None None) None.
Definition answer {A} (log : string) (a : A) : ST (Config * World) ErrorKind A := λ '(c, w), (Ok a, (c, log_request log w)).
#[export] Instance toy_fxa_client : FxAClient World := {|
  oauth_token_with_code := λ code v '(c, w),
    (Ok (mkOAuthTokenResponse None (Some "new"%string) 3600 "profile" "access"),
     (c, mkWorld (tw_exchanges w ++ [(code, v)]) (tw_count w) (tw_log w)));
  oauth_token_with_refresh_token := λ t l, answer ("grant " +:+ t) (mkOAuthTokenResponse None None 3600 (join_with " " l) "granted");
  destroy_oauth_token := λ t, answer ("destroy " +:+ t) tt;
  profile := λ t _, answer ("profile " +:+ t) None;
  pending_commands := λ t _ _, answer ("commands " +:+ t) (mkPendingCommandsResponse 0 None []);
  invoke_command := λ t _ _ _, answer ("invoke " +:+ t) tt;
  devices := λ t, answer ("devices " +:+ t) [this_device];
  update_device := λ t _, answer ("update " +:+ t) (dev_common this_device);
|}%string.
#[export] Instance toy_exchanges : Exchanges World.
Proof.
  refine {| exchanges := tw_exchanges |}; try (intros; intros []; reflexivity); try (intros; intros w; reflexivity); try reflexivity.
  intros code v [c w]. reflexivity.
Defined.
#[export] Instance toy_send_tab_laws : SendTabLaws (W:=World).
Proof.
  split; try (intros ? s Hs; apply checked_inv in Hs; apply Hs).
  - by intros [e] v [= <-].
  - intros b. exact (f_equal Ok (list_ascii_of_string_of_list_ascii b)).
  - intros b. exact (f_equal Ok (list_ascii_of_string_of_list_ascii b)).
  - intros kp pub secret m w c w' _ [= <- _]. cbn. by rewrite rev_involutive.
Qed.

Definition cfg : Config := Config.init "content" "auth/" "oauth/" "profile/" "token/" "authorize" "issuer" "jwks" "token" "userinfo" "client" "redirect".
Definition oldsync : ScopedKey := mkScopedKey "oct" OLD_SYNC (str (repeat "s"%char 64)) "1-kid".
Definition account : FirefoxAccount :=
  from_state (mkStateV2 cfg (Some (mkRefreshToken "old" {["profile"%string]})) {[OLD_SYNC := oldsync]} None ∅ ∅).
Definition w0 : World := mkWorld [] 0 [].
Definition st_a : string := str (repeat "a"%char 16).
Definition v_b : string := str (repeat "b"%char 43).

(** A flow is begun, completed, and cannot be completed again. *)
Definition flow_calls : list AccountCall := [CBeginOAuth ["profile"%string] false; CComplete "code" st_a; CComplete "other" st_a].
Lemma oauth_flows_refine_witness :
  ∃ es, flow_steps ∅ flow_calls (fst (run_account true false flow_calls (account, w0))) es ∅ ∧ omap exchanged es = [("code"%string, v_b)] ∧
    [v_b] ⊆+ omap begun es.
Proof.
  pose proof (oauth_flows_refine true false flow_calls (account, w0)) as Hspec.
  destruct (run_account true false flow_calls (account, w0)) as [rs s'] eqn:Hrun. destruct Hspec as (es & Hsteps & Hlog & Hsub).
  assert (Hs : verifiers s' = ∅ ∧ exchanges (snd s') = [("code"%string, v_b)]) by (vm_compute in Hrun; injection Hrun as _ <-; split; reflexivity).
  destruct Hs as [Hs1 Hs2]. rewrite Hs1 in Hsteps. rewrite Hs2 in Hlog. cbn [snd w0 exchanges toy_exchanges tw_exchanges app] in Hlog.
  exists es. split; [exact Hsteps|]. split; [by symmetry|]. rewrite <-Hlog in Hsub. exact Hsub.
Defined.

Lemma access_tokens_are_kept_witness :
  ∃ info s', get_access_token true "profile" (account, w0) = (Ok info, s') ∧ ati_expires_at info = 4600 ∧
    get_access_token true "profile" (fst s', w0) = (Ok info, (fst s', w0)).
Proof.
  destruct (get_access_token true "profile" (account, w0)) as [[info|e|m] s'] eqn:Hrun; [|vm_compute in Hrun; discriminate Hrun..].
  assert (Hexp : ati_expires_at info = 4600) by (vm_compute in Hrun; by injection Hrun as <- _).
  exists info, s'. split; [done|]. split; [done|].
  destruct (proj1 (access_tokens_are_kept true "profile" (account, w0)) info s' Hrun) as [_ Hagain].
  apply (Hagain w0 1000 w0); [reflexivity|rewrite Hexp; lia].
Defined.

Definition old_token (t : string) (e : Z) : V1AuthInfo := mkV1AuthInfo "access" (Some "k"%string) (Some t) e ["profile"%string].
Definition old_state : StateV1 :=
  mkStateV1 "client" "redirect" (mkV1Config "content" "auth" "oauth" "profile" "token" "authorize" "issuer" "jwks" "token" "userinfo")
    [old_token "first" 10; old_token "second" 30; old_token "third" 20; mkV1AuthInfo "access" None None 40 []].
Lemma upgrade_keeps_newest_token_witness :
  ∃ s2, upgrade_v1 old_state = Ok s2 ∧ rt_token <$> refresh_token s2 = Some "second"%string ∧
    ∀ scope k, scoped_keys s2 !! scope = Some k → ∃ t, t ∈ oauth_cache old_state ∧ key_of t scope k.
Proof.
  destruct (collect_v1 (oauth_cache old_state) [] ∅) as [c|e|m] eqn:Hc; [|vm_compute in Hc; discriminate Hc..].
  destruct (proj2 (upgrade_keeps_newest_token old_state) c Hc) as [s2 Hs2]. exists s2. split; [exact Hs2|]. split.
  - vm_compute in Hs2. injection Hs2 as <-. reflexivity.
  - exact (proj1 (proj2 (proj1 (upgrade_keeps_newest_token old_state) s2 Hs2))).
Defined.

Definition tab : SendTabPayload := single_tab "Title" "https://example.com/".
Lemma sent_tab_is_received_witness :
  ∃ cmd s1 target v w3, generate_send_tab_command_data (account, w0) = (Ok cmd, s1) ∧
    build_send_command oldsync target tab w0 = (Ok v, w3) ∧ fst (handle_send_tab_command None v s1) = Ok (None, tab).
Proof.
  destruct (generate_send_tab_command_data (account, w0)) as [[cmd|e|m] [a1 w1]] eqn:Hgen; [|vm_compute in Hgen; discriminate Hgen..].
  set (target := mkGetDeviceResponse (mkDeviceResponseCommon "id" "phone" Mobile None {[COMMAND_NAME := cmd]} false) false
    (mkDeviceLocation None None None None) None).
  destruct (build_send_command oldsync target tab w0) as [[v|e|m] w3] eqn:Hsend;
    [|vm_compute in Hgen; injection Hgen as <- _ _; vm_compute in Hsend; discriminate Hsend..].
  exists cmd, (a1, w1), target, v, w3. split; [done|]. split; [done|].
  assert (Hok : stored_keys_ok account) by (intros s; discriminate).
  destruct (sent_tab_is_received account w0 cmd a1 w1 oldsync Hok Hgen eq_refl) as (_ & _ & Hrecv).
  by rewrite (Hrecv target tab w0 v w3 None w1 eq_refl Hsend).
Defined.

(** The device that goes with the old refresh token is registered again with that token, after it
    was destroyed. *)
Theorem device_restored_with_destroyed_token :
  let s1 := snd (begin_oauth_flow ["profile"%string] false (account, w0)) in
  let '(r, s2) := complete_oauth_flow "code" st_a s1 in
  r = Ok tt ∧ rt_token <$> refresh_token (state (fst s2)) = Some "new"%string ∧
  tw_log (snd s2) = ["destroy access"; "devices old"; "destroy old"; "update old"]%string.
Proof. vm_compute. split_and!; reflexivity. Qed.
End ToyAccount.
