(* ===== verification/Matcher.v ===== *)
(** * Autocomplete matching

    Model of [components/places/src/match_impl.rs], of the SQL function [autocomplete_match] of
    [db/db.rs], and of the results and [match_with_limit] of [api/matcher.rs], over arbitrary
    matchers: their queries are not modelled.  A [&str] is its UTF-8 bytes; the tables of Unicode
    and percent-decoding are parameters. *)

From S2P Require Import Prelude KeyBundle Viaduct PlacesTypes.
From Stdlib Require Import Ascii String.
From stdpp Require Import strings list.
Local Open Scope Z_scope.
Local Open Scope list_scope.

(** ** Code outside the repository *)
(** The first character of [char::to_lowercase], the folding of a character in [caseless], and
    [percent_decode(..).decode_utf8()]. *)
Class Unicode := {
  to_lowercase : Z → Z;
  default_case_fold : Z → list Z;
  percent_decode_utf8 : bytes → option string;
}.
(** What [test_casing_assumptions] of the source checks of all characters. *)
Class UnicodeLaws `{!Unicode} := {
  lower_ascii c : 0 ≤ c < 128 → to_lowercase c = if (65 <=? c) && (c <=? 90) then c + 32 else c;
  lower_char c : 0 ≤ c → 0 ≤ to_lowercase c;
  lower_to_ascii c : 128 ≤ c → to_lowercase c < 128 → (c = 304 ∧ to_lowercase c = 105) ∨ (c = 8490 ∧ to_lowercase c = 107);
}.

(** ** The standard library: bytes and characters of a [&str] *)
Definition byte (a : ascii) : Z := Z.of_nat (nat_of_ascii a).
(** The next code point and the bytes after it ([core::str::next_code_point]). *)
Definition next_char (b : bytes) : option (Z * bytes) :=
  match b with
  | [] => None
  | b1 :: r =>
      let x := byte b1 in
      if x <? 128 then Some (x, r)
      else
        let low a := Z.land (byte a) 63 in
        match r with
        | b2 :: r2 =>
            if x <? 224 then Some (Z.lor (Z.shiftl (Z.land x 31) 6) (low b2), r2)
            else
              match r2 with
              | b3 :: r3 =>
                  let yz := Z.lor (Z.shiftl (low b2) 6) (low b3) in
                  if x <? 240 then Some (Z.lor (Z.shiftl (Z.land x 15) 12) yz, r3)
                  else
                    match r3 with
                    | b4 :: r4 => Some (Z.lor (Z.shiftl (Z.land x 7) 18) (Z.lor (Z.shiftl yz 6) (low b4)), r4)
                    | [] => None
                    end
              | [] => None
              end
        | [] => None
        end
  end.
(** [str::chars]. *)
Fixpoint chars_from (fuel : nat) (b : bytes) : list Z :=
  match fuel with
  | O => []
  | S fuel => match next_char b with Some (c, r) => c :: chars_from fuel r | None => [] end
  end.
Definition chars (s : string) : list Z := chars_from (String.length s) (as_bytes s).
(** [&s[i..]]. *)
Definition slice_from {E} (s : string) (i : nat) : res E string :=
  if is_char_boundary s i then Ok (str_drop i s) else Panic "byte index is not a char boundary".
Definition starts_with (s prefix : string) : bool := String.prefix prefix s.

(** ** match_impl.rs *)
Definition MAX_CHARS_TO_SEARCH_THROUGH : nat := 255.
Inductive MatchBehavior := Anywhere | BoundaryAnywhere | Boundary | Beginning | AnywhereUnmodified | BeginningCaseSensitive.
#[export] Instance MatchBehavior_eq_dec : EqDecision MatchBehavior.
Proof. solve_decision. Defined.

(** [FromSql] and [ToSql]. *)
Definition MatchBehavior_column_result (value : Z) : option MatchBehavior :=
  match value with
  | 0 => Some Anywhere | 1 => Some BoundaryAnywhere | 2 => Some Boundary | 3 => Some Beginning | 4 => Some AnywhereUnmodified
  | 5 => Some BeginningCaseSensitive | _ => None
  end.
Definition MatchBehavior_to_sql (b : MatchBehavior) : Z :=
  match b with
  | Anywhere => 0 | BoundaryAnywhere => 1 | Boundary => 2 | Beginning => 3 | AnywhereUnmodified => 4 | BeginningCaseSensitive => 5
  end.

(** The flags. *)
Module SearchBehavior.
Definition HISTORY : Z := 1.
Definition BOOKMARK : Z := Z.shiftl 1 1.
Definition TAG : Z := Z.shiftl 1 2.
Definition TITLE : Z := Z.shiftl 1 3.
Definition URL : Z := Z.shiftl 1 4.
Definition TYPED : Z := Z.shiftl 1 5.
Definition JAVASCRIPT : Z := Z.shiftl 1 6.
Definition OPENPAGE : Z := Z.shiftl 1 7.
Definition RESTRICT : Z := Z.shiftl 1 8.
Definition SEARCHES : Z := Z.shiftl 1 9.
Definition all : Z := 1023.
Definition intersects (a b : Z) : bool := negb (Z.land a b =? 0).
Definition default : Z := Z.lor (Z.lor (Z.lor HISTORY BOOKMARK) OPENPAGE) SEARCHES.
(** [all() & !RESTRICT]; the complement is taken in the flags. *)
Definition any : Z := Z.land all (Z.land all (Z.lnot RESTRICT)).
Definition column_result (bits : Z) : option Z := if (0 <=? bits) && (Z.land bits (Z.lnot all) =? 0) then Some bits else None.
End SearchBehavior.

Definition dubious_to_ascii_lower (c : Z) : Z := Z.lor c 32.
Definition is_ascii_lower_alpha (c : Z) : bool := (wrap 8 (c - 97)) <=? (122 - 97).

(** The loops: the index of the first byte that passes a test. *)
Definition next_search_candidate (to_search : string) (search_for : Z) : option nat :=
  if search_for <? 128 then
    let target := dubious_to_ascii_lower search_for in
    let special := if target =? 105 then 196 else if target =? 107 then 226 else 255 in
    position (λ cur, (dubious_to_ascii_lower (byte cur) =? target) || (byte cur =? special)) (as_bytes to_search)
  else position (λ cur, negb (Z.land (byte cur) 128 =? 0)) (as_bytes to_search).

(** [bytes[index]]; the index is within the text. *)
Definition byte_at {E} (text : string) (index : nat) : res E Z :=
  match as_bytes text !! index with Some c => Ok (byte c) | None => Panic "index out of bounds" end.
Definition is_on_boundary {E} (text : string) (index : nat) : res E bool :=
  if Nat.eqb index 0 then Ok true
  else
    cur ← byte_at text index;
    if is_ascii_lower_alpha cur then
      prev ← byte_at text (index - 1);
      Ok (negb (is_ascii_lower_alpha (dubious_to_ascii_lower prev)))
    else Ok true.

Section matching.
Context `{!Unicode} {E : Type}.
Abbreviation R := (res E).

(** The loop over two iterators. *)
Fixpoint folded_prefix (ti si : list Z) : bool :=
  match ti, si with
  | [], _ => true
  | _ :: _, [] => false
  | x :: ti, y :: si => (x =? y) && folded_prefix ti si
  end.
Definition case_fold (s : string) : list Z := c ← chars s; default_case_fold c.
Definition string_match (token source : string) : bool :=
  if Nat.ltb (len_str source) (len_str token) then false
  else folded_prefix (case_fold token) (case_fold source).

Definition next_codepoint_lower (s : string) : R (Z * nat) :=
  match next_char (as_bytes s) with
  | Some (c, r) => Ok (to_lowercase c, (len_str s - List.length r)%nat)
  | None => Panic "called `Option::unwrap()` on a `None` value"
  end.

(** The loop; [None] is out of fuel. *)
Fixpoint find_loop (fuel : nat) (token src : string) (only_boundary : bool) (token_first_char : Z) (cur_offset : nat)
    : option (R bool) :=
  match fuel with
  | O => None
  | S fuel =>
      match slice_from (E:=E) src cur_offset with
      | Ok rest =>
          match next_search_candidate rest token_first_char with
          | None => Some (Ok false)
          | Some src_idx =>
              if Nat.leb (len_str src) (cur_offset + src_idx) then Some (Ok false)
              else
                let cur_offset := (cur_offset + src_idx)%nat in
                let step :=
                  src_cur ← slice_from src cur_offset;
                  '(src_next_char, next_offset_in_cur) ← next_codepoint_lower src_cur;
                  hit ← (if src_next_char =? token_first_char then
                           on ← (if only_boundary then is_on_boundary src cur_offset else Ok true);
                           Ok (on && string_match token src_cur)
                         else Ok false);
                  Ok (hit, next_offset_in_cur) in
                match step with
                | Ok (true, _) => Some (Ok true)
                | Ok (false, next) => find_loop fuel token src only_boundary token_first_char (cur_offset + next)
                | Err e => Some (Err e)
                | Panic m => Some (Panic m)
                end
          end
      | Err e => Some (Err e)
      | Panic m => Some (Panic m)
      end
  end.
Definition OUT_OF_FUEL : string := "out of fuel".
Definition find_in_string (token src : string) (only_boundary : bool) : R bool :=
  _ ← rassert (negb (String.eqb token "")) "Don't search for an empty string";
  if Nat.ltb (len_str src) (len_str token) then Ok false
  else
    '(token_first_char, _) ← next_codepoint_lower token;
    default (Panic OUT_OF_FUEL) (find_loop (S (len_str src)) token src only_boundary token_first_char 0).

Definition EMPTY_TOKEN : string := "Don't search for an empty token".
Definition find_anywhere (token source : string) : R bool :=
  _ ← rassert (negb (String.eqb token "")) EMPTY_TOKEN; find_in_string token source false.
Definition find_on_boundary (token source : string) : R bool :=
  _ ← rassert (negb (String.eqb token "")) EMPTY_TOKEN; find_in_string token source true.
Definition find_beginning (token source : string) : R bool :=
  _ ← rassert (negb (String.eqb token "")) EMPTY_TOKEN; Ok (string_match token source).
Definition find_beginning_case_sensitive (token source : string) : R bool :=
  _ ← rassert (negb (String.eqb token "")) EMPTY_TOKEN; Ok (starts_with source token).
End matching.

Record AutocompleteMatch := mkAutocompleteMatch {
  search_str : string; url_str : string; title_str : string; am_tags : string; am_visit_count : Z; am_typed : bool;
  am_bookmarked : bool; open_page_count : Z; match_behavior : MatchBehavior; search_behavior : Z }.

(** [str::split_ascii_whitespace]. *)
Fixpoint words_from (cur : bytes) (b : bytes) : list string :=
  let word := match cur with [] => [] | _ => [string_of_list_ascii (rev cur)] end in
  match b with
  | [] => word
  | c :: b => if is_ascii_whitespace c then word ++ words_from [] b else words_from (c :: cur) b
  end.
Definition split_ascii_whitespace (s : string) : list string := words_from [] (as_bytes s).

Module AutocompleteMatch.
Section autocomplete_match.
Context `{!Unicode} {E : Type}.
Abbreviation R := (res E).
Implicit Types self : AutocompleteMatch.

Definition get_search_fn self : string → string → R bool :=
  match match_behavior self with
  | Anywhere | AnywhereUnmodified => find_anywhere
  | Beginning => find_beginning
  | BeginningCaseSensitive => find_beginning_case_sensitive
  | _ => find_on_boundary
  end.

Definition strip_scheme (s : string) : string :=
  if starts_with s "http://" then str_drop 7 s
  else if starts_with s "https://" then str_drop 8 s
  else if starts_with s "ftp://" then str_drop 6 s
  else s.
Definition fixup_url_str self (s : string) : string :=
  let s := if bool_decide (match_behavior self = AnywhereUnmodified) then s else strip_scheme s in
  match find_byte (Ascii.eqb "%") s with
  | None => s
  | Some _ => default s (percent_decode_utf8 (as_bytes s))
  end.

Definition has_behavior self (behavior : Z) : bool := SearchBehavior.intersects (search_behavior self) behavior.

(** [a || b] and [a && b] on calls that may panic. *)
Definition or_else (a b : R bool) : R bool := x ← a; if (x : bool) then Ok true else b.
Definition and_then (a b : R bool) : R bool := x ← a; if (x : bool) then b else Ok false.

(** Whether the page is of a kind that is searched for. *)
Definition kind_matches self : bool :=
  let has := has_behavior self in
  if has SearchBehavior.RESTRICT then
    (negb (has SearchBehavior.HISTORY) || (0 <? am_visit_count self))
    && (negb (has SearchBehavior.TYPED) || am_typed self)
    && (negb (has SearchBehavior.BOOKMARK) || am_bookmarked self)
    && (negb (has SearchBehavior.TAG) || negb (String.eqb (am_tags self) ""))
    && (negb (has SearchBehavior.OPENPAGE) || (0 <? open_page_count self))
  else
    (has SearchBehavior.HISTORY && (0 <? am_visit_count self))
    || (has SearchBehavior.TYPED && am_typed self)
    || (has SearchBehavior.BOOKMARK && am_bookmarked self)
    || (has SearchBehavior.TAG && negb (String.eqb (am_tags self) ""))
    || (has SearchBehavior.OPENPAGE && (0 <? open_page_count self)).
Definition token_matches self (trimmed_url trimmed_title token : string) : R bool :=
  let search_fn := get_search_fn self in
  match has_behavior self SearchBehavior.TITLE, has_behavior self SearchBehavior.URL with
  | true, true => and_then (or_else (search_fn token trimmed_title) (search_fn token (am_tags self))) (search_fn token trimmed_url)
  | true, false => or_else (search_fn token trimmed_title) (search_fn token (am_tags self))
  | false, true => search_fn token trimmed_url
  | false, false =>
      or_else (or_else (search_fn token trimmed_url) (search_fn token trimmed_title)) (search_fn token (am_tags self))
  end.
Fixpoint all_match self (trimmed_url trimmed_title : string) (tokens : list string) : R bool :=
  match tokens with
  | [] => Ok true
  | token :: tokens => and_then (token_matches self trimmed_url trimmed_title token) (all_match self trimmed_url trimmed_title tokens)
  end.
Definition invoke self : R bool :=
  if bool_decide (match_behavior self = AnywhereUnmodified) && starts_with (url_str self) "javascript:"
     && negb (has_behavior self SearchBehavior.JAVASCRIPT) && negb (starts_with (search_str self) "javascript:")
  then Ok false
  else if negb (kind_matches self) then Ok false
  else
    let fixed_url := fixup_url_str self (url_str self) in
    trimmed_url ← slice_up_to fixed_url MAX_CHARS_TO_SEARCH_THROUGH;
    trimmed_title ← slice_up_to (title_str self) MAX_CHARS_TO_SEARCH_THROUGH;
    all_match self trimmed_url trimmed_title (split_ascii_whitespace (search_str self)).
End autocomplete_match.
End AutocompleteMatch.

(** db/db.rs: the SQL function, on arguments of the types of its columns. *)
Definition autocomplete_match `{!Unicode} {E} (bad_behavior : E) (search_str url_str : string) (title tags : option string) (visit_count : Z)
    (typed bookmarked : bool) (open_count : option Z) (match_behavior search_behavior : Z) : res E bool :=
  match_behavior ← ok_or bad_behavior (MatchBehavior_column_result match_behavior);
  search_behavior ← ok_or bad_behavior (SearchBehavior.column_result search_behavior);
  AutocompleteMatch.invoke (mkAutocompleteMatch search_str url_str (default ""%string title) (default ""%string tags) visit_count typed
    bookmarked (default 0 open_count) match_behavior search_behavior).

(** ** api/matcher.rs *)
Inductive MatchReason := Keyword | Origin | UrlReason | PreviousUse | Bookmark | Tags (tags : string).
Record SearchResult `{!UrlLib} := mkSearchResult {
  sr_search_string : string; sr_url : Url; sr_title : string; icon_url : option Url; sr_frecency : Z; reasons : list MatchReason }.
(** The columns of the rows of the four queries. *)
Record MatchRow := mkMatchRow {
  mr_search_string : string; mr_url : string; mr_title : option string; mr_bookmarked : bool; mr_btitle : option string;
  mr_frecency : Z; mr_tags : option string; mr_display_url : string; mr_stripped_url : string }.

(** [str::find] for a string. *)
Fixpoint find_bytes (needle hay : bytes) : option nat :=
  if bool_decide (take (List.length needle) hay = needle) then Some 0%nat
  else match hay with [] => None | _ :: hay => S <$> find_bytes needle hay end.

Module SearchResult.
Section search_result.
Context `{!UrlLib} {E : Type}.
Abbreviation R := (res E).
Definition parse (msg s : string) : R Url := match url_parse s with Ok u => Ok u | Err _ => Panic msg | Panic m => Panic m end.
Definition INVALID : string := "Invalid URL in Places".
Definition some_title (row : MatchRow) : string :=
  default ""%string (match mr_btitle row with Some t => Some t | None => mr_title row end).
Definition tag_reasons (row : MatchRow) : list MatchReason := match mr_tags row with Some t => [Tags t] | None => [] end.

Definition from_adaptive_row (row : MatchRow) : R SearchResult :=
  url ← parse INVALID (mr_url row);
  Ok (mkSearchResult _ (mr_search_string row) url (some_title row) None (mr_frecency row)
        ([PreviousUse] ++ tag_reasons row ++ (if mr_bookmarked row then [Bookmark] else []))).
Definition from_suggestion_row (row : MatchRow) : R SearchResult :=
  url ← parse INVALID (mr_url row);
  Ok (mkSearchResult _ (mr_search_string row) url (some_title row) None (mr_frecency row) ([Bookmark] ++ tag_reasons row)).
Definition from_origin_row (row : MatchRow) : R SearchResult :=
  url ← parse INVALID (mr_url row);
  Ok (mkSearchResult _ (mr_search_string row) url (mr_display_url row) None (mr_frecency row) [Origin]).
(** The text from the stripped URL to the next slash after it, and what is before. *)
Definition suggested (href stripped_url : string) : option (string * string) :=
  match find_bytes (as_bytes stripped_url) (as_bytes href) with
  | Some i =>
      let from := str_drop i href in
      let title := match find_byte (Ascii.eqb "/") (str_drop (len_str stripped_url) from) with
                   | Some slash => str_take (len_str stripped_url + slash + 1) from
                   | None => from
                   end in
      Some (str_take i href, title)
  | None => None
  end.
Definition from_url_row (row : MatchRow) : R SearchResult :=
  let reasons := UrlReason :: (if mr_bookmarked row then [Bookmark] else []) in
  '(url, display_url) ← match suggested (mr_url row) (mr_stripped_url row) with
                        | Some (stripped_prefix, title) =>
                            url ← parse "Malformed suggested URL" (stripped_prefix +:+ title); Ok (url, title)
                        | None => url ← parse INVALID (mr_url row); Ok (url, mr_stripped_url row)
                        end;
  Ok (mkSearchResult _ (mr_search_string row) url display_url None (mr_frecency row) reasons).
End search_result.
End SearchResult.

(** [match_with_limit], over what the matchers do with a limit; [check] is [err_if_interrupted]. *)
Section limit.
Context {W E A : Type} (check : ST W E unit).
Fixpoint match_loop (matchers : list (Z → ST W E (list A))) (results : list A) (rem_results : Z) : ST W E (list A) :=
  match matchers with
  | [] => mret results
  | m :: matchers =>
      if rem_results =? 0 then mret results
      else
        _ ← check;
        matches ← m rem_results;
        let results := results ++ matches in
        match_loop matchers results (Z.max 0 (rem_results - wrap 32 (Z.of_nat (List.length results))))
  end.
Definition match_with_limit (matchers : list (Z → ST W E (list A))) (max_results : Z) : ST W E (list A) :=
  match_loop matchers [] max_results.
End limit.
(** [match_url]: the first of the matches on origins or URLs. *)
Definition match_url `{!UrlLib} {W E} (check : ST W E unit) (origin_or_url : Z → ST W E (list SearchResult)) : ST W E (option string) :=
  results ← origin_or_url 1;
  _ ← check;
  mret (url_as_str ∘ sr_url <$> head results).

(** ** Characters of UTF-8 *)
(** The bytes of one character, and the character. *)
Record char_enc (e : bytes) (c : Z) : Prop := {
  ce_next r : next_char (e ++ r) = Some (c, r);
  ce_head : ∃ h t, e = h :: t ∧ Utf8.cont h = false ∧ Forall (λ b, Utf8.cont b = true) t ∧
    (if c <? 128 then t = [] ∧ byte h = c else 128 ≤ byte h) ∧ (c = 304 → byte h = 196) ∧ (c = 8490 → byte h = 226);
  ce_nonneg : 0 ≤ c;
}.
Inductive utf8 : bytes → Prop :=
| utf8_nil : utf8 []
| utf8_cons e c r : char_enc e c → utf8 r → utf8 (e ++ r).

Lemma byte_range_of lo hi a : Utf8.byte_in lo hi a = true ↔ Z.of_nat lo ≤ byte a ≤ Z.of_nat hi.
Proof. unfold Utf8.byte_in, byte. rewrite andb_true_iff, !Nat.leb_le. lia. Qed.
Lemma byte_bounds a : 0 ≤ byte a < 256.
Proof. unfold byte. pose proof (nat_ascii_bounded a). lia. Qed.
Lemma low_bits a k : 0 ≤ k → Z.land (byte a) (2 ^ k - 1) = byte a mod 2 ^ k.
Proof. intros Hk. replace (2 ^ k - 1) with (Z.ones k) by (rewrite Z.ones_equiv; lia). by apply Z.land_ones. Qed.
Lemma pack a b k : 0 ≤ k → 0 ≤ b < 2 ^ k → Z.lor (Z.shiftl a k) b = a * 2 ^ k + b.
Proof. intros Hk Hb. rewrite Z.shiftl_mul_pow2 by done. by apply lor_mul_add. Qed.
Lemma not_cont a : byte a < 128 ∨ 192 ≤ byte a → Utf8.cont a = false.
Proof. intros Ha. destruct (Utf8.cont a) eqn:Hc; [|done]. apply byte_range_of in Hc. cbn in Hc. lia. Qed.

Lemma enc1 a : byte a < 128 → char_enc [a] (byte a).
Proof.
  intros Ha. pose proof (byte_bounds a). constructor.
  - intros r. cbn. by rewrite (proj2 (Z.ltb_lt _ _) Ha).
  - exists a, []. rewrite (proj2 (Z.ltb_lt _ _) Ha). split_and!; [done|apply not_cont; lia|done..|intros; lia|intros; lia].
  - lia.
Qed.
Ltac enc_bytes :=
  repeat match goal with
  | H : Utf8.cont ?a = true |- _ => let H' := fresh in pose proof (proj1 (byte_range_of 128 191 a) H) as H'; cbn in H'; revert H
  | H : Utf8.byte_in ?lo ?hi ?a = true |- _ => let H' := fresh in pose proof (proj1 (byte_range_of lo hi a) H) as H'; cbn in H'; clear H
  end; intros.
Lemma enc2 a b : Utf8.byte_in 194 223 a = true → Utf8.cont b = true → char_enc [a; b] ((byte a - 192) * 64 + (byte b - 128)).
Proof.
  intros Ha Hb. enc_bytes. constructor.
  - intros r. cbn. rewrite (proj2 (Z.ltb_ge _ _)) by lia. rewrite (proj2 (Z.ltb_lt _ _)) by lia.
    change 31 with (2 ^ 5 - 1). change 63 with (2 ^ 6 - 1). rewrite !low_bits by lia. rewrite pack by (try lia; apply Z.mod_pos_bound; lia).
    repeat f_equal; Z.div_mod_to_equations; lia.
  - exists a, [b]. rewrite (proj2 (Z.ltb_ge _ 128)) by lia. split_and!; [done|apply not_cont; lia|by repeat constructor|lia..].
  - lia.
Qed.
Lemma enc3 a b d : (Utf8.byte_in 224 224 a = true ∧ Utf8.byte_in 160 191 b = true) ∨ (Utf8.byte_in 225 239 a = true ∧ Utf8.cont b = true) →
  Utf8.cont d = true → char_enc [a; b; d] ((byte a - 224) * 4096 + (byte b - 128) * 64 + (byte d - 128)).
Proof.
  intros Hab Hd. assert (Hb : Utf8.cont b = true ∧ 224 ≤ byte a ≤ 239 ∧ (byte a = 224 → 160 ≤ byte b)).
  { destruct Hab as [[Ha Hb]|[Ha Hb]]; enc_bytes; (split; [apply byte_range_of; cbn; lia|lia]). }
  destruct Hb as (Hb & Ha1 & Ha2). clear Hab. enc_bytes. constructor.
  - intros r. cbn. do 2 rewrite (proj2 (Z.ltb_ge (byte a) _)) by lia. rewrite (proj2 (Z.ltb_lt (byte a) 240)) by lia.
    change 15 with (2 ^ 4 - 1). change 63 with (2 ^ 6 - 1). rewrite !low_bits by lia.
    rewrite (pack _ (byte d mod 2 ^ 6)) by (try lia; apply Z.mod_pos_bound; lia).
    rewrite pack by (try lia; Z.div_mod_to_equations; lia). do 2 f_equal. Z.div_mod_to_equations; lia.
  - exists a, [b; d]. rewrite (proj2 (Z.ltb_ge _ 128)) by lia. split_and!; [done|apply not_cont; lia|by repeat constructor|lia..].
  - lia.
Qed.
Lemma enc4 a b d e : (Utf8.byte_in 240 240 a = true ∧ Utf8.byte_in 144 191 b = true) ∨ (Utf8.byte_in 241 244 a = true ∧ Utf8.cont b = true) →
  Utf8.cont d = true → Utf8.cont e = true →
  char_enc [a; b; d; e] ((byte a - 240) * 262144 + (byte b - 128) * 4096 + (byte d - 128) * 64 + (byte e - 128)).
Proof.
  intros Hab Hd He. assert (Hb : Utf8.cont b = true ∧ 240 ≤ byte a ≤ 244 ∧ (byte a = 240 → 144 ≤ byte b)).
  { destruct Hab as [[Ha Hb]|[Ha Hb]]; enc_bytes; (split; [apply byte_range_of; cbn; lia|lia]). }
  destruct Hb as (Hb & Ha1 & Ha2). clear Hab. enc_bytes. constructor.
  - intros r. cbn. do 3 rewrite (proj2 (Z.ltb_ge (byte a) _)) by lia.
    change 7 with (2 ^ 3 - 1). change 63 with (2 ^ 6 - 1). rewrite !low_bits by lia.
    rewrite (pack _ (byte d mod 2 ^ 6)) by (try lia; apply Z.mod_pos_bound; lia).
    rewrite (pack _ (byte e mod 2 ^ 6)) by (try lia; apply Z.mod_pos_bound; lia).
    rewrite pack by (try lia; Z.div_mod_to_equations; lia). do 2 f_equal. Z.div_mod_to_equations; lia.
  - exists a, [b; d; e]. rewrite (proj2 (Z.ltb_ge _ 128)) by lia. split_and!; [done|apply not_cont; lia|by repeat constructor|lia..].
  - lia.
Qed.

Lemma valid_utf8 fuel b : Utf8.valid fuel b = true → utf8 b.
Proof.
  revert b. induction fuel as [|fuel IH]; intros b; [done|]. cbn [Utf8.valid]. destruct b as [|b1 r1]; [constructor|].
  destruct (Utf8.byte_in 0 127 b1) eqn:H1.
  { intros Hr. apply byte_range_of in H1. apply (utf8_cons [b1] (byte b1) r1); [apply enc1; cbn in H1; lia|by apply IH]. }
  destruct r1 as [|b2 r2]; [done|].
  destruct (Utf8.byte_in 194 223 b1 && Utf8.cont b2) eqn:H2.
  { intros Hr. apply andb_true_iff in H2 as [Ha Hb]. by apply (utf8_cons [b1; b2] _ r2 (enc2 _ _ Ha Hb)), IH. }
  destruct r2 as [|b3 r3]; [done|].
  match goal with |- (if ?x then _ else _) = true → _ => destruct x eqn:H3 end.
  { intros Hr. apply andb_true_iff in H3 as [H3 Hc]. refine (utf8_cons [b1; b2; b3] _ r3 (enc3 _ _ _ _ Hc) (IH _ Hr)).
    rewrite !orb_true_iff, !andb_true_iff, !byte_range_of in H3. unfold Utf8.cont in *. rewrite !byte_range_of in *. cbn in *. lia. }
  destruct r3 as [|b4 r4]; [done|].
  match goal with |- (if ?x then _ else _) = true → _ => destruct x eqn:H4 end; [|done].
  intros Hr. apply andb_true_iff in H4 as [[H4 Hc]%andb_true_iff Hd]. refine (utf8_cons [b1; b2; b3; b4] _ r4 (enc4 _ _ _ _ _ Hc Hd) (IH _ Hr)).
  rewrite !orb_true_iff, !andb_true_iff, !byte_range_of in H4. unfold Utf8.cont in *. rewrite !byte_range_of in *. cbn in *. lia.
Qed.
Lemma is_utf8_chars b : Utf8.is_utf8 b = true → utf8 b.
Proof. apply valid_utf8. Qed.

Lemma char_enc_cons e c : char_enc e c → ∃ h t, e = h :: t ∧ Utf8.cont h = false.
Proof. intros He. destruct (ce_head _ _ He) as (h & t & -> & Hh & _). eauto. Qed.
Lemma char_enc_inj e c r e' c' r' : char_enc e c → char_enc e' c' → e ++ r = e' ++ r' → e = e' ∧ c = c' ∧ r = r'.
Proof.
  intros He He' Heq. pose proof (ce_next _ _ He r) as Hn. rewrite Heq, (ce_next _ _ He' r') in Hn. injection Hn as -> ->.
  split; [|done]. by apply app_inv_tail in Heq.
Qed.
Lemma utf8_app a b : utf8 a → utf8 b → utf8 (a ++ b).
Proof. induction 1; [done|]. intros Hb. rewrite <-app_assoc. econstructor; eauto. Qed.

(** ** The search finds what there is to find *)
(** Between an ASCII letter and a lower-case one is the inside of a word. *)
Definition inside_word (pre cur : string) : bool :=
  match last (as_bytes pre), head (as_bytes cur) with
  | Some p, Some c => (in_range 65 90 p || in_range 97 122 p) && in_range 97 122 c
  | _, _ => false
  end.
Lemma lower_alpha_byte a : is_ascii_lower_alpha (byte a) = in_range 97 122 a.
Proof. by destruct a as [[] [] [] [] [] [] [] []]. Qed.
Lemma dubious_alpha_byte a : is_ascii_lower_alpha (dubious_to_ascii_lower (byte a)) = in_range 65 90 a || in_range 97 122 a.
Proof. by destruct a as [[] [] [] [] [] [] [] []]. Qed.

Lemma position_Some p b i : position p b = Some i → ∃ pre x post, b = pre ++ x :: post ∧ length pre = i ∧ p x = true ∧ Forall (λ y, p y = false) pre.
Proof.
  revert i. induction b as [|x b IH]; intros i; [done|]. cbn. destruct (p x) eqn:Hx.
  { intros [= <-]. by exists [], x, b. }
  destruct (position p b) as [j|]; [|done]. intros [= <-]. destruct (IH j eq_refl) as (pre & y & post & -> & <- & Hy & Hpre).
  exists (x :: pre), y, post. split_and!; [done..|by constructor].
Qed.
Lemma position_None p b : position p b = None → Forall (λ y, p y = false) b.
Proof.
  induction b as [|x b IH]; cbn; [constructor|]. destruct (p x) eqn:Hx; [done|]. destruct (position p b); [done|].
  intros _. constructor; auto.
Qed.
Lemma position_app p e b : Forall (λ y, p y = false) e → position p (e ++ b) = (λ i, (length e + i)%nat) <$> position p b.
Proof.
  induction 1 as [|x e Hx _ IH]; cbn; [by destruct (position p b)|]. rewrite Hx, IH. by destruct (position p b).
Qed.

Section search.
Context `{!Unicode, !UnicodeLaws} {E : Type}.
Context (token : string) (only_boundary : bool) (tf : Z).

(** The test of [next_search_candidate]. *)
Definition candidate (cur : ascii) : bool :=
  if tf <? 128 then
    let target := dubious_to_ascii_lower tf in
    (dubious_to_ascii_lower (byte cur) =? target) || (byte cur =? if target =? 105 then 196 else if target =? 107 then 226 else 255)
  else negb (Z.land (byte cur) 128 =? 0).
Lemma next_search_candidate_position s : next_search_candidate s tf = position candidate (as_bytes s).
Proof. unfold next_search_candidate, candidate. by destruct (tf <? 128). Qed.

Lemma high_bit a : negb (Z.land (byte a) 128 =? 0) = (128 <=? byte a).
Proof. by destruct a as [[] [] [] [] [] [] [] []]. Qed.
Lemma cont_not_ascii_candidate a c : Utf8.cont a = true → 0 ≤ c < 128 → dubious_to_ascii_lower (byte a) ≠ dubious_to_ascii_lower c.
Proof.
  intros Ha%byte_range_of Hc Heq. cbn in Ha. apply (f_equal (λ x, Z.testbit x 7)) in Heq. unfold dubious_to_ascii_lower in Heq.
  rewrite !Z.lor_spec in Heq. change (Z.testbit 32 7) with false in Heq. rewrite !orb_false_r in Heq.
  rewrite (Z.testbit_eqb (byte a)), (Z.testbit_eqb c) in Heq by lia. change (2 ^ 7) with 128 in Heq.
  replace (byte a / 128) with 1 in Heq by (Z.div_mod_to_equations; lia). replace (c / 128) with 0 in Heq by (Z.div_mod_to_equations; lia). done.
Qed.
Lemma ascii_lower_candidate c d : 0 ≤ c < 128 → to_lowercase c = d → dubious_to_ascii_lower c = dubious_to_ascii_lower d.
Proof.
  intros Hc <-. rewrite lower_ascii by done.
  assert (Hall : Forall (λ n, let c := Z.of_nat n in
    dubious_to_ascii_lower c = dubious_to_ascii_lower (if (65 <=? c) && (c <=? 90) then c + 32 else c)) (seq 0 128)).
  { by repeat constructor. }
  pose proof (proj1 (Forall_forall _ _) Hall (Z.to_nat c)) as Hx. cbv beta zeta in Hx. rewrite Z2Nat.id in Hx by lia.
  apply Hx, elem_of_seq. lia.
Qed.

Context (Htf : 0 ≤ tf).
(** A character whose lower case is the one that is looked for begins with a candidate, and one
    that does not begin with a candidate has none. *)
Lemma candidate_found h t c : char_enc (h :: t) c → to_lowercase c = tf → candidate h = true.
Proof.
  intros He Hc. destruct (ce_head _ _ He) as (h' & t' & [= <- <-] & _ & _ & Hascii & H304 & H8490). pose proof (ce_nonneg _ _ He).
  unfold candidate. destruct (Z.ltb_spec c 128) as [Hlt|Hge].
  - destruct Hascii as [_ Hh]. destruct (Z.ltb_spec tf 128) as [|Htf'].
    + rewrite Hh, (ascii_lower_candidate c tf) by (lia || done). by rewrite Z.eqb_refl.
    + rewrite lower_ascii in Hc by lia. destruct ((65 <=? c) && (c <=? 90)) eqn:Hr; [apply andb_true_iff in Hr as [_ ?%Z.leb_le]|]; lia.
  - destruct (Z.ltb_spec tf 128) as [Htf'|].
    + destruct (lower_to_ascii c Hge) as [[-> Hl]|[-> Hl]]; [lia| |]; rewrite Hl in Hc; subst tf.
      * rewrite H304 by done. by rewrite orb_true_r.
      * rewrite H8490 by done. by rewrite orb_true_r.
    + rewrite high_bit. by apply Z.leb_le.
Qed.
Lemma candidate_leads h t c : char_enc (h :: t) c → candidate h = false → Forall (λ y, candidate y = false) (h :: t).
Proof.
  intros He Hh. constructor; [done|]. destruct (ce_head _ _ He) as (h' & t' & [= <- <-] & _ & Ht & Hascii & _).
  unfold candidate in *. destruct (Z.ltb_spec tf 128) as [Htf'|].
  - eapply Forall_impl; [exact Ht|]. intros y Hy. apply orb_false_iff. split.
    + apply Z.eqb_neq, cont_not_ascii_candidate; [done|lia].
    + apply Z.eqb_neq. apply byte_range_of in Hy. cbn in Hy. repeat case_match; lia.
  - rewrite high_bit in Hh. apply Z.leb_gt in Hh. destruct (Z.ltb_spec c 128); [by destruct Hascii as [-> _]|lia].
Qed.

Abbreviation str := string_of_list_ascii.
Lemma as_bytes_str b : as_bytes (str b) = b.
Proof. apply list_ascii_of_string_of_list_ascii. Qed.
Lemma len_str_str b : len_str (str b) = length b.
Proof. unfold len_str. by rewrite as_bytes_str. Qed.

(** A hit at a place, and at some place of the text that is left. *)
Definition hit_here (pre cur : bytes) (c : Z) : Prop :=
  to_lowercase c = tf ∧ (only_boundary = true → inside_word (str pre) (str cur) = false) ∧ string_match token (str cur) = true.
Inductive found (pre : bytes) : bytes → Prop :=
| found_here e c r : char_enc e c → utf8 r → hit_here pre (e ++ r) c → found pre (e ++ r)
| found_later e c r : char_enc e c → found (pre ++ e) r → found pre (e ++ r).

Lemma found_cons pre e c r : char_enc e c → utf8 r → found pre (e ++ r) ↔ hit_here pre (e ++ r) c ∨ found (pre ++ e) r.
Proof.
  intros He Hr. split; [|intros [Hh|Hl]; [by econstructor|by eapply found_later]].
  inversion 1 as [e' c' r' He' Hr' Hh Heq|e' c' r' He' Hl Heq]; destruct (char_enc_inj _ _ _ _ _ _ He' He Heq) as (-> & -> & ->); auto.
Qed.
Lemma found_nil pre : ¬ found pre [].
Proof.
  inversion 1 as [e c r He _ _ Heq|e c r He _ Heq]; destruct (char_enc_cons _ _ He) as (h & t & -> & _); discriminate Heq.
Qed.
Lemma found_iff pre b : utf8 b → found pre b ↔
  ∃ p e c r, b = p ++ e ++ r ∧ utf8 p ∧ char_enc e c ∧ utf8 r ∧ hit_here (pre ++ p) (e ++ r) c.
Proof.
  intros Hb. split.
  - revert pre. induction Hb as [|e c r He Hr IH]; intros pre; [by intros ?%found_nil|].
    rewrite (found_cons _ e c r) by done. intros [Hh|(p & e' & c' & r' & -> & Hp & He' & Hr' & Hh)%IH].
    + exists [], e, c, r. rewrite app_nil_r. split_and!; [done|constructor|done..].
    + exists (e ++ p), e', c', r'. rewrite <-!app_assoc in *. split_and!; [done|by econstructor|done..].
  - intros (p & e & c & r & -> & Hp & He & Hr & Hh). clear Hb. revert pre Hh. induction Hp as [|e1 c1 r1 He1 _ IH]; intros pre Hh.
    + rewrite app_nil_r in Hh. by apply (found_here _ e c r).
    + rewrite <-app_assoc. eapply found_later; [done|]. apply IH. by rewrite <-app_assoc.
Qed.

(** Skipping to the next candidate passes no hit, and ends at a character. *)
Lemma candidate_skips b : utf8 b →
  match position candidate b with
  | None => ∀ pre, ¬ found pre b
  | Some i => ∃ p cur, b = p ++ cur ∧ length p = i ∧ utf8 p ∧ utf8 cur ∧ cur ≠ [] ∧ ∀ pre, found pre b ↔ found (pre ++ p) cur
  end.
Proof.
  induction 1 as [|e c r He Hr IH]; [intros pre; apply found_nil|].
  destruct (char_enc_cons _ _ He) as (h & t & -> & _). destruct (candidate h) eqn:Hh.
  - assert (Hpos : position candidate ((h :: t) ++ r) = Some 0%nat) by (cbn [app position]; by rewrite Hh). rewrite Hpos.
    exists [], ((h :: t) ++ r). split_and!; [done|done|constructor|by econstructor|done|]. intros pre. by rewrite app_nil_r.
  - assert (Hno : ∀ pre, ¬ hit_here pre ((h :: t) ++ r) c).
    { intros pre (Hc & _). by rewrite (candidate_found h t c He Hc) in Hh. }
    rewrite position_app by (by eapply candidate_leads). destruct (position candidate r) as [i|]; cbn [fmap option_fmap option_map].
    + destruct IH as (p & cur & -> & <- & Hp & Hcur & Hne & Hf). exists ((h :: t) ++ p), cur.
      split_and!; [by rewrite <-app_assoc|by rewrite length_app|by econstructor|done..|]. intros pre.
      rewrite (found_cons _ (h :: t) c) by done. rewrite Hf, <-app_assoc. naive_solver.
    + intros pre. rewrite (found_cons _ (h :: t) c) by done. naive_solver.
Qed.

Lemma boundary_at pre cur : utf8 cur → is_char_boundary (str (pre ++ cur)) (length pre) = true.
Proof.
  intros Hcur. unfold is_char_boundary. rewrite len_str_str, length_app. destruct Hcur as [|e c r He _].
  { cbn. by rewrite Nat.add_0_r, Nat.eqb_refl, orb_true_r. }
  destruct (_ || _); [done|]. destruct (char_enc_cons _ _ He) as (h & t & -> & Hh).
  rewrite as_bytes_str, lookup_app_r, Nat.sub_diag by done. cbn. by rewrite Hh.
Qed.
Lemma slice_at pre cur : utf8 cur → slice_from (E:=E) (str (pre ++ cur)) (length pre) = Ok (str cur).
Proof. intros Hcur. unfold slice_from, str_drop. rewrite boundary_at by done. by rewrite as_bytes_str, drop_app_length. Qed.
Lemma is_on_boundary_spec pre h t : is_on_boundary (E:=E) (str (pre ++ h :: t)) (length pre) = Ok (negb (inside_word (str pre) (str (h :: t)))).
Proof.
  unfold is_on_boundary, inside_word, byte_at. rewrite !as_bytes_str. destruct (Nat.eqb_spec (length pre) 0) as [Hz|Hz].
  { by destruct pre. }
  destruct (last pre) as [p|] eqn:Hlast; [|apply last_None in Hlast; by subst]. apply last_Some in Hlast as [l ->].
  rewrite (list_lookup_middle (l ++ [p]) t h _ eq_refl), res_bind_ok, lower_alpha_byte.
  destruct (in_range 97 122 h) eqn:Hh; [|cbn; by rewrite Hh, andb_false_r].
  rewrite <-app_assoc. cbn [app]. rewrite (list_lookup_middle l (h :: t) p) by (rewrite length_app; cbn; lia).
  rewrite res_bind_ok, dubious_alpha_byte. cbn. by rewrite Hh, andb_true_r.
Qed.

(** The loop from a character on. *)
Lemma find_loop_spec fuel pre rest : utf8 rest → (length rest < fuel)%nat →
  ∃ b, find_loop (E:=E) fuel token (str (pre ++ rest)) only_boundary tf (length pre) = Some (Ok b) ∧ (b = true ↔ found pre rest).
Proof.
  revert pre rest. induction fuel as [|fuel IH]; intros pre rest Hrest Hfuel; [lia|]. cbn [find_loop].
  rewrite slice_at, next_search_candidate_position, as_bytes_str by done. pose proof (candidate_skips rest Hrest) as Hskip.
  destruct (position candidate rest) as [i|]; [|exists false; split; [done|]; naive_solver].
  destruct Hskip as (p & cur & -> & <- & Hp & Hcur & Hne & Hf). rewrite len_str_str, !length_app.
  destruct Hcur as [|e c r He Hr]; [done|]. destruct (char_enc_cons _ _ He) as (h & t & -> & _).
  match goal with |- context [Nat.leb ?a ?b] => destruct (Nat.leb_spec a b) as [Hle|_]; [cbn in Hle; lia|] end.
  replace (length pre + length p)%nat with (length (pre ++ p)) by (by rewrite length_app). rewrite app_assoc, slice_at by (by econstructor). rewrite !res_bind_ok.
  unfold next_codepoint_lower. rewrite as_bytes_str, (ce_next _ _ He r), res_bind_ok.
  rewrite len_str_str, length_app, Nat.add_sub.
  specialize (Hf pre). rewrite (found_cons _ (h :: t) c r) in Hf by done.
  destruct (Z.eqb_spec (to_lowercase c) tf) as [Hc|Hc].
  - assert (Hon : (if only_boundary then is_on_boundary (str ((pre ++ p) ++ (h :: t) ++ r)) (length (pre ++ p)) else Ok true) =
      Ok (E:=E) (negb only_boundary || negb (inside_word (str (pre ++ p)) (str ((h :: t) ++ r))))).
    { destruct only_boundary; [|done]. apply is_on_boundary_spec. }
    rewrite Hon, !res_bind_ok.
    destruct ((negb only_boundary || _) && _) eqn:Hhit.
    + exists true. split; [done|]. rewrite Hf. split; [intros _; left|done]. apply andb_true_iff in Hhit as [Hb Hm]. split_and!; [done| |done].
      intros Hob. rewrite Hob in Hb. by apply negb_true_iff in Hb.
    + replace (length (pre ++ p) + length (h :: t))%nat with (length ((pre ++ p) ++ h :: t)) by (by rewrite !length_app).
      rewrite (app_assoc (pre ++ p)). destruct (IH ((pre ++ p) ++ h :: t) r Hr) as (b & -> & Hb); [rewrite !length_app in Hfuel; cbn in Hfuel; lia|].
      exists b. split; [done|]. rewrite Hb, Hf. split; [by right|]. intros [(_ & Hw & Hm)|?]; [|done]. rewrite Hm, andb_true_r in Hhit.
      destruct only_boundary; [|done]. by rewrite Hw in Hhit.
  - rewrite res_bind_ok. replace (length (pre ++ p) + length (h :: t))%nat with (length ((pre ++ p) ++ h :: t)) by (by rewrite !length_app).
    rewrite (app_assoc (pre ++ p)). destruct (IH ((pre ++ p) ++ h :: t) r Hr) as (b & -> & Hb); [rewrite !length_app in Hfuel; cbn in Hfuel; lia|].
    exists b. split; [done|]. rewrite Hb, Hf. split; [by right|]. by intros [(? & _)|?].
Qed.
End search.

Lemma str_of_bytes s : string_of_list_ascii (as_bytes s) = s.
Proof. apply string_of_list_ascii_of_string. Qed.
Lemma bytes_of_str_inj a b : as_bytes a = as_bytes b → a = b.
Proof. intros Hab. by rewrite <-(str_of_bytes a), Hab, str_of_bytes. Qed.
Lemma head_chars e c r : char_enc e c → head (chars (string_of_list_ascii (e ++ r))) = Some c.
Proof.
  intros He. destruct (char_enc_cons _ _ He) as (h & t & -> & _). unfold chars. rewrite as_bytes_str. cbn [app string_of_list_ascii String.length chars_from].
  by rewrite (ce_next _ _ He r : next_char (h :: t ++ r) = _).
Qed.
Lemma next_char_lower `{!Unicode, !UnicodeLaws} s : s ≠ ""%string → utf8 (as_bytes s) →
  ∃ c r, next_char (as_bytes s) = Some (c, r) ∧ head (chars s) = Some c.
Proof.
  intros Hne Hs. unfold chars. destruct s as [|a s]; [done|]. cbn [String.length chars_from].
  inversion Hs as [|e c r He Hr Heq]. change (as_bytes (String a s)) with (a :: as_bytes s). rewrite <-Heq, (ce_next _ _ He r). eauto.
Qed.

Lemma folded_prefix_spec a b : folded_prefix a b = true ↔ a `prefix_of` b.
Proof.
  revert b. induction a as [|x a IH]; intros b; cbn; [split; [intros _; apply prefix_nil|done]|].
  destruct b as [|y b]; [split; [done|intros Hp; by apply prefix_nil_not in Hp]|]. rewrite andb_true_iff, Z.eqb_eq, IH. split.
  - intros [-> Hp]. by apply prefix_cons.
  - intros Hp. split; [by apply prefix_cons_inv_1 in Hp|by apply prefix_cons_inv_2 in Hp].
Qed.
Lemma string_match_spec `{!Unicode} token source :
  string_match token source = true ↔ (len_str token ≤ len_str source)%nat ∧ case_fold token `prefix_of` case_fold source.
Proof.
  unfold string_match. rewrite <-folded_prefix_spec. destruct (Nat.ltb_spec (len_str source) (len_str token)); [|naive_solver].
  split; [done|]. intros [? _]. lia.
Qed.

(** C23: the fast search through UTF-8 text is right, and does not panic: whatever the text, it
    answers yes exactly if at some character of the text, which does not follow a letter of the
    same word if only boundaries count, the rest of the text has a first character with the same
    lower case as that of the token, has at least as many bytes as the token, and begins with the token when both are
    case-folded.  The condition on the bytes is the code's own: a place where
    fewer bytes are left is no match even if the folded texts agree there (see
    [shorter_source_is_no_match] and [shorter_source_is_not_found]). *)
Theorem find_in_string_correct `{!Unicode, !UnicodeLaws} {E} (token src : string) (only_boundary : bool) :
  token ≠ ""%string → Utf8.is_utf8 (as_bytes token) = true → Utf8.is_utf8 (as_bytes src) = true →
  ∃ b, find_in_string (E:=E) token src only_boundary = Ok b ∧
    (b = true ↔ ∃ pre cur, src = pre +:+ cur ∧ utf8 (as_bytes pre) ∧ utf8 (as_bytes cur) ∧
       to_lowercase <$> head (chars cur) = to_lowercase <$> head (chars token) ∧ cur ≠ ""%string ∧
       (only_boundary = true → inside_word pre cur = false) ∧
       (len_str token ≤ len_str cur)%nat ∧ case_fold token `prefix_of` case_fold cur).
Proof.
  intros Hne Htok%is_utf8_chars Hsrc%is_utf8_chars. unfold find_in_string.
  rewrite (proj2 (String.eqb_neq _ _) Hne). cbn [negb rassert]. rewrite res_bind_ok.
  destruct (Nat.ltb_spec (len_str src) (len_str token)) as [Hlt|Hge].
  { exists false. split; [done|]. split; [done|]. intros (pre & cur & -> & _ & _ & _ & _ & _ & Hle & _). exfalso. unfold len_str in *.
    rewrite as_bytes_app, length_app in Hlt. lia. }
  destruct (next_char_lower token Hne Htok) as (c0 & r0 & Hn0 & Hh0). unfold next_codepoint_lower. rewrite Hn0, res_bind_ok, Hh0.
  assert (Hc0 : 0 ≤ c0).
  { destruct Htok as [|e c r He Hr]; [done|]. rewrite (ce_next _ _ He r) in Hn0. injection Hn0 as <- <-. apply (ce_nonneg _ _ He). }
  destruct (find_loop_spec (E:=E) token only_boundary (to_lowercase c0) (lower_char _ Hc0) (S (len_str src)) [] (as_bytes src) Hsrc) as (b & Hrun & Hb);
    [unfold len_str; lia|]. cbn [app length] in Hrun. replace (string_of_list_ascii (as_bytes src)) with src in Hrun
    by (symmetry; apply string_of_list_ascii_of_string). rewrite Hrun. exists b. split; [done|]. rewrite Hb, found_iff by done.
  split.
  - intros (p & e & c & r & Heq & Hp & He & Hr & Hc & Hw & Hm). exists (string_of_list_ascii p), (string_of_list_ascii (e ++ r)).
    rewrite !as_bytes_str, (head_chars e c r He). split_and!; [|done|by econstructor|cbn; by rewrite Hc| |done|by apply string_match_spec..].
    + apply bytes_of_str_inj. by rewrite as_bytes_app, !as_bytes_str.
    + destruct (char_enc_cons _ _ He) as (h & t & -> & _). done.
  - intros (pre & cur & -> & Hp & Hcur & Hl & Hcne & Hw & Hm%string_match_spec). rewrite as_bytes_app. remember (as_bytes cur) as bs eqn:Hbs.
    destruct Hcur as [|e c r He Hr].
    { destruct cur; [done|discriminate Hbs]. }
    assert (cur = string_of_list_ascii (e ++ r)) as -> by (apply bytes_of_str_inj; by rewrite as_bytes_str).
    rewrite (head_chars e c r He) in Hl. injection Hl as Hl. exists (as_bytes pre), e, c, r. split_and!; [done..|].
    unfold hit_here. cbn [app]. by rewrite str_of_bytes.
Qed.

(** ** The limit on the results *)
Section limit_theorems.
Context {W E A : Type} (check : ST W E unit).

(** There are at most as many results as were asked for, if each matcher respects its limit. *)
Lemma match_loop_bounded matchers results rem max w r w' :
  Forall (λ m, ∀ n w l w', 0 < n → m n w = (Ok l, w') → Z.of_nat (length l) ≤ n) matchers → max < 2 ^ 32 →
  0 ≤ rem → Z.of_nat (length results) + rem ≤ max → match_loop (A:=A) check matchers results rem w = (Ok r, w') →
  Z.of_nat (length r) ≤ max.
Proof.
  intros Hm Hmax. revert results rem w. induction Hm as [|m matchers Hm _ IH]; intros results rem w Hrem Hsum; cbn.
  { intros [= <- _]. lia. }
  destruct (Z.eqb_spec rem 0); [intros [= <- _]; lia|]. unfold mbind, ST_bind. destruct (check w) as [[u|e|m'] w1]; [|done..].
  destruct (m rem w1) as [[l|e|m'] w2] eqn:Hl; [|done..]. apply Hm in Hl; [|lia]. rewrite length_app.
  assert (Hw : wrap 32 (Z.of_nat (length results + length l)) = Z.of_nat (length results + length l)) by (apply Z.mod_small; lia).
  apply IH; rewrite Hw, ?length_app; lia.
Qed.
Theorem match_with_limit_bounded matchers max w r w' :
  Forall (λ m, ∀ n w l w', 0 < n → m n w = (Ok l, w') → Z.of_nat (length l) ≤ n) matchers → 0 ≤ max < 2 ^ 32 →
  match_with_limit (A:=A) check matchers max w = (Ok r, w') → Z.of_nat (length r) ≤ max.
Proof. intros Hm Hmax. eapply match_loop_bounded; [done|lia|lia|cbn; lia]. Qed.
End limit_theorems.

Module ToyMatcher.
(** Lower case and folding for ASCII and a few other characters. *)
Definition lower (c : Z) : Z :=
  if (65 <=? c) && (c <=? 90) then c + 32 else if c =? 304 then 105 else if c =? 8490 then 107 else c.
#[export] Instance toy_unicode : Unicode := {|
  to_lowercase := lower; default_case_fold := λ c, [if c =? 383 then 115 else lower c]; percent_decode_utf8 := λ _, None |}.
#[export] Instance toy_unicode_laws : UnicodeLaws.
Proof.
  split; cbn; unfold lower.
  - intros c Hc. destruct (_ && _); [done|]. destruct (Z.eqb_spec c 304), (Z.eqb_spec c 8490); lia.
  - intros c Hc. repeat case_match; lia.
  - intros c Hc. destruct ((65 <=? c) && (c <=? 90)) eqn:Hr; [apply andb_true_iff in Hr as [_ ?%Z.leb_le]; lia|].
    destruct (Z.eqb_spec c 304), (Z.eqb_spec c 8490); lia.
Qed.
(** In UTF-8: a long s, and the sign of Kelvin. *)
Definition long_s : string := string_of_list_ascii (ascii_of_nat <$> [197; 191]%nat).
Definition kelvin : string := string_of_list_ascii (ascii_of_nat <$> [226; 132; 170]%nat).

Lemma find_in_string_correct_witness :
  find_in_string (E:=Empty_set) "kit" ("0 " +:+ kelvin +:+ "IT") true = Ok true ∧
  ∃ b, find_in_string (E:=Empty_set) "kit" ("0 " +:+ kelvin +:+ "IT") false = Ok b ∧
    (b = true ↔ ∃ pre cur, ("0 " +:+ kelvin +:+ "IT")%string = pre +:+ cur ∧ utf8 (as_bytes pre) ∧ utf8 (as_bytes cur) ∧
       to_lowercase <$> head (chars cur) = Some 107 ∧ cur ≠ ""%string ∧ (false = true → inside_word pre cur = false) ∧
       (3 ≤ len_str cur)%nat ∧ case_fold "kit" `prefix_of` case_fold cur).
Proof.
  split; [vm_compute; reflexivity|].
  exact (find_in_string_correct (E:=Empty_set) "kit" ("0 " +:+ kelvin +:+ "IT") false ltac:(discriminate) eq_refl eq_refl).
Defined.

(** Case is not ignored if the source has fewer bytes: a long s folds to s. *)
Theorem shorter_source_is_no_match :
  case_fold long_s = case_fold "s" ∧ string_match long_s "s" = false ∧ string_match "s" long_s = true.
Proof. vm_compute. split_and!; reflexivity. Qed.

(** The same for the whole search: the KELVIN SIGN folds to k, and is not found in it. *)
Theorem shorter_source_is_not_found :
  case_fold kelvin = case_fold "k" ∧ find_in_string (E:=Empty_set) kelvin "k" false = Ok false.
Proof. vm_compute. split; reflexivity. Qed.

(** Matchers that give as many results as they may. *)
Definition plenty (n : Z) : ST unit Empty_set (list nat) := λ w, (Ok (repeat 0%nat (Z.to_nat n)), w).
Definition one (n : Z) : ST unit Empty_set (list nat) := λ w, (Ok [0%nat], w).
Lemma match_with_limit_bounded_witness : ∃ r, match_with_limit (mret tt) [one; plenty] 3 tt = (Ok r, tt) ∧ Z.of_nat (length r) ≤ 3.
Proof.
  eexists. split; [reflexivity|].
  apply (match_with_limit_bounded (W:=unit) (E:=Empty_set) (mret tt) [one; plenty] 3 tt _ tt); [|lia|reflexivity].
  repeat constructor; intros n w l w' Hn [= <- _]; cbn; [lia|]. rewrite repeat_length. lia.
Defined.
(** The results are counted again for each matcher: the third matcher may give one, and not two. *)
Theorem fewer_results_than_asked_for :
  length <$> fst (match_with_limit (mret tt) [one; one; plenty] 4 tt) = Ok 3%nat.
Proof. vm_compute. reflexivity. Qed.
End ToyMatcher.
